(* ===== verification/_CoqProject ===== *)
-Q . S2P
Prelude.v
Neon.v
Counter.v
Blake2s.v
ChaCha20.v
Poly1305.v
Monocypher.v
Blake2b.v
Argon2.v
Argon2Memory.v
Scalar.v
Prime25519.v
Field25519.v
Curve25519.v
Edwards.v
Extended.v
Montgomery.v
Agreement.v
Ge.v
BasePoint.v
Comb.v
Dirty.v
Window.v
Eddsa.v
Aead.v
Elligator.v
Inverse.v
Crypto.v
RecvPool.v
Base64.v
Ring.v
Thread.v
Tunnel.v
Platform.v
Noise.v
Cookie.v
Wireguard.v
Interleave.v
Expiry.v
Netif.v
Relay.v
Tester.v
LwipRelay.v
Wakeup.v
System.v
