(* ===== verification/Prelude.v ===== *)
(** * A verification library for wg-nx

    wg-nx is a WireGuard client in C for the Nintendo Switch.  This library models
    its C sources as executable functions and proves what makes them correct, and
    in some places what they get wrong.

    ** The program and its models

    The parts build on each other from the cipher primitives up to the running
    tunnel.  Paths are relative to the root of the repository.

    - [Prelude]: machine integers with their wrap-around, byte buffers, shared
      lemmas and tactics.  [Neon]: the NEON intrinsics the code uses, as functions
      on lanes.  A build with or without NEON is an instance of [NeonBuild].
    - [Counter] (src/wg_counter.c): the replay window.
    - [Blake2s] (library/crypto/blake2s.c, src/blake2s_neon.c), [ChaCha20] and the
      tag code (src/wg_chacha20_neon.c), [Poly1305] (src/wg_poly1305_neon.c),
      [Monocypher] (library/crypto/monocypher.c: the ciphers used without NEON),
      [Aead] (transport encryption of both builds), [Crypto] (src/wg_crypto.c:
      hash, MAC, HKDF, timestamps).
    - [Prime25519]: 2^255 - 19 is prime.  [Field25519], [Curve25519]
      (library/crypto/monocypher.c): arithmetic on ten signed limbs, square roots
      and inverses, the Montgomery ladder of [crypto_x25519].  [Edwards]: the group of
      a twisted Edwards curve over any field.  [Agreement]: the ladder multiplies
      points of it.
    - Signatures of library/crypto/monocypher.c: [Blake2b] and [Scalar] (BLAKE2b, arithmetic
      modulo the order of the base point), [Extended] (extended coordinates over any
      field), [Ge] (points on limbs, their encoding), [BasePoint] (the tables and the order
      of the base point), [Comb] and [Window] (multiplication by signed combs and by
      sliding windows, the verification equation), [Eddsa] (keys, signing, checking).
    - The rest of the key exchange of library/crypto/monocypher.c: [Dirty] (public keys with
      a component of low order), [Montgomery] (the maps of Elligator 2 over any field),
      [Elligator] (the maps on bytes, hidden key pairs) and [Inverse] (division of a point by
      a secret, for which the order of the base point is proved prime).
    - [Argon2], [Argon2Memory] (library/crypto/monocypher.c): the password hash.  The first has
      the code, the hash of variable length and the compression function, the second the
      memory of RFC 9106 and the loops that fill it.
    - [RecvPool], [Base64] (src/wireguard.c: receive slots, key encoding), [Ring]
      (src/platform_switch.c: the relay ring), [Thread] (src/wg_thread.c).
    - [Tunnel] (src/wg_internal.h): packed messages with their bytes, sessions,
      peers, the tunnel, the peer table.  Records are updated field by field with
      the notation [r <| f := v |>].
    - [Platform] (src/platform_switch.c): the system calls are operations of a
      class over an abstract world that every function takes and returns, so that
      the order of the calls is that of the code.
    - [Noise] (src/wg_noise.c): initiation, responder, completion.  [Cookie]: the cipher
      of cookie replies and what they do.
    - [Wireguard] (src/wireguard.c): creation, sending, [wg_connect], [wg_rekey],
      one iteration of the receive and of the keepalive thread, start, stop, close.
    - [Interleave]: the statements of the calls that use the sending half of a session,
      interleaved in any order around [send_mutex].  [Expiry]: the end of a passive
      handshake and the expiry test of the keepalive thread, statement by statement.
    - [Netif] (lwip-relay/src/wg_netif.c), [Relay] (src/wg_relay.c): the clients.
    - [LwipRelay] (lwip-relay/src/wg_lwip_relay.cpp): the relay of TCP connections and
      UDP ports over lwIP, in a monad over the object, the tunnel and the world, where
      an access to a freed object is a value.  lwIP is the class [Lwip]; what it calls
      back is a list of events that the handlers process.  [Wakeup]: the receive thread,
      the loop thread and [stop] around the wake socket, as steps made of the pieces of
      these methods.
    - [System]: all operations of a tunnel as steps of one relation, in any order.
    - [Tester] (wg-tester/src/main.cpp): the tests of the repository as functions.

    ** What the theorems show

    - Primitives: the scalar and vector BLAKE2s, ChaCha20 and Poly1305 equal the
      definitions of RFC 7693 and RFC 8439 for any split of the input, BLAKE2b too; transport
      encryption is the AEAD of RFC 8439 in both builds, decryption accepts exactly
      what encryption produces; key derivation is HKDF.
    - Curve: the field operations compute modulo 2^255 - 19 within the bounds of
      their limbs, encodings are canonical, inversion and square roots are right
      (the modulus is proved prime), and [crypto_x25519] is the function of RFC 7748,
      on which two parties agree (the group laws of the curve are proved).
    - Signatures: key generation and signing are those of RFC 8032 with BLAKE2b,
      verification accepts exactly the solutions of its equation, and so every signature
      that was made; keys convert to X25519.
    - Hidden keys: both versions of the dirty keys agree with each other and, under X25519,
      with the clean keys; the inverse of Elligator finds a representative exactly when
      there is one, and a hidden key pair is the first of its stream that has one;
      [crypto_x25519_inverse] undoes [crypto_x25519].
    - Argon2: the code is the function of RFC 9106 for any contents of its memory, and
      refers only to blocks that are filled and that no other lane is writing.
    - Replay window: it refines the set of accepted counters, up to the one word
      where it does not.
    - Handshake and transport: two honest ends agree on paired sessions; what one
      end sends the other delivers; what is delivered is authentic and fresh; no
      nonce is used twice in the datagrams handed to the socket; refusals have no effect; exactly the cookie replies of the
      server are accepted and answered.
    - Threads: under the mutex concurrent sends behave as if made one after the other and
      never share a nonce; three places that work without it, and what goes wrong there; a
      handshake and the expiry test give the peer its session one after the other and
      three kinds of broken state when they overlap.
    - Containers: the slot pool hands out free slots only, the ring is a queue
      within its limits, keys survive base64.
    - System: the peer table keeps its invariant in every state that handlers reach one
      after the other, with iterations of the threads inside the waits.
    - lwIP relay: receive slots are accounted for in every interleaving, packets keep
      their order and no wake-up is lost between [start] and [stop]; where a packet or a
      connection is left behind.
    - Tests: the known answers hold of the model; the tests with random keys and clocks
      pass on every platform.
    - The remaining theorems state, as proved facts about the code, where it
      departs from the protocol or from its comments.

    ** Bounds and fuel

    Loops over buffers recurse on a fuel equal to the length of the input, which
    decreases in every round; the equivalence theorems hold for all inputs, so
    the fuel is always enough.  The waiting loops of [wg_connect] and [wg_rekey]
    recurse on the number of 10 ms rounds, the attempts on
    [WG_MAX_TIMER_HANDSHAKES].  The loop of [crypto_elligator_key_pair] has a fuel of
    rounds and the theorem says when they are enough.  Sequence lengths are bounded by hypotheses only
    where the code's own integers would wrap.

    ** What is assumed and what is not modelled

    libnx, sockets, clocks and the random source are the class [Platform]
    ([PlatformLaws]: random bytes are bytes, of the length asked for).  The
    curve operation of the handshake is the class [X25519] with the laws of RFC 7748,
    of which the code of Monocypher is an instance ([monocypher_x25519_laws]).  In
    [System] a handler runs to its end before the next one begins; only where [wg_connect]
    and [wg_rekey] wait, [other_threads] runs the iterations of the receive and the keepalive
    thread that the scheduler ([scheduled], an operation of [Platform]) picks.
    [Interleave] and [Expiry] have the granularity of a statement, for the sending calls and
    for the peer that both threads write; [Wakeup] has that of a locked region.  What the
    program hands to the outside is observed by running it on a platform that also
    records it ([observed], [logged], [watched]).  Not modelled:
    logging, the wiping of local buffers in Monocypher, the tests of wg-tester that need its demo server and its user
    interface, and lwIP, a submodule without sources here. *)

From Stdlib Require Export ZArith Lia.
From Stdlib Require Import Btauto.
From stdpp Require Export base numbers list list_numbers.

Global Open Scope Z_scope.

(** ** Tactics and hint databases *)

(** [wg_len] rewrites list lengths, [wg_range] proves that a value fits its C
    type, [wg_bits] computes single bits of machine-word expressions. *)
Create HintDb wg_range discriminated.

Ltac zlia := Z.div_mod_to_equations; lia.

(** Case analysis on every integer comparison of the goal. *)
Ltac case_cmp :=
  repeat match goal with
  | |- context [?a <? ?b] => destruct (Z.ltb_spec a b)
  | |- context [?a <=? ?b] => destruct (Z.leb_spec a b)
  | |- context [?a =? ?b] => destruct (Z.eqb_spec a b)
  end.

(** ** Fixed-width unsigned integers

    A C [uintN_t] is an integer in [0, 2^N); every conversion to that type
    reduces modulo [2^N]. *)

Abbreviation bytes := (list Z) (only parsing).

Definition u8 (x : Z) : Z := x mod 256.
Definition u16 (x : Z) : Z := x mod 65536.
Definition u32 (x : Z) : Z := x mod 4294967296.
Definition u64 (x : Z) : Z := x mod 18446744073709551616.

Definition UINT64_MAX : Z := 18446744073709551615.

Definition is_u8 (x : Z) : Prop := 0 <= x < 256.
Definition is_u32 (x : Z) : Prop := 0 <= x < 4294967296.
Definition is_u64 (x : Z) : Prop := 0 <= x < 18446744073709551616.

#[global] Instance is_u8_dec x : Decision (is_u8 x).
Proof. unfold is_u8; apply _. Defined.
#[global] Instance is_u32_dec x : Decision (is_u32 x).
Proof. unfold is_u32; apply _. Defined.
#[global] Instance is_u64_dec x : Decision (is_u64 x).
Proof. unfold is_u64; apply _. Defined.

(** Operators of C on [uint32_t] and [uint64_t] operands. *)
Definition add32 (a b : Z) : Z := u32 (a + b).
Definition sub32 (a b : Z) : Z := u32 (a - b).
Definition mul32 (a b : Z) : Z := u32 (a * b).
Definition shl32 (a n : Z) : Z := u32 (Z.shiftl a n).
Definition shr32 (a n : Z) : Z := Z.shiftr a n.
Definition not32 (a : Z) : Z := 4294967295 - a.
Definition add64 (a b : Z) : Z := u64 (a + b).
Definition sub64 (a b : Z) : Z := u64 (a - b).
Definition mul64 (a b : Z) : Z := u64 (a * b).
Definition shl64 (a n : Z) : Z := u64 (Z.shiftl a n).
Definition shr64 (a n : Z) : Z := Z.shiftr a n.

Lemma u8_range x : is_u8 (u8 x).
Proof. unfold is_u8, u8; zlia. Qed.
Lemma u32_range x : is_u32 (u32 x).
Proof. unfold is_u32, u32; zlia. Qed.
Lemma u64_range x : is_u64 (u64 x).
Proof. unfold is_u64, u64; zlia. Qed.

Lemma u8_small x : is_u8 x -> u8 x = x.
Proof. apply Z.mod_small. Qed.
Lemma u32_small x : is_u32 x -> u32 x = x.
Proof. apply Z.mod_small. Qed.
Lemma u64_small x : is_u64 x -> u64 x = x.
Proof. apply Z.mod_small. Qed.

Lemma add32_range a b : is_u32 (add32 a b).
Proof. apply u32_range. Qed.
Lemma shl32_range a n : is_u32 (shl32 a n).
Proof. apply u32_range. Qed.
Lemma add64_range a b : is_u64 (add64 a b).
Proof. apply u64_range. Qed.
Lemma sub64_range a b : is_u64 (sub64 a b).
Proof. apply u64_range. Qed.

(** A value below [2^n] is exactly one without bits at or above [n]. *)
Lemma pow2_range_bits n x :
  0 <= n -> 0 <= x -> (0 <= x < 2 ^ n <-> forall i, n <= i -> Z.testbit x i = false).
Proof.
  intros Hn Hx; split.
  - intros Hr i Hi. rewrite <- (Z.mod_small x (2 ^ n)) by lia.
    apply Z.mod_pow2_bits_high; lia.
  - intros Hb. split; [lia|].
    rewrite <- (Z.mod_small x (2 ^ Z.max n (Z.log2 x + 1))).
    2: { split; [lia|]. destruct (decide (x = 0)) as [->|].
         - apply Z.pow_pos_nonneg; lia.
         - pose proof (Z.log2_spec x ltac:(lia)).
           apply Z.lt_le_trans with (2 ^ (Z.log2 x + 1)).
           + replace (Z.log2 x + 1) with (Z.succ (Z.log2 x)) by lia; lia.
           + apply Z.pow_le_mono_r; lia. }
    replace (x mod 2 ^ Z.max n (Z.log2 x + 1)) with (x mod 2 ^ n).
    { apply Z.mod_pos_bound, Z.pow_pos_nonneg; lia. }
    apply Z.bits_inj'; intros i Hi.
    destruct (Z.lt_ge_cases i n).
    + rewrite !Z.mod_pow2_bits_low by lia; done.
    + rewrite (Z.mod_pow2_bits_high x n) by lia.
      destruct (Z.lt_ge_cases i (Z.max n (Z.log2 x + 1))).
      * rewrite Z.mod_pow2_bits_low by lia. symmetry; apply Hb; lia.
      * rewrite Z.mod_pow2_bits_high by lia; done.
Qed.

Lemma bitop_u32 (f : Z -> Z -> Z) (g : bool -> bool -> bool) a b :
  (forall i, 0 <= i -> Z.testbit (f a b) i = g (Z.testbit a i) (Z.testbit b i)) ->
  g false false = false -> 0 <= f a b -> is_u32 a -> is_u32 b -> is_u32 (f a b).
Proof.
  unfold is_u32. change 4294967296 with (2 ^ 32). intros Hf Hg Hp Ha Hb.
  apply pow2_range_bits; [lia|lia|]. intros i Hi. rewrite Hf by lia.
  rewrite (proj1 (pow2_range_bits 32 a ltac:(lia) ltac:(lia))) by lia.
  rewrite (proj1 (pow2_range_bits 32 b ltac:(lia) ltac:(lia))) by lia. done.
Qed.

Lemma lxor_u32 a b : is_u32 a -> is_u32 b -> is_u32 (Z.lxor a b).
Proof.
  intros [? ?] [? ?]. apply (bitop_u32 _ xorb); [intros; apply Z.lxor_spec|done| |split..]; try lia.
  apply Z.lxor_nonneg; lia.
Qed.
Lemma lor_u32 a b : is_u32 a -> is_u32 b -> is_u32 (Z.lor a b).
Proof.
  intros [? ?] [? ?]. apply (bitop_u32 _ orb); [intros; apply Z.lor_spec|done| |split..]; try lia.
  apply Z.lor_nonneg; lia.
Qed.
Lemma lor_u64 a b : is_u64 a -> is_u64 b -> is_u64 (Z.lor a b).
Proof.
  unfold is_u64. change 18446744073709551616 with (2 ^ 64). intros Ha Hb.
  assert (0 <= Z.lor a b) by (apply Z.lor_nonneg; lia).
  apply pow2_range_bits; [lia|lia|]. intros i Hi. rewrite Z.lor_spec.
  rewrite (proj1 (pow2_range_bits 64 a ltac:(lia) ltac:(lia))) by lia.
  rewrite (proj1 (pow2_range_bits 64 b ltac:(lia) ltac:(lia))) by lia. done.
Qed.
Lemma shr32_range a n : 0 <= n -> is_u32 a -> is_u32 (shr32 a n).
Proof.
  unfold is_u32, shr32. intros. rewrite Z.shiftr_div_pow2 by lia.
  assert (0 < 2 ^ n) by (apply Z.pow_pos_nonneg; lia).
  split; [apply Z.div_pos; lia|]. apply Z.div_lt_upper_bound; nia.
Qed.

#[export] Hint Resolve u8_range u32_range u64_range add32_range shl32_range
  add64_range sub64_range lxor_u32 lor_u32 : wg_range.
#[export] Hint Extern 2 (is_u32 (shr32 _ _)) => apply shr32_range; [lia|] : wg_range.

Lemma shr32_div x k : 0 <= k -> shr32 x k = x / 2 ^ k.
Proof. intros; apply Z.shiftr_div_pow2; lia. Qed.
Lemma shr64_div x k : 0 <= k -> shr64 x k = x / 2 ^ k.
Proof. intros; apply Z.shiftr_div_pow2; lia. Qed.
Lemma land_u8 b c : is_u8 b -> is_u8 (Z.land b c).
Proof.
  unfold is_u8. intros Hb. assert (0 <= Z.land b c) by (apply Z.land_nonneg; lia).
  apply (pow2_range_bits 8); [lia|lia|]. intros i Hi. rewrite Z.land_spec.
  rewrite (proj1 (pow2_range_bits 8 b ltac:(lia) ltac:(lia))) by lia. done.
Qed.

(** ** Arrays

    A C array is the list of its elements; [rd] reads an element ([0] outside
    the array, which no modelled access reaches) and [wr] writes one. *)

Definition rd (l : list Z) (i : Z) : Z := nth (Z.to_nat i) l 0.
Definition wr (l : list Z) (i v : Z) : list Z := <[Z.to_nat i := v]> l.

Lemma rd_wr_eq l i v : 0 <= i < Z.of_nat (length l) -> rd (wr l i v) i = v.
Proof.
  intros H. unfold rd, wr. apply nth_lookup_Some. rewrite list_lookup_insert_eq by lia. done.
Qed.
Lemma rd_wr_ne l i j v : 0 <= i -> 0 <= j -> i <> j -> rd (wr l i v) j = rd l j.
Proof.
  intros Hi Hj H. unfold rd, wr. rewrite !nth_lookup, list_lookup_insert_ne by lia. done.
Qed.
Lemma length_wr l i v : length (wr l i v) = length l.
Proof. apply length_insert. Qed.
Lemma wr_wr_eq l i x y : wr (wr l i x) i y = wr l i y.
Proof. apply list_insert_insert_eq. Qed.
Lemma wr_wr_ne l i j x y : 0 <= i -> 0 <= j -> i <> j -> wr (wr l i x) j y = wr (wr l j y) i x.
Proof. intros. apply list_insert_insert_ne. lia. Qed.

Lemma rd_replicate n i : rd (replicate n 0) i = 0.
Proof.
  unfold rd. rewrite nth_lookup. destruct (replicate n 0 !! Z.to_nat i) eqn:E; [|done].
  apply lookup_replicate in E as [-> _]. done.
Qed.
Lemma Forall_wr (P : Z -> Prop) l i v : Forall P l -> P v -> Forall P (wr l i v).
Proof. intros. apply Forall_insert; done. Qed.
Lemma Forall_rd (P : Z -> Prop) l i : Forall P l -> P 0 -> P (rd l i).
Proof.
  intros Hl H0. unfold rd. rewrite nth_lookup.
  destruct (l !! _) eqn:E; [|done]. eapply Forall_lookup; done.
Qed.

(** Two loops that go through related states. *)
Lemma fold_left_sim {A B C} (f : A -> C -> A) (g : B -> C -> B) (R : A -> B) (P : A -> Prop) l a :
  (forall a c, P a -> P (f a c) /\ g (R a) c = R (f a c)) ->
  P a -> P (fold_left f l a) /\ fold_left g l (R a) = R (fold_left f l a).
Proof.
  intros Hs. revert a. induction l as [|c l IH]; intros a Ha; [done|]. simpl.
  destruct (Hs a c Ha) as [Hp ->]. by apply IH.
Qed.

(** ** Byte strings *)

Definition is_bytes (l : list Z) : Prop := Forall is_u8 l.

#[global] Instance is_bytes_dec l : Decision (is_bytes l).
Proof. unfold is_bytes; apply _. Defined.

(** The little-endian value of a byte string and the [n] low bytes of a number. *)
Fixpoint le_val (l : list Z) : Z :=
  match l with [] => 0 | b :: l => b + 256 * le_val l end.

Fixpoint le_bytes (n : nat) (x : Z) : list Z :=
  match n with O => [] | S n => x mod 256 :: le_bytes n (x / 256) end.

Lemma length_le_bytes n x : length (le_bytes n x) = n.
Proof. revert x; induction n; intros; simpl; auto. Qed.

Lemma is_bytes_le_bytes n x : is_bytes (le_bytes n x).
Proof.
  revert x; induction n as [|n IH]; intros x; simpl; [constructor|].
  constructor; [unfold is_u8; zlia|apply IH].
Qed.

Lemma le_val_app l1 l2 : le_val (l1 ++ l2) = le_val l1 + 256 ^ Z.of_nat (length l1) * le_val l2.
Proof.
  induction l1 as [|b l IH]; [simpl; lia|]. cbn [app le_val length]. rewrite IH.
  rewrite Nat2Z.inj_succ, Z.pow_succ_r by lia. ring.
Qed.

Lemma le_val_range l : is_bytes l -> 0 <= le_val l < 256 ^ Z.of_nat (length l).
Proof.
  induction 1 as [|b l Hb Hl IH]; [simpl; lia|]. cbn [le_val length].
  rewrite Nat2Z.inj_succ, Z.pow_succ_r by lia. unfold is_u8 in Hb. lia.
Qed.

Lemma le_val_le_bytes n x : le_val (le_bytes n x) = x mod 256 ^ Z.of_nat n.
Proof.
  revert x; induction n as [|n IH]; intros x; [simpl; rewrite Z.mod_1_r; done|].
  cbn [le_bytes le_val]. rewrite IH, Nat2Z.inj_succ, Z.pow_succ_r by lia.
  rewrite Z.rem_mul_r by (try apply Z.pow_nonzero; lia). lia.
Qed.

Lemma le_bytes_le_val l : is_bytes l -> le_bytes (length l) (le_val l) = l.
Proof.
  induction 1 as [|b l Hb Hl IH]; [done|]. cbn [length le_val le_bytes]. unfold is_u8 in Hb.
  f_equal; [zlia|].
  replace ((b + 256 * le_val l) / 256) with (le_val l) by zlia. apply IH.
Qed.

Lemma le_val_inj l1 l2 :
  is_bytes l1 -> is_bytes l2 -> length l1 = length l2 -> le_val l1 = le_val l2 -> l1 = l2.
Proof.
  intros H1 H2 Hl Hv. rewrite <- (le_bytes_le_val l1), <- (le_bytes_le_val l2) by done. congruence.
Qed.

Lemma le_val_replicate0 n : le_val (replicate n 0) = 0.
Proof. induction n; simpl; lia. Qed.

(** Bitwise or of disjoint parts is addition. *)
Lemma lor_shiftl_add a b n : 0 <= n -> 0 <= a < 2 ^ n -> Z.lor a (Z.shiftl b n) = a + b * 2 ^ n.
Proof.
  intros Hn Ha. rewrite <- Z.shiftl_mul_pow2 by lia.
  rewrite <- Z.lxor_lor; [symmetry; apply Z.add_nocarry_lxor|];
    (apply Z.bits_inj'; intros i Hi; rewrite Z.land_spec, Z.bits_0, Z.shiftl_spec by lia;
     destruct (Z.lt_ge_cases i n);
     [rewrite (Z.testbit_neg_r b), andb_false_r by lia; done
     |rewrite (proj1 (pow2_range_bits n a Hn ltac:(lia)) Ha) by lia; done]).
Qed.

(** [memcpy(dst + off, src, len)] *)
Definition copy_at (dst : list Z) (off : Z) (src : list Z) : list Z :=
  take (Z.to_nat off) dst ++ src ++ drop (Z.to_nat off + length src) dst.

Lemma length_copy_at dst off src :
  0 <= off -> (Z.to_nat off + length src <= length dst)%nat ->
  length (copy_at dst off src) = length dst.
Proof. intros. unfold copy_at. rewrite !length_app, length_take, length_drop. lia. Qed.

Lemma take_copy_at dst off src :
  0 <= off -> (Z.to_nat off <= length dst)%nat ->
  take (Z.to_nat off + length src) (copy_at dst off src) = take (Z.to_nat off) dst ++ src.
Proof.
  intros. unfold copy_at. rewrite app_assoc, take_app_length'; [done|].
  rewrite length_app, length_take. lia.
Qed.

Lemma rd_app_l l1 l2 i : 0 <= i < Z.of_nat (length l1) -> rd (l1 ++ l2) i = rd l1 i.
Proof. intros. unfold rd. rewrite app_nth1 by lia. done. Qed.
Lemma rd_drop l n i : 0 <= i -> rd (drop n l) i = rd l (i + Z.of_nat n).
Proof.
  intros. unfold rd. rewrite !nth_lookup, lookup_drop.
  replace (Z.to_nat (i + Z.of_nat n)) with (n + Z.to_nat i)%nat by lia. done.
Qed.
Lemma rd_take l n i : 0 <= i < Z.of_nat n -> rd (take n l) i = rd l i.
Proof. intros. unfold rd. rewrite !nth_lookup, lookup_take_lt by lia. done. Qed.

(** Splits a list of known length into its elements. *)
Ltac destruct_list l :=
  let x := fresh "x" in
  destruct l as [|x l]; [try discriminate; try (simpl in *; lia)|];
  try (destruct l; [|simpl in *; discriminate || lia]).

(** ** Little-endian loads and stores

    The [load32_le]/[store32_le] helpers that src/wg_chacha20_neon.c,
    src/wg_poly1305_neon.c, src/blake2s_neon.c and library/crypto/blake2s.c
    each define with the same body. *)

Definition load32_le (p : list Z) (o : Z) : Z :=
  Z.lor (Z.lor (Z.lor (rd p o) (shl32 (rd p (o + 1)) 8))
               (shl32 (rd p (o + 2)) 16))
        (shl32 (rd p (o + 3)) 24).

Definition store32_le (v : Z) : list Z :=
  [u8 v; u8 (shr32 v 8); u8 (shr32 v 16); u8 (shr32 v 24)].

Definition store64_le (v : Z) : list Z :=
  [u8 v; u8 (shr64 v 8); u8 (shr64 v 16); u8 (shr64 v 24);
   u8 (shr64 v 32); u8 (shr64 v 40); u8 (shr64 v 48); u8 (shr64 v 56)].

Lemma shiftr_div8 v k : 0 <= k -> Z.shiftr v k = v / 2 ^ k.
Proof. intros; apply Z.shiftr_div_pow2; lia. Qed.

Lemma store32_le_bytes v : store32_le v = le_bytes 4 v.
Proof.
  unfold store32_le, u8, shr32. cbn [le_bytes]. rewrite !Z.div_div, !shiftr_div8 by lia. done.
Qed.

Lemma store64_le_bytes v : store64_le v = le_bytes 8 v.
Proof.
  unfold store64_le, u8, shr64. cbn [le_bytes]. rewrite !Z.div_div, !shiftr_div8 by lia. done.
Qed.

Lemma length_store32_le v : length (store32_le v) = 4%nat.
Proof. done. Qed.

Lemma shl32_byte b k : is_u8 b -> 0 <= k <= 24 -> shl32 b k = Z.shiftl b k.
Proof.
  unfold is_u8, shl32. intros. apply u32_small. unfold is_u32.
  rewrite Z.shiftl_mul_pow2 by lia.
  assert (0 < 2 ^ k) by (apply Z.pow_pos_nonneg; lia).
  assert (2 ^ k <= 2 ^ 24) by (apply Z.pow_le_mono_r; lia). nia.
Qed.

(** Four bytes loaded as a word are their little-endian value. *)
Lemma load4_val b0 b1 b2 b3 :
  is_u8 b0 -> is_u8 b1 -> is_u8 b2 -> is_u8 b3 ->
  Z.lor (Z.lor (Z.lor b0 (shl32 b1 8)) (shl32 b2 16)) (shl32 b3 24) = le_val [b0; b1; b2; b3].
Proof.
  intros H0 H1 H2 H3. rewrite !shl32_byte by (done || lia). unfold is_u8 in *.
  rewrite (lor_shiftl_add b0), (lor_shiftl_add _ b2), (lor_shiftl_add _ b3) by lia.
  cbn [le_val]. lia.
Qed.

Lemma is_bytes_rd l i : is_bytes l -> is_u8 (rd l i).
Proof. intros. apply Forall_rd; [done|unfold is_u8; lia]. Qed.

Lemma is_bytes_take n l : is_bytes l -> is_bytes (take n l).
Proof. apply Forall_take. Qed.
Lemma is_bytes_drop n l : is_bytes l -> is_bytes (drop n l).
Proof. apply Forall_drop. Qed.
Lemma is_bytes_app l1 l2 : is_bytes l1 -> is_bytes l2 -> is_bytes (l1 ++ l2).
Proof. intros; by apply Forall_app. Qed.
Lemma is_bytes_replicate n b : is_u8 b -> is_bytes (replicate n b).
Proof. intros; by apply Forall_replicate. Qed.
Lemma is_bytes_store32_le v : is_bytes (store32_le v).
Proof. rewrite store32_le_bytes. apply is_bytes_le_bytes. Qed.
Lemma is_bytes_store64_le v : is_bytes (store64_le v).
Proof. rewrite store64_le_bytes. apply is_bytes_le_bytes. Qed.
Lemma is_bytes_concat ps : Forall is_bytes ps -> is_bytes (concat ps).
Proof. induction 1; simpl; [constructor|by apply is_bytes_app]. Qed.
Lemma is_u8_0 : is_u8 0.
Proof. unfold is_u8; lia. Qed.
#[export] Hint Resolve is_bytes_rd is_bytes_take is_bytes_drop is_bytes_app is_bytes_replicate
  is_bytes_store32_le is_bytes_store64_le is_bytes_le_bytes is_u8_0 : wg_range.

Lemma load32_le_range p o : is_bytes p -> is_u32 (load32_le p o).
Proof.
  intros. unfold load32_le. assert (is_u32 (rd p o)).
  { pose proof (is_bytes_rd p o H). unfold is_u8, is_u32 in *. lia. }
  auto with wg_range.
Qed.
#[export] Hint Resolve load32_le_range : wg_range.

(** The four bytes at offset [o]. *)
Lemma load32_le_val p o :
  is_bytes p -> 0 <= o -> o + 4 <= Z.of_nat (length p) ->
  load32_le p o = le_val (take 4 (drop (Z.to_nat o) p)).
Proof.
  intros Hp Ho Hl. unfold load32_le. rewrite load4_val by auto with wg_range. f_equal.
  assert (4 <= length (drop (Z.to_nat o) p))%nat as Hd by (rewrite length_drop; lia).
  assert (forall k, 0 <= k -> rd p (o + k) = rd (drop (Z.to_nat o) p) k) as Hk
    by (intros; rewrite rd_drop by lia; f_equal; lia).
  rewrite <- (Z.add_0_r o) at 1. rewrite !Hk by lia.
  destruct (drop (Z.to_nat o) p) as [|a [|b [|c [|d l]]]]; simpl in Hd; try lia. done.
Qed.

Lemma load32_store32 v : is_u32 v -> load32_le (store32_le v) 0 = v.
Proof.
  intros Hv. rewrite load32_le_val by (auto with wg_range; simpl; lia).
  change (take 4 _) with (store32_le v). rewrite store32_le_bytes, le_val_le_bytes.
  apply Z.mod_small. exact Hv.
Qed.

Lemma load32_le_app p q o :
  0 <= o -> o + 4 <= Z.of_nat (length p) -> load32_le (p ++ q) o = load32_le p o.
Proof. intros. unfold load32_le. rewrite !rd_app_l by lia. done. Qed.

Lemma fold_left_ext {A B} (P : B -> Prop) (f g : A -> B -> A) l a :
  (forall a x, P x -> f a x = g a x) -> Forall P l -> fold_left f l a = fold_left g l a.
Proof.
  intros E Hl. revert a. induction Hl as [|x l Hx _ IH]; intros a; [done|]. cbn [fold_left]. rewrite E by done. apply IH.
Qed.
