(* ===== verification/Neon.v ===== *)
(** * The NEON intrinsics the sources use

    The vector types and intrinsics of [arm_neon.h] that src/blake2s_neon.c,
    src/wg_chacha20_neon.c and src/wg_poly1305_neon.c call, lane by lane, and
    the build switch [HAS_NEON] those files set from the target architecture. *)

From S2P Require Import Prelude.

(** [HAS_NEON]: whether the vector paths are compiled in. *)
Class NeonBuild := HAS_NEON : bool.

Record uint32x4_t := Q { q0 : Z; q1 : Z; q2 : Z; q3 : Z }.
Record uint32x2_t := D { d0 : Z; d1 : Z }.
Record uint64x2_t := W { w0 : Z; w1 : Z }.

Definition vmap1 (f : Z -> Z) (x : uint32x4_t) : uint32x4_t :=
  Q (f (q0 x)) (f (q1 x)) (f (q2 x)) (f (q3 x)).
Definition vmap2 (f : Z -> Z -> Z) (x y : uint32x4_t) : uint32x4_t :=
  Q (f (q0 x) (q0 y)) (f (q1 x) (q1 y)) (f (q2 x) (q2 y)) (f (q3 x) (q3 y)).

(** Loads and stores of four consecutive words. *)
Definition vld1q_u32 (p : list Z) (i : Z) : uint32x4_t :=
  Q (rd p i) (rd p (i + 1)) (rd p (i + 2)) (rd p (i + 3)).
Definition vst1q_u32 (x : uint32x4_t) : list Z := [q0 x; q1 x; q2 x; q3 x].

Definition vaddq_u32 : uint32x4_t -> uint32x4_t -> uint32x4_t := vmap2 add32.
Definition veorq_u32 : uint32x4_t -> uint32x4_t -> uint32x4_t := vmap2 Z.lxor.
Definition vorrq_u32 : uint32x4_t -> uint32x4_t -> uint32x4_t := vmap2 Z.lor.
Definition vshlq_n_u32 (x : uint32x4_t) (n : Z) : uint32x4_t := vmap1 (fun v => shl32 v n) x.
Definition vshrq_n_u32 (x : uint32x4_t) (n : Z) : uint32x4_t := vmap1 (fun v => shr32 v n) x.

(** [vrev32q_u16] on the 16-bit view of a word: the two halves swap. *)
Definition rev16_word (v : Z) : Z := Z.lor (Z.shiftl (Z.land v 65535) 16) (Z.shiftr v 16).
Definition vrev32q_u16 (x : uint32x4_t) : uint32x4_t := vmap1 rev16_word x.

(** [vextq_u32(x, y, n)]: lanes [n .. n+3] of the eight lanes [x, y]. *)
Definition vextq_u32 (x y : uint32x4_t) (n : Z) : uint32x4_t :=
  vld1q_u32 (vst1q_u32 x ++ vst1q_u32 y) n.

Definition vsetq_lane_u32 (v : Z) (x : uint32x4_t) (n : Z) : uint32x4_t :=
  vld1q_u32 (wr (vst1q_u32 x) n v) 0.

Definition vdup_n_u32 (v : Z) : uint32x2_t := D v v.
Definition vmull_u32 (x y : uint32x2_t) : uint64x2_t := W (d0 x * d0 y) (d1 x * d1 y).
Definition vmlal_u32 (a : uint64x2_t) (x y : uint32x2_t) : uint64x2_t :=
  W (add64 (w0 a) (d0 x * d0 y)) (add64 (w1 a) (d1 x * d1 y)).
Definition vgetq_lane_u64 (x : uint64x2_t) (n : Z) : Z := rd [w0 x; w1 x] n.

(** Rotations of a 32-bit word. *)
Definition rotr32 (x n : Z) : Z := Z.lor (shr32 x n) (shl32 x (32 - n)).
Definition rotl32 (x n : Z) : Z := Z.lor (shl32 x n) (shr32 x (32 - n)).

(** Swapping the halves is a rotation by 16, which is how the vector code rotates. *)
Lemma rev16_rotl v : rev16_word v = rotl32 v 16.
Proof.
  unfold rev16_word, rotl32, shl32, shr32, u32. f_equal.
  change 65535 with (Z.ones 16). rewrite Z.land_ones, !Z.shiftl_mul_pow2 by lia.
  change 4294967296 with (2 ^ 16 * 2 ^ 16). rewrite Z.mul_mod_distr_r by lia. done.
Qed.

Lemma rev16_rotr v : rev16_word v = rotr32 v 16.
Proof. rewrite rev16_rotl. unfold rotl32, rotr32. apply Z.lor_comm. Qed.

Lemma rotr32_range x n : 0 <= n -> is_u32 x -> is_u32 (rotr32 x n).
Proof. intros. unfold rotr32. auto with wg_range lia. Qed.
Lemma rotl32_range x n : n <= 32 -> is_u32 x -> is_u32 (rotl32 x n).
Proof. intros. unfold rotl32. apply lor_u32; [auto with wg_range|]. apply shr32_range; [lia|done]. Qed.
#[export] Hint Extern 2 (is_u32 (rotr32 _ _)) => apply rotr32_range; [lia|] : wg_range.
#[export] Hint Extern 2 (is_u32 (rotl32 _ _)) => apply rotl32_range; [lia|] : wg_range.
