(* ===== verification/Counter.v ===== *)
(** * The replay counter (src/wg_counter.c)

    [WgReplayCounter] of src/wg_internal.h and [wg_counter_validate]: a
    bitmap of [WG_COUNTER_WORDS] 64-bit words used as a ring, with the highest
    counter received so far. The specification is the set of counters that were
    accepted. *)

From stdpp Require Import gmap.
From S2P Require Import Prelude.

Definition BITS_PER_WORD : Z := 64.
Definition WG_COUNTER_WINDOW_SIZE : Z := 8192.
Definition WG_COUNTER_WORDS : Z := WG_COUNTER_WINDOW_SIZE / BITS_PER_WORD.
Definition WG_REJECT_AFTER_MESSAGES : Z := UINT64_MAX - WG_COUNTER_WINDOW_SIZE - 1.

Record WgReplayCounter := mkReplay {
  rc_counter : Z;
  backtrack : list Z
}.

(** The counter of a fresh session: [crypto_wipe(&session->replay, ...)]. *)
Definition replay_zero : WgReplayCounter :=
  mkReplay 0 (replicate (Z.to_nat WG_COUNTER_WORDS) 0).

(** [for (i = 1; i <= diff; i++) backtrack[(old_word + i) % WG_COUNTER_WORDS] = 0;] *)
Definition clear_words (bt : list Z) (old_word : Z) (diff : nat) : list Z :=
  fold_left (fun bt i => wr bt (add64 old_word (Z.of_nat i) mod WG_COUNTER_WORDS) 0)
    (seq 1 diff) bt.

(** The body of [if (counter > rc->counter)]. *)
Definition advance_window (rc : WgReplayCounter) (counter : Z) : WgReplayCounter :=
  let new_word := counter / BITS_PER_WORD in
  let old_word := rc_counter rc / BITS_PER_WORD in
  let diff := sub64 new_word old_word in
  mkReplay counter
    (if WG_COUNTER_WORDS <=? diff
     then replicate (Z.to_nat WG_COUNTER_WORDS) 0
     else clear_words (backtrack rc) old_word (Z.to_nat diff)).

Definition wg_counter_validate (rc : WgReplayCounter) (counter : Z) : bool * WgReplayCounter :=
  if WG_REJECT_AFTER_MESSAGES <=? counter then (false, rc)
  else if (WG_COUNTER_WINDOW_SIZE <=? rc_counter rc)
       && (counter <? sub64 (rc_counter rc) WG_COUNTER_WINDOW_SIZE) then (false, rc)
  else
    let word_idx := (counter / BITS_PER_WORD) mod WG_COUNTER_WORDS in
    let bit_mask := shl64 1 (counter mod BITS_PER_WORD) in
    let rc1 := if rc_counter rc <? counter then advance_window rc counter else rc in
    if negb (Z.land (rd (backtrack rc1) word_idx) bit_mask =? 0) then (false, rc1)
    else (true, mkReplay (rc_counter rc1)
                  (wr (backtrack rc1) word_idx (Z.lor (rd (backtrack rc1) word_idx) bit_mask))).

(** ** Well-formed counters and the bit of a counter value *)

Definition replay_wf (rc : WgReplayCounter) : Prop :=
  length (backtrack rc) = 128%nat /\ Forall is_u64 (backtrack rc) /\
  0 <= rc_counter rc < WG_REJECT_AFTER_MESSAGES.

(** The bit that stands for [c], whatever window [c] belongs to. *)
Definition marked (rc : WgReplayCounter) (c : Z) : bool :=
  Z.testbit (rd (backtrack rc) ((c / 64) mod 128)) (c mod 64).

(** [c] lies in one of the 128 words the ring currently holds. *)
Definition live (m c : Z) : Prop := 0 <= c /\ m / 64 - 128 < c / 64 <= m / 64.

#[global] Instance live_dec m c : Decision (live m c).
Proof. unfold live; apply _. Defined.

Lemma land_mask_testbit x n :
  0 <= n < 64 -> (Z.land x (shl64 1 n) =? 0) = negb (Z.testbit x n).
Proof.
  intros Hn. unfold shl64. rewrite Z.shiftl_1_l.
  assert (2 ^ n <= 2 ^ 63) by (apply Z.pow_le_mono_r; lia).
  assert (0 < 2 ^ n) by (apply Z.pow_pos_nonneg; lia).
  rewrite u64_small by (unfold is_u64; lia).
  destruct (Z.testbit x n) eqn:E; simpl.
  - apply Z.eqb_neq. intros Hz. apply (f_equal (fun z => Z.testbit z n)) in Hz.
    rewrite Z.land_spec, Z.pow2_bits_true, E, Z.bits_0 in Hz by lia. done.
  - apply Z.eqb_eq. apply Z.bits_inj'; intros i Hi.
    rewrite Z.land_spec, Z.bits_0, Z.pow2_bits_eqb by lia.
    destruct (Z.eqb_spec n i); subst; rewrite ?E, ?andb_false_r; done.
Qed.

Lemma lor_mask_testbit x n i :
  0 <= n < 64 -> 0 <= i -> Z.testbit (Z.lor x (shl64 1 n)) i = Z.testbit x i || (n =? i).
Proof.
  intros Hn Hi. unfold shl64. rewrite Z.shiftl_1_l.
  assert (2 ^ n <= 2 ^ 63) by (apply Z.pow_le_mono_r; lia).
  rewrite u64_small by (unfold is_u64; pose proof (Z.pow_pos_nonneg 2 n); lia).
  rewrite Z.lor_spec, Z.pow2_bits_eqb by lia. done.
Qed.

Lemma length_clear_words bt w n : length (clear_words bt w n) = length bt.
Proof.
  unfold clear_words. generalize (seq 1 n) as l. intros l; revert bt.
  induction l as [|i l IH]; intros bt; simpl; [done|]. rewrite IH, length_wr; done.
Qed.

Lemma clear_words_S bt w n :
  clear_words bt w (S n) = wr (clear_words bt w n) (add64 w (Z.of_nat (S n)) mod WG_COUNTER_WORDS) 0.
Proof. unfold clear_words. rewrite seq_S, fold_left_app. done. Qed.

Lemma Forall_clear_words bt w n : Forall is_u64 bt -> Forall is_u64 (clear_words bt w n).
Proof.
  intros Hbt. induction n as [|n IH]; [done|]. rewrite clear_words_S.
  apply Forall_wr; [done|]. unfold is_u64; lia.
Qed.

(** After the loop the words [old_word + 1 .. old_word + n] of the ring are 0. *)
Lemma rd_clear_words bt w n k :
  length bt = 128%nat -> 0 <= w -> w + Z.of_nat n < 18446744073709551616 ->
  Z.of_nat n <= 128 -> 0 <= k < 128 ->
  rd (clear_words bt w n) k = if (k - w - 1) mod 128 <? Z.of_nat n then 0 else rd bt k.
Proof.
  intros Hbt Hw Hwn Hn Hk. induction n as [|n IH].
  { simpl. rewrite (proj2 (Z.ltb_ge _ _)); [done|]. zlia. }
  rewrite clear_words_S. unfold add64. rewrite u64_small by (unfold is_u64; lia).
  change WG_COUNTER_WORDS with 128. set (j := (w + Z.of_nat (S n)) mod 128).
  assert (0 <= j < 128) by (apply Z.mod_pos_bound; lia).
  destruct (decide (k = j)) as [->|Hne].
  - rewrite rd_wr_eq by (rewrite length_clear_words; lia).
    rewrite (proj2 (Z.ltb_lt _ _)); [done|]. subst j. clear IH Hwn.
    replace ((_ - w - 1) mod 128) with (Z.of_nat n mod 128).
    { rewrite Z.mod_small; lia. }
    rewrite <- Z.sub_add_distr, Zminus_mod_idemp_l. f_equal. lia.
  - rewrite rd_wr_ne, IH by lia.
    assert ((k - w - 1) mod 128 <> Z.of_nat n).
    { clear IH Hwn. subst j. intros E. apply Hne. pose proof (Z.div_mod (k - w - 1) 128).
      apply (Z.mod_unique_pos _ _ (- ((k - w - 1) / 128))); lia. }
    destruct (Z.ltb_spec ((k - w - 1) mod 128) (Z.of_nat n));
      destruct (Z.ltb_spec ((k - w - 1) mod 128) (Z.of_nat (S n))); try done; lia.
Qed.

(** The numeric value of [UINT64_MAX - WG_COUNTER_WINDOW_SIZE - 1]. *)
Ltac reject_val := change WG_REJECT_AFTER_MESSAGES with 18446744073709543422 in *.

Section advance.
Variables (rc : WgReplayCounter) (c : Z).
Hypothesis Hwf : replay_wf rc.
Hypothesis Hc : rc_counter rc < c < WG_REJECT_AFTER_MESSAGES.

Let m := rc_counter rc.

Lemma advance_diff : sub64 (c / 64) (m / 64) = c / 64 - m / 64.
Proof.
  destruct Hwf as (_ & _ & Hm). reject_val.
  unfold sub64. apply u64_small. unfold is_u64. subst m. zlia.
Qed.

Lemma advance_wf : replay_wf (advance_window rc c).
Proof.
  destruct Hwf as (Hl & Hb & Hm). split_and!; cbn [advance_window backtrack rc_counter].
  - case_match; [done|]. rewrite length_clear_words; done.
  - case_match; [|by apply Forall_clear_words]. apply Forall_replicate. unfold is_u64; lia.
  - lia.
  - lia.
Qed.

Lemma rd_advance w :
  c / 64 - 128 < w <= c / 64 -> 0 <= w ->
  rd (backtrack (advance_window rc c)) (w mod 128)
  = if m / 64 <? w then 0 else rd (backtrack rc) (w mod 128).
Proof.
  intros Hw Hw0. destruct Hwf as (Hl & Hb & Hm). pose proof advance_diff as Hd.
  assert (0 <= m / 64 <= c / 64 /\ c / 64 < 18446744073709551616) as Hwords.
  { clear Hd. reject_val. subst m. zlia. }
  cbn [advance_window backtrack]. unfold BITS_PER_WORD. fold m. rewrite Hd.
  change WG_COUNTER_WORDS with 128. clear Hd Hc Hm.
  revert Hwords Hw; generalize (c / 64) as nw, (m / 64) as ow; intros nw ow Hwords Hw.
  destruct (Z.leb_spec 128 (nw - ow)).
  - rewrite rd_replicate. rewrite (proj2 (Z.ltb_lt _ _)); [done|lia].
  - rewrite rd_clear_words by (try apply Z.mod_pos_bound; lia).
    replace ((w mod 128 - ow - 1) mod 128) with ((w - ow - 1) mod 128) by zlia.
    destruct (Z.ltb_spec ow w).
    + rewrite Z.mod_small by lia. rewrite (proj2 (Z.ltb_lt _ _)); [done|lia].
    + rewrite (proj2 (Z.ltb_ge _ _)); [done|]. zlia.
Qed.

(** Moving the window forgets exactly the words that leave it. *)
Lemma marked_advance x :
  live c x -> marked (advance_window rc c) x = marked rc x && (x / 64 <=? m / 64).
Proof.
  intros [Hx0 Hx]. unfold marked.
  rewrite rd_advance by (try apply Z.div_pos; lia).
  destruct (Z.ltb_spec (m / 64) (x / 64)); destruct (Z.leb_spec (x / 64) (m / 64)); try lia.
  - rewrite andb_false_r, Z.bits_0; done.
  - rewrite andb_true_r; done.
Qed.
End advance.

(** The state after the window has moved, and the outcome of the bit test. *)
Definition moved (rc : WgReplayCounter) (c : Z) : WgReplayCounter :=
  if rc_counter rc <? c then advance_window rc c else rc.

Definition mark (rc : WgReplayCounter) (c : Z) : WgReplayCounter :=
  mkReplay (rc_counter rc)
    (wr (backtrack rc) ((c / 64) mod 128)
        (Z.lor (rd (backtrack rc) ((c / 64) mod 128)) (shl64 1 (c mod 64)))).

(** The code, by cases: too large, too old, already marked, accepted. *)
Lemma validate_cases rc c :
  replay_wf rc -> 0 <= c ->
  wg_counter_validate rc c
  = if WG_REJECT_AFTER_MESSAGES <=? c then (false, rc)
    else if c + 8192 <? rc_counter rc then (false, rc)
    else if marked (moved rc c) c then (false, moved rc c)
    else (true, mark (moved rc c) c).
Proof.
  intros (Hl & Hb & Hm) Hc. unfold wg_counter_validate, marked, mark.
  destruct (Z.leb_spec WG_REJECT_AFTER_MESSAGES c) as [|Hlt]; [done|].
  change WG_COUNTER_WINDOW_SIZE with 8192. change BITS_PER_WORD with 64.
  change WG_COUNTER_WORDS with 128. fold (moved rc c).
  replace ((8192 <=? rc_counter rc) && (c <? sub64 (rc_counter rc) 8192))
    with (c + 8192 <? rc_counter rc).
  2: { reject_val. destruct (Z.leb_spec 8192 (rc_counter rc)); simpl.
       - unfold sub64. rewrite u64_small by (unfold is_u64; lia). case_cmp; lia.
       - case_cmp; lia. }
  rewrite land_mask_testbit by (apply Z.mod_pos_bound; lia). rewrite negb_involutive. done.
Qed.

Lemma moved_counter rc c : rc_counter (moved rc c) = Z.max (rc_counter rc) c.
Proof. unfold moved. case_cmp; simpl; lia. Qed.

Lemma moved_wf rc c : replay_wf rc -> c < WG_REJECT_AFTER_MESSAGES -> replay_wf (moved rc c).
Proof. intros. unfold moved. case_cmp; [apply advance_wf|]; try done; lia. Qed.

Lemma marked_moved rc c x :
  replay_wf rc -> 0 <= c < WG_REJECT_AFTER_MESSAGES -> live (Z.max (rc_counter rc) c) x ->
  marked (moved rc c) x = marked rc x && (x / 64 <=? rc_counter rc / 64).
Proof.
  intros Hwf Hc Hx. unfold moved. destruct (Z.ltb_spec (rc_counter rc) c).
  - rewrite Z.max_r in Hx by lia. apply marked_advance; [done|lia|done].
  - rewrite Z.max_l in Hx by lia. destruct Hx as (? & ? & ?).
    rewrite (proj2 (Z.leb_le _ _)) by lia. rewrite andb_true_r; done.
Qed.

Lemma mark_wf rc c : replay_wf rc -> 0 <= c -> replay_wf (mark rc c).
Proof.
  intros (Hl & Hb & Hm) Hc. split_and!; simpl; [by rewrite length_wr| |lia|lia].
  apply Forall_wr; [done|]. apply lor_u64; [|apply u64_range].
  apply Forall_rd; [done|unfold is_u64; lia].
Qed.

Lemma marked_mark rc c x :
  replay_wf rc -> 0 <= c -> 0 <= x ->
  marked (mark rc c) x = marked rc x || (c mod 8192 =? x mod 8192).
Proof.
  intros (Hl & _ & _) Hc Hx. unfold marked; cbn [mark backtrack].
  assert (0 <= (x / 64) mod 128 < 128) by (apply Z.mod_pos_bound; lia).
  assert (0 <= (c / 64) mod 128 < 128) by (apply Z.mod_pos_bound; lia).
  assert (0 <= x mod 64 < 64) by (apply Z.mod_pos_bound; lia).
  assert (forall y, 0 <= y -> y mod 8192 = 64 * ((y / 64) mod 128) + y mod 64) as Hsplit
    by (intros; zlia).
  rewrite (Hsplit c), (Hsplit x) by lia.
  destruct (decide ((c / 64) mod 128 = (x / 64) mod 128)) as [E|E].
  - rewrite E, rd_wr_eq by lia. rewrite lor_mask_testbit by (try apply Z.mod_pos_bound; lia).
    f_equal. case_cmp; lia.
  - rewrite rd_wr_ne by lia. rewrite (proj2 (Z.eqb_neq _ _)), orb_false_r; [done|].
    pose proof (Z.mod_pos_bound c 64). lia.
Qed.

(** ** Histories *)

(** Runs the counter over a sequence of received counters; [H] collects the
    accepted ones. *)
Fixpoint validate_all (rc : WgReplayCounter) (H : gset Z) (cs : list Z)
  : list bool * WgReplayCounter * gset Z :=
  match cs with
  | [] => ([], rc, H)
  | c :: cs =>
      let '(b, rc1) := wg_counter_validate rc c in
      let '(bs, rc2, H2) := validate_all rc1 (if b then {[c]} ∪ H else H) cs in
      (b :: bs, rc2, H2)
  end.

(** The specification: a counter is good when it is below the message limit
    and was not accepted before. *)
Definition fresh (H : gset Z) (c : Z) : bool :=
  (c <? WG_REJECT_AFTER_MESSAGES) && bool_decide (c ∉ H).

Fixpoint fresh_all (H : gset Z) (cs : list Z) : list bool :=
  match cs with
  | [] => []
  | c :: cs => fresh H c :: fresh_all (if fresh H c then {[c]} ∪ H else H) cs
  end.

(** No counter of the sequence trails the highest one by more than [8128]. *)
Fixpoint in_window (m : Z) (cs : list Z) : bool :=
  match cs with
  | [] => true
  | c :: cs =>
      (m <=? c + 8128)
      && in_window (if c <? WG_REJECT_AFTER_MESSAGES then Z.max m c else m) cs
  end.

(** Every accepted counter whose word is still in the ring is marked. *)
Definition remembers (rc : WgReplayCounter) (H : gset Z) : Prop :=
  replay_wf rc /\
  forall x, x ∈ H -> 0 <= x <= rc_counter rc /\ (live (rc_counter rc) x -> marked rc x = true).

(** Nothing else is marked. *)
Definition exact (rc : WgReplayCounter) (H : gset Z) : Prop :=
  forall x, live (rc_counter rc) x -> marked rc x = true -> x ∈ H.

Lemma remembers_zero : remembers replay_zero ∅.
Proof.
  split; [|set_solver]. split_and!; [done| |done|done].
  apply Forall_replicate. unfold is_u64; lia.
Qed.

Lemma exact_zero : exact replay_zero ∅.
Proof.
  intros x _. unfold marked, replay_zero; cbn [backtrack]. rewrite rd_replicate, Z.bits_0. done.
Qed.

Lemma remembers_moved rc H c :
  remembers rc H -> 0 <= c < WG_REJECT_AFTER_MESSAGES -> remembers (moved rc c) H.
Proof.
  intros [Hwf HH] Hc. split; [apply moved_wf; [done|lia]|].
  intros x Hx. destruct (HH x Hx) as [Hr Hmk]. rewrite moved_counter. split; [lia|].
  intros Hl. rewrite marked_moved by done. destruct Hl as (? & ? & ?).
  assert (x / 64 <= rc_counter rc / 64) by (apply Z.div_le_mono; lia).
  assert (rc_counter rc / 64 <= Z.max (rc_counter rc) c / 64) by (apply Z.div_le_mono; lia).
  rewrite Hmk by (unfold live; lia). apply Z.leb_le. lia.
Qed.

Lemma remembers_mark rc H c :
  remembers rc H -> 0 <= c <= rc_counter rc -> remembers (mark rc c) ({[c]} ∪ H).
Proof.
  intros [Hwf HH] Hc. split; [apply mark_wf; [done|lia]|].
  intros x [->%elem_of_singleton|Hx]%elem_of_union; cbn [mark rc_counter].
  - split; [lia|]. intros _. rewrite marked_mark by (assumption || lia).
    rewrite Z.eqb_refl, orb_true_r; done.
  - destruct (HH x Hx) as [Hr Hmk]. split; [lia|]. intros Hl.
    rewrite marked_mark by (assumption || lia). rewrite (Hmk Hl). done.
Qed.

(** The bitmap never forgets a counter of its ring, whatever is received. *)
Lemma validate_remembers rc H c b rc' :
  remembers rc H -> 0 <= c -> wg_counter_validate rc c = (b, rc') ->
  remembers rc' (if b then {[c]} ∪ H else H).
Proof.
  intros HR Hc. rewrite validate_cases by (done || apply HR).
  destruct (Z.leb_spec WG_REJECT_AFTER_MESSAGES c); [intros [= <- <-]; done|].
  destruct (Z.ltb_spec (c + 8192) (rc_counter rc)); [intros [= <- <-]; done|].
  destruct (marked (moved rc c) c); intros [= <- <-].
  - apply remembers_moved; [done|lia].
  - apply remembers_mark; [apply remembers_moved; [done|lia]|]. rewrite moved_counter; lia.
Qed.

Lemma validate_all_remembers rc H cs bs rc' H' :
  remembers rc H -> Forall is_u64 cs -> validate_all rc H cs = (bs, rc', H') -> remembers rc' H'.
Proof.
  revert rc H bs. induction cs as [|c cs IH]; simpl; intros rc H bs HR Hcs.
  { intros [= <- <- <-]; done. }
  apply Forall_cons in Hcs as [[Hc _] Hcs].
  destruct (wg_counter_validate rc c) as [b rc1] eqn:E.
  destruct (validate_all rc1 _ cs) as [[bs1 rc2] H2] eqn:E2. intros [= <- <- <-].
  eapply IH; [|done|done]. eapply validate_remembers; done.
Qed.

Lemma exact_moved rc H c :
  replay_wf rc -> 0 <= c < WG_REJECT_AFTER_MESSAGES -> exact rc H -> exact (moved rc c) H.
Proof.
  intros Hwf Hc HE x. rewrite moved_counter. intros Hl.
  rewrite marked_moved by done. intros [Hm Hle%Z.leb_le]%andb_true_iff.
  apply HE; [|done]. destruct Hl as (? & ? & ?).
  assert (rc_counter rc / 64 <= Z.max (rc_counter rc) c / 64) by (apply Z.div_le_mono; lia).
  unfold live; lia.
Qed.

(** Two counters of the same ring that share their bit are equal. *)
Lemma live_mod_inj m x c : live m x -> live m c -> c mod 8192 = x mod 8192 -> c = x.
Proof. unfold live. intros. zlia. Qed.

Lemma exact_mark rc H c :
  replay_wf rc -> live (rc_counter rc) c -> exact rc H -> exact (mark rc c) ({[c]} ∪ H).
Proof.
  intros Hwf Hc HE x. cbn [mark rc_counter]. intros Hl.
  rewrite marked_mark by (assumption || apply Hc || apply Hl).
  intros [Hm|He%Z.eqb_eq]%orb_true_iff; apply elem_of_union.
  - right. by apply HE.
  - left. apply elem_of_singleton. symmetry. by eapply live_mod_inj.
Qed.

(** One step against the specification, for a counter of the ring. *)
Lemma validate_fresh rc H c :
  remembers rc H -> exact rc H -> 0 <= c -> rc_counter rc <= c + 8128 ->
  fst (wg_counter_validate rc c) = fresh H c /\
  exact (snd (wg_counter_validate rc c)) (if fresh H c then {[c]} ∪ H else H).
Proof.
  intros HR HE Hc Hw. destruct (HR) as [Hwf _]. rewrite validate_cases by done. unfold fresh.
  destruct (Z.leb_spec WG_REJECT_AFTER_MESSAGES c).
  { rewrite (proj2 (Z.ltb_ge _ _)) by lia. done. }
  rewrite (proj2 (Z.ltb_lt c _)) by lia. rewrite (proj2 (Z.ltb_ge (c + 8192) _)) by lia.
  assert (live (rc_counter (moved rc c)) c) as Hl.
  { rewrite moved_counter. unfold live. split; [lia|].
    assert (Z.max (rc_counter rc) c / 64 <= (c + 127 * 64) / 64) by (apply Z.div_le_mono; lia).
    rewrite Z.div_add in * by lia.
    split; [lia|apply Z.div_le_mono; lia]. }
  pose proof (remembers_moved rc H c HR ltac:(lia)) as [Hwf' HR'].
  pose proof (exact_moved rc H c Hwf ltac:(lia) HE) as HE'.
  case_bool_decide as HH; simpl.
  - destruct (marked (moved rc c) c) eqn:Hm; [by destruct HH; apply HE'|].
    split; [done|]. by apply exact_mark.
  - destruct (HR' c HH) as [_ Hm]. rewrite (Hm Hl). done.
Qed.

Lemma validate_counter_max rc c :
  replay_wf rc -> 0 <= c -> rc_counter rc <= c + 8128 ->
  rc_counter (snd (wg_counter_validate rc c))
  = if c <? WG_REJECT_AFTER_MESSAGES then Z.max (rc_counter rc) c else rc_counter rc.
Proof.
  intros Hwf Hc Hw. rewrite validate_cases by done.
  destruct (Z.leb_spec WG_REJECT_AFTER_MESSAGES c).
  { rewrite (proj2 (Z.ltb_ge _ _)) by lia. done. }
  rewrite (proj2 (Z.ltb_lt c _)) by lia. rewrite (proj2 (Z.ltb_ge (c + 8192) _)) by lia.
  case_match; cbn [snd mark rc_counter]; apply moved_counter.
Qed.

Lemma validate_all_fresh rc H cs :
  remembers rc H -> exact rc H -> Forall is_u64 cs -> in_window (rc_counter rc) cs = true ->
  (validate_all rc H cs).1.1 = fresh_all H cs.
Proof.
  revert rc H. induction cs as [|c cs IH]; intros rc H HR HE Hcs; [done|]. simpl.
  intros [Hw%Z.leb_le Hcs']%andb_true_iff.
  apply Forall_cons in Hcs as [[Hc _] Hcs].
  destruct (validate_fresh rc H c) as [Hb HE']; [done..|].
  pose proof (validate_counter_max rc c (proj1 HR) Hc Hw) as Hmax.
  destruct (wg_counter_validate rc c) as [b rc1] eqn:E. cbn [fst snd] in *. subst b.
  specialize (IH rc1 (if fresh H c then {[c]} ∪ H else H)).
  destruct (validate_all rc1 _ cs) as [[bs rc2] H2]. simpl in *. f_equal. apply IH.
  - by eapply validate_remembers.
  - done.
  - done.
  - rewrite Hmax. done.
Qed.

Lemma advance_far rc c :
  replay_wf rc -> rc_counter rc < c < WG_REJECT_AFTER_MESSAGES ->
  rc_counter rc / 64 + 128 <= c / 64 ->
  advance_window rc c = mkReplay c (replicate (Z.to_nat WG_COUNTER_WORDS) 0).
Proof.
  intros Hwf Hc Hfar. unfold advance_window. change BITS_PER_WORD with 64.
  rewrite advance_diff by done. change WG_COUNTER_WORDS with 128.
  rewrite (proj2 (Z.leb_le _ _)) by lia. done.
Qed.

Lemma marked_blank m x : marked (mkReplay m (replicate (Z.to_nat WG_COUNTER_WORDS) 0)) x = false.
Proof. unfold marked; cbn [backtrack]. rewrite rd_replicate, Z.bits_0; done. Qed.

(** A counter 128 words ahead empties the ring and is accepted. *)
Lemma validate_far rc c :
  replay_wf rc -> rc_counter rc < c < WG_REJECT_AFTER_MESSAGES ->
  rc_counter rc / 64 + 128 <= c / 64 ->
  wg_counter_validate rc c
  = (true, mark (mkReplay c (replicate (Z.to_nat WG_COUNTER_WORDS) 0)) c).
Proof.
  intros Hwf Hc Hfar. assert (0 <= rc_counter rc) by apply Hwf.
  rewrite validate_cases by (done || lia).
  rewrite (proj2 (Z.leb_gt _ c)) by lia. rewrite (proj2 (Z.ltb_ge (c + 8192) _)) by lia.
  unfold moved. rewrite (proj2 (Z.ltb_lt _ _)) by lia. rewrite advance_far by done.
  rewrite marked_blank. done.
Qed.

(** ** The counter's properties *)

(** C6. Replay protection of [wg_counter_validate]: after any sequence of
    received counters, a counter that was accepted before is rejected, unless
    its bitmap word is exactly 128 words behind the word of the highest counter. *)
Theorem replay_rejected cs bs rc H c :
  Forall is_u64 cs -> validate_all replay_zero ∅ cs = (bs, rc, H) -> c ∈ H ->
  rc_counter rc / 64 <> c / 64 + 128 ->
  wg_counter_validate rc c = (false, rc).
Proof.
  intros Hcs E Hc Hne.
  pose proof (validate_all_remembers _ _ _ _ _ _ remembers_zero Hcs E) as [Hwf HR].
  destruct (HR c Hc) as [Hr Hm]. rewrite validate_cases by (done || lia).
  assert (moved rc c = rc) as -> by (unfold moved; rewrite (proj2 (Z.ltb_ge _ _)) by lia; done).
  destruct (Z.leb_spec WG_REJECT_AFTER_MESSAGES c); [done|].
  destruct (Z.ltb_spec (c + 8192) (rc_counter rc)); [done|].
  rewrite Hm; [done|]. unfold live.
  assert (rc_counter rc / 64 <= (c + 128 * 64) / 64) by (apply Z.div_le_mono; lia).
  rewrite Z.div_add in * by lia.
  assert (c / 64 <= rc_counter rc / 64) by (apply Z.div_le_mono; lia). lia.
Qed.

Lemma replay_rejected_witness :
  exists bs rc H, validate_all replay_zero ∅ [7; 5; 9000] = (bs, rc, H) /\
    7 ∈ H /\ rc_counter rc / 64 <> 7 / 64 + 128 /\ wg_counter_validate rc 7 = (false, rc).
Proof.
  eexists _, _, _. split; [reflexivity|]. split; [set_solver|]. split; [vm_compute; done|].
  apply (replay_rejected [7; 5; 9000] [true; true; true] _ ({[9000]} ∪ ({[5]} ∪ ({[7]} ∪ ∅)))).
  - repeat constructor; unfold is_u64; lia.
  - reflexivity.
  - set_solver.
  - vm_compute; done.
Defined.

(** C7. Refinement of the set specification: as long as no counter trails the
    highest accepted one by more than 8128, [wg_counter_validate] accepts
    exactly the counters that are below the message limit and not yet seen. *)
Theorem validate_refines_set cs :
  Forall is_u64 cs -> in_window 0 cs = true ->
  (validate_all replay_zero ∅ cs).1.1 = fresh_all ∅ cs.
Proof. intros. apply validate_all_fresh; auto using remembers_zero, exact_zero. Qed.

Lemma validate_refines_set_witness :
  (validate_all replay_zero ∅ [0; 3; 3; 8000; 0; 1; 18446744073709543422]).1.1
  = [true; true; false; true; false; true; false].
Proof.
  rewrite validate_refines_set; [vm_compute; reflexivity| |vm_compute; reflexivity].
  repeat constructor; unfold is_u64; lia.
Defined.

(** The window is one word too wide: every counter [c] that is not a
    multiple of 64 is accepted a second time after the counter 128 words later. *)
Theorem replay_accepted_after_wrap c :
  0 <= c -> c mod 64 <> 0 -> c + 8192 < WG_REJECT_AFTER_MESSAGES ->
  (validate_all replay_zero ∅ [c; 64 * (c / 64 + 128); c]).1.1 = [true; true; true].
Proof.
  intros Hc Hmod Hmax. cbn [validate_all].
  destruct (validate_fresh replay_zero ∅ c) as [Hb _];
    [apply remembers_zero|apply exact_zero|lia|cbn [replay_zero rc_counter]; lia|].
  pose proof (validate_counter_max replay_zero c (proj1 remembers_zero) Hc
                ltac:(cbn [replay_zero rc_counter]; lia)) as Hm.
  destruct (wg_counter_validate replay_zero c) as [b rc1] eqn:E1. cbn [fst snd] in *.
  assert (replay_wf rc1) as Hwf1
    by (eapply validate_remembers; [apply remembers_zero|exact Hc|exact E1]).
  unfold fresh in Hb. rewrite (proj2 (Z.ltb_lt c _)) in Hb, Hm by lia.
  rewrite bool_decide_true in Hb by set_solver. subst b.
  cbn [replay_zero rc_counter] in Hm. rewrite Z.max_r in Hm by lia.
  set (c2 := 64 * (c / 64 + 128)).
  assert (c < c2 <= c + 8192 /\ c2 / 64 = c / 64 + 128 /\ c2 mod 8192 <> c mod 8192) as (Hc2 & Hw & Hne)
    by (subst c2; clear E1 Hm; zlia).
  rewrite validate_far by (rewrite ?Hm; done || lia). cbn [validate_all].
  set (rc2 := mkReplay _ _).
  assert (replay_wf rc2) as Hwf2.
  { split_and!; [done| |subst rc2; cbn; lia..]. apply Forall_replicate; unfold is_u64; lia. }
  assert (moved (mark rc2 c2) c = mark rc2 c2) as Hmv
    by (unfold moved; cbn [mark rc_counter rc2]; rewrite (proj2 (Z.ltb_ge _ _)) by lia; done).
  rewrite validate_cases by first [lia | apply mark_wf; [exact Hwf2|lia]]. rewrite Hmv.
  rewrite (proj2 (Z.leb_gt _ c)) by lia.
  rewrite (proj2 (Z.ltb_ge (c + 8192) _)) by (cbn [mark rc_counter rc2]; lia).
  rewrite marked_mark by (done || lia). subst rc2. rewrite marked_blank.
  rewrite (proj2 (Z.eqb_neq _ _)) by lia. done.
Qed.

Lemma replay_accepted_after_wrap_witness :
  1 mod 64 <> 0 /\
  (validate_all replay_zero ∅ [1; 64 * (1 / 64 + 128); 1]).1.1 = [true; true; true].
Proof. split; [done|]. apply (replay_accepted_after_wrap 1); vm_compute; done. Defined.

(** Rejections leave the counter as it was: a counter at or above the
    message limit and one more than 8192 behind the highest are refused without
    a change of state. *)
Theorem out_of_window_rejected rc c :
  replay_wf rc -> 0 <= c -> WG_REJECT_AFTER_MESSAGES <= c \/ c + 8192 < rc_counter rc ->
  wg_counter_validate rc c = (false, rc).
Proof.
  intros Hwf Hc Hor. rewrite validate_cases by done.
  destruct (Z.leb_spec WG_REJECT_AFTER_MESSAGES c); [done|].
  rewrite (proj2 (Z.ltb_lt _ _)); [done|lia].
Qed.

Lemma out_of_window_rejected_witness :
  wg_counter_validate (snd (wg_counter_validate replay_zero 20000)) 5
  = (false, snd (wg_counter_validate replay_zero 20000)).
Proof.
  apply out_of_window_rejected; [|lia|right; vm_compute; done].
  apply (validate_remembers replay_zero ∅ 20000 true); [apply remembers_zero|lia|reflexivity].
Defined.
