(* ===== verification/Blake2s.v ===== *)
(** * BLAKE2s (library/crypto/blake2s.c and src/blake2s_neon.c)

    The scalar and the vector compression function, the incremental interface
    and the one-shot function, against the hash function of RFC 7693. *)

From S2P Require Import Prelude Neon.

Definition BLAKE2S_BLOCK_SIZE : Z := 64.

Definition blake2s_iv : list Z :=
  [0x6A09E667; 0xBB67AE85; 0x3C6EF372; 0xA54FF53A;
   0x510E527F; 0x9B05688C; 0x1F83D9AB; 0x5BE0CD19].

Definition blake2s_sigma : list (list Z) :=
  [[0; 1; 2; 3; 4; 5; 6; 7; 8; 9; 10; 11; 12; 13; 14; 15];
   [14; 10; 4; 8; 9; 15; 13; 6; 1; 12; 0; 2; 11; 7; 5; 3];
   [11; 8; 12; 0; 5; 2; 15; 13; 10; 14; 3; 6; 7; 1; 9; 4];
   [7; 9; 3; 1; 13; 12; 11; 14; 2; 6; 5; 10; 4; 0; 15; 8];
   [9; 0; 5; 7; 2; 4; 10; 15; 14; 1; 11; 12; 6; 8; 3; 13];
   [2; 12; 6; 10; 0; 11; 8; 3; 4; 13; 7; 5; 15; 14; 1; 9];
   [12; 5; 1; 15; 14; 13; 4; 10; 0; 7; 6; 3; 9; 2; 8; 11];
   [13; 11; 7; 14; 12; 1; 3; 9; 5; 0; 15; 4; 8; 6; 2; 10];
   [6; 15; 14; 9; 11; 3; 0; 8; 12; 2; 13; 7; 1; 4; 10; 5];
   [10; 2; 8; 4; 7; 6; 1; 5; 15; 11; 9; 14; 3; 12; 13; 0]].

Definition sigma_row (r : nat) : list Z := nth r blake2s_sigma [].

Record blake2s_state := mkBlake {
  bs_h : list Z;
  bs_t : list Z;
  bs_f : list Z;
  buf : list Z;
  buflen : Z;
  outlen : Z
}.

(** ** The scalar compression function *)

Section scalar.
Variable m : list Z.

(** The macro [G(r, i, a, b, c, d)] on the work vector; the operands are indices. *)
Definition G (s : list Z) (i a b c d : Z) (v : list Z) : list Z :=
  let v := wr v a (add32 (add32 (rd v a) (rd v b)) (rd m (rd s (2 * i + 0)))) in
  let v := wr v d (rotr32 (Z.lxor (rd v d) (rd v a)) 16) in
  let v := wr v c (add32 (rd v c) (rd v d)) in
  let v := wr v b (rotr32 (Z.lxor (rd v b) (rd v c)) 12) in
  let v := wr v a (add32 (add32 (rd v a) (rd v b)) (rd m (rd s (2 * i + 1)))) in
  let v := wr v d (rotr32 (Z.lxor (rd v d) (rd v a)) 8) in
  let v := wr v c (add32 (rd v c) (rd v d)) in
  wr v b (rotr32 (Z.lxor (rd v b) (rd v c)) 7).

Definition ROUND (s : list Z) (v : list Z) : list Z :=
  let v := G s 0 0 4 8 12 v in
  let v := G s 1 1 5 9 13 v in
  let v := G s 2 2 6 10 14 v in
  let v := G s 3 3 7 11 15 v in
  let v := G s 4 0 5 10 15 v in
  let v := G s 5 1 6 11 12 v in
  let v := G s 6 2 7 8 13 v in
  G s 7 3 4 9 14 v.

Definition rounds (v : list Z) : list Z :=
  fold_left (fun v r => ROUND (sigma_row r) v) (seq 0 10) v.
End scalar.

Definition message_words (block : list Z) : list Z :=
  map (fun i => load32_le block (Z.of_nat i * 4)) (seq 0 16).

Definition init_vector (h : list Z) (t0 t1 f0 f1 : Z) : list Z :=
  take 8 h ++
  [rd blake2s_iv 0; rd blake2s_iv 1; rd blake2s_iv 2; rd blake2s_iv 3;
   Z.lxor t0 (rd blake2s_iv 4); Z.lxor t1 (rd blake2s_iv 5);
   Z.lxor f0 (rd blake2s_iv 6); Z.lxor f1 (rd blake2s_iv 7)].

Definition blake2s_compress_scalar (S : blake2s_state) (block : list Z) : blake2s_state :=
  let v := rounds (message_words block)
             (init_vector (bs_h S) (rd (bs_t S) 0) (rd (bs_t S) 1) (rd (bs_f S) 0) (rd (bs_f S) 1)) in
  mkBlake
    (map (fun i => Z.lxor (Z.lxor (rd (bs_h S) (Z.of_nat i)) (rd v (Z.of_nat i)))
                          (rd v (Z.of_nat i + 8))) (seq 0 8))
    (bs_t S) (bs_f S) (buf S) (buflen S) (outlen S).

(** ** The vector compression function *)

Definition rotr32_7 (x : uint32x4_t) : uint32x4_t := vorrq_u32 (vshrq_n_u32 x 7) (vshlq_n_u32 x 25).
Definition rotr32_8 (x : uint32x4_t) : uint32x4_t := vorrq_u32 (vshrq_n_u32 x 8) (vshlq_n_u32 x 24).
Definition rotr32_12 (x : uint32x4_t) : uint32x4_t := vorrq_u32 (vshrq_n_u32 x 12) (vshlq_n_u32 x 20).
Definition ROTR16 (x : uint32x4_t) : uint32x4_t := vrev32q_u16 x.

Definition rows : Type := uint32x4_t * uint32x4_t * uint32x4_t * uint32x4_t.

Definition g_neon (r : rows) (mx my : uint32x4_t) : rows :=
  let '(a, b, c, d) := r in
  let a := vaddq_u32 (vaddq_u32 a b) mx in
  let d := ROTR16 (veorq_u32 d a) in
  let c := vaddq_u32 c d in
  let b := rotr32_12 (veorq_u32 b c) in
  let a := vaddq_u32 (vaddq_u32 a b) my in
  let d := rotr32_8 (veorq_u32 d a) in
  let c := vaddq_u32 c d in
  let b := rotr32_7 (veorq_u32 b c) in
  (a, b, c, d).

Definition gather4 (m : list Z) (i0 i1 i2 i3 : Z) : uint32x4_t :=
  vld1q_u32 [rd m i0; rd m i1; rd m i2; rd m i3] 0.

(** The body of the loop over the ten rounds. *)
Definition round_neon (m s : list Z) (r : rows) : rows :=
  let mx := gather4 m (rd s 0) (rd s 2) (rd s 4) (rd s 6) in
  let my := gather4 m (rd s 1) (rd s 3) (rd s 5) (rd s 7) in
  let '(row0, row1, row2, row3) := g_neon r mx my in
  let row1 := vextq_u32 row1 row1 1 in
  let row2 := vextq_u32 row2 row2 2 in
  let row3 := vextq_u32 row3 row3 3 in
  let mx := gather4 m (rd s 8) (rd s 10) (rd s 12) (rd s 14) in
  let my := gather4 m (rd s 9) (rd s 11) (rd s 13) (rd s 15) in
  let '(row0, row1, row2, row3) := g_neon (row0, row1, row2, row3) mx my in
  let row1 := vextq_u32 row1 row1 3 in
  let row2 := vextq_u32 row2 row2 2 in
  let row3 := vextq_u32 row3 row3 1 in
  (row0, row1, row2, row3).

Definition blake2s_neon_available `{NeonBuild} : bool := HAS_NEON.

(** Without NEON the function is compiled as a stub that leaves [h] alone. *)
Definition blake2s_compress_neon `{NeonBuild} (h block : list Z) (t0 t1 f0 f1 : Z) : list Z :=
  if HAS_NEON then
    let m := message_words block in
    let row0 := vld1q_u32 h 0 in
    let row1 := vld1q_u32 h 4 in
    let row2 := vld1q_u32 blake2s_iv 0 in
    let row3 := vsetq_lane_u32 (Z.lxor t0 (rd blake2s_iv 4)) (vld1q_u32 blake2s_iv 4) 0 in
    let row3 := vsetq_lane_u32 (Z.lxor t1 (rd blake2s_iv 5)) row3 1 in
    let row3 := vsetq_lane_u32 (Z.lxor f0 (rd blake2s_iv 6)) row3 2 in
    let row3 := vsetq_lane_u32 (Z.lxor f1 (rd blake2s_iv 7)) row3 3 in
    let orig0 := row0 in
    let orig1 := row1 in
    let '(row0, row1, row2, row3) :=
      fold_left (fun r i => round_neon m (sigma_row i) r) (seq 0 10) (row0, row1, row2, row3) in
    let row0 := veorq_u32 row0 row2 in
    let row1 := veorq_u32 row1 row3 in
    let row0 := veorq_u32 row0 orig0 in
    let row1 := veorq_u32 row1 orig1 in
    vst1q_u32 row0 ++ vst1q_u32 row1
  else h.

Definition blake2s_compress `{NeonBuild} (S : blake2s_state) (block : list Z) : blake2s_state :=
  if blake2s_neon_available
  then mkBlake (blake2s_compress_neon (bs_h S) block (rd (bs_t S) 0) (rd (bs_t S) 1)
                  (rd (bs_f S) 0) (rd (bs_f S) 1))
         (bs_t S) (bs_f S) (buf S) (buflen S) (outlen S)
  else blake2s_compress_scalar S block.

(** ** The vector path computes the scalar path *)

Definition rows_of (v : list Z) : rows :=
  (vld1q_u32 v 0, vld1q_u32 v 4, vld1q_u32 v 8, vld1q_u32 v 12).

(** [G] on four words, with its two message words. *)
Definition g_lane (a b c d x y : Z) : Z * Z * Z * Z :=
  let a := add32 (add32 a b) x in
  let d := rotr32 (Z.lxor d a) 16 in
  let c := add32 c d in
  let b := rotr32 (Z.lxor b c) 12 in
  let a := add32 (add32 a b) y in
  let d := rotr32 (Z.lxor d a) 8 in
  let c := add32 c d in
  let b := rotr32 (Z.lxor b c) 7 in
  (a, b, c, d).

Definition store4 (a b c d : Z) (r : Z * Z * Z * Z) (v : list Z) : list Z :=
  let '(x, y, z, w) := r in wr (wr (wr (wr v a x) d w) c z) b y.

(** [G] changes its four words to the results of [g_lane]. *)
Lemma G_lane m s i a b c d v :
  length v = 16%nat -> 0 <= a < 16 -> 0 <= b < 16 -> 0 <= c < 16 -> 0 <= d < 16 ->
  a <> b -> a <> c -> a <> d -> b <> c -> b <> d -> c <> d ->
  G m s i a b c d v
  = store4 a b c d (g_lane (rd v a) (rd v b) (rd v c) (rd v d)
                      (rd m (rd s (2 * i + 0))) (rd m (rd s (2 * i + 1)))) v.
Proof.
  intros. unfold G, g_lane, store4. cbv zeta.
  repeat first [rewrite rd_wr_eq by (rewrite ?length_wr; lia) | rewrite rd_wr_ne by lia].
  rewrite (wr_wr_ne _ b a), (wr_wr_ne _ c a), (wr_wr_ne _ d a), wr_wr_eq by lia.
  rewrite (wr_wr_ne _ b d), (wr_wr_ne _ c d), wr_wr_eq by lia.
  rewrite (wr_wr_ne _ b c), wr_wr_eq, wr_wr_eq by lia. done.
Qed.

Definition zip_lanes (r0 r1 r2 r3 : Z * Z * Z * Z) : rows :=
  let '(a0, b0, c0, e0) := r0 in let '(a1, b1, c1, e1) := r1 in
  let '(a2, b2, c2, e2) := r2 in let '(a3, b3, c3, e3) := r3 in
  (Q a0 a1 a2 a3, Q b0 b1 b2 b3, Q c0 c1 c2 c3, Q e0 e1 e2 e3).

(** [g_neon] is [g_lane] on each lane. *)
Lemma g_neon_lanes a b c d mx my :
  g_neon (a, b, c, d) mx my
  = zip_lanes (g_lane (q0 a) (q0 b) (q0 c) (q0 d) (q0 mx) (q0 my))
              (g_lane (q1 a) (q1 b) (q1 c) (q1 d) (q1 mx) (q1 my))
              (g_lane (q2 a) (q2 b) (q2 c) (q2 d) (q2 mx) (q2 my))
              (g_lane (q3 a) (q3 b) (q3 c) (q3 d) (q3 mx) (q3 my)).
Proof.
  destruct a as [a0 a1 a2 a3], b as [b0 b1 b2 b3], c as [c0 c1 c2 c3], d as [e0 e1 e2 e3],
    mx as [x0 x1 x2 x3], my as [y0 y1 y2 y3].
  cbv [g_neon ROTR16 vrev32q_u16 rotr32_12 rotr32_8 rotr32_7 vorrq_u32 veorq_u32 vaddq_u32 vshlq_n_u32 vshrq_n_u32
    vmap1 vmap2 q0 q1 q2 q3 g_lane zip_lanes]. rewrite !rev16_rotr. cbv [rotr32].
  reflexivity.
Qed.


(** One [G] on a literal work vector, naming its results. *)
Ltac step_G i a b c d :=
  rewrite (G_lane _ _ i a b c d) by (reflexivity || lia);
  lazymatch goal with |- context [g_lane (rd ?v a) (rd _ b) (rd _ c) (rd _ d) (rd ?m (rd ?s ?k)) (rd ?m (rd ?s ?l))] =>
    let k' := eval compute in k in
    let l' := eval compute in l in
    let x := fresh "x" in let y := fresh "y" in
    change k with k'; change l with l';
    generalize (rd m (rd s k')) as x; intros x; generalize (rd m (rd s l')) as y; intros y;
    let E := fresh "E" in
    destruct (g_lane (rd v a) (rd v b) (rd v c) (rd v d) x y) as [[[? ?] ?] ?] eqn:E;
    lazy [rd nth Z.to_nat Pos.to_nat Pos.iter_op Nat.add] in E
  end;
  cbn [store4]; unfold wr;
  lazy [insert list_insert Z.to_nat Pos.to_nat Pos.iter_op Nat.add].

Lemma round_neon_scalar m s v :
  length v = 16%nat ->
  length (ROUND m s v) = 16%nat /\ round_neon m s (rows_of v) = rows_of (ROUND m s v).
Proof.
  intros Hv. do 16 (destruct v as [|?v v]; [discriminate|]). destruct v; [|discriminate].
  clear Hv. unfold ROUND, round_neon, gather4. cbv zeta.
  step_G 0 0 4 8 12. step_G 1 1 5 9 13. step_G 2 2 6 10 14. step_G 3 3 7 11 15.
  step_G 4 0 5 10 15. step_G 5 1 6 11 12. step_G 6 2 7 8 13. step_G 7 3 4 9 14.
  split; [reflexivity|].
  unfold rows_of at 1. rewrite g_neon_lanes. lazy -[g_lane g_neon]. rewrite E, E0, E1, E2. 
  lazy -[g_lane g_neon]. rewrite g_neon_lanes. lazy -[g_lane g_neon]. rewrite E3, E4, E5, E6. reflexivity.
Qed.

Lemma rounds_neon_scalar m v n :
  length v = 16%nat ->
  length (fold_left (fun v r => ROUND m (sigma_row r) v) n v) = 16%nat /\
  fold_left (fun r i => round_neon m (sigma_row i) r) n (rows_of v)
  = rows_of (fold_left (fun v r => ROUND m (sigma_row r) v) n v).
Proof.
  apply (fold_left_sim (fun v r => ROUND m (sigma_row r) v)
           (fun r i => round_neon m (sigma_row i) r) rows_of (fun v => length v = 16%nat)).
  intros w r Hw. exact (round_neon_scalar m (sigma_row r) w Hw).
Qed.

Lemma compress_neon_scalar `{NeonBuild} S block :
  HAS_NEON = true -> length (bs_h S) = 8%nat ->
  blake2s_compress_neon (bs_h S) block (rd (bs_t S) 0) (rd (bs_t S) 1) (rd (bs_f S) 0) (rd (bs_f S) 1)
  = bs_h (blake2s_compress_scalar S block).
Proof.
  intros HN Hh. unfold blake2s_compress_neon. rewrite HN.
  unfold blake2s_compress_scalar. cbn [bs_h]. cbv zeta.
  generalize (message_words block) as m; intros m.
  generalize (rd (bs_t S) 0), (rd (bs_t S) 1), (rd (bs_f S) 0), (rd (bs_f S) 1).
  destruct S as [h ? ? ? ? ?]; cbn [bs_h] in *. intros t0 t1 f0 f1.
  destruct h as [|h0 [|h1 [|h2 [|h3 [|h4 [|h5 [|h6 [|h7 [|]]]]]]]]]; try discriminate Hh.
  lazymatch goal with |- context [init_vector ?h t0 t1 f0 f1] => set (v := init_vector h t0 t1 f0 f1) end.
  destruct (rounds_neon_scalar m v (seq 0 10) eq_refl) as [Hl E].
  lazymatch goal with |- context [fold_left _ _ ?r] => assert (r = rows_of v) as -> by reflexivity end.
  rewrite E. unfold rounds. clear E.
  generalize dependent (fold_left (fun v r => ROUND m (sigma_row r) v) (seq 0 10) v). clear v.
  intros v Hv. do 16 (destruct v as [|?v v]; [discriminate|]). destruct v; [|discriminate].
  cbv -[Z.lxor]. rewrite (Z.lxor_comm _ h0), (Z.lxor_comm _ h1), (Z.lxor_comm _ h2),
    (Z.lxor_comm _ h3), (Z.lxor_comm _ h4), (Z.lxor_comm _ h5), (Z.lxor_comm _ h6),
    (Z.lxor_comm _ h7), !Z.lxor_assoc. done.
Qed.

(** The compression function does not depend on the build. *)
Lemma compress_scalar `{NeonBuild} S block :
  length (bs_h S) = 8%nat -> blake2s_compress S block = blake2s_compress_scalar S block.
Proof.
  intros. unfold blake2s_compress, blake2s_neon_available. destruct HAS_NEON eqn:E; [|done].
  rewrite compress_neon_scalar by done. done.
Qed.

(** ** The incremental interface *)

Section api.
Context `{NeonBuild}.

Definition blake2s_init (outlen : Z) : blake2s_state :=
  let h := blake2s_iv in
  let h := wr h 0 (Z.lxor (rd h 0) (Z.lxor 0x01010000 (u32 outlen))) in
  mkBlake h [0; 0] [0; 0] (replicate 64 0) 0 outlen.

(** [S->t[0] += n; if (S->t[0] < n) S->t[1]++;] *)
Definition count_bytes (st : blake2s_state) (n : Z) : blake2s_state :=
  let t0 := add32 (rd (bs_t st) 0) (u32 n) in
  let t1 := rd (bs_t st) 1 in
  mkBlake (bs_h st) [t0; if t0 <? n then add32 t1 1 else t1]
    (bs_f st) (buf st) (buflen st) (outlen st).

(** [while (inlen > BLAKE2S_BLOCK_SIZE)]: the fuel bounds the iterations, each
    of which consumes 64 bytes. *)
Fixpoint update_loop (fuel : nat) (st : blake2s_state) (pin : list Z) : blake2s_state * list Z :=
  if (64 <? length pin)%nat then
    match fuel with
    | O => (st, pin)
    | S fuel =>
        update_loop fuel
          (blake2s_compress (count_bytes st BLAKE2S_BLOCK_SIZE) (take 64 pin)) (drop 64 pin)
    end
  else (st, pin).

Definition set_buf (st : blake2s_state) (b : list Z) (n : Z) : blake2s_state :=
  mkBlake (bs_h st) (bs_t st) (bs_f st) b n (outlen st).

Definition blake2s_update (st : blake2s_state) (pin : list Z) : blake2s_state :=
  if (length pin =? 0)%nat then st
  else
    let nleft := buflen st in
    let fill := BLAKE2S_BLOCK_SIZE - nleft in
    let '(st, pin, nleft) :=
      if fill <? Z.of_nat (length pin) then
        let '(st, pin, nleft) :=
          if 0 <? nleft then
            let st := set_buf st (copy_at (buf st) nleft (take (Z.to_nat fill) pin)) (buflen st) in
            (blake2s_compress (count_bytes st BLAKE2S_BLOCK_SIZE) (buf st),
             drop (Z.to_nat fill) pin, 0)
          else (st, pin, nleft) in
        let '(st, pin) := update_loop (length pin) st pin in
        (st, pin, nleft)
      else (st, pin, nleft) in
    set_buf st (copy_at (buf st) nleft pin) (nleft + Z.of_nat (length pin)).

Definition blake2s_init_key (outlen : Z) (key : list Z) : blake2s_state :=
  let st := blake2s_init outlen in
  let keylen := Z.of_nat (length key) in
  let st := mkBlake (wr (bs_h st) 0 (Z.lxor (rd (bs_h st) 0) (shl32 (u32 keylen) 8)))
             (bs_t st) (bs_f st) (buf st) (buflen st) (Blake2s.outlen st) in
  if 0 <? keylen then blake2s_update st (copy_at (replicate 64 0) 0 key) else st.

Definition blake2s_final (st : blake2s_state) : list Z :=
  let st := count_bytes st (buflen st) in
  let st := mkBlake (bs_h st) (bs_t st) (wr (bs_f st) 0 0xFFFFFFFF) (buf st) (buflen st) (outlen st) in
  let st := set_buf st (copy_at (buf st) (buflen st)
                        (replicate (Z.to_nat (BLAKE2S_BLOCK_SIZE - buflen st)) 0)) (buflen st) in
  let st := blake2s_compress st (buf st) in
  map (fun i => Z.land (shr32 (rd (bs_h st) (Z.of_nat i / 4)) (8 * (Z.of_nat i mod 4))) 0xFF)
    (seq 0 (Z.to_nat (outlen st))).

Definition blake2s (outlen : Z) (input key : list Z) : list Z :=
  let st := if 0 <? Z.of_nat (length key) then blake2s_init_key outlen key else blake2s_init outlen in
  blake2s_final (blake2s_update st input).
End api.

(** RFC 7693, appendix B: BLAKE2s-256 of "abc". *)
Example blake2s_abc :
  @blake2s true 32 [0x61; 0x62; 0x63] [] =
  [0x50; 0x8C; 0x5E; 0x8C; 0x32; 0x7C; 0x14; 0xE2; 0xE1; 0xA7; 0x2B; 0xA3; 0x4E; 0xEB; 0x45; 0x2F;
   0x37; 0x45; 0x8B; 0x20; 0x9E; 0xD6; 0x3A; 0x29; 0x4D; 0x99; 0x9B; 0x4C; 0x86; 0x67; 0x59; 0x82].
Proof. vm_compute. reflexivity. Qed.

(** ** RFC 7693 *)

(** The compression function [F(h, m, t, f)] of section 3.2, on a 64-byte block. *)
Definition F (h block : list Z) (t : Z) (last : bool) : list Z :=
  let v := rounds (message_words block)
             (init_vector h (t mod 2 ^ 32) ((t / 2 ^ 32) mod 2 ^ 32) (if last then 2 ^ 32 - 1 else 0) 0) in
  map (fun i => Z.lxor (Z.lxor (rd h (Z.of_nat i)) (rd v (Z.of_nat i))) (rd v (Z.of_nat i + 8))) (seq 0 8).

(** Block [i] of the message, and the chaining value after [n] blocks. *)
Definition msg_block (M : list Z) (i : nat) : list Z := take 64 (drop (64 * i) M).

Fixpoint chain (h0 M : list Z) (n : nat) : list Z :=
  match n with
  | O => h0
  | S k => F (chain h0 M k) (msg_block M k) (64 * Z.of_nat (S k)) false
  end.

(** All blocks but the last one, which may be short. *)
Definition full_blocks (n : nat) : nat := ((n - 1) / 64)%nat.

Definition pad_block (b : list Z) : list Z := b ++ replicate (64 - length b) 0.

Definition digest (h0 M : list Z) (outlen : Z) : list Z :=
  let n := full_blocks (length M) in
  let h := F (chain h0 M n) (pad_block (drop (64 * n) M)) (Z.of_nat (length M)) true in
  take (Z.to_nat outlen) (concat (map (le_bytes 4) h)).

(** The parameter block: digest length, key length, fanout and depth 1. *)
Definition param_h0 (outlen keylen : Z) : list Z :=
  wr blake2s_iv 0 (Z.lxor (rd blake2s_iv 0) (Z.lxor (Z.lxor 0x01010000 (Z.shiftl keylen 8)) outlen)).

(** BLAKE2s with [key] prepended as a zero-padded block when it is not empty. *)
Definition blake2s_rfc (outlen : Z) (input key : list Z) : list Z :=
  digest (param_h0 outlen (Z.of_nat (length key)))
    ((if (length key =? 0)%nat then [] else pad_block key) ++ input) outlen.

(** ** The incremental interface computes the RFC function *)

Section correct.
Context `{NeonBuild}.
Variable h0 : list Z.
Hypothesis Hh0 : length h0 = 8%nat.

Lemma length_F h block t last : length (F h block t last) = 8%nat.
Proof. unfold F. cbv zeta. rewrite length_map, length_seq. reflexivity. Qed.

Lemma length_chain M n : length (chain h0 M n) = 8%nat.
Proof. destruct n; [exact Hh0|]. apply length_F. Qed.

Lemma chain_app M d n : (64 * n <= length M)%nat -> chain h0 (M ++ d) n = chain h0 M n.
Proof.
  induction n as [|n IH]; [reflexivity|]. intros Hn. cbn [chain]. rewrite IH by lia.
  unfold msg_block. rewrite drop_app_le, take_app_le by (rewrite ?length_drop; lia). reflexivity.
Qed.

(** The byte counter as two words. *)
Definition count_words (t : Z) : list Z := [t mod 2 ^ 32; (t / 2 ^ 32) mod 2 ^ 32].

Lemma rd_pair0 a b : rd [a; b] 0 = a.
Proof. reflexivity. Qed.
Lemma rd_pair1 a b : rd [a; b] 1 = b.
Proof. reflexivity. Qed.

Lemma count_bytes_words st t n :
  0 <= t -> 0 <= n < 2 ^ 32 -> bs_t st = count_words t -> bs_t (count_bytes st n) = count_words (t + n).
Proof.
  intros Ht Hn E. unfold count_bytes. rewrite E. unfold count_words, add32.
  rewrite rd_pair0, rd_pair1. cbn [bs_t]. rewrite (u32_small n) by (unfold is_u32; lia).
  unfold u32. change 4294967296 with (2 ^ 32). rewrite Zplus_mod_idemp_l. f_equal.
  destruct (Z.ltb_spec ((t + n) mod 2 ^ 32) n).
  - rewrite Zplus_mod_idemp_l. do 2 f_equal. f_equal. zlia.
  - do 2 f_equal. zlia.
Qed.

(** The state when the first [k] blocks of [N] are compressed. *)
Definition aligned (st : blake2s_state) (N : list Z) (k : nat) : Prop :=
  bs_h st = chain h0 N k /\ bs_t st = count_words (64 * Z.of_nat k) /\ bs_f st = [0; 0] /\
  length (buf st) = 64%nat.

(** The state after [M] was absorbed. *)
Definition absorbed (st : blake2s_state) (M : list Z) : Prop :=
  let n := full_blocks (length M) in
  aligned st M n /\ buflen st = Z.of_nat (length M - 64 * n) /\
  take (length M - 64 * n) (buf st) = drop (64 * n) M.

Lemma compress_F st block t (last : bool) :
  length (bs_h st) = 8%nat -> bs_t st = count_words t ->
  bs_f st = [if last then 2 ^ 32 - 1 else 0; 0] ->
  bs_h (blake2s_compress st block) = F (bs_h st) block t last.
Proof.
  intros Hh Ht Hf. rewrite compress_scalar by done. unfold blake2s_compress_scalar.
  rewrite Ht, Hf. done.
Qed.

Lemma compress_frame st block :
  let st' := blake2s_compress st block in
  bs_t st' = bs_t st /\ bs_f st' = bs_f st /\ buf st' = buf st /\ buflen st' = buflen st /\
  outlen st' = outlen st.
Proof. cbv zeta. unfold blake2s_compress. case_match; done. Qed.

Lemma aligned_step st N k block :
  aligned st N k -> block = msg_block N k ->
  aligned (blake2s_compress (count_bytes st 64) block) N (S k).
Proof.
  intros (Hh & Ht & Hf & Hb) ->.
  destruct (compress_frame (count_bytes st 64) (msg_block N k)) as (Ht' & Hf' & Hb' & _).
  split_and!.
  - rewrite (compress_F _ _ (64 * Z.of_nat (S k)) false).
    + cbn [count_bytes bs_h]. rewrite Hh. done.
    + cbn [count_bytes bs_h]. rewrite Hh. apply length_chain.
    + rewrite (count_bytes_words _ (64 * Z.of_nat k)) by (done || lia). f_equal. lia.
    + exact Hf.
  - rewrite Ht', (count_bytes_words _ (64 * Z.of_nat k)) by (done || lia). f_equal. lia.
  - rewrite Hf'. exact Hf.
  - rewrite Hb'. exact Hb.
Qed.

Lemma update_loop_aligned fuel st N k :
  aligned st N k -> (64 * k < length N)%nat -> (length N - 64 * k <= 64 * fuel)%nat ->
  exists st', update_loop fuel st (drop (64 * k) N)
    = (st', drop (64 * full_blocks (length N)) N) /\
    aligned st' N (full_blocks (length N)) /\ outlen st' = outlen st.
Proof.
  revert st k. induction fuel as [|fuel IH]; intros st k Ha Hk Hf; [lia|].
  cbn [update_loop]. rewrite length_drop. destruct (Nat.ltb_spec 64 (length N - 64 * k)).
  - rewrite drop_drop. replace (64 * k + 64)%nat with (64 * S k)%nat by lia.
    destruct (IH (blake2s_compress (count_bytes st 64) (take 64 (drop (64 * k) N))) (S k))
      as (st' & E & Ha' & Ho); [by apply aligned_step|lia..|].
    exists st'. split_and!; [done|done|]. rewrite Ho.
    destruct (compress_frame (count_bytes st 64) (take 64 (drop (64 * k) N))) as (_&_&_&_&->). done.
  - assert (full_blocks (length N) = k) as ->.
    { unfold full_blocks. symmetry. apply (Nat.div_unique _ _ _ (length N - 1 - 64 * k)); lia. }
    exists st. done.
Qed.

Lemma full_blocks_bounds n : (0 < n)%nat -> (64 * full_blocks n < n <= 64 * full_blocks n + 64)%nat.
Proof.
  intros Hn. unfold full_blocks. pose proof (Nat.div_mod_eq (n - 1) 64).
  pose proof (Nat.mod_upper_bound (n - 1) 64). lia.
Qed.

Lemma full_blocks_unique n k : (64 * k < n <= 64 * k + 64)%nat -> full_blocks n = k.
Proof. intros. unfold full_blocks. symmetry. apply (Nat.div_unique _ _ _ (n - 1 - 64 * k)); lia. Qed.

Lemma aligned_app st M d k : (64 * k <= length M)%nat -> aligned st M k -> aligned st (M ++ d) k.
Proof. intros Hk (? & ?). split; [rewrite chain_app|]; done. Qed.

(** The last step of [blake2s_update]: the rest of the input goes to the buffer. *)
Lemma absorbed_buffer st N k off rest :
  aligned st N k -> (64 * k < length N <= 64 * k + 64)%nat ->
  (64 * k + off + length rest = length N)%nat ->
  take off (buf st) ++ rest = drop (64 * k) N ->
  absorbed (set_buf st (copy_at (buf st) (Z.of_nat off) rest) (Z.of_nat off + Z.of_nat (length rest))) N.
Proof.
  intros Ha Hk Hoff Hd. pose proof Ha as (Hh & Ht & Hf & Hb). unfold absorbed.
  rewrite (full_blocks_unique _ k) by done. cbn [set_buf buflen buf]. split_and!.
  - split_and!; [done..|]. cbn [set_buf buf]. rewrite length_copy_at; lia.
  - lia.
  - rewrite <- Hd. replace (length N - 64 * k)%nat with (Z.to_nat (Z.of_nat off) + length rest)%nat by lia.
    rewrite take_copy_at by lia. rewrite Nat2Z.id. done.
Qed.

Lemma absorbed_nil_buflen st M : absorbed st M -> (buflen st = 0 <-> M = []).
Proof.
  intros (_ & Hb & _). rewrite Hb. destruct M as [|b M]; [done|].
  pose proof (full_blocks_bounds (length (b :: M)) ltac:(simpl; lia)). simpl in *. split; [lia|done].
Qed.

(** Filling up the buffered block. *)
Lemma aligned_fill st M d n r fill :
  aligned st M n -> (64 * n < length M <= 64 * n + 64)%nat -> (r = length M - 64 * n)%nat ->
  (fill = 64 - r)%nat -> (fill <= length d)%nat ->
  take r (buf st) = drop (64 * n) M ->
  aligned (blake2s_compress
    (count_bytes (set_buf st (copy_at (buf st) (Z.of_nat r) (take fill d)) (Z.of_nat r)) 64)
    (copy_at (buf st) (Z.of_nat r) (take fill d))) (M ++ d) (S n).
Proof.
  intros (Hh & Ht & Hf & Hb) Hr Er Ef Hd Htk. apply aligned_step.
  - split_and!; [cbn [set_buf bs_h]; rewrite chain_app by lia; done|done..|].
    cbn [set_buf buf]. rewrite length_copy_at; rewrite ?length_take; lia.
  - unfold msg_block. rewrite drop_app_le by lia. unfold copy_at.
    rewrite Nat2Z.id, Htk, length_take, (drop_ge (buf st)), app_nil_r by lia.
    rewrite take_app_ge by (rewrite length_drop; lia).
    rewrite length_drop. do 2 f_equal. lia.
Qed.

(** The loop over whole blocks followed by the copy of the rest. *)
Lemma absorbed_loop st N k fuel :
  aligned st N k -> (64 * k < length N)%nat -> (length N - 64 * k <= 64 * fuel)%nat ->
  absorbed (let '(st, pin) := update_loop fuel st (drop (64 * k) N) in
            set_buf st (copy_at (buf st) 0 pin) (0 + Z.of_nat (length pin))) N.
Proof.
  intros Ha Hk Hf. destruct (update_loop_aligned fuel st N k) as (st' & -> & Ha' & _); [done..|].
  pose proof (full_blocks_bounds (length N) ltac:(lia)).
  apply (absorbed_buffer _ _ (full_blocks (length N)) 0); [done|done| |done].
  rewrite length_drop. lia.
Qed.

(** Absorbing more input, whatever was absorbed before. *)
Lemma update_absorbed st M d : absorbed st M -> absorbed (blake2s_update st d) (M ++ d).
Proof.
  intros HM. unfold blake2s_update. destruct d as [|b d'] eqn:Ed.
  { rewrite app_nil_r. exact HM. }
  rewrite <- Ed. assert (0 < length d)%nat as Hd by (subst d; simpl; lia). clear b d' Ed.
  rewrite (proj2 (Nat.eqb_neq _ _)) by lia.
  pose proof HM as (Ha & Hn & Htk). remember (full_blocks (length M)) as n eqn:En.
  assert (M = [] /\ n = 0%nat \/ 64 * n < length M <= 64 * n + 64)%nat as Hr.
  { destruct M as [|b M]; [left; done|]. right. rewrite En. apply full_blocks_bounds. simpl; lia. }
  remember (length M - 64 * n)%nat as r eqn:Er. rewrite Hn.
  change BLAKE2S_BLOCK_SIZE with 64. destruct (Z.ltb_spec (64 - Z.of_nat r) (Z.of_nat (length d))).
  - destruct (Z.ltb_spec 0 (Z.of_nat r)).
    + destruct Hr as [[-> ->]|Hr]; [simpl in *; lia|].
      remember (Z.to_nat (64 - Z.of_nat r)) as fill eqn:Efill.
      pose proof (aligned_fill st M d n r fill Ha Hr Er ltac:(lia) ltac:(lia) Htk) as Ha'.
      replace (drop fill d) with (drop (64 * S n) (M ++ d)) by (rewrite drop_app_ge by lia; f_equal; lia).
      cbn [set_buf buf buflen]. pose proof (absorbed_loop _ _ _ (length (drop (64 * S n) (M ++ d))) Ha') as Hl.
      rewrite length_drop, length_app in *. case_match. apply Hl; lia.
    + destruct Hr as [[-> ->]|Hr]; [|lia]. assert (r = 0%nat) as -> by (simpl in *; lia).
      pose proof (absorbed_loop st d 0 (length d) Ha) as Hl.
      change (drop (64 * 0) d) with d in Hl. destruct (update_loop (length d) st d). apply Hl; lia.
  - apply (absorbed_buffer _ _ n); rewrite ?length_app.
    + destruct Hr as [[-> ->]|Hr]; [done|]. by apply aligned_app; [lia|].
    + destruct Hr as [[-> ->]|Hr]; simpl in *; lia.
    + destruct Hr as [[-> ->]|Hr]; simpl in *; lia.
    + rewrite Htk. destruct Hr as [[-> ->]|Hr]; [done|]. rewrite drop_app_le by lia. done.
Qed.

Lemma outlen_compress st block : outlen (blake2s_compress st block) = outlen st.
Proof. unfold blake2s_compress. case_match; done. Qed.

Lemma outlen_update_loop fuel st pin : outlen (update_loop fuel st pin).1 = outlen st.
Proof.
  revert st pin. induction fuel as [|fuel IH]; intros st pin; cbn [update_loop]; case_match; try done.
  rewrite IH, outlen_compress. done.
Qed.

Lemma outlen_update st d : outlen (blake2s_update st d) = outlen st.
Proof.
  unfold blake2s_update. destruct (length d =? 0)%nat; [done|]. cbv zeta.
  destruct (_ <? _); [|done]. destruct (0 <? buflen st);
    match goal with |- context [update_loop ?n ?s ?p] =>
      pose proof (outlen_update_loop n s p) as Ho; destruct (update_loop n s p) as [st' pin] end;
    cbn [set_buf outlen fst] in *; rewrite Ho, ?outlen_compress; done.
Qed.

Lemma digest_bytes h n :
  length h = 8%nat -> (n <= 32)%nat ->
  map (fun i => Z.land (shr32 (rd h (Z.of_nat i / 4)) (8 * (Z.of_nat i mod 4))) 0xFF) (seq 0 n)
  = take n (concat (map (le_bytes 4) h)).
Proof.
  intros Hh Hn. replace (seq 0 n) with (take n (seq 0 32)).
  2: { rewrite take_seq. f_equal. lia. }
  rewrite <- firstn_map. f_equal.
  assert (map (le_bytes 4) h = map store32_le h) as ->.
  { apply map_ext. intros x. symmetry. apply store32_le_bytes. }
  do 8 (destruct h as [|? h]; [discriminate|]). destruct h; [|discriminate].
  cbn [map concat app store32_le]. assert (forall v, u8 v = Z.land v 0xFF) as Hu.
  { intros v. unfold u8. change 255 with (Z.ones 8). rewrite Z.land_ones by lia. done. }
  rewrite !Hu. cbn -[Z.land]. unfold shr32. rewrite !Z.shiftr_0_r. reflexivity.
Qed.

Lemma final_digest st M :
  absorbed st M -> 0 <= outlen st <= 32 -> blake2s_final st = digest h0 M (outlen st).
Proof.
  intros ((Hh & Ht & Hf & Hb) & Hn & Htk) Ho. unfold blake2s_final, digest.
  set (n := full_blocks (length M)) in *.
  assert (64 * n <= length M /\ length M - 64 * n <= 64)%nat as Hr.
  { destruct M as [|b M]; [subst n; cbn; lia|]. pose proof (full_blocks_bounds (length (b :: M))).
    subst n. simpl in *. lia. }
  set (st1 := count_bytes st (buflen st)). cbv zeta.
  assert (bs_t st1 = count_words (Z.of_nat (length M))) as Ht1.
  { unfold st1. rewrite (count_bytes_words _ (64 * Z.of_nat n)) by (done || lia). f_equal. lia. }
  change (buflen st1) with (buflen st). change (buf st1) with (buf st). cbn [set_buf buf buflen].
  match goal with |- context [blake2s_compress ?x ?b] => set (st2 := x); set (blk := b) end.
  assert (blk = pad_block (drop (64 * n) M)) as Eblk.
  { unfold blk, copy_at, pad_block. change BLAKE2S_BLOCK_SIZE with 64.
    rewrite Hn, Nat2Z.id, Htk. f_equal.
    rewrite length_replicate, drop_ge by lia. rewrite app_nil_r, length_drop. f_equal. lia. }
  assert (bs_h st2 = chain h0 M n) as Hh2 by exact Hh.
  rewrite outlen_compress, (compress_F st2 _ (Z.of_nat (length M)) true), Hh2, Eblk.
  - apply digest_bytes; [apply length_F|]. change (outlen st2) with (outlen st). lia.
  - rewrite Hh2. apply length_chain.
  - exact Ht1.
  - unfold st2, set_buf. cbn [bs_f]. change (bs_f st1) with (bs_f st). rewrite Hf. reflexivity.
Qed.
End correct.

Lemma absorbed_init `{NeonBuild} n : absorbed (bs_h (blake2s_init n)) (blake2s_init n) [].
Proof. unfold absorbed, aligned. cbn. done. Qed.

Lemma length_init_h `{NeonBuild} n : length (bs_h (blake2s_init n)) = 8%nat.
Proof. reflexivity. Qed.

Lemma init_h0 `{NeonBuild} n : 0 <= n < 2 ^ 32 -> bs_h (blake2s_init n) = param_h0 n 0.
Proof. intros. cbn [blake2s_init bs_h]. rewrite u32_small by done. reflexivity. Qed.

(** The initial state with a key, before the key block is absorbed. *)
Definition keyed_state `{NeonBuild} (outlen : Z) (key : list Z) : blake2s_state :=
  mkBlake (param_h0 outlen (Z.of_nat (length key))) [0; 0] [0; 0] (replicate 64 0) 0 outlen.

Lemma init_key_state `{NeonBuild} n key :
  0 <= n < 2 ^ 32 -> (0 < length key <= 64)%nat ->
  blake2s_init_key n key = blake2s_update (keyed_state n key) (pad_block key).
Proof.
  intros Hn Hk. unfold blake2s_init_key. rewrite (proj2 (Z.ltb_lt _ _)) by lia.
  replace (copy_at (replicate 64 0) 0 key) with (pad_block key).
  - f_equal. unfold keyed_state, blake2s_init. cbn [bs_h bs_t bs_f buf buflen]. f_equal.
    rewrite wr_wr_eq. unfold param_h0. f_equal.
    rewrite rd_wr_eq by (simpl; lia). rewrite !u32_small by (unfold is_u32; lia).
    unfold shl32. rewrite u32_small.
    + rewrite !Z.lxor_assoc. do 2 f_equal. apply Z.lxor_comm.
    + unfold is_u32. rewrite Z.shiftl_mul_pow2; lia.
  - unfold pad_block, copy_at. change (Z.to_nat 0) with 0%nat. cbn [take Nat.add app].
    rewrite drop_replicate. reflexivity.
Qed.

Lemma blake2s_pieces `{NeonBuild} n ds :
  0 <= n <= 32 ->
  blake2s_final (fold_left blake2s_update ds (blake2s_init n)) = blake2s_rfc n (concat ds) [].
Proof.
  intros Hn.
  assert (forall st M, absorbed (param_h0 n 0) st M -> outlen st = n ->
    absorbed (param_h0 n 0) (fold_left blake2s_update ds st) (M ++ concat ds) /\
    outlen (fold_left blake2s_update ds st) = n) as Hfold.
  { induction ds as [|d ds IH]; intros st M HM Ho; cbn [fold_left concat].
    - rewrite app_nil_r. done.
    - rewrite app_assoc. apply IH; [by apply update_absorbed|by rewrite outlen_update]. }
  pose proof (absorbed_init n) as H0. rewrite init_h0 in H0 by lia.
  destruct (Hfold _ _ H0 eq_refl) as [Ha Ho].
  rewrite (final_digest (param_h0 n 0) eq_refl _ _ Ha), Ho by lia. done.
Qed.

(** C30. The incremental BLAKE2s interface: hashing a message in any pieces, with
    either the scalar or the vector compression function, gives the RFC 7693
    hash of the concatenation of the pieces. *)
Theorem blake2s_incremental `{NeonBuild} n ds :
  0 <= n <= 32 ->
  blake2s_final (fold_left blake2s_update ds (blake2s_init n)) = blake2s_rfc n (concat ds) [].
Proof. apply blake2s_pieces. Qed.

Lemma blake2s_incremental_witness :
  @blake2s_final true (fold_left (@blake2s_update true) [[1; 2]; []; replicate 90 7] (blake2s_init 16))
  = blake2s_rfc 16 (concat [[1; 2]; []; replicate 90 7]) [].
Proof. apply (@blake2s_incremental true 16 [[1; 2]; []; replicate 90 7]); lia. Defined.

Lemma blake2s_eq_rfc `{NeonBuild} n input key :
  0 <= n <= 32 -> (length key <= 32)%nat -> blake2s n input key = blake2s_rfc n input key.
Proof.
  intros Hn Hk. unfold blake2s, blake2s_rfc. destruct (Nat.eqb_spec (length key) 0) as [E|E].
  - rewrite E. rewrite (final_digest (param_h0 n 0) eq_refl _ input), outlen_update.
    + done.
    + apply (update_absorbed (param_h0 n 0) eq_refl _ [] input). rewrite <- (init_h0 n) by lia. apply absorbed_init.
    + rewrite outlen_update. exact Hn.
  - rewrite (proj2 (Z.ltb_lt _ _)), init_key_state by lia.
    set (h0 := param_h0 n (Z.of_nat (length key))).
    assert (absorbed h0 (keyed_state n key) []) as H0 by (unfold absorbed, aligned; cbn; done).
    pose proof (update_absorbed h0 eq_refl _ _ (pad_block key) H0) as H1.
    pose proof (update_absorbed h0 eq_refl _ _ input H1) as H2.
    rewrite (final_digest h0 eq_refl _ _ H2), !outlen_update; [done|]. rewrite !outlen_update. simpl. lia.
Qed.

(** The one-shot function [blake2s], keyed or not, is the RFC 7693 function
    on every message, for digests of up to 32 and keys of up to 32 bytes. *)
Theorem blake2s_correct `{NeonBuild} n input key :
  0 <= n <= 32 -> (length key <= 32)%nat -> blake2s n input key = blake2s_rfc n input key.
Proof. apply blake2s_eq_rfc. Qed.

Lemma blake2s_correct_witness :
  @blake2s false 16 [1; 2; 3] (replicate 32 5) = blake2s_rfc 16 [1; 2; 3] (replicate 32 5).
Proof. apply (@blake2s_correct false 16 [1; 2; 3] (replicate 32 5)); simpl; lia. Defined.
