(* ===== verification/ChaCha20.v ===== *)
(** * ChaCha20 (src/wg_chacha20_neon.c)

    The vector block function and stream cipher, against the functions of
    RFC 8439, sections 2.1 to 2.4. *)

From S2P Require Import Prelude Neon.

Definition CHACHA20_CONSTANTS_0 : Z := 0x61707865.
Definition CHACHA20_CONSTANTS_1 : Z := 0x3320646e.
Definition CHACHA20_CONSTANTS_2 : Z := 0x79622d32.
Definition CHACHA20_CONSTANTS_3 : Z := 0x6b206574.

Definition rotl_neon (x : uint32x4_t) (n : Z) : uint32x4_t :=
  vorrq_u32 (vshlq_n_u32 x n) (vshrq_n_u32 x (32 - n)).
Definition ROTL16 (x : uint32x4_t) : uint32x4_t := vrev32q_u16 x.

Definition rows : Type := uint32x4_t * uint32x4_t * uint32x4_t * uint32x4_t.

Definition quarterround_neon (r : rows) : rows :=
  let '(a, b, c, d) := r in
  let a := vaddq_u32 a b in
  let d := veorq_u32 d a in
  let d := ROTL16 d in
  let c := vaddq_u32 c d in
  let b := veorq_u32 b c in
  let b := rotl_neon b 12 in
  let a := vaddq_u32 a b in
  let d := veorq_u32 d a in
  let d := rotl_neon d 8 in
  let c := vaddq_u32 c d in
  let b := veorq_u32 b c in
  let b := rotl_neon b 7 in
  (a, b, c, d).

(** The body of the loop over the ten double rounds. *)
Definition double_round_neon (r : rows) : rows :=
  let '(row0, row1, row2, row3) := quarterround_neon r in
  let row1 := vextq_u32 row1 row1 1 in
  let row2 := vextq_u32 row2 row2 2 in
  let row3 := vextq_u32 row3 row3 3 in
  let '(row0, row1, row2, row3) := quarterround_neon (row0, row1, row2, row3) in
  let row1 := vextq_u32 row1 row1 3 in
  let row2 := vextq_u32 row2 row2 2 in
  let row3 := vextq_u32 row3 row3 1 in
  (row0, row1, row2, row3).

Definition chacha20_block_neon_internal (input : list Z) : list Z :=
  let row0 := vld1q_u32 input 0 in
  let row1 := vld1q_u32 input 4 in
  let row2 := vld1q_u32 input 8 in
  let row3 := vld1q_u32 input 12 in
  let orig0 := row0 in
  let orig1 := row1 in
  let orig2 := row2 in
  let orig3 := row3 in
  let '(row0, row1, row2, row3) :=
    fold_left (fun r _ => double_round_neon r) (seq 0 10) (row0, row1, row2, row3) in
  let row0 := vaddq_u32 row0 orig0 in
  let row1 := vaddq_u32 row1 orig1 in
  let row2 := vaddq_u32 row2 orig2 in
  let row3 := vaddq_u32 row3 orig3 in
  vst1q_u32 row0 ++ vst1q_u32 row1 ++ vst1q_u32 row2 ++ vst1q_u32 row3.

(** [state[0..15]] as both entry points fill it in. *)
Definition chacha_state (key nonce : list Z) (counter : Z) : list Z :=
  [CHACHA20_CONSTANTS_0; CHACHA20_CONSTANTS_1; CHACHA20_CONSTANTS_2; CHACHA20_CONSTANTS_3;
   load32_le key 0; load32_le key 4; load32_le key 8; load32_le key 12;
   load32_le key 16; load32_le key 20; load32_le key 24; load32_le key 28;
   counter; load32_le nonce 0; load32_le nonce 4; load32_le nonce 8].

(** [for (i = 0; i < 16; i++) store32_le(out + i * 4, block[i]);] *)
Definition store_block (block : list Z) : list Z :=
  concat (map (fun i => store32_le (rd block (Z.of_nat i))) (seq 0 16)).

Definition wg_chacha20_block_neon (key nonce : list Z) (counter : Z) : list Z :=
  store_block (chacha20_block_neon_internal (chacha_state key nonce counter)).

(** Four words of byte memory, on the little-endian target. *)
Definition vld1q_bytes (p : list Z) (o : Z) : uint32x4_t :=
  Q (load32_le p o) (load32_le p (o + 4)) (load32_le p (o + 8)) (load32_le p (o + 12)).
Definition vst1q_bytes (x : uint32x4_t) : list Z :=
  store32_le (q0 x) ++ store32_le (q1 x) ++ store32_le (q2 x) ++ store32_le (q3 x).

(** One iteration of [while (len >= 64)]: 64 input bytes against one block. *)
Definition xor_block_neon (input block : list Z) : list Z :=
  vst1q_bytes (veorq_u32 (vld1q_bytes input 0) (vld1q_u32 block 0)) ++
  vst1q_bytes (veorq_u32 (vld1q_bytes input 16) (vld1q_u32 block 4)) ++
  vst1q_bytes (veorq_u32 (vld1q_bytes input 32) (vld1q_u32 block 8)) ++
  vst1q_bytes (veorq_u32 (vld1q_bytes input 48) (vld1q_u32 block 12)).

(** The loop and the tail; the fuel bounds the iterations, each of which
    consumes 64 bytes. *)
Fixpoint chacha20_loop (fuel : nat) (input key nonce : list Z) (counter : Z) : list Z :=
  if (64 <=? length input)%nat then
    match fuel with
    | O => []
    | S fuel =>
        let block := chacha20_block_neon_internal (chacha_state key nonce counter) in
        xor_block_neon (take 64 input) block
          ++ chacha20_loop fuel (drop 64 input) key nonce (add32 counter 1)
    end
  else if (0 <? length input)%nat then
    let block := chacha20_block_neon_internal (chacha_state key nonce counter) in
    let keystream := store_block block in
    map (fun i => Z.lxor (rd input (Z.of_nat i)) (rd keystream (Z.of_nat i))) (seq 0 (length input))
  else [].

Definition wg_chacha20_neon (input key nonce : list Z) (counter : Z) : list Z :=
  chacha20_loop (length input) input key nonce counter.

Definition wg_chacha20_neon_available `{NeonBuild} : bool := HAS_NEON.

(** ** RFC 8439 *)

(** Section 2.1: the quarter round on four words. *)
Definition quarterround (a b c d : Z) : Z * Z * Z * Z :=
  let a := add32 a b in let d := Z.lxor d a in let d := rotl32 d 16 in
  let c := add32 c d in let b := Z.lxor b c in let b := rotl32 b 12 in
  let a := add32 a b in let d := Z.lxor d a in let d := rotl32 d 8 in
  let c := add32 c d in let b := Z.lxor b c in let b := rotl32 b 7 in
  (a, b, c, d).

(** Section 2.2: QUARTERROUND(x, y, z, w) on the state. *)
Definition QUARTERROUND (x y z w : Z) (s : list Z) : list Z :=
  let '(a, b, c, d) := quarterround (rd s x) (rd s y) (rd s z) (rd s w) in
  wr (wr (wr (wr s x a) y b) z c) w d.

(** Section 2.3.1 *)
Definition inner_block (s : list Z) : list Z :=
  let s := QUARTERROUND 0 4 8 12 s in
  let s := QUARTERROUND 1 5 9 13 s in
  let s := QUARTERROUND 2 6 10 14 s in
  let s := QUARTERROUND 3 7 11 15 s in
  let s := QUARTERROUND 0 5 10 15 s in
  let s := QUARTERROUND 1 6 11 12 s in
  let s := QUARTERROUND 2 7 8 13 s in
  QUARTERROUND 3 4 9 14 s.

Definition chacha20_block_rfc (key nonce : list Z) (counter : Z) : list Z :=
  let state := chacha_state key nonce counter in
  let working := fold_left (fun s _ => inner_block s) (seq 0 10) state in
  concat (map (le_bytes 4) (zip_with add32 working state)).

(** Section 2.4: the message against the blocks [counter], [counter + 1], ... *)
Definition keystream_rfc (key nonce : list Z) (counter : Z) (n : nat) : list Z :=
  concat (map (fun j => chacha20_block_rfc key nonce (u32 (counter + Z.of_nat j))) (seq 0 n)).

Definition chacha20_rfc (input key nonce : list Z) (counter : Z) : list Z :=
  zip_with Z.lxor input (keystream_rfc key nonce counter ((length input + 63) / 64)).

(** RFC 8439, section 2.3.2: the block function test vector. *)
Example chacha20_block_vector :
  wg_chacha20_block_neon (map Z.of_nat (seq 0 32)) [0; 0; 0; 9; 0; 0; 0; 0x4a; 0; 0; 0; 0] 1
  = [0x10; 0xf1; 0xe7; 0xe4; 0xd1; 0x3b; 0x59; 0x15; 0x50; 0x0f; 0xdd; 0x1f; 0xa3; 0x20; 0x71; 0xc4;
     0xc7; 0xd1; 0xf4; 0xc7; 0x33; 0xc0; 0x68; 0x03; 0x04; 0x22; 0xaa; 0x9a; 0xc3; 0xd4; 0x6c; 0x4e;
     0xd2; 0x82; 0x64; 0x46; 0x07; 0x9f; 0xaa; 0x09; 0x14; 0xc2; 0xd7; 0x05; 0xd9; 0x8b; 0x02; 0xa2;
     0xb5; 0x12; 0x9c; 0xd1; 0xde; 0x16; 0x4e; 0xb9; 0xcb; 0xd0; 0x83; 0xe8; 0xa2; 0x50; 0x3c; 0x4e].
Proof. vm_compute. reflexivity. Qed.

(** ** The vector block function computes the RFC block function *)

Definition rows_of (v : list Z) : rows :=
  (vld1q_u32 v 0, vld1q_u32 v 4, vld1q_u32 v 8, vld1q_u32 v 12).

Definition zip_lanes (r0 r1 r2 r3 : Z * Z * Z * Z) : rows :=
  let '(a0, b0, c0, e0) := r0 in let '(a1, b1, c1, e1) := r1 in
  let '(a2, b2, c2, e2) := r2 in let '(a3, b3, c3, e3) := r3 in
  (Q a0 a1 a2 a3, Q b0 b1 b2 b3, Q c0 c1 c2 c3, Q e0 e1 e2 e3).

Lemma quarterround_lanes a b c d :
  quarterround_neon (a, b, c, d)
  = zip_lanes (quarterround (q0 a) (q0 b) (q0 c) (q0 d)) (quarterround (q1 a) (q1 b) (q1 c) (q1 d))
              (quarterround (q2 a) (q2 b) (q2 c) (q2 d)) (quarterround (q3 a) (q3 b) (q3 c) (q3 d)).
Proof.
  destruct a as [a0 a1 a2 a3], b as [b0 b1 b2 b3], c as [c0 c1 c2 c3], d as [e0 e1 e2 e3].
  cbv [quarterround_neon ROTL16 vrev32q_u16 rotl_neon vorrq_u32 veorq_u32 vaddq_u32 vshlq_n_u32
    vshrq_n_u32 vmap1 vmap2 q0 q1 q2 q3 quarterround zip_lanes].
  rewrite !rev16_rotl. cbv [rotl32]. reflexivity.
Qed.

Definition store4 (x y z w : Z) (r : Z * Z * Z * Z) (s : list Z) : list Z :=
  let '(a, b, c, d) := r in wr (wr (wr (wr s x a) y b) z c) w d.

Lemma QUARTERROUND_store4 x y z w s :
  QUARTERROUND x y z w s = store4 x y z w (quarterround (rd s x) (rd s y) (rd s z) (rd s w)) s.
Proof. reflexivity. Qed.

(** One QUARTERROUND on a literal state, naming its results. *)
Ltac step_QR x y z w :=
  rewrite (QUARTERROUND_store4 x y z w);
  lazymatch goal with |- context [quarterround (rd ?v x) (rd ?v y) (rd ?v z) (rd ?v w)] =>
    let E := fresh "E" in
    destruct (quarterround (rd v x) (rd v y) (rd v z) (rd v w)) as [[[? ?] ?] ?] eqn:E;
    lazy [rd nth Z.to_nat Pos.to_nat Pos.iter_op Nat.add] in E
  end;
  cbn [store4]; unfold wr;
  lazy [insert list_insert Z.to_nat Pos.to_nat Pos.iter_op Nat.add].

Lemma double_round_inner v :
  length v = 16%nat ->
  length (inner_block v) = 16%nat /\ double_round_neon (rows_of v) = rows_of (inner_block v).
Proof.
  intros Hv. do 16 (destruct v as [|?v v]; [discriminate|]). destruct v; [|discriminate].
  clear Hv. unfold inner_block, double_round_neon. cbv zeta.
  step_QR 0 4 8 12. step_QR 1 5 9 13. step_QR 2 6 10 14. step_QR 3 7 11 15.
  step_QR 0 5 10 15. step_QR 1 6 11 12. step_QR 2 7 8 13. step_QR 3 4 9 14.
  split; [reflexivity|].
  unfold rows_of at 1. rewrite quarterround_lanes. lazy -[quarterround quarterround_neon].
  rewrite E, E0, E1, E2. lazy -[quarterround quarterround_neon].
  rewrite quarterround_lanes. lazy -[quarterround quarterround_neon].
  rewrite E3, E4, E5, E6. reflexivity.
Qed.

Lemma double_rounds_inner v l :
  length v = 16%nat ->
  length (fold_left (fun s _ => inner_block s) (l : list nat) v) = 16%nat /\
  fold_left (fun r _ => double_round_neon r) l (rows_of v)
  = rows_of (fold_left (fun s _ => inner_block s) l v).
Proof.
  apply (fold_left_sim (fun s _ => inner_block s) (fun r _ => double_round_neon r) rows_of
           (fun v => length v = 16%nat)).
  intros w _ Hw. exact (double_round_inner w Hw).
Qed.

Lemma length_inner_rounds l v :
  length v = 16%nat -> length (fold_left (fun s _ => inner_block s) (l : list nat) v) = 16%nat.
Proof. intros. by apply double_rounds_inner. Qed.

Lemma block_internal_rfc v :
  length v = 16%nat ->
  chacha20_block_neon_internal v
  = zip_with add32 (fold_left (fun s _ => inner_block s) (seq 0 10) v) v.
Proof.
  intros Hv. unfold chacha20_block_neon_internal. cbv zeta.
  destruct (double_rounds_inner v (seq 0 10) Hv) as [Hl E].
  lazymatch goal with |- context [fold_left _ _ ?r] => assert (r = rows_of v) as -> by reflexivity end.
  rewrite E. clear E.
  generalize dependent (fold_left (fun s (_ : nat) => inner_block s) (seq 0 10) v). intros s Hs.
  do 16 (destruct v as [|?v v]; [discriminate|]). destruct v; [|discriminate].
  do 16 (destruct s as [|?s s]; [discriminate|]). destruct s; [|discriminate].
  reflexivity.
Qed.

Lemma length_block_internal v : length v = 16%nat -> length (chacha20_block_neon_internal v) = 16%nat.
Proof.
  intros Hv. rewrite block_internal_rfc by done. rewrite length_zip_with, length_inner_rounds, Hv by done.
  reflexivity.
Qed.

Lemma store_block_le b : length b = 16%nat -> store_block b = concat (map (le_bytes 4) b).
Proof.
  intros Hb. unfold store_block.
  do 16 (destruct b as [|? b]; [discriminate|]). destruct b; [|discriminate].
  cbn [seq map]. rewrite !store32_le_bytes. reflexivity.
Qed.

Lemma length_concat_le4 (b : list Z) : length (concat (map (le_bytes 4) b)) = (4 * length b)%nat.
Proof.
  induction b as [|x b IH]; [done|]. cbn [map concat length].
  rewrite length_app, IH, length_le_bytes. lia.
Qed.

(** The vector block function is the block function of RFC 8439. *)
Lemma chacha20_block_neon_rfc key nonce counter :
  wg_chacha20_block_neon key nonce counter = chacha20_block_rfc key nonce counter.
Proof.
  unfold wg_chacha20_block_neon, chacha20_block_rfc.
  rewrite store_block_le by (by apply length_block_internal).
  rewrite block_internal_rfc by reflexivity. reflexivity.
Qed.

Lemma length_block_rfc key nonce counter : length (chacha20_block_rfc key nonce counter) = 64%nat.
Proof.
  unfold chacha20_block_rfc. rewrite length_concat_le4, length_zip_with, length_inner_rounds by done.
  reflexivity.
Qed.

(** ** The stream cipher *)

Lemma le_bytes_lxor n a b : le_bytes n (Z.lxor a b) = zip_with Z.lxor (le_bytes n a) (le_bytes n b).
Proof.
  revert a b. induction n as [|n IH]; intros a b; [done|]. cbn [le_bytes zip_with].
  change 256 with (2 ^ 8). rewrite <- !Z.land_ones, <- !Z.shiftr_div_pow2 by lia.
  rewrite Z.shiftr_lxor, IH. f_equal.
  apply Z.bits_inj'. intros i Hi. rewrite ?Z.land_spec, ?Z.lxor_spec, ?Z.land_spec.
  destruct (Z.testbit (Z.ones 8) i); rewrite ?andb_true_r, ?andb_false_r; done.
Qed.

(** A word-wise exclusive or on byte memory is the byte-wise one. *)
Lemma xor_word_bytes p o w :
  is_bytes p -> 0 <= o -> o + 4 <= Z.of_nat (length p) ->
  store32_le (Z.lxor (load32_le p o) w)
  = zip_with Z.lxor (take 4 (drop (Z.to_nat o) p)) (le_bytes 4 w).
Proof.
  intros Hp Ho Hl. rewrite store32_le_bytes, le_bytes_lxor, load32_le_val by done. f_equal.
  set (l := take 4 _). assert (length l = 4%nat) as H4
    by (subst l; rewrite length_take, length_drop; lia).
  rewrite <- H4 at 1. apply le_bytes_le_val. subst l. auto with wg_range.
Qed.

Lemma zip_with_app4 (l1 l2 k1 k2 : list Z) :
  length l1 = length k1 ->
  zip_with Z.lxor l1 k1 ++ zip_with Z.lxor l2 k2 = zip_with Z.lxor (l1 ++ l2) (k1 ++ k2).
Proof. intros. symmetry. by apply zip_with_app. Qed.

Lemma xor_block_bytes p b :
  is_bytes p -> length p = 64%nat -> length b = 16%nat ->
  xor_block_neon p b = zip_with Z.lxor p (concat (map (le_bytes 4) b)).
Proof.
  intros Hp Hl Hb. do 16 (destruct b as [|? b]; [discriminate|]). destruct b; [|discriminate].
  unfold xor_block_neon, vst1q_bytes, veorq_u32, vmap2, vld1q_bytes, vld1q_u32.
  cbn [q0 q1 q2 q3 map concat]. rewrite !xor_word_bytes by (done || lia).
  rewrite <- !app_assoc, !zip_with_app4 by (rewrite length_take, length_drop, length_le_bytes; lia).
  f_equal.
  do 64 (destruct p as [|? p]; [discriminate|]). destruct p; [|discriminate]. reflexivity.
Qed.

Lemma tail_bytes input ks :
  (length input <= length ks)%nat ->
  map (fun i => Z.lxor (rd input (Z.of_nat i)) (rd ks (Z.of_nat i))) (seq 0 (length input))
  = zip_with Z.lxor input ks.
Proof.
  intros Hl. apply list_eq. intros i. change (@map nat Z) with (@fmap list _ nat Z).
  rewrite list_lookup_fmap, lookup_zip_with. destruct (decide (i < length input)%nat) as [Hi|Hi].
  - rewrite lookup_seq_lt by done. destruct (lookup_lt_is_Some_2 input i Hi) as [x Hx].
    destruct (lookup_lt_is_Some_2 ks i ltac:(lia)) as [y Hy]. rewrite Hx, Hy. simpl.
    unfold rd. rewrite Nat2Z.id, (nth_lookup_Some _ _ _ _ Hx), (nth_lookup_Some _ _ _ _ Hy). done.
  - rewrite lookup_seq_ge by lia. rewrite (lookup_ge_None_2 input) by lia. done.
Qed.

#[local] Opaque chacha20_block_rfc chacha20_block_neon_internal.

Lemma keystream_rfc_S key nonce counter n :
  keystream_rfc key nonce counter (S n)
  = chacha20_block_rfc key nonce (u32 counter) ++ keystream_rfc key nonce (add32 counter 1) n.
Proof.
  unfold keystream_rfc. cbn [seq map concat]. change (Z.of_nat 0) with 0. rewrite Z.add_0_r.
  apply (f_equal (app _)), (f_equal (@concat Z)). rewrite <- seq_shift, map_map. apply map_ext. intros j.
  assert (u32 (add32 counter 1 + Z.of_nat j) = u32 (counter + Z.of_nat (S j))) as ->; [|reflexivity].
  unfold add32, u32. rewrite Zplus_mod_idemp_l.
  replace (counter + 1 + Z.of_nat j) with (counter + Z.of_nat (S j)) by lia. reflexivity.
Qed.

Lemma blocks_needed n : (64 <= n)%nat -> ((n + 63) / 64 = S ((n - 64 + 63) / 64))%nat.
Proof.
  intros Hn. replace (n + 63)%nat with ((n - 64 + 63) + 1 * 64)%nat by lia.
  rewrite Nat.div_add by lia. lia.
Qed.

Lemma chacha20_loop_rfc fuel input key nonce counter :
  is_bytes input -> is_u32 counter -> (length input <= 64 * fuel)%nat ->
  chacha20_loop fuel input key nonce counter = chacha20_rfc input key nonce counter.
Proof.
  unfold chacha20_rfc. revert input counter.
  assert (forall c, length (chacha20_block_neon_internal (chacha_state key nonce c)) = 16%nat) as Hlb
    by (intros; by apply length_block_internal).
  assert (forall c, is_u32 c -> concat (map (le_bytes 4)
    (chacha20_block_neon_internal (chacha_state key nonce c))) = chacha20_block_rfc key nonce (u32 c)) as Hb.
  { intros c Hc. rewrite u32_small, <- chacha20_block_neon_rfc by done.
    symmetry. by apply store_block_le. }
  induction fuel as [|fuel IH]; intros input counter Hi Hc Hl; cbn [chacha20_loop].
  { destruct input; [done|simpl in *; lia]. }
  destruct (Nat.leb_spec 64 (length input)) as [H64|H64].
  - rewrite blocks_needed, keystream_rfc_S by done. rewrite <- (take_drop 64 input) at 3.
    rewrite zip_with_app by (rewrite length_take, length_block_rfc; lia).
    rewrite xor_block_bytes, Hb by (try rewrite length_take; auto with wg_range; lia).
    f_equal. rewrite IH by (rewrite ?length_drop; auto with wg_range; lia).
    rewrite length_drop. done.
  - destruct (Nat.ltb_spec 0 (length input)) as [H0|H0]; [|by destruct input; [|simpl in *; lia]].
    replace ((length input + 63) / 64)%nat with 1%nat by (apply (Nat.div_unique _ _ _ (length input - 1)); lia).
    rewrite keystream_rfc_S. cbn [keystream_rfc seq map concat]. rewrite app_nil_r, <- Hb by done.
    rewrite store_block_le by done. apply tail_bytes.
    rewrite length_concat_le4, Hlb. lia.
Qed.

Lemma wg_chacha20_neon_eq_rfc input key nonce counter :
  is_bytes input -> is_u32 counter ->
  wg_chacha20_neon input key nonce counter = chacha20_rfc input key nonce counter.
Proof. intros. apply chacha20_loop_rfc; [done..|lia]. Qed.

Lemma is_bytes_concat_le4 (b : list Z) : is_bytes (concat (map (le_bytes 4) b)).
Proof.
  induction b as [|x b IH]; [constructor|]. cbn [map concat]. apply is_bytes_app; [|done].
  apply is_bytes_le_bytes.
Qed.

Lemma keystream_bytes key nonce counter n : is_bytes (keystream_rfc key nonce counter n).
Proof.
  revert counter. induction n as [|n IH]; intros; [constructor|]. rewrite keystream_rfc_S.
  apply is_bytes_app; [|done]. rewrite <- chacha20_block_neon_rfc. unfold wg_chacha20_block_neon.
  rewrite store_block_le by (by apply length_block_internal). apply is_bytes_concat_le4.
Qed.

Lemma length_keystream key nonce counter n : length (keystream_rfc key nonce counter n) = (64 * n)%nat.
Proof.
  revert counter. induction n as [|n IH]; intros; [done|]. rewrite keystream_rfc_S.
  rewrite length_app, IH, length_block_rfc. lia.
Qed.

Lemma keystream_long n : (n <= 64 * ((n + 63) / 64))%nat.
Proof.
  pose proof (Nat.div_mod_eq (n + 63) 64). pose proof (Nat.mod_upper_bound (n + 63) 64). lia.
Qed.

Lemma length_chacha20_rfc input key nonce counter :
  length (chacha20_rfc input key nonce counter) = length input.
Proof.
  unfold chacha20_rfc. rewrite length_zip_with, length_keystream.
  pose proof (keystream_long (length input)). lia.
Qed.

Lemma is_bytes_xor l k : is_bytes l -> is_bytes k -> is_bytes (zip_with Z.lxor l k).
Proof.
  intros Hl. revert k. induction Hl as [|x l Hx Hl IH]; intros k Hk; [constructor|].
  destruct Hk as [|y k Hy Hk]; [constructor|]. constructor; [|by apply IH].
  unfold is_u8 in *. assert (0 <= Z.lxor x y) by (apply Z.lxor_nonneg; lia).
  change 256 with (2 ^ 8). apply pow2_range_bits; [lia|lia|]. intros i Hi. rewrite Z.lxor_spec.
  rewrite (proj1 (pow2_range_bits 8 x ltac:(lia) ltac:(lia))) by lia.
  rewrite (proj1 (pow2_range_bits 8 y ltac:(lia) ltac:(lia))) by lia. done.
Qed.

Lemma is_bytes_chacha20_rfc input key nonce counter :
  is_bytes input -> is_bytes (chacha20_rfc input key nonce counter).
Proof. intros. apply is_bytes_xor; [done|apply keystream_bytes]. Qed.

Lemma xor_involutive l k :
  (length l <= length k)%nat -> zip_with Z.lxor (zip_with Z.lxor l k) k = l.
Proof.
  revert k. induction l as [|x l IH]; intros [|y k] Hl; simpl in *; try done; [lia|].
  rewrite IH by lia. rewrite Z.lxor_assoc, Z.lxor_nilpotent, Z.lxor_0_r. done.
Qed.

Lemma chacha20_rfc_involutive input key nonce counter :
  chacha20_rfc (chacha20_rfc input key nonce counter) key nonce counter = input.
Proof.
  unfold chacha20_rfc at 1. rewrite length_chacha20_rfc. unfold chacha20_rfc. apply xor_involutive.
  rewrite length_keystream. apply keystream_long.
Qed.

(** C29. The vector stream cipher encrypts every message as RFC 8439 does, keeps
    its length, and applied to its own output gives the message back. *)
Theorem chacha20_neon_correct input key nonce counter :
  is_bytes input -> is_u32 counter ->
  let out := wg_chacha20_neon input key nonce counter in
  out = chacha20_rfc input key nonce counter /\ length out = length input /\
  wg_chacha20_neon out key nonce counter = input.
Proof.
  intros Hi Hc. cbv zeta. rewrite wg_chacha20_neon_eq_rfc by done. split_and!; [done| |].
  - apply length_chacha20_rfc.
  - rewrite wg_chacha20_neon_eq_rfc; [apply chacha20_rfc_involutive|by apply is_bytes_chacha20_rfc|done].
Qed.

Lemma chacha20_neon_correct_witness :
  let out := wg_chacha20_neon (replicate 100 65) (replicate 32 1) (replicate 12 2) 4294967295 in
  out = chacha20_rfc (replicate 100 65) (replicate 32 1) (replicate 12 2) 4294967295 /\
  length out = 100%nat /\
  wg_chacha20_neon out (replicate 32 1) (replicate 12 2) 4294967295 = replicate 100 65.
Proof.
  apply (chacha20_neon_correct (replicate 100 65) (replicate 32 1) (replicate 12 2) 4294967295).
  - apply is_bytes_replicate. unfold is_u8; lia.
  - unfold is_u32; lia.
Defined.
