(* ===== verification/Poly1305.v ===== *)
(** * Poly1305 (src/wg_poly1305_neon.c)

    The accumulator in five 26-bit limbs, the scalar and the vector block
    function, the incremental interface and the final reduction, against the
    authenticator of RFC 8439, section 2.5. *)

From Stdlib Require Import Btauto.
From S2P Require Import Prelude Neon.

Record wg_poly1305_ctx := mkPoly {
  poly_r : list Z;
  poly_s : list Z;
  acc : list Z;
  poly_buf : list Z;
  buf_len : Z
}.

Definition M26 : Z := 0x3ffffff.

(** [buf0] is what the uninitialised buffer of the context holds. *)
Definition wg_poly1305_init (buf0 : list Z) (key : list Z) : wg_poly1305_ctx :=
  let r := take 16 key in
  let r := wr r 3 (Z.land (rd r 3) 0x0f) in
  let r := wr r 7 (Z.land (rd r 7) 0x0f) in
  let r := wr r 11 (Z.land (rd r 11) 0x0f) in
  let r := wr r 15 (Z.land (rd r 15) 0x0f) in
  let r := wr r 4 (Z.land (rd r 4) 0xfc) in
  let r := wr r 8 (Z.land (rd r 8) 0xfc) in
  let r := wr r 12 (Z.land (rd r 12) 0xfc) in
  let t0 := load32_le r 0 in
  let t1 := load32_le r 4 in
  let t2 := load32_le r 8 in
  let t3 := load32_le r 12 in
  mkPoly
    [Z.land t0 M26;
     Z.land (Z.lor (shr32 t0 26) (shl32 t1 6)) M26;
     Z.land (Z.lor (shr32 t1 20) (shl32 t2 12)) M26;
     Z.land (Z.lor (shr32 t2 14) (shl32 t3 18)) M26;
     shr32 t3 8]
    [load32_le key 16; load32_le key 20; load32_le key 24; load32_le key 28]
    [0; 0; 0; 0; 0] buf0 0.

(** The limbs of the accumulator plus those of the block, as [uint64_t]. *)
Definition block_sum (ctx : wg_poly1305_ctx) (data : list Z) (hibit : Z) : list Z :=
  let t0 := load32_le data 0 in
  let t1 := load32_le data 4 in
  let t2 := load32_le data 8 in
  let t3 := load32_le data 12 in
  [add64 (rd (acc ctx) 0) (Z.land t0 M26);
   add64 (rd (acc ctx) 1) (Z.land (Z.lor (shr32 t0 26) (shl32 t1 6)) M26);
   add64 (rd (acc ctx) 2) (Z.land (Z.lor (shr32 t1 20) (shl32 t2 12)) M26);
   add64 (rd (acc ctx) 3) (Z.land (Z.lor (shr32 t2 14) (shl32 t3 18)) M26);
   add64 (rd (acc ctx) 4) (Z.lor (shr32 t3 8) (shl32 hibit 24))].

(** The carry chain at the end of both block functions. *)
Definition block_carry (h : list Z) : list Z :=
  let h0 := rd h 0 in let h1 := rd h 1 in let h2 := rd h 2 in let h3 := rd h 3 in let h4 := rd h 4 in
  let c := shr64 h0 26 in let h0 := Z.land h0 M26 in let h1 := add64 h1 c in
  let c := shr64 h1 26 in let h1 := Z.land h1 M26 in let h2 := add64 h2 c in
  let c := shr64 h2 26 in let h2 := Z.land h2 M26 in let h3 := add64 h3 c in
  let c := shr64 h3 26 in let h3 := Z.land h3 M26 in let h4 := add64 h4 c in
  let c := shr64 h4 26 in let h4 := Z.land h4 M26 in let h0 := add64 h0 (mul64 c 5) in
  let c := shr64 h0 26 in let h0 := Z.land h0 M26 in let h1 := add64 h1 c in
  [u32 h0; u32 h1; u32 h2; u32 h3; u32 h4].

Definition set_acc (ctx : wg_poly1305_ctx) (a : list Z) : wg_poly1305_ctx :=
  mkPoly (poly_r ctx) (poly_s ctx) a (poly_buf ctx) (buf_len ctx).

(** The products with [vmull_u32]/[vmlal_u32] on duplicated 32-bit lanes. *)
Definition products_neon (a r : list Z) : list Z :=
  let va0 := vdup_n_u32 (u32 (rd a 0)) in
  let va1 := vdup_n_u32 (u32 (rd a 1)) in
  let va2 := vdup_n_u32 (u32 (rd a 2)) in
  let va3 := vdup_n_u32 (u32 (rd a 3)) in
  let va4 := vdup_n_u32 (u32 (rd a 4)) in
  let vr0 := vdup_n_u32 (rd r 0) in
  let vr1 := vdup_n_u32 (rd r 1) in
  let vr2 := vdup_n_u32 (rd r 2) in
  let vr3 := vdup_n_u32 (rd r 3) in
  let vr4 := vdup_n_u32 (rd r 4) in
  let vs1 := vdup_n_u32 (mul32 (rd r 1) 5) in
  let vs2 := vdup_n_u32 (mul32 (rd r 2) 5) in
  let vs3 := vdup_n_u32 (mul32 (rd r 3) 5) in
  let vs4 := vdup_n_u32 (mul32 (rd r 4) 5) in
  let d0 := vmlal_u32 (vmlal_u32 (vmlal_u32 (vmlal_u32 (vmull_u32 va0 vr0) va1 vs4) va2 vs3) va3 vs2) va4 vs1 in
  let d1 := vmlal_u32 (vmlal_u32 (vmlal_u32 (vmlal_u32 (vmull_u32 va0 vr1) va1 vr0) va2 vs4) va3 vs3) va4 vs2 in
  let d2 := vmlal_u32 (vmlal_u32 (vmlal_u32 (vmlal_u32 (vmull_u32 va0 vr2) va1 vr1) va2 vr0) va3 vs4) va4 vs3 in
  let d3 := vmlal_u32 (vmlal_u32 (vmlal_u32 (vmlal_u32 (vmull_u32 va0 vr3) va1 vr2) va2 vr1) va3 vr0) va4 vs4 in
  let d4 := vmlal_u32 (vmlal_u32 (vmlal_u32 (vmlal_u32 (vmull_u32 va0 vr4) va1 vr3) va2 vr2) va3 vr1) va4 vr0 in
  [vgetq_lane_u64 d0 0; vgetq_lane_u64 d1 0; vgetq_lane_u64 d2 0; vgetq_lane_u64 d3 0; vgetq_lane_u64 d4 0].

Definition poly1305_block_neon (ctx : wg_poly1305_ctx) (data : list Z) (hibit : Z) : wg_poly1305_ctx :=
  set_acc ctx (block_carry (products_neon (block_sum ctx data hibit) (poly_r ctx))).

(** The same products in [uint64_t] arithmetic. *)
Definition dot64 (a0 b0 a1 b1 a2 b2 a3 b3 a4 b4 : Z) : Z :=
  add64 (add64 (add64 (add64 (mul64 a0 b0) (mul64 a1 b1)) (mul64 a2 b2)) (mul64 a3 b3)) (mul64 a4 b4).

Definition products_scalar (a r : list Z) : list Z :=
  let a0 := rd a 0 in let a1 := rd a 1 in let a2 := rd a 2 in let a3 := rd a 3 in let a4 := rd a 4 in
  let r0 := rd r 0 in let r1 := rd r 1 in let r2 := rd r 2 in let r3 := rd r 3 in let r4 := rd r 4 in
  let s1 := mul32 r1 5 in
  let s2 := mul32 r2 5 in
  let s3 := mul32 r3 5 in
  let s4 := mul32 r4 5 in
  [dot64 a0 r0 a1 s4 a2 s3 a3 s2 a4 s1;
   dot64 a0 r1 a1 r0 a2 s4 a3 s3 a4 s2;
   dot64 a0 r2 a1 r1 a2 r0 a3 s4 a4 s3;
   dot64 a0 r3 a1 r2 a2 r1 a3 r0 a4 s4;
   dot64 a0 r4 a1 r3 a2 r2 a3 r1 a4 r0].

Definition poly1305_block_scalar (ctx : wg_poly1305_ctx) (data : list Z) (hibit : Z) : wg_poly1305_ctx :=
  set_acc ctx (block_carry (products_scalar (block_sum ctx data hibit) (poly_r ctx))).

Section build.
Context `{NeonBuild}.

Definition poly1305_block (ctx : wg_poly1305_ctx) (data : list Z) (hibit : Z) : wg_poly1305_ctx :=
  if HAS_NEON then poly1305_block_neon ctx data hibit else poly1305_block_scalar ctx data hibit.

Definition set_poly_buf (ctx : wg_poly1305_ctx) (b : list Z) (n : Z) : wg_poly1305_ctx :=
  mkPoly (poly_r ctx) (poly_s ctx) (acc ctx) b n.

(** [while (len >= 16)]: the fuel bounds the iterations, each of which
    consumes 16 bytes. *)
Fixpoint poly_loop (fuel : nat) (ctx : wg_poly1305_ctx) (data : list Z) : wg_poly1305_ctx * list Z :=
  if (16 <=? length data)%nat then
    match fuel with
    | O => (ctx, data)
    | S fuel => poly_loop fuel (poly1305_block ctx (take 16 data) 1) (drop 16 data)
    end
  else (ctx, data).

(** The statements after the buffered block was completed. *)
Definition poly_rest (ctx : wg_poly1305_ctx) (data : list Z) : wg_poly1305_ctx :=
  let '(ctx, data) := poly_loop (length data) ctx data in
  if (0 <? length data)%nat
  then set_poly_buf ctx (copy_at (poly_buf ctx) 0 data) (Z.of_nat (length data))
  else ctx.

Definition wg_poly1305_update (ctx : wg_poly1305_ctx) (data : list Z) : wg_poly1305_ctx :=
  if 0 <? buf_len ctx then
    let want := 16 - buf_len ctx in
    if Z.of_nat (length data) <? want then
      set_poly_buf ctx (copy_at (poly_buf ctx) (buf_len ctx) data)
        (buf_len ctx + Z.of_nat (length data))
    else
      let ctx := set_poly_buf ctx (copy_at (poly_buf ctx) (buf_len ctx) (take (Z.to_nat want) data))
                   (buf_len ctx) in
      let ctx := poly1305_block ctx (poly_buf ctx) 1 in
      poly_rest (set_poly_buf ctx (poly_buf ctx) 0) (drop (Z.to_nat want) data)
  else poly_rest ctx data.

(** The limbs of the accumulator with all carries propagated. *)
Definition final_carry (a : list Z) : list Z :=
  let h0 := rd a 0 in let h1 := rd a 1 in let h2 := rd a 2 in let h3 := rd a 3 in let h4 := rd a 4 in
  let c := shr32 h1 26 in let h1 := Z.land h1 M26 in let h2 := add32 h2 c in
  let c := shr32 h2 26 in let h2 := Z.land h2 M26 in let h3 := add32 h3 c in
  let c := shr32 h3 26 in let h3 := Z.land h3 M26 in let h4 := add32 h4 c in
  let c := shr32 h4 26 in let h4 := Z.land h4 M26 in let h0 := add32 h0 (mul32 c 5) in
  let c := shr32 h0 26 in let h0 := Z.land h0 M26 in let h1 := add32 h1 c in
  [h0; h1; h2; h3; h4].

(** The constant-time subtraction of [2^130 - 5]. *)
Definition final_select (h : list Z) : list Z :=
  let h0 := rd h 0 in let h1 := rd h 1 in let h2 := rd h 2 in let h3 := rd h 3 in let h4 := rd h 4 in
  let g0 := add32 h0 5 in let c := shr32 g0 26 in let g0 := Z.land g0 M26 in
  let g1 := add32 h1 c in let c := shr32 g1 26 in let g1 := Z.land g1 M26 in
  let g2 := add32 h2 c in let c := shr32 g2 26 in let g2 := Z.land g2 M26 in
  let g3 := add32 h3 c in let c := shr32 g3 26 in let g3 := Z.land g3 M26 in
  let g4 := sub32 (add32 h4 c) 67108864 in
  let mask := sub32 (shr32 g4 31) 1 in
  let g0 := Z.land g0 mask in
  let g1 := Z.land g1 mask in
  let g2 := Z.land g2 mask in
  let g3 := Z.land g3 mask in
  let g4 := Z.land g4 mask in
  let mask := not32 mask in
  [Z.lor (Z.land h0 mask) g0; Z.lor (Z.land h1 mask) g1; Z.lor (Z.land h2 mask) g2;
   Z.lor (Z.land h3 mask) g3; Z.lor (Z.land h4 mask) g4].

(** The addition of [s] and the output of 128 bits. *)
Definition final_add (h s : list Z) : list Z :=
  let f0 := add64 (Z.lor (rd h 0) (shl64 (rd h 1) 26)) (rd s 0) in
  let f1 := add64 (shl64 (rd h 2) 20) (rd s 1) in
  let f2 := add64 (shl64 (rd h 3) 14) (rd s 2) in
  let f3 := add64 (shl64 (rd h 4) 8) (rd s 3) in
  let f1 := add64 f1 (shr64 f0 32) in let f0 := Z.land f0 0xffffffff in
  let f2 := add64 f2 (shr64 f1 32) in let f1 := Z.land f1 0xffffffff in
  let f3 := add64 f3 (shr64 f2 32) in let f2 := Z.land f2 0xffffffff in
  store32_le (u32 f0) ++ store32_le (u32 f1) ++ store32_le (u32 f2) ++ store32_le (u32 f3).

Definition wg_poly1305_final (ctx : wg_poly1305_ctx) : list Z :=
  let ctx :=
    if 0 <? buf_len ctx then
      let b := wr (poly_buf ctx) (buf_len ctx) 1 in
      let b := copy_at b (buf_len ctx + 1) (replicate (Z.to_nat (16 - buf_len ctx - 1)) 0) in
      poly1305_block (set_poly_buf ctx b (buf_len ctx)) b 0
    else ctx in
  final_add (final_select (final_carry (acc ctx))) (poly_s ctx).

Definition wg_poly1305 (buf0 data key : list Z) : list Z :=
  wg_poly1305_final (wg_poly1305_update (wg_poly1305_init buf0 key) data).
End build.

(** ** RFC 8439, section 2.5.1 *)

Definition P1305 : Z := 2 ^ 130 - 5.
Definition clamp (r : Z) : Z := Z.land r 0x0ffffffc0ffffffc0ffffffc0fffffff.

(** The accumulator after the blocks of [msg], 16 bytes at a time. *)
Fixpoint poly_acc_rfc (fuel : nat) (a r : Z) (msg : list Z) : Z :=
  match fuel, msg with
  | S fuel, _ :: _ =>
      poly_acc_rfc fuel (((a + le_val (take 16 msg ++ [1])) * r) mod P1305) r (drop 16 msg)
  | _, _ => a
  end.

Definition poly1305_rfc (msg key : list Z) : list Z :=
  let r := clamp (le_val (take 16 key)) in
  let s := le_val (take 16 (drop 16 key)) in
  le_bytes 16 (poly_acc_rfc (length msg) 0 r msg + s).

(** RFC 8439, section 2.5.2: the test vector. *)
Example poly1305_vector :
  @wg_poly1305 true (replicate 16 0xee)
    [0x43; 0x72; 0x79; 0x70; 0x74; 0x6f; 0x67; 0x72; 0x61; 0x70; 0x68; 0x69; 0x63; 0x20; 0x46; 0x6f;
     0x72; 0x75; 0x6d; 0x20; 0x52; 0x65; 0x73; 0x65; 0x61; 0x72; 0x63; 0x68; 0x20; 0x47; 0x72; 0x6f; 0x75; 0x70]
    [0x85; 0xd6; 0xbe; 0x78; 0x57; 0x55; 0x6d; 0x33; 0x7f; 0x44; 0x52; 0xfe; 0x42; 0xd5; 0x06; 0xa8;
     0x01; 0x03; 0x80; 0x8a; 0xfb; 0x0d; 0xb2; 0xfd; 0x4a; 0xbf; 0xf6; 0xaf; 0x41; 0x49; 0xf5; 0x1b]
  = [0xa8; 0x06; 0x1d; 0xc1; 0x30; 0x51; 0x36; 0xc6; 0xc2; 0x2b; 0x8b; 0xaf; 0x0c; 0x01; 0x27; 0xa9].
Proof. vm_compute. reflexivity. Qed.

(** ** Limbs *)

(** The number five 26-bit limbs stand for. *)
Definition limbs_val (l : list Z) : Z :=
  rd l 0 + rd l 1 * 2 ^ 26 + rd l 2 * 2 ^ 52 + rd l 3 * 2 ^ 78 + rd l 4 * 2 ^ 104.

Lemma land_M26 x : Z.land x M26 = x mod 2 ^ 26.
Proof. apply (Z.land_ones x 26); lia. Qed.

(** Two adjacent words of a block contribute the high bits of the lower one
    and the low bits of the upper one. *)
Lemma limb_join a b k m :
  0 <= k <= 26 -> m = 32 - k -> is_u32 a ->
  Z.land (Z.lor (shr32 a m) (shl32 b k)) M26 = (a / 2 ^ m + b * 2 ^ k) mod 2 ^ 26.
Proof.
  intros Hk -> Ha. unfold is_u32 in Ha. rewrite land_M26, shr32_div by lia.
  assert (0 <= a / 2 ^ (32 - k) < 2 ^ k).
  { split; [apply Z.div_pos; [lia|apply Z.pow_pos_nonneg; lia]|].
    apply Z.div_lt_upper_bound; [apply Z.pow_pos_nonneg; lia|].
    rewrite <- Z.pow_add_r by lia. replace (32 - k + k) with 32 by lia. lia. }
  unfold shl32, u32. change 4294967296 with (2 ^ 32).
  rewrite <- (Z.land_ones (Z.lor _ _) 26), Z.land_lor_distr_l, !Z.land_ones by lia.
  assert ((Z.shiftl b k mod 2 ^ 32) mod 2 ^ 26 = Z.shiftl b k mod 2 ^ 26) as ->.
  { apply Z.mod_mod_divide. exists (2 ^ 6). done. }
  rewrite <- !(Z.land_ones _ 26), <- Z.land_lor_distr_l by lia.
  rewrite lor_shiftl_add by lia. done.
Qed.

(** The limbs of a block, without the closing bit. *)
Definition block_limbs (t0 t1 t2 t3 : Z) : list Z :=
  [Z.land t0 M26;
   Z.land (Z.lor (shr32 t0 26) (shl32 t1 6)) M26;
   Z.land (Z.lor (shr32 t1 20) (shl32 t2 12)) M26;
   Z.land (Z.lor (shr32 t2 14) (shl32 t3 18)) M26;
   shr32 t3 8].

Lemma block_limbs_val t0 t1 t2 t3 :
  is_u32 t0 -> is_u32 t1 -> is_u32 t2 -> is_u32 t3 ->
  limbs_val (block_limbs t0 t1 t2 t3) = t0 + t1 * 2 ^ 32 + t2 * 2 ^ 64 + t3 * 2 ^ 96.
Proof.
  intros H0 H1 H2 H3. unfold limbs_val, block_limbs, rd; simpl nth.
  rewrite !limb_join by (done || lia). rewrite land_M26, shr32_div by lia. unfold is_u32 in *.
  assert (forall a b k m p, p = 2 ^ k -> 0 < p -> 0 <= a < p -> p * m = 2 ^ 26 -> 0 < m ->
    (a + b * p) mod 2 ^ 26 = a + (b mod m) * p) as Hj.
  { intros a b k m p -> Hp Ha Hm Hm0. symmetry. apply Z.mod_unique with (b / m).
    - left. pose proof (Z.mod_pos_bound b m Hm0). nia.
    - rewrite <- Hm. pose proof (Z.div_mod b m). nia. }
  rewrite (Hj _ t1 6 (2 ^ 20)), (Hj _ t2 12 (2 ^ 14)), (Hj _ t3 18 (2 ^ 8)) by (lia || zlia).
  pose proof (Z.div_mod t0 (2 ^ 26)). pose proof (Z.div_mod t1 (2 ^ 20)).
  pose proof (Z.div_mod t2 (2 ^ 14)). pose proof (Z.div_mod t3 (2 ^ 8)). lia.
Qed.

Lemma block_limbs_ok t0 t1 t2 t3 :
  is_u32 t0 -> is_u32 t1 -> is_u32 t2 -> is_u32 t3 ->
  Forall (fun x => 0 <= x < 2 ^ 26) (block_limbs t0 t1 t2 t3) /\ rd (block_limbs t0 t1 t2 t3) 4 < 2 ^ 24.
Proof.
  intros H0 H1 H2 H3. unfold block_limbs. rewrite !land_M26, (shr32_div t3) by lia. unfold is_u32 in *.
  assert (0 <= t3 / 2 ^ 8 < 2 ^ 24) by zlia.
  split; [|unfold rd; simpl nth; lia]. repeat constructor; lia || (apply Z.mod_pos_bound; lia).
Qed.

Lemma word_value p : is_bytes p -> length p = 16%nat ->
  load32_le p 0 + load32_le p 4 * 2 ^ 32 + load32_le p 8 * 2 ^ 64 + load32_le p 12 * 2 ^ 96 = le_val p.
Proof.
  intros Hp Hl. rewrite !load32_le_val by (done || lia).
  do 17 (destruct p as [|? p]; [try discriminate Hl|]); [|discriminate Hl].
  change (Z.to_nat 0) with 0%nat. change (Z.to_nat 4) with 4%nat. change (Z.to_nat 8) with 8%nat.
  change (Z.to_nat 12) with 12%nat. cbn [take drop le_val]. lia.
Qed.

(** ** One block *)

Definition acc_ok (l : list Z) : Prop :=
  length l = 5%nat /\ 0 <= rd l 0 < 2 ^ 26 /\ 0 <= rd l 1 < 2 ^ 26 + 4096 /\ 0 <= rd l 2 < 2 ^ 26 /\
  0 <= rd l 3 < 2 ^ 26 /\ 0 <= rd l 4 < 2 ^ 26.
Definition below (n : Z) (l : list Z) : Prop := length l = 5%nat /\ Forall (fun x => 0 <= x < n) l.

Lemma below_inv n l : below n l -> exists a b c d e, l = [a; b; c; d; e] /\
  0 <= a < n /\ 0 <= b < n /\ 0 <= c < n /\ 0 <= d < n /\ 0 <= e < n.
Proof.
  intros [Hl Hf]. do 5 (destruct l as [|? l]; [discriminate Hl|]). destruct l; [|discriminate Hl].
  rewrite !Forall_cons in Hf. destruct Hf as (? & ? & ? & ? & ? & _). do 5 eexists. eauto 10.
Qed.

Definition exact_products (a r : list Z) : list Z :=
  let a0 := rd a 0 in let a1 := rd a 1 in let a2 := rd a 2 in let a3 := rd a 3 in let a4 := rd a 4 in
  let r0 := rd r 0 in let r1 := rd r 1 in let r2 := rd r 2 in let r3 := rd r 3 in let r4 := rd r 4 in
  [a0 * r0 + a1 * (r4 * 5) + a2 * (r3 * 5) + a3 * (r2 * 5) + a4 * (r1 * 5);
   a0 * r1 + a1 * r0 + a2 * (r4 * 5) + a3 * (r3 * 5) + a4 * (r2 * 5);
   a0 * r2 + a1 * r1 + a2 * r0 + a3 * (r4 * 5) + a4 * (r3 * 5);
   a0 * r3 + a1 * r2 + a2 * r1 + a3 * r0 + a4 * (r4 * 5);
   a0 * r4 + a1 * r3 + a2 * r2 + a3 * r1 + a4 * r0].

Lemma prod_bound a b : 0 <= a < 2 ^ 28 -> 0 <= b < 5 * 2 ^ 26 -> 0 <= a * b < 5 * 2 ^ 54.
Proof. nia. Qed.

Lemma dot64_exact a0 b0 a1 b1 a2 b2 a3 b3 a4 b4 :
  0 <= a0 < 2 ^ 28 -> 0 <= a1 < 2 ^ 28 -> 0 <= a2 < 2 ^ 28 -> 0 <= a3 < 2 ^ 28 -> 0 <= a4 < 2 ^ 28 ->
  0 <= b0 < 5 * 2 ^ 26 -> 0 <= b1 < 5 * 2 ^ 26 -> 0 <= b2 < 5 * 2 ^ 26 ->
  0 <= b3 < 5 * 2 ^ 26 -> 0 <= b4 < 5 * 2 ^ 26 ->
  dot64 a0 b0 a1 b1 a2 b2 a3 b3 a4 b4 = a0 * b0 + a1 * b1 + a2 * b2 + a3 * b3 + a4 * b4 /\
  0 <= a0 * b0 + a1 * b1 + a2 * b2 + a3 * b3 + a4 * b4 < 2 ^ 59.
Proof.
  intros. pose proof (prod_bound a0 b0). pose proof (prod_bound a1 b1). pose proof (prod_bound a2 b2).
  pose proof (prod_bound a3 b3). pose proof (prod_bound a4 b4).
  unfold dot64, add64, mul64. split; [|lia]. rewrite !(u64_small (_ * _)) by (unfold is_u64; lia).
  set (p0 := a0 * b0) in *; set (p1 := a1 * b1) in *; set (p2 := a2 * b2) in *.
  set (p3 := a3 * b3) in *; set (p4 := a4 * b4) in *.
  rewrite (u64_small (p0 + p1)), (u64_small (p0 + p1 + p2)), (u64_small (p0 + p1 + p2 + p3)), u64_small
    by (unfold is_u64; lia). done.
Qed.

Lemma mul64_small a b : is_u32 a -> is_u32 b -> mul64 a b = a * b.
Proof. unfold is_u32. intros. apply u64_small. unfold is_u64. nia. Qed.
Lemma mul32_5 x : 0 <= x < 2 ^ 26 -> mul32 x 5 = x * 5.
Proof. intros. apply u32_small. unfold is_u32; lia. Qed.

Lemma products_scalar_exact a r :
  below (2 ^ 28) a -> below (2 ^ 26) r ->
  products_scalar a r = exact_products a r /\ below (2 ^ 59) (exact_products a r).
Proof.
  intros (a0 & a1 & a2 & a3 & a4 & -> & ? & ? & ? & ? & ?)%below_inv
         (r0 & r1 & r2 & r3 & r4 & -> & ? & ? & ? & ? & ?)%below_inv.
  unfold products_scalar, exact_products, rd; simpl nth. rewrite !mul32_5 by lia.
  edestruct (dot64_exact a0 r0 a1 (r4 * 5) a2 (r3 * 5) a3 (r2 * 5) a4 (r1 * 5)) as [-> ?]; try lia.
  edestruct (dot64_exact a0 r1 a1 r0 a2 (r4 * 5) a3 (r3 * 5) a4 (r2 * 5)) as [-> ?]; try lia.
  edestruct (dot64_exact a0 r2 a1 r1 a2 r0 a3 (r4 * 5) a4 (r3 * 5)) as [-> ?]; try lia.
  edestruct (dot64_exact a0 r3 a1 r2 a2 r1 a3 r0 a4 (r4 * 5)) as [-> ?]; try lia.
  edestruct (dot64_exact a0 r4 a1 r3 a2 r2 a3 r1 a4 r0) as [-> ?]; try lia.
  split; [done|]. split; [done|]. repeat constructor; lia.
Qed.

Lemma products_neon_scalar a r : below (2 ^ 28) a -> below (2 ^ 26) r -> products_neon a r = products_scalar a r.
Proof.
  intros (a0 & a1 & a2 & a3 & a4 & -> & ? & ? & ? & ? & ?)%below_inv
         (r0 & r1 & r2 & r3 & r4 & -> & ? & ? & ? & ? & ?)%below_inv.
  unfold products_neon, products_scalar, rd; simpl nth.
  rewrite !(u32_small a0), !(u32_small a1), !(u32_small a2), !(u32_small a3), !(u32_small a4) by (unfold is_u32; lia).
  rewrite !mul32_5 by lia. unfold dot64. rewrite !mul64_small by (unfold is_u32; lia). reflexivity.
Qed.

Lemma exact_products_val a r :
  exists K, limbs_val (exact_products a r) = limbs_val a * limbs_val r + K * P1305.
Proof.
  unfold limbs_val, exact_products. cbv zeta.
  generalize (rd a 0) (rd a 1) (rd a 2) (rd a 3) (rd a 4) (rd r 0) (rd r 1) (rd r 2) (rd r 3) (rd r 4).
  intros a0 a1 a2 a3 a4 r0 r1 r2 r3 r4. unfold rd; simpl nth.
  exists (- (a1 * r4 + a2 * r3 + a3 * r2 + a4 * r1 + 2 ^ 26 * (a2 * r4 + a3 * r3 + a4 * r2) +
          2 ^ 52 * (a3 * r4 + a4 * r3) + 2 ^ 78 * (a4 * r4))).
  unfold P1305. ring.
Qed.

Lemma block_carry_ok h : below (2 ^ 59) h ->
  acc_ok (block_carry h) /\ exists K, limbs_val (block_carry h) = limbs_val h + K * P1305.
Proof.
  intros (h0 & h1 & h2 & h3 & h4 & -> & ? & ? & ? & ? & ?)%below_inv.
  unfold block_carry, limbs_val, rd; simpl nth. rewrite !land_M26, !shr64_div by lia.
  change (2 ^ 59) with 576460752303423488 in *. change (2 ^ 26) with 67108864.
  unfold add64, mul64.
  assert (forall x, 0 <= x < 67108864 + 576460752303423488 + 8589934592 -> exists c l, x / 67108864 = c /\ x mod 67108864 = l /\
    x = c * 67108864 + l /\ 0 <= l < 67108864 /\ 0 <= c < 8589934592 + 130) as Hs.
  { intros x Hx. do 2 eexists. repeat split; zlia. }
  destruct (Hs h0) as (c0 & l0 & -> & -> & ? & ? & ?); [lia|].
  rewrite (u64_small (h1 + c0)) by (unfold is_u64; lia).
  destruct (Hs (h1 + c0)) as (c1 & l1 & -> & -> & ? & ? & ?); [lia|].
  rewrite (u64_small (h2 + c1)) by (unfold is_u64; lia).
  destruct (Hs (h2 + c1)) as (c2 & l2 & -> & -> & ? & ? & ?); [lia|].
  rewrite (u64_small (h3 + c2)) by (unfold is_u64; lia).
  destruct (Hs (h3 + c2)) as (c3 & l3 & -> & -> & ? & ? & ?); [lia|].
  rewrite (u64_small (h4 + c3)) by (unfold is_u64; lia).
  destruct (Hs (h4 + c3)) as (c4 & l4 & -> & -> & ? & ? & ?); [lia|].
  rewrite (u64_small (c4 * 5)) by (unfold is_u64; lia).
  rewrite (u64_small (l0 + c4 * 5)) by (unfold is_u64; lia).
  assert (0 <= (l0 + c4 * 5) / 67108864 < 4096) by zlia.
  destruct (Hs (l0 + c4 * 5)) as (c5 & l5 & Hc5 & -> & ? & ? & ?); [lia|]. rewrite Hc5 in *.
  rewrite (u64_small (l1 + c5)) by (unfold is_u64; lia).
  rewrite !u32_small by (unfold is_u32; lia).
  split; [split; [done|]; unfold rd; simpl nth; lia|]. exists (- c4). unfold P1305. lia.
Qed.

(** The block as a number, with the bit that ends it. *)
Definition block_val (data : list Z) (hibit : Z) : Z := le_val data + hibit * 2 ^ 128.

Lemma rd_below n l : below n l -> forall i, 0 < n -> 0 <= rd l i < n.
Proof. intros [_ Hf] i Hn. apply (Forall_rd (fun x => 0 <= x < n)); [done|lia]. Qed.

Lemma block_sum_ok ctx data hibit :
  acc_ok (acc ctx) -> is_bytes data -> length data = 16%nat -> 0 <= hibit <= 1 ->
  below (2 ^ 28) (block_sum ctx data hibit) /\
  limbs_val (block_sum ctx data hibit) = limbs_val (acc ctx) + block_val data hibit.
Proof.
  intros (_ & ? & ? & ? & ? & ?) Hd Hl Hh. unfold block_val. rewrite <- (word_value data Hd Hl).
  rewrite <- block_limbs_val by auto with wg_range.
  destruct (block_limbs_ok (load32_le data 0) (load32_le data 4) (load32_le data 8) (load32_le data 12))
    as [Hr H4]; auto with wg_range.
  assert (Z.lor (shr32 (load32_le data 12) 8) (shl32 hibit 24) = shr32 (load32_le data 12) 8 + hibit * 2 ^ 24) as E.
  { unfold shl32. rewrite u32_small; [apply lor_shiftl_add; [lia|]|].
    - unfold block_limbs in *. rewrite !Forall_cons in Hr. unfold rd in H4; simpl nth in H4. lia.
    - rewrite Z.shiftl_mul_pow2 by lia. unfold is_u32; lia. }
  unfold block_sum. rewrite E. unfold block_limbs in *. rewrite !Forall_cons in Hr. unfold rd in H4; simpl nth in H4.
  destruct Hr as (? & ? & ? & ? & ? & _). unfold add64.
  rewrite !u64_small by (unfold is_u64; lia).
  split; [split; [done|]; repeat constructor; lia|]. 
  unfold limbs_val.
  generalize (rd (acc ctx) 0) (rd (acc ctx) 1) (rd (acc ctx) 2) (rd (acc ctx) 3) (rd (acc ctx) 4).
  intros. unfold rd; simpl nth. lia.
Qed.

Lemma poly1305_block_eq `{NeonBuild} ctx data hibit :
  acc_ok (acc ctx) -> below (2 ^ 26) (poly_r ctx) -> is_bytes data -> length data = 16%nat -> 0 <= hibit <= 1 ->
  poly1305_block ctx data hibit = poly1305_block_scalar ctx data hibit.
Proof.
  intros. unfold poly1305_block. destruct HAS_NEON; [|done].
  unfold poly1305_block_neon, poly1305_block_scalar. rewrite products_neon_scalar; [done| |done].
  apply block_sum_ok; done.
Qed.

Lemma poly1305_block_ok `{NeonBuild} ctx data hibit :
  acc_ok (acc ctx) -> below (2 ^ 26) (poly_r ctx) -> is_bytes data -> length data = 16%nat -> 0 <= hibit <= 1 ->
  acc_ok (acc (poly1305_block ctx data hibit)) /\
  limbs_val (acc (poly1305_block ctx data hibit)) mod P1305 =
  ((limbs_val (acc ctx) + block_val data hibit) * limbs_val (poly_r ctx)) mod P1305.
Proof.
  intros Ha Hr Hd Hl Hh. rewrite poly1305_block_eq by done.
  destruct (block_sum_ok ctx data hibit) as [Hs <-]; try done.
  destruct (products_scalar_exact _ _ Hs Hr) as [Ep Hp]. cbn [poly1305_block_scalar set_acc acc]. rewrite Ep.
  destruct (block_carry_ok _ Hp) as [Hc [K ->]]. split; [done|].
  destruct (exact_products_val (block_sum ctx data hibit) (poly_r ctx)) as [K' ->].
  rewrite !Z.mod_add by done. done.
Qed.

(** ** The final reduction *)

Lemma final_carry_ok a : acc_ok a ->
  below (2 ^ 26) (final_carry a) /\ limbs_val (final_carry a) mod P1305 = limbs_val a mod P1305.
Proof.
  intros (Hl & H0 & H1 & H2 & H3 & H4). unfold final_carry, limbs_val, add32, mul32.
  revert H0 H1 H2 H3 H4. clear Hl.
  generalize (rd a 0) (rd a 1) (rd a 2) (rd a 3) (rd a 4). intros h0 h1 h2 h3 h4 H0 H1 H2 H3 H4.
  rewrite !land_M26, !shr32_div by lia. change (2 ^ 26) with 67108864 in *.
  assert (forall x, 0 <= x < 67108864 + 4096 -> exists c l, x / 67108864 = c /\ x mod 67108864 = l /\
    x = c * 67108864 + l /\ 0 <= l < 67108864 /\ (c = 0 \/ c = 1 /\ l < 4096)) as Hs.
  { intros x Hx. do 2 eexists. repeat split; zlia. }
  destruct (Hs h1) as (c1 & l1 & -> & -> & ? & ? & ?); [lia|].
  rewrite (u32_small (h2 + c1)) by (unfold is_u32; lia).
  destruct (Hs (h2 + c1)) as (c2 & l2 & -> & -> & ? & ? & ?); [lia|].
  rewrite (u32_small (h3 + c2)) by (unfold is_u32; lia).
  destruct (Hs (h3 + c2)) as (c3 & l3 & -> & -> & ? & ? & ?); [lia|].
  rewrite (u32_small (h4 + c3)) by (unfold is_u32; lia).
  destruct (Hs (h4 + c3)) as (c4 & l4 & -> & -> & ? & ? & ?); [lia|].
  rewrite (u32_small (c4 * 5)), (u32_small (h0 + c4 * 5)) by (unfold is_u32; lia).
  destruct (Hs (h0 + c4 * 5)) as (c5 & l5 & -> & -> & ? & ? & ?); [lia|].
  rewrite (u32_small (l1 + c5)) by (unfold is_u32; lia).
  split; [split; [done|]; repeat constructor; lia|]. unfold rd; simpl nth.
  rewrite <- (Z.mod_add _ c4 P1305) by done. f_equal. unfold P1305. lia.
Qed.

Lemma land_allones x : is_u32 x -> Z.land x 4294967295 = x.
Proof. intros. change 4294967295 with (Z.ones 32). rewrite Z.land_ones by lia. by apply Z.mod_small. Qed.

(** The subtraction without the masks. *)
Lemma final_select_eq h0 h1 h2 h3 h4 :
  is_u32 h0 -> is_u32 h1 -> is_u32 h2 -> is_u32 h3 -> 0 <= h4 < 2 ^ 26 ->
  let c0 := add32 h0 5 in let c1 := add32 h1 (shr32 c0 26) in
  let c2 := add32 h2 (shr32 c1 26) in let c3 := add32 h3 (shr32 c2 26) in
  0 <= shr32 c3 26 <= 1 ->
  final_select [h0; h1; h2; h3; h4] =
  if h4 + shr32 c3 26 <? 2 ^ 26 then [h0; h1; h2; h3; h4]
  else [c0 mod 2 ^ 26; c1 mod 2 ^ 26; c2 mod 2 ^ 26; c3 mod 2 ^ 26; 0].
Proof.
  intros ? ? ? ? ? c0 c1 c2 c3 ?. unfold final_select, rd; simpl nth. fold c0 c1 c2 c3.
  rewrite !land_M26. case_cmp.
  - assert (shr32 (sub32 (add32 h4 (shr32 c3 26)) 67108864) 31 = 1) as ->.
    { unfold sub32, add32. rewrite shr32_div by lia. unfold u32. zlia. }
    change (sub32 1 1) with 0. change (not32 0) with 4294967295.
    rewrite !Z.land_0_r, !Z.lor_0_r, !land_allones by (done || (unfold is_u32; lia)). done.
  - assert (sub32 (add32 h4 (shr32 c3 26)) 67108864 = 0) as ->.
    { unfold sub32, add32, u32. zlia. }
    change (sub32 (shr32 0 31) 1) with 4294967295. change (not32 4294967295) with 0.
    rewrite !Z.land_0_r, !Z.lor_0_l, !land_allones; [done|..];
      unfold is_u32; lia || (match goal with |- 0 <= ?x mod _ < _ => pose proof (Z.mod_pos_bound x (2 ^ 26)); lia end).
Qed.

Lemma final_select_ok h : below (2 ^ 26) h ->
  below (2 ^ 26) (final_select h) /\ limbs_val (final_select h) = limbs_val h mod P1305.
Proof.
  intros (h0 & h1 & h2 & h3 & h4 & -> & ? & ? & ? & ? & ?)%below_inv.
  assert (forall x, 0 <= x < 2 ^ 26 + 5 -> exists c l, x / 2 ^ 26 = c /\ x mod 2 ^ 26 = l /\
    x = c * 2 ^ 26 + l /\ 0 <= l < 2 ^ 26 /\ 0 <= c <= 1) as Hs.
  { intros x Hx. do 2 eexists. repeat split; zlia. }
  pose proof (final_select_eq h0 h1 h2 h3 h4) as E. cbv zeta in E.
  unfold add32 in E. rewrite !shr32_div in E by lia. unfold is_u32 in E.
  rewrite (u32_small (h0 + 5)) in E by (unfold is_u32; lia).
  destruct (Hs (h0 + 5)) as (c0 & l0 & E0 & E0' & ? & ? & ?); [lia|]. rewrite E0, E0' in E.
  rewrite (u32_small (h1 + c0)) in E by (unfold is_u32; lia).
  destruct (Hs (h1 + c0)) as (c1 & l1 & E1 & E1' & ? & ? & ?); [lia|]. rewrite E1, E1' in E.
  rewrite (u32_small (h2 + c1)) in E by (unfold is_u32; lia).
  destruct (Hs (h2 + c1)) as (c2 & l2 & E2 & E2' & ? & ? & ?); [lia|]. rewrite E2, E2' in E.
  rewrite (u32_small (h3 + c2)) in E by (unfold is_u32; lia).
  destruct (Hs (h3 + c2)) as (c3 & l3 & E3 & E3' & ? & ? & ?); [lia|]. rewrite E3, E3' in E.
  rewrite E by lia. clear E. unfold limbs_val, P1305. case_cmp.
  - split; [split; [done|]; repeat constructor; lia|]. unfold rd; simpl nth. symmetry; apply Z.mod_small; lia.
  - split; [split; [done|]; repeat constructor; lia|]. unfold rd; simpl nth.
    apply Z.mod_unique with 1; [left|]; lia.
Qed.

Lemma final_add_ok h s : below (2 ^ 26) h -> below (2 ^ 32) (s ++ [0]) ->
  final_add h s = le_bytes 16 (limbs_val h + rd s 0 + rd s 1 * 2 ^ 32 + rd s 2 * 2 ^ 64 + rd s 3 * 2 ^ 96).
Proof.
  intros (h0 & h1 & h2 & h3 & h4 & -> & ? & ? & ? & ? & ?)%below_inv Hs.
  assert (forall i, 0 <= i < 4 -> 0 <= rd s i < 2 ^ 32) as Hr.
  { intros i Hi. rewrite <- (rd_app_l s [0]); [apply rd_below; [done|lia]|].
    destruct Hs as [Hl _]. rewrite length_app in Hl. simpl in Hl. lia. }
  pose proof (Hr 0); pose proof (Hr 1); pose proof (Hr 2); pose proof (Hr 3). clear Hr Hs.
  unfold final_add, limbs_val. revert H4 H5 H6 H7.
  generalize (rd s 0) (rd s 1) (rd s 2) (rd s 3). intros s0 s1 s2 s3 ? ? ? ?.
  unfold rd; simpl nth. unfold add64, shl64. rewrite !Z.shiftl_mul_pow2 by lia.
  rewrite !(u64_small (_ * _)) by (unfold is_u64; lia). rewrite <- (Z.shiftl_mul_pow2 h1) by lia.
  rewrite lor_shiftl_add, (Z.shiftl_mul_pow2 h1) by lia. rewrite !shr64_div by lia.
  assert (forall x, Z.land x 4294967295 = x mod 2 ^ 32) as Hm by (intros; apply (Z.land_ones _ 32); lia).
  rewrite !Hm. rewrite (u64_small (h0 + h1 * 2 ^ 26 + s0)) by (unfold is_u64; lia).
  assert (forall x, 0 <= x < 2 ^ 60 -> exists c l, x / 2 ^ 32 = c /\ x mod 2 ^ 32 = l /\
    x = c * 2 ^ 32 + l /\ 0 <= l < 2 ^ 32 /\ 0 <= c < 2 ^ 28) as Hd.
  { intros x Hx. do 2 eexists. repeat split; zlia. }
  rewrite !(u64_small (_ * _ + _)) by (unfold is_u64; lia).
  destruct (Hd (h0 + h1 * 2 ^ 26 + s0)) as (c0 & l0 & -> & -> & ? & ? & ?); [lia|].
  rewrite (u64_small (h2 * 2 ^ 20 + s1 + c0)) by (unfold is_u64; lia).
  destruct (Hd (h2 * 2 ^ 20 + s1 + c0)) as (c1 & l1 & -> & -> & ? & ? & ?); [lia|].
  rewrite (u64_small (h3 * 2 ^ 14 + s2 + c1)) by (unfold is_u64; lia).
  destruct (Hd (h3 * 2 ^ 14 + s2 + c1)) as (c2 & l2 & -> & -> & ? & ? & ?); [lia|].
  rewrite (u64_small (h4 * 2 ^ 8 + s3 + c2)) by (unfold is_u64; lia).
  rewrite !(u32_small l0), !(u32_small l1), !(u32_small l2) by (unfold is_u32; lia).
  unfold u32. change 4294967296 with (2 ^ 32).
  destruct (Hd (h4 * 2 ^ 8 + s3 + c2)) as (c3 & l3 & _ & -> & ? & ? & ?); [lia|].
  apply le_val_inj; [auto 6 with wg_range..|done|].
  rewrite !le_val_app, !store32_le_bytes, !le_val_le_bytes, !length_le_bytes.
  change (256 ^ Z.of_nat 4) with (2 ^ 32). change (256 ^ Z.of_nat 16) with (2 ^ 128).
  rewrite !(Z.mod_small _ (2 ^ 32)) by lia. apply Z.mod_unique with c3; [left|]; lia.
Qed.

(** ** Clamping the key *)

Definition clamp_mask : list Z :=
  [0xff; 0xff; 0xff; 0x0f; 0xfc; 0xff; 0xff; 0x0f; 0xfc; 0xff; 0xff; 0x0f; 0xfc; 0xff; 0xff; 0x0f].
Definition clamp_bytes (l : list Z) : list Z := zip_with Z.land l clamp_mask.

Lemma land_cons b c v w : is_u8 b -> is_u8 c -> Z.land (b + 256 * v) (c + 256 * w) = Z.land b c + 256 * Z.land v w.
Proof.
  intros Hb Hc. pose proof (land_u8 b c Hb). unfold is_u8 in *.
  replace (b + 256 * v) with (Z.lor b (Z.shiftl v 8)) by (rewrite lor_shiftl_add; lia).
  replace (c + 256 * w) with (Z.lor c (Z.shiftl w 8)) by (rewrite lor_shiftl_add; lia).
  replace (_ + 256 * Z.land v w) with (Z.lor (Z.land b c) (Z.shiftl (Z.land v w) 8))
    by (rewrite lor_shiftl_add; lia).
  apply Z.bits_inj'. intros i Hi. rewrite !Z.land_spec, !Z.lor_spec, !Z.land_spec, !Z.shiftl_spec, Z.land_spec by lia.
  destruct (Z.lt_ge_cases i 8).
  - rewrite !(Z.testbit_neg_r _ (i - 8)) by lia. btauto.
  - rewrite (proj1 (pow2_range_bits 8 b ltac:(lia) ltac:(lia))) by lia.
    rewrite (proj1 (pow2_range_bits 8 c ltac:(lia) ltac:(lia))) by lia. btauto.
Qed.

Lemma le_val_land l m : is_bytes l -> is_bytes m -> length l = length m ->
  le_val (zip_with Z.land l m) = Z.land (le_val l) (le_val m).
Proof.
  intros Hl. revert m. induction Hl as [|b l Hb Hl IH]; intros m Hm E; [done|].
  destruct m as [|c m]; [discriminate E|]. apply Forall_cons in Hm as [Hc Hm].
  cbn [zip_with le_val]. rewrite land_cons, IH by (done || (simpl in E; lia)). done.
Qed.

Lemma clamp_mask_bytes : is_bytes clamp_mask.
Proof. repeat constructor; lia. Qed.

Lemma le_val_clamp l : is_bytes l -> length l = 16%nat -> le_val (clamp_bytes l) = clamp (le_val l).
Proof. intros. unfold clamp_bytes. rewrite le_val_land; [done|done|apply clamp_mask_bytes|done]. Qed.
Lemma length_clamp l : length l = 16%nat -> length (clamp_bytes l) = 16%nat.
Proof. intros. unfold clamp_bytes. rewrite length_zip_with, H. done. Qed.
Lemma is_bytes_clamp l : is_bytes l -> is_bytes (clamp_bytes l).
Proof.
  intros Hl. unfold clamp_bytes. generalize clamp_mask clamp_mask_bytes.
  induction Hl as [|b l Hb Hl IH]; intros m Hm; [constructor|].
  destruct m as [|c m]; [constructor|]. apply Forall_cons in Hm as [Hc Hm].
  constructor; [by apply land_u8|by apply IH].
Qed.

Lemma clamp_wr l : is_bytes l -> length l = 16%nat ->
  (let r := wr l 3 (Z.land (rd l 3) 15) in let r := wr r 7 (Z.land (rd r 7) 15) in
   let r := wr r 11 (Z.land (rd r 11) 15) in let r := wr r 15 (Z.land (rd r 15) 15) in
   let r := wr r 4 (Z.land (rd r 4) 252) in let r := wr r 8 (Z.land (rd r 8) 252) in
   wr r 12 (Z.land (rd r 12) 252)) = clamp_bytes l.
Proof.
  intros Hb Hl. do 16 (destruct l as [|? l]; [discriminate Hl|]). destruct l; [|discriminate Hl].
  unfold is_bytes in Hb. rewrite !Forall_cons in Hb. unfold clamp_bytes, clamp_mask. cbn [zip_with].
  assert (forall x, is_u8 x -> Z.land x 255 = x) as Hm.
  { intros x Hx. change 255 with (Z.ones 8). rewrite Z.land_ones by lia. by apply Z.mod_small. }
  rewrite !Hm by tauto. reflexivity.
Qed.

(** ** The incremental interface *)

(** The accumulator of RFC 8439 after the full blocks of [msg] alone. *)
Fixpoint poly_full (n : nat) (a r : Z) (msg : list Z) : Z :=
  match n with
  | O => a
  | S n => poly_full n (((a + le_val (take 16 msg ++ [1])) * r) mod P1305) r (drop 16 msg)
  end.

Lemma poly_full_snoc n a r msg :
  poly_full (S n) a r msg =
  ((poly_full n a r msg + le_val (take 16 (drop (16 * n) msg) ++ [1])) * r) mod P1305.
Proof.
  revert a msg. induction n as [|n IH]; intros a msg; [done|].
  change (poly_full (S (S n)) a r msg) with
    (poly_full (S n) (((a + le_val (take 16 msg ++ [1])) * r) mod P1305) r (drop 16 msg)).
  rewrite IH. cbn [poly_full]. rewrite drop_drop. do 7 f_equal. lia.
Qed.

Lemma poly_full_app n a r m1 m2 :
  (16 * n <= length m1)%nat -> poly_full n a r (m1 ++ m2) = poly_full n a r m1.
Proof.
  revert a m1. induction n as [|n IH]; intros a m1 Hl; [done|]. cbn [poly_full].
  rewrite take_app_le, drop_app_le by lia. apply IH. rewrite length_drop. lia.
Qed.

(** The reference accumulator is the one over the full blocks, plus a last
    block for what is left. *)
Lemma poly_acc_full fuel a r msg :
  (length msg <= fuel)%nat ->
  poly_acc_rfc fuel a r msg =
  let n := (length msg / 16)%nat in
  let rest := drop (16 * n) msg in
  if (0 <? length rest)%nat
  then ((poly_full n a r msg + le_val (rest ++ [1])) * r) mod P1305
  else poly_full n a r msg.
Proof.
  revert a msg. induction fuel as [|fuel IH]; intros a msg Hf.
  { destruct msg; [done|simpl in Hf; lia]. }
  destruct (decide (length msg < 16)%nat) as [Hs|Hb].
  - rewrite (Nat.div_small (length msg)) by lia. cbn [Nat.mul drop poly_full]. cbv zeta.
    destruct msg as [|b msg]; [done|]. cbn [poly_acc_rfc]. rewrite (take_ge (b :: msg)) by lia.
    rewrite (drop_ge (b :: msg)) by lia. destruct fuel; done.
  - assert (length msg / 16 = S (length (drop 16 msg) / 16))%nat as E.
    { rewrite length_drop. replace (length msg) with (1 * 16 + (length msg - 16))%nat at 1 by lia.
      rewrite Nat.div_add_l; lia. }
    cbv zeta. rewrite E. destruct msg as [|b msg]; [simpl in Hb; lia|].
    cbn [poly_acc_rfc]. rewrite IH by (rewrite length_drop; simpl in *; lia). cbv zeta.
    cbn [poly_full]. rewrite drop_drop.
    replace (16 + 16 * (length (drop 16 (b :: msg)) / 16))%nat
      with (16 * S (length (drop 16 (b :: msg)) / 16))%nat by lia. done.
Qed.

Section stream.
Context `{NeonBuild} (key : list Z).

Definition key_r : Z := clamp (le_val (take 16 key)).
Definition key_s : Z := le_val (take 16 (drop 16 key)).

(** A context that has consumed [msg]: the accumulator stands for the full
    blocks, the buffer holds the rest. *)
Record poly_absorbed (ctx : wg_poly1305_ctx) (msg : list Z) : Prop := {
  ab_r : below (2 ^ 26) (poly_r ctx);
  ab_rv : limbs_val (poly_r ctx) = key_r;
  ab_s : below (2 ^ 32) (poly_s ctx ++ [0]);
  ab_sv : rd (poly_s ctx) 0 + rd (poly_s ctx) 1 * 2 ^ 32 + rd (poly_s ctx) 2 * 2 ^ 64 + rd (poly_s ctx) 3 * 2 ^ 96 = key_s;
  ab_acc : acc_ok (acc ctx);
  ab_av : limbs_val (acc ctx) mod P1305 = poly_full (length msg / 16) 0 key_r msg;
  ab_buf : length (poly_buf ctx) = 16%nat;
  ab_len : buf_len ctx = Z.of_nat (length msg mod 16);
  ab_rest : take (length msg mod 16) (poly_buf ctx) = drop (16 * (length msg / 16)) msg
}.

Lemma poly_aligned_app (m d : list Z) :
  (length m mod 16 = 0)%nat -> length d = 16%nat -> (length (m ++ d) mod 16 = 0)%nat.
Proof.
  intros Hm Hd. rewrite length_app, Hd. change 16%nat with (1 * 16)%nat at 1. rewrite Nat.Div0.mod_add. done.
Qed.

(** A full block processed at a block boundary. *)
Lemma poly_absorbed_block ctx msg data :
  poly_absorbed ctx msg -> (length msg mod 16 = 0)%nat -> is_bytes data -> length data = 16%nat ->
  poly_absorbed (set_poly_buf (poly1305_block ctx data 1) (poly_buf ctx) 0) (msg ++ data).
Proof.
  intros [Hr Hrv Hs Hsv Ha Hav Hb Hbl Hrest] Hm Hd Hl.
  destruct (poly1305_block_ok ctx data 1) as [Hok Hv]; try done.
  assert (length (msg ++ data) / 16 = S (length msg / 16) /\ length (msg ++ data) mod 16 = 0)%nat as [Eq Er].
  { rewrite length_app, Hl. change 16%nat with (1 * 16)%nat at 1 4.
    rewrite Nat.div_add, Nat.Div0.mod_add by lia. lia. }
  assert (length msg = 16 * (length msg / 16))%nat as Hlm by (pose proof (Nat.div_mod (length msg) 16); lia).
  assert (poly_r (poly1305_block ctx data 1) = poly_r ctx /\ poly_s (poly1305_block ctx data 1) = poly_s ctx) as [Er' Es'].
  { rewrite poly1305_block_eq by done. done. }
  split; cbn [set_poly_buf poly_r poly_s acc poly_buf buf_len]; rewrite ?Er', ?Es'; try done.
  - rewrite Hv, Eq, poly_full_snoc, poly_full_app by lia. rewrite <- Hav, <- Hlm, drop_app_length.
    rewrite (take_ge data) by lia. rewrite Hrv, le_val_app, Hl. unfold block_val.
    rewrite <- (Z.mul_mod_idemp_l (limbs_val _ + _)), <- (Z.add_mod_idemp_l (limbs_val _)) by discriminate.
    rewrite Z.mul_mod_idemp_l by discriminate. do 3 f_equal.
  - rewrite Er. done.
  - rewrite Er, Eq. rewrite drop_ge; [done|]. rewrite length_app. lia.
Qed.

Lemma poly_loop_spec fuel : forall ctx msg data,
  (length data <= fuel)%nat -> poly_absorbed ctx msg -> (length msg mod 16 = 0)%nat -> is_bytes data ->
  exists ctx' blocks rest, poly_loop fuel ctx data = (ctx', rest) /\ data = blocks ++ rest /\
    poly_absorbed ctx' (msg ++ blocks) /\ (length (msg ++ blocks) mod 16 = 0)%nat /\ (length rest < 16)%nat.
Proof.
  induction fuel as [|fuel IH]; intros ctx msg data Hf Hab Hm Hd; cbn [poly_loop].
  { destruct data; [|simpl in Hf; lia]. exists ctx, [], []. rewrite !app_nil_r. split_and!; auto; simpl; lia. }
  destruct (Nat.leb_spec 16 (length data)) as [Hl|Hl].
  2: { exists ctx, [], data. rewrite !app_nil_r. split_and!; auto. }
  assert (buf_len ctx = 0) as H0 by (rewrite (ab_len _ _ Hab), Hm; done).
  pose proof (poly_absorbed_block ctx msg (take 16 data) Hab Hm) as Hb.
  assert (set_poly_buf (poly1305_block ctx (take 16 data) 1) (poly_buf ctx) 0 = poly1305_block ctx (take 16 data) 1) as E.
  { unfold set_poly_buf, poly1305_block, poly1305_block_neon, poly1305_block_scalar, set_acc. destruct HAS_NEON; cbn; by rewrite H0. }
  rewrite E in Hb.
  assert (length (take 16 data) = 16)%nat as Ht by (rewrite length_take; lia).
  assert (length (msg ++ take 16 data) mod 16 = 0)%nat as Hm'.
  { by apply poly_aligned_app. }
  destruct (IH (poly1305_block ctx (take 16 data) 1) (msg ++ take 16 data) (drop 16 data)) as (ctx' & bs & rest & -> & Er & Hab' & Hm2 & Hlr);
    [rewrite length_drop; lia|auto with wg_range..|].
  exists ctx', (take 16 data ++ bs), rest. rewrite <- !app_assoc in *. rewrite <- Er, take_drop. done.
Qed.

(** Bytes appended to the buffer below a block boundary. *)
Lemma poly_absorbed_buffer ctx msg data :
  poly_absorbed ctx msg -> (length msg mod 16 + length data < 16)%nat ->
  poly_absorbed (set_poly_buf ctx (copy_at (poly_buf ctx) (buf_len ctx) data) (buf_len ctx + Z.of_nat (length data)))
    (msg ++ data).
Proof.
  intros [Hr Hrv Hs Hsv Ha Hav Hb Hbl Hrest] Hl.
  assert (length (msg ++ data) / 16 = length msg / 16 /\
          length (msg ++ data) mod 16 = length msg mod 16 + length data)%nat as [Eq Er].
  { rewrite length_app. pose proof (Nat.div_mod (length msg) 16).
    split; [symmetry; apply Nat.div_unique with (length msg mod 16 + length data)%nat; lia|].
    symmetry; apply Nat.mod_unique with (length msg / 16)%nat; lia. }
  pose proof (Nat.Div0.mul_div_le (length msg) 16).
  split; cbn [set_poly_buf poly_r poly_s acc poly_buf buf_len]; try done.
  - rewrite Eq, poly_full_app by lia. done.
  - rewrite length_copy_at; lia.
  - rewrite Er, Hbl. lia.
  - rewrite Er, Eq, drop_app_le, <- Hrest, Hbl by lia.
    rewrite <- (Nat2Z.id (length msg mod 16)) at 1. rewrite take_copy_at by lia.
    rewrite Nat2Z.id. done.
Qed.

Lemma poly_absorbed_rest ctx msg data :
  poly_absorbed ctx msg -> (length msg mod 16 = 0)%nat -> is_bytes data -> poly_absorbed (poly_rest ctx data) (msg ++ data).
Proof.
  intros Hab Hm Hd. unfold poly_rest.
  destruct (poly_loop_spec (length data) ctx msg data) as (ctx' & bs & rest & -> & -> & Hab' & Hm' & Hl); auto.
  rewrite app_assoc. destruct (Nat.ltb_spec 0 (length rest)) as [Hr|Hr].
  - pose proof (poly_absorbed_buffer ctx' (msg ++ bs) rest Hab') as Hb.
    rewrite (ab_len _ _ Hab'), Hm' in Hb. apply Hb. lia.
  - destruct rest; [|simpl in Hr; lia]. rewrite app_nil_r. done.
Qed.

(** The part of the context the block function does not touch. *)
Lemma poly1305_block_buf ctx b n data hibit :
  poly1305_block (set_poly_buf ctx b n) data hibit = set_poly_buf (poly1305_block ctx data hibit) b n.
Proof. unfold poly1305_block. destruct HAS_NEON; done. Qed.

(** Forgetting the buffered bytes. *)
Lemma poly_absorbed_full ctx msg b :
  poly_absorbed ctx msg -> length b = 16%nat ->
  poly_absorbed (set_poly_buf ctx b 0) (take (16 * (length msg / 16)) msg) /\
  (length (take (16 * (length msg / 16)) msg) mod 16 = 0)%nat.
Proof.
  intros [Hr Hrv Hs Hsv Ha Hav Hb Hbl Hrest] Hlb. pose proof (Nat.Div0.mul_div_le (length msg) 16).
  assert (length (take (16 * (length msg / 16)) msg) = length msg / 16 * 16)%nat as E by (rewrite length_take; lia).
  assert (length (take (16 * (length msg / 16)) msg) mod 16 = 0)%nat as Em by (rewrite E; apply Nat.Div0.mod_mul).
  split; [|done]. split; cbn [set_poly_buf poly_r poly_s acc poly_buf buf_len]; try done.
  - rewrite E, Nat.div_mul, Hav by lia. rewrite <- (take_drop (16 * (length msg / 16)) msg) at 2.
    apply poly_full_app. lia.
  - rewrite Em. done.
  - rewrite Em, E, Nat.div_mul, drop_ge by lia. done.
Qed.

Lemma poly_absorbed_update ctx msg data :
  poly_absorbed ctx msg -> is_bytes msg -> is_bytes data -> poly_absorbed (wg_poly1305_update ctx data) (msg ++ data).
Proof.
  intros Hab Hm Hd. unfold wg_poly1305_update. pose proof (ab_len _ _ Hab) as Hl.
  pose proof (ab_buf _ _ Hab) as Hbuf. pose proof (Nat.mod_upper_bound (length msg) 16) as Hmb.
  destruct (Z.ltb_spec 0 (buf_len ctx)) as [H0|H0]; [|apply poly_absorbed_rest; auto; lia].
  destruct (Z.ltb_spec (Z.of_nat (length data)) (16 - buf_len ctx)) as [Hs|Hs].
  { apply poly_absorbed_buffer; [done|lia]. }
  set (w := Z.to_nat (16 - buf_len ctx)).
  assert (length (take w data) = w) as Hw by (rewrite length_take; lia).
  set (b := copy_at (poly_buf ctx) (buf_len ctx) (take w data)).
  assert (length b = 16%nat) as Hb by (unfold b; rewrite length_copy_at; lia).
  assert (b = drop (16 * (length msg / 16)) msg ++ take w data) as Eb.
  { unfold b, copy_at. rewrite <- (ab_rest _ _ Hab), Hl, Nat2Z.id, (drop_ge (poly_buf ctx)) by lia.
    rewrite app_nil_r. done. }
  destruct (poly_absorbed_full ctx msg b) as [Hf Hfm]; [done..|].
  pose proof (poly_absorbed_block _ _ b Hf Hfm) as Hblk.
  rewrite poly1305_block_buf in *. cbn [set_poly_buf poly_r poly_s acc poly_buf buf_len] in Hblk |- *.
  rewrite <- (take_drop w data) at 2. rewrite (app_assoc msg).
  replace (msg ++ take w data) with (take (16 * (length msg / 16)) msg ++ b)
    by (rewrite Eb, app_assoc, take_drop; done).
  apply poly_absorbed_rest.
  - apply Hblk; [rewrite Eb; auto with wg_range|done].
  - by apply poly_aligned_app.
  - auto with wg_range.
Qed.

Lemma poly_absorbed_final ctx msg :
  poly_absorbed ctx msg -> is_bytes msg -> wg_poly1305_final ctx = poly1305_rfc msg key.
Proof.
  intros Hab Hm. unfold wg_poly1305_final, poly1305_rfc. fold key_r key_s.
  rewrite poly_acc_full by done. cbv zeta.
  pose proof (ab_rest _ _ Hab) as Hrest. pose proof (ab_buf _ _ Hab) as Hb. pose proof (ab_len _ _ Hab) as Hl.
  pose proof (Nat.mod_upper_bound (length msg) 16) as Hmb.
  assert (forall a, acc_ok a -> forall s, s = poly_s ctx ->
    final_add (final_select (final_carry a)) s = le_bytes 16 (limbs_val a mod P1305 + key_s)) as Hfin.
  { intros a Ha s ->. destruct (final_carry_ok a Ha) as [Hc Ec]. destruct (final_select_ok _ Hc) as [Hse Ese].
    rewrite final_add_ok by (done || apply Hab). rewrite Ese, Ec, <- (ab_sv _ _ Hab). f_equal. lia. }
  assert (length (drop (16 * (length msg / 16)) msg) = length msg mod 16)%nat as El.
  { rewrite <- Hrest, length_take. lia. }
  rewrite El. destruct (Z.ltb_spec 0 (buf_len ctx)) as [H0|H0].
  2: { destruct (Nat.ltb_spec 0 (length msg mod 16)); [lia|]. rewrite Hfin by (done || apply Hab).
       rewrite (ab_av _ _ Hab). done. }
  destruct (Nat.ltb_spec 0 (length msg mod 16)); [|lia].
  set (rest := drop (16 * (length msg / 16)) msg) in *.
  assert (copy_at (wr (poly_buf ctx) (buf_len ctx) 1) (buf_len ctx + 1)
            (replicate (Z.to_nat (16 - buf_len ctx - 1)) 0)
          = rest ++ [1] ++ replicate (15 - length rest) 0) as ->.
  { unfold copy_at, wr. rewrite Hl, El, Nat2Z.id, insert_take_drop, Hrest by lia.
    replace (Z.to_nat (Z.of_nat (length msg mod 16) + 1)) with (length rest + 1)%nat by lia.
    replace (Z.to_nat (16 - Z.of_nat (length msg mod 16) - 1)) with (15 - length msg mod 16)%nat by lia.
    rewrite !cons_middle, (app_assoc rest [1] (drop _ _)), take_app_length' by (rewrite length_app; simpl; lia).
    rewrite drop_ge; [by rewrite app_nil_r, <- app_assoc|].
    rewrite !length_app, length_drop, length_replicate. simpl. lia. }
  rewrite poly1305_block_buf. cbn [set_poly_buf poly_r poly_s acc poly_buf buf_len].
  set (blk := rest ++ [1] ++ replicate (15 - length rest) 0).
  assert (is_bytes rest) as Hrb by (unfold rest; auto with wg_range).
  assert (is_bytes blk). { apply is_bytes_app; [done|]. apply is_bytes_app; [|auto with wg_range]. repeat constructor; lia. }
  assert (length blk = 16%nat) as Hbl by (unfold blk; rewrite !length_app, length_replicate; simpl; lia).
  destruct (poly1305_block_ok ctx blk 0) as [Hok Hv]; [apply Hab..|done|done|lia|].
  rewrite Hfin; [|done|]. 
  2: { rewrite poly1305_block_eq by (done || apply Hab || lia). done. }
  rewrite Hv, (ab_rv _ _ Hab), <- (ab_av _ _ Hab).
  rewrite <- (Z.mul_mod_idemp_l (limbs_val _ + _)), <- (Z.add_mod_idemp_l (limbs_val _)) by discriminate.
  rewrite Z.mul_mod_idemp_l by discriminate. do 5 f_equal. unfold block_val, blk.
  rewrite !le_val_app, le_val_replicate0. simpl length. lia.
Qed.

Lemma poly_absorbed_init buf0 :
  is_bytes key -> length key = 32%nat -> length buf0 = 16%nat -> poly_absorbed (wg_poly1305_init buf0 key) [].
Proof.
  intros Hkey Hklen Hb. set (k1 := take 16 key). set (k2 := take 16 (drop 16 key)).
  assert (length k1 = 16%nat /\ is_bytes k1) as [Hl1 Hk1] by (unfold k1; split; [rewrite length_take; lia|auto with wg_range]).
  assert (length k2 = 16%nat /\ is_bytes k2) as [Hl2 Hk2]
    by (unfold k2; split; [rewrite length_take, length_drop; lia|auto with wg_range]).
  assert (forall o, 0 <= o <= 12 -> load32_le key (16 + o) = load32_le k2 o) as Hs.
  { intros o Ho. rewrite !load32_le_val by (done || lia). unfold k2. rewrite skipn_firstn_comm, drop_drop, take_take.
    do 2 f_equal; [lia|]. f_equal. lia. }
  pose proof (clamp_wr k1 Hk1 Hl1) as Ec. cbv zeta in Ec.
  unfold wg_poly1305_init. cbv zeta. fold k1. rewrite !Ec.
  destruct (block_limbs_ok (load32_le (clamp_bytes k1) 0) (load32_le (clamp_bytes k1) 4)
    (load32_le (clamp_bytes k1) 8) (load32_le (clamp_bytes k1) 12)) as [Hr _];
    [apply load32_le_range; by apply is_bytes_clamp..|].
  split; cbn [poly_r poly_s acc poly_buf buf_len]; try done.
  - fold (block_limbs (load32_le (clamp_bytes k1) 0) (load32_le (clamp_bytes k1) 4)
      (load32_le (clamp_bytes k1) 8) (load32_le (clamp_bytes k1) 12)).
    rewrite block_limbs_val by (apply load32_le_range; by apply is_bytes_clamp).
    rewrite word_value by (apply length_clamp || apply is_bytes_clamp; done). apply le_val_clamp; done.
  - split; [done|]. repeat constructor; try apply load32_le_range; try done; lia.
  - unfold rd; simpl nth. change 20 with (16 + 4). change 24 with (16 + 8). change 28 with (16 + 12).
    change 16 with (16 + 0) at 1. rewrite !Hs by lia. apply word_value; done.
Qed.
End stream.

Lemma poly_absorbed_pieces `{NeonBuild} key ctx msg pieces :
  poly_absorbed key ctx msg -> is_bytes msg -> Forall is_bytes pieces ->
  poly_absorbed key (fold_left wg_poly1305_update pieces ctx) (msg ++ concat pieces).
Proof.
  intros Ha Hm Hp. revert ctx msg Ha Hm. induction Hp as [|p ps Hp Hps IH]; intros ctx msg Ha Hm; simpl.
  - by rewrite app_nil_r.
  - rewrite app_assoc. apply IH; [by apply poly_absorbed_update|by apply is_bytes_app].
Qed.

(** Updates with any pieces, then the final step, from any contents of the
    uninitialised buffer. *)
Lemma poly1305_pieces `{NeonBuild} buf0 key pieces :
  length buf0 = 16%nat -> is_bytes key -> length key = 32%nat -> Forall is_bytes pieces ->
  wg_poly1305_final (fold_left wg_poly1305_update pieces (wg_poly1305_init buf0 key))
  = poly1305_rfc (concat pieces) key.
Proof.
  intros. apply poly_absorbed_final; [|by apply is_bytes_concat].
  apply (poly_absorbed_pieces key _ []); [by apply poly_absorbed_init|constructor|done].
Qed.

Lemma length_poly1305_rfc msg key : length (poly1305_rfc msg key) = 16%nat.
Proof. apply length_le_bytes. Qed.
Lemma is_bytes_poly1305_rfc msg key : is_bytes (poly1305_rfc msg key).
Proof. apply is_bytes_le_bytes. Qed.

(** C28. Poly1305 is computed correctly however the message is cut: for a
    32-byte key and any list of pieces given to [wg_poly1305_update] one after
    the other, whatever the buffer held before, the scalar and the vector build
    return the tag RFC 8439 defines for the concatenation of the pieces. *)
Theorem poly1305_incremental `{NeonBuild} buf0 key pieces :
  length buf0 = 16%nat -> is_bytes key -> length key = 32%nat -> Forall is_bytes pieces ->
  wg_poly1305_final (fold_left wg_poly1305_update pieces (wg_poly1305_init buf0 key))
  = poly1305_rfc (concat pieces) key.
Proof. apply poly1305_pieces. Qed.

Lemma poly1305_incremental_witness :
  @wg_poly1305_final false (fold_left (@wg_poly1305_update false) [replicate 5 1; replicate 40 255; []; [7]]
    (wg_poly1305_init (replicate 16 9) (seqZ 100 32)))
  = poly1305_rfc (replicate 5 1 ++ replicate 40 255 ++ [] ++ [7]) (seqZ 100 32).
Proof.
  rewrite (@poly1305_incremental false (replicate 16 9) (seqZ 100 32) [replicate 5 1; replicate 40 255; []; [7]]).
  - reflexivity.
  - reflexivity.
  - apply (bool_decide_unpack _). vm_compute. exact I.
  - reflexivity.
  - repeat constructor; lia.
Defined.
