(* ===== verification/Monocypher.v ===== *)
(** * The fallback cipher suite (library/crypto/monocypher.c)

    The parts of Monocypher that the tunnel calls: constant-time comparison,
    ChaCha20 with a 64-bit counter, HChaCha20, Poly1305 on 32-bit limbs and the
    authenticated encryption built from them.  [ChaCha20.v] and [Poly1305.v] hold
    the RFC 8439 definitions these are compared with. *)

From Stdlib Require Import Btauto.
From S2P Require Import Prelude Neon ChaCha20 Poly1305.

(** ** Utilities *)

Definition not64 (x : Z) : Z := 18446744073709551615 - x.

(** [size_t] is 64 bits wide on the target. *)
Definition gap (x pow_2 : Z) : Z := Z.land (add64 (not64 x) 1) (pow_2 - 1).

Definition load64_le (s : list Z) (o : Z) : Z :=
  Z.lor (load32_le s o) (shl64 (load32_le s (o + 4)) 32).

Definition load32_le_buf (src : list Z) (o : Z) (size : nat) : list Z :=
  map (fun i => load32_le src (o + 4 * Z.of_nat i)) (seq 0 size).
Definition store32_le_buf (src : list Z) : list Z := concat (map store32_le src).

Definition rotl32 (x n : Z) : Z := Z.lxor (shl32 x n) (shr32 x (32 - n)).

(** [half - 1] is a [u64] subtraction, the result an [int]. *)
Definition neq0 (diff : Z) : Z :=
  let half := Z.lor (shr64 diff 32) (u32 diff) in
  Z.land 1 (shr64 (sub64 half 1) 32) - 1.

Definition x16 (a b : list Z) : Z :=
  Z.lor (Z.lxor (load64_le a 0) (load64_le b 0)) (Z.lxor (load64_le a 8) (load64_le b 8)).

Definition x32 (a b : list Z) : Z := Z.lor (x16 a b) (x16 (drop 16 a) (drop 16 b)).
Definition x64 (a b : list Z) : Z := Z.lor (x32 a b) (x32 (drop 32 a) (drop 32 b)).

Definition crypto_verify16 (a b : list Z) : Z := neq0 (x16 a b).
Definition crypto_verify32 (a b : list Z) : Z := neq0 (x32 a b).
Definition crypto_verify64 (a b : list Z) : Z := neq0 (x64 a b).

(** ** ChaCha20 *)

(** The macro on four of the temporaries. *)
Definition QUARTERROUND (a b c d : Z) : Z * Z * Z * Z :=
  let a := add32 a b in let d := rotl32 (Z.lxor d a) 16 in
  let c := add32 c d in let b := rotl32 (Z.lxor b c) 12 in
  let a := add32 a b in let d := rotl32 (Z.lxor d a) 8 in
  let c := add32 c d in let b := rotl32 (Z.lxor b c) 7 in
  (a, b, c, d).

Definition QR (x y z w : Z) (t : list Z) : list Z :=
  let '(a, b, c, d) := QUARTERROUND (rd t x) (rd t y) (rd t z) (rd t w) in
  wr (wr (wr (wr t x a) y b) z c) w d.

Definition two_rounds (t : list Z) : list Z :=
  let t := QR 0 4 8 12 t in
  let t := QR 1 5 9 13 t in
  let t := QR 2 6 10 14 t in
  let t := QR 3 7 11 15 t in
  let t := QR 0 5 10 15 t in
  let t := QR 1 6 11 12 t in
  let t := QR 2 7 8 13 t in
  QR 3 4 9 14 t.

Definition chacha20_rounds (input : list Z) : list Z :=
  fold_left (fun t _ => two_rounds t) (seq 0 10) input.

(** The bytes of "expand 32-byte k". *)
Definition chacha20_constant : list Z :=
  [0x65; 0x78; 0x70; 0x61; 0x6e; 0x64; 0x20; 0x33; 0x32; 0x2d; 0x62; 0x79; 0x74; 0x65; 0x20; 0x6b].

Definition crypto_chacha20_h (key input : list Z) : list Z :=
  let block := load32_le_buf chacha20_constant 0 4 ++ load32_le_buf key 0 8 ++ load32_le_buf input 0 4 in
  let block := chacha20_rounds block in
  store32_le_buf (take 4 block) ++ store32_le_buf (drop 12 block).

(** One block of key stream: [pool[j] + input[j]]. *)
Definition pool_words (input : list Z) : list Z :=
  let pool := chacha20_rounds input in
  map (fun j => add32 (rd pool (Z.of_nat j)) (rd input (Z.of_nat j))) (seq 0 16).

(** The loop over whole blocks; a null [plain_text] is [None]. *)
Fixpoint djb_blocks (nb_blocks : nat) (plain_text : option (list Z)) (input : list Z)
  : list Z * option (list Z) * list Z :=
  match nb_blocks with
  | O => ([], plain_text, input)
  | S nb_blocks =>
      let p := pool_words input in
      let cipher :=
        match plain_text with
        | Some text =>
            concat (map (fun j => store32_le (Z.lxor (rd p (Z.of_nat j)) (load32_le text (4 * Z.of_nat j)))) (seq 0 16))
        | None => store32_le_buf p
        end in
      let input := wr input 12 (add32 (rd input 12) 1) in
      let input := if rd input 12 =? 0 then wr input 13 (add32 (rd input 13) 1) else input in
      let '(rest, plain_text, input) := djb_blocks nb_blocks (drop 64 <$> plain_text) input in
      (cipher ++ rest, plain_text, input)
  end.

(** The text written and the counter returned. *)
Definition crypto_chacha20_djb (plain_text : option (list Z)) (text_size : nat) (key nonce : list Z) (ctr : Z)
  : list Z * Z :=
  let input := load32_le_buf chacha20_constant 0 4 ++ load32_le_buf key 0 8 ++
               [u32 ctr; u32 (shr64 ctr 32)] ++ load32_le_buf nonce 0 2 in
  let nb_blocks := (text_size / 64)%nat in
  let '(cipher, plain_text, input) := djb_blocks nb_blocks plain_text input in
  let text_size := (text_size mod 64)%nat in
  let tail :=
    if (0 <? text_size)%nat then
      let text := default (replicate 128 0) plain_text in
      let tmp := store32_le_buf (pool_words input) in
      map (fun i => Z.lxor (rd tmp (Z.of_nat i)) (rd text (Z.of_nat i))) (seq 0 text_size)
    else [] in
  (cipher ++ tail,
   add64 (add64 (rd input 12) (shl64 (rd input 13) 32)) (if (0 <? text_size)%nat then 1 else 0)).

(** The 64-bit counter is the block counter with the first nonce word above it. *)
Definition crypto_chacha20_ietf (plain_text : option (list Z)) (text_size : nat) (key nonce : list Z) (ctr : Z)
  : list Z * Z :=
  let big_ctr := add64 ctr (shl64 (load32_le nonce 0) 32) in
  let '(cipher_text, ctr) := crypto_chacha20_djb plain_text text_size key (drop 4 nonce) big_ctr in
  (cipher_text, u32 ctr).

Definition crypto_chacha20_x (plain_text : option (list Z)) (text_size : nat) (key nonce : list Z) (ctr : Z)
  : list Z * Z :=
  let sub_key := crypto_chacha20_h key nonce in
  crypto_chacha20_djb plain_text text_size sub_key (drop 16 nonce) ctr.

(** ** Poly1305 *)

Record crypto_poly1305_ctx := mkMonoPoly {
  mp_c : list Z;
  mp_c_idx : Z;
  mp_r : list Z;
  mp_pad : list Z;
  mp_h : list Z
}.

(** One iteration of the loop of [poly_blocks], on the limbs of the hash. *)
Definition poly_block (r h input : list Z) (fin : Z) : list Z :=
  let r0 := rd r 0 in let r1 := rd r 1 in let r2 := rd r 2 in let r3 := rd r 3 in
  let rr0 := mul32 (shr32 r0 2) 5 in
  let rr1 := add32 (shr32 r1 2) r1 in
  let rr2 := add32 (shr32 r2 2) r2 in
  let rr3 := add32 (shr32 r3 2) r3 in
  let rr4 := Z.land r0 3 in
  let s0 := add64 (rd h 0) (load32_le input 0) in
  let s1 := add64 (rd h 1) (load32_le input 4) in
  let s2 := add64 (rd h 2) (load32_le input 8) in
  let s3 := add64 (rd h 3) (load32_le input 12) in
  let s4 := add32 (rd h 4) fin in
  let x0 := add64 (add64 (add64 (add64 (mul64 s0 r0) (mul64 s1 rr3)) (mul64 s2 rr2)) (mul64 s3 rr1)) (mul32 s4 rr0) in
  let x1 := add64 (add64 (add64 (add64 (mul64 s0 r1) (mul64 s1 r0)) (mul64 s2 rr3)) (mul64 s3 rr2)) (mul32 s4 rr1) in
  let x2 := add64 (add64 (add64 (add64 (mul64 s0 r2) (mul64 s1 r1)) (mul64 s2 r0)) (mul64 s3 rr3)) (mul32 s4 rr2) in
  let x3 := add64 (add64 (add64 (add64 (mul64 s0 r3) (mul64 s1 r2)) (mul64 s2 r1)) (mul64 s3 r0)) (mul32 s4 rr3) in
  let x4 := mul32 s4 rr4 in
  let u5 := u32 (add64 x4 (shr64 x3 32)) in
  let u0 := add64 (mul32 (shr32 u5 2) 5) (Z.land x0 0xffffffff) in
  let u1 := add64 (add64 (shr64 u0 32) (Z.land x1 0xffffffff)) (shr64 x0 32) in
  let u2 := add64 (add64 (shr64 u1 32) (Z.land x2 0xffffffff)) (shr64 x1 32) in
  let u3 := add64 (add64 (shr64 u2 32) (Z.land x3 0xffffffff)) (shr64 x2 32) in
  let u4 := u32 (add64 (shr64 u3 32) (Z.land u5 3)) in
  [Z.land u0 0xffffffff; Z.land u1 0xffffffff; Z.land u2 0xffffffff; Z.land u3 0xffffffff; u4].

Fixpoint poly_blocks (nb_blocks : nat) (r h input : list Z) (fin : Z) : list Z :=
  match nb_blocks with
  | O => h
  | S nb_blocks => poly_blocks nb_blocks r (poly_block r h input fin) (drop 16 input) fin
  end.

Definition set_h (ctx : crypto_poly1305_ctx) (h : list Z) : crypto_poly1305_ctx :=
  mkMonoPoly (mp_c ctx) (mp_c_idx ctx) (mp_r ctx) (mp_pad ctx) h.
Definition set_c (ctx : crypto_poly1305_ctx) (c : list Z) (c_idx : Z) : crypto_poly1305_ctx :=
  mkMonoPoly c c_idx (mp_r ctx) (mp_pad ctx) (mp_h ctx).

(** [c0] is what the uninitialised chunk of the context holds. *)
Definition crypto_poly1305_init (c0 key : list Z) : crypto_poly1305_ctx :=
  let r := load32_le_buf key 0 4 in
  let r := wr r 0 (Z.land (rd r 0) 0x0fffffff) in
  let r := fold_left (fun r i => wr r i (Z.land (rd r i) 0x0ffffffc)) [1; 2; 3] r in
  mkMonoPoly c0 0 r (load32_le_buf key 16 4) [0; 0; 0; 0; 0].

Definition crypto_poly1305_update (ctx : crypto_poly1305_ctx) (message : list Z) : crypto_poly1305_ctx :=
  if (length message =? 0)%nat then ctx
  else
    let aligned := Z.to_nat (Z.min (gap (mp_c_idx ctx) 16) (Z.of_nat (length message))) in
    let ctx := set_c ctx (copy_at (mp_c ctx) (mp_c_idx ctx) (take aligned message))
                 (mp_c_idx ctx + Z.of_nat aligned) in
    let message := drop aligned message in
    let ctx :=
      if mp_c_idx ctx =? 16
      then set_c (set_h ctx (poly_blocks 1 (mp_r ctx) (mp_h ctx) (mp_c ctx) 1)) (mp_c ctx) 0
      else ctx in
    let nb_blocks := (length message / 16)%nat in
    let ctx := set_h ctx (poly_blocks nb_blocks (mp_r ctx) (mp_h ctx) message 1) in
    let message := drop (16 * nb_blocks) message in
    set_c ctx (copy_at (mp_c ctx) (mp_c_idx ctx) message) (mp_c_idx ctx + Z.of_nat (length message)).

Definition crypto_poly1305_final (ctx : crypto_poly1305_ctx) : list Z :=
  let ctx :=
    if mp_c_idx ctx =? 0 then ctx
    else
      let c := copy_at (mp_c ctx) (mp_c_idx ctx) (replicate (Z.to_nat (16 - mp_c_idx ctx)) 0) in
      let c := wr c (mp_c_idx ctx) 1 in
      set_h (set_c ctx c (mp_c_idx ctx)) (poly_blocks 1 (mp_r ctx) (mp_h ctx) c 0) in
  let h := mp_h ctx in
  let c := fold_left (fun c i => shr64 (add64 c (rd h i)) 32) [0; 1; 2; 3] 5 in
  let c := add64 c (rd h 4) in
  let c := mul64 (shr64 c 2) 5 in
  (fold_left (fun '(mac, c) i =>
     let c := add64 c (add64 (rd h i) (rd (mp_pad ctx) i)) in
     (mac ++ store32_le (u32 c), shr64 c 32)) [0; 1; 2; 3] ([], c)).1.

Definition crypto_poly1305 (c0 message key : list Z) : list Z :=
  let ctx := crypto_poly1305_init c0 key in
  let ctx := crypto_poly1305_update ctx message in
  crypto_poly1305_final ctx.

(** ** Authenticated encryption *)

Record crypto_aead_ctx := mkAead { ae_counter : Z; ae_key : list Z; ae_nonce : list Z }.

Definition lock_auth (c0 auth_key ad cipher_text : list Z) : list Z :=
  let sizes := store64_le (Z.of_nat (length ad)) ++ store64_le (Z.of_nat (length cipher_text)) in
  let ctx := crypto_poly1305_init c0 auth_key in
  let ctx := crypto_poly1305_update ctx ad in
  let ctx := crypto_poly1305_update ctx (replicate (Z.to_nat (gap (Z.of_nat (length ad)) 16)) 0) in
  let ctx := crypto_poly1305_update ctx cipher_text in
  let ctx := crypto_poly1305_update ctx (replicate (Z.to_nat (gap (Z.of_nat (length cipher_text)) 16)) 0) in
  let ctx := crypto_poly1305_update ctx sizes in
  crypto_poly1305_final ctx.

Definition crypto_aead_init_x (key nonce : list Z) : crypto_aead_ctx :=
  mkAead 0 (crypto_chacha20_h key nonce) (take 8 (drop 16 nonce)).

Definition crypto_aead_init_djb (key nonce : list Z) : crypto_aead_ctx := mkAead 0 (take 32 key) (take 8 nonce).

Definition crypto_aead_init_ietf (key nonce : list Z) : crypto_aead_ctx :=
  mkAead (shl64 (load32_le nonce 0) 32) (take 32 key) (take 8 (drop 4 nonce)).

(** The new context, the cipher text and the tag. *)
Definition crypto_aead_write (c0 : list Z) (ctx : crypto_aead_ctx) (ad plain_text : list Z)
  : crypto_aead_ctx * list Z * list Z :=
  let auth_key := (crypto_chacha20_djb None 64 (ae_key ctx) (ae_nonce ctx) (ae_counter ctx)).1 in
  let cipher_text := (crypto_chacha20_djb (Some plain_text) (length plain_text) (ae_key ctx) (ae_nonce ctx)
                        (add64 (ae_counter ctx) 1)).1 in
  let mac := lock_auth c0 (take 32 auth_key) ad cipher_text in
  (mkAead (ae_counter ctx) (drop 32 auth_key) (ae_nonce ctx), cipher_text, mac).

(** The new context, the result and the plain text, if one was written. *)
Definition crypto_aead_read (c0 : list Z) (ctx : crypto_aead_ctx) (mac ad cipher_text : list Z)
  : crypto_aead_ctx * Z * option (list Z) :=
  let auth_key := (crypto_chacha20_djb None 64 (ae_key ctx) (ae_nonce ctx) (ae_counter ctx)).1 in
  let real_mac := lock_auth c0 (take 32 auth_key) ad cipher_text in
  let mismatch := crypto_verify16 mac real_mac in
  if mismatch =? 0 then
    let plain_text := (crypto_chacha20_djb (Some cipher_text) (length cipher_text) (ae_key ctx) (ae_nonce ctx)
                         (add64 (ae_counter ctx) 1)).1 in
    (mkAead (ae_counter ctx) (drop 32 auth_key) (ae_nonce ctx), mismatch, Some plain_text)
  else (ctx, mismatch, None).

Definition crypto_aead_unlock (c0 mac key nonce ad cipher_text : list Z) : Z * option (list Z) :=
  let ctx := crypto_aead_init_x key nonce in
  let '(_, mismatch, plain_text) := crypto_aead_read c0 ctx mac ad cipher_text in
  (mismatch, plain_text).

Definition crypto_aead_lock (c0 key nonce ad plain_text : list Z) : list Z * list Z :=
  let ctx := crypto_aead_init_x key nonce in
  let '(_, cipher_text, mac) := crypto_aead_write c0 ctx ad plain_text in
  (cipher_text, mac).

(** ** Comparison *)

Lemma lor_0 a b : Z.lor a b = 0 <-> a = 0 /\ b = 0.
Proof. apply Z.lor_eq_0_iff. Qed.

Lemma neq0_spec d : is_u64 d -> neq0 d = if d =? 0 then 0 else -1.
Proof.
  intros Hd. unfold neq0, is_u64 in *. rewrite (shr64_div d) by lia.
  assert (is_u32 (d / 2 ^ 32)) as H1 by (unfold is_u32; zlia).
  pose proof (lor_u32 _ _ H1 (u32_range d)) as Hh.
  assert (Z.lor (d / 2 ^ 32) (u32 d) = 0 <-> d = 0) as Hz by (rewrite lor_0; unfold u32; zlia).
  set (half := Z.lor _ _) in *. unfold is_u32 in Hh. case_cmp.
  - assert (half = 0) as -> by tauto. reflexivity.
  - assert (half <> 0) by tauto. unfold sub64. rewrite u64_small by (unfold is_u64; lia).
    rewrite shr64_div, Z.div_small by lia. reflexivity.
Qed.

Lemma lxor_u64 a b : is_u64 a -> is_u64 b -> is_u64 (Z.lxor a b).
Proof.
  unfold is_u64. change 18446744073709551616 with (2 ^ 64). intros Ha Hb.
  assert (0 <= Z.lxor a b) by (apply Z.lxor_nonneg; lia).
  apply pow2_range_bits; [lia|lia|]. intros i Hi. rewrite Z.lxor_spec.
  rewrite (proj1 (pow2_range_bits 64 a ltac:(lia) ltac:(lia))) by lia.
  rewrite (proj1 (pow2_range_bits 64 b ltac:(lia) ltac:(lia))) by lia. done.
Qed.

Lemma load64_le_val s o :
  is_bytes s -> 0 <= o -> o + 8 <= Z.of_nat (length s) ->
  load64_le s o = load32_le s o + 2 ^ 32 * load32_le s (o + 4) /\ is_u64 (load64_le s o).
Proof.
  intros Hs Ho Hl. pose proof (load32_le_range s o Hs). pose proof (load32_le_range s (o + 4) Hs).
  unfold load64_le, is_u32 in *. unfold shl64.
  rewrite u64_small by (rewrite Z.shiftl_mul_pow2 by lia; unfold is_u64; lia).
  rewrite lor_shiftl_add by lia. unfold is_u64; lia.
Qed.

Lemma x16_zero a b :
  is_bytes a -> is_bytes b -> length a = 16%nat -> length b = 16%nat -> x16 a b = 0 <-> a = b.
Proof.
  intros Ha Hb La Lb. unfold x16. rewrite lor_0, !Z.lxor_eq_0_iff.
  destruct (load64_le_val a 0) as [-> _]; [done|lia..|]. destruct (load64_le_val b 0) as [-> _]; [done|lia..|].
  destruct (load64_le_val a 8) as [-> _]; [done|lia..|]. destruct (load64_le_val b 8) as [-> _]; [done|lia..|].
  split; [|by intros ->]. intros [E1 E2]. apply le_val_inj; try done; [congruence|].
  rewrite <- (word_value a), <- (word_value b) by done.
  change (0 + 4) with 4 in *. change (8 + 4) with 12 in *.
  lia.
Qed.

Lemma crypto_verify16_spec a b :
  is_bytes a -> is_bytes b -> length a = 16%nat -> length b = 16%nat ->
  crypto_verify16 a b = if decide (a = b) then 0 else -1.
Proof.
  intros Ha Hb La Lb. unfold crypto_verify16. rewrite neq0_spec.
  - pose proof (x16_zero a b Ha Hb La Lb). destruct (Z.eqb_spec (x16 a b) 0); destruct (decide _); tauto.
  - unfold x16. apply lor_u64; apply lxor_u64; apply load64_le_val; (done || lia).
Qed.

(** The longer comparisons look at the halves. *)
Lemma x16_take a b : x16 (take 16 a) (take 16 b) = x16 a b.
Proof. unfold x16, load64_le, load32_le. by rewrite !rd_take by lia. Qed.

Lemma x16_u64 a b : is_bytes a -> is_bytes b -> (16 <= length a)%nat -> (16 <= length b)%nat -> is_u64 (x16 a b).
Proof. intros Ha Hb La Lb. unfold x16. apply lor_u64; apply lxor_u64; apply load64_le_val; (done || lia). Qed.

Lemma halves_eq {A} (n : nat) (a b : list A) : take n a = take n b /\ drop n a = drop n b <-> a = b.
Proof. split; [|by intros ->]. intros [E1 E2]. by rewrite <- (take_drop n a), <- (take_drop n b), E1, E2. Qed.

Lemma x32_spec a b : is_bytes a -> is_bytes b -> (32 <= length a)%nat -> (32 <= length b)%nat ->
  is_u64 (x32 a b) /\ (x32 a b = 0 <-> take 32 a = take 32 b).
Proof.
  intros Ha Hb La Lb. pose proof (is_bytes_drop 16 a Ha). pose proof (is_bytes_drop 16 b Hb). split.
  - apply lor_u64; apply x16_u64; rewrite ?length_drop; (done || lia).
  - unfold x32. rewrite lor_0, <- (x16_take a), <- (x16_take (drop 16 a)).
    rewrite !x16_zero by (rewrite ?length_take, ?length_drop; (lia || auto using is_bytes_take)).
    rewrite <- (halves_eq 16 (take 32 a)), !take_take, !skipn_firstn_comm. done.
Qed.

Lemma crypto_verify32_spec a b :
  is_bytes a -> is_bytes b -> length a = 32%nat -> length b = 32%nat ->
  crypto_verify32 a b = if decide (a = b) then 0 else -1.
Proof.
  intros Ha Hb La Lb. destruct (x32_spec a b Ha Hb) as [Hu Hz]; [lia..|]. rewrite !take_ge in Hz by lia.
  unfold crypto_verify32. rewrite neq0_spec by done. destruct (Z.eqb_spec (x32 a b) 0), (decide (a = b)); tauto.
Qed.

Lemma crypto_verify64_spec a b :
  is_bytes a -> is_bytes b -> length a = 64%nat -> length b = 64%nat ->
  crypto_verify64 a b = if decide (a = b) then 0 else -1.
Proof.
  intros Ha Hb La Lb. destruct (x32_spec a b Ha Hb) as [Hu Hz]; [lia..|].
  destruct (x32_spec (drop 32 a) (drop 32 b)) as [Hu' Hz']; auto using is_bytes_drop; try (rewrite length_drop; lia).
  rewrite !(take_ge (drop 32 _)) in Hz' by (rewrite length_drop; lia).
  assert (x64 a b = 0 <-> a = b) as Hx by (unfold x64; rewrite lor_0, Hz, Hz'; apply halves_eq).
  unfold crypto_verify64. rewrite neq0_spec by (by apply lor_u64).
  destruct (Z.eqb_spec (x64 a b) 0), (decide (a = b)); tauto.
Qed.

(** ** ChaCha20 *)

Lemma shl32_bits_disjoint x n : 0 <= n <= 32 -> is_u32 x -> Z.land (shl32 x n) (shr32 x (32 - n)) = 0.
Proof.
  intros Hn Hx. unfold is_u32 in Hx. apply Z.bits_inj'. intros i Hi.
  unfold shl32, u32, shr32. change 4294967296 with (2 ^ 32). rewrite Z.land_spec, Z.bits_0, Z.shiftr_spec by lia.
  destruct (Z.lt_ge_cases i n).
  - destruct (Z.lt_ge_cases i 32); [|rewrite Z.mod_pow2_bits_high by lia; done].
    rewrite Z.mod_pow2_bits_low, Z.shiftl_spec, Z.testbit_neg_r by lia. done.
  - rewrite (proj1 (pow2_range_bits 32 x ltac:(lia) ltac:(lia))) by lia. apply andb_false_r.
Qed.

Lemma rotl32_eq x n : 0 <= n <= 32 -> is_u32 x -> rotl32 x n = Neon.rotl32 x n.
Proof. intros. unfold rotl32, Neon.rotl32. apply Z.lxor_lor. by apply shl32_bits_disjoint. Qed.

Lemma QUARTERROUND_rfc a b c d :
  is_u32 a -> is_u32 b -> is_u32 c -> is_u32 d ->
  QUARTERROUND a b c d = quarterround a b c d /\
  (let '(a, b, c, d) := quarterround a b c d in is_u32 a /\ is_u32 b /\ is_u32 c /\ is_u32 d).
Proof.
  intros Ha Hb Hc Hd. unfold QUARTERROUND, quarterround.
  assert (forall x n, 0 <= n <= 32 -> is_u32 x -> is_u32 (Neon.rotl32 x n)) as Hr
    by (intros; apply rotl32_range; [lia|done]).
  set (a1 := add32 a b). assert (is_u32 a1) by apply u32_range.
  rewrite (rotl32_eq (Z.lxor d a1)) by (lia || auto with wg_range). set (d1 := Neon.rotl32 _ 16).
  assert (is_u32 d1) by (apply Hr; [lia|auto with wg_range]).
  set (c1 := add32 c d1). assert (is_u32 c1) by apply u32_range.
  rewrite (rotl32_eq (Z.lxor b c1)) by (lia || auto with wg_range). set (b1 := Neon.rotl32 _ 12).
  assert (is_u32 b1) by (apply Hr; [lia|auto with wg_range]).
  set (a2 := add32 a1 b1). assert (is_u32 a2) by apply u32_range.
  rewrite (rotl32_eq (Z.lxor d1 a2)) by (lia || auto with wg_range). set (d2 := Neon.rotl32 _ 8).
  assert (is_u32 d2) by (apply Hr; [lia|auto with wg_range]).
  set (c2 := add32 c1 d2). assert (is_u32 c2) by apply u32_range.
  rewrite (rotl32_eq (Z.lxor b1 c2)) by (lia || auto with wg_range).
  split; [reflexivity|]. split_and!; try done. apply Hr; [lia|auto with wg_range].
Qed.

Definition words (s : list Z) : Prop := length s = 16%nat /\ Forall is_u32 s.

Lemma words_rd s i : words s -> is_u32 (rd s i).
Proof. intros [_ Hf]. apply Forall_rd; [done|unfold is_u32; lia]. Qed.

Lemma QR_rfc x y z w s : words s -> words (QR x y z w s) /\ QR x y z w s = ChaCha20.QUARTERROUND x y z w s.
Proof.
  intros Hs. unfold QR, ChaCha20.QUARTERROUND.
  destruct (QUARTERROUND_rfc (rd s x) (rd s y) (rd s z) (rd s w)) as [-> Hr]; [by apply words_rd..|].
  destruct (quarterround _ _ _ _) as [[[a b] c] d]. destruct Hr as (? & ? & ? & ?), Hs.
  split; [|done]. split; [by rewrite !length_wr|]. by repeat apply Forall_wr.
Qed.

#[local] Opaque QR ChaCha20.QUARTERROUND.

Lemma two_rounds_rfc s : words s -> words (two_rounds s) /\ two_rounds s = inner_block s.
Proof.
  intros H. unfold two_rounds, inner_block. cbv zeta.
  repeat match goal with
  | H : words ?s |- context [QR ?x ?y ?z ?w ?s] =>
      let H' := fresh in let E := fresh in destruct (QR_rfc x y z w s H) as [H' E]; rewrite <- E; clear E H;
      generalize dependent (QR x y z w s); clear s; intros s ?
  end. done.
Qed.

#[local] Opaque two_rounds inner_block.

Lemma fold_rounds_rfc (l : list nat) s :
  words s -> words (fold_left (fun t _ => two_rounds t) l s) /\
             fold_left (fun t _ => two_rounds t) l s = fold_left (fun t _ => inner_block t) l s.
Proof.
  intros Hs.
  destruct (fold_left_sim (fun t (_ : nat) => two_rounds t) (fun t _ => inner_block t) (fun t => t) words l s) as [H1 H2].
  - intros a _ Ha. destruct (two_rounds_rfc a Ha). split; [assumption|]. symmetry. assumption.
  - exact Hs.
  - split; [exact H1|]. symmetry. exact H2.
Qed.

Lemma chacha20_rounds_rfc s :
  words s -> words (chacha20_rounds s) /\ chacha20_rounds s = fold_left (fun s _ => inner_block s) (seq 0 10) s.
Proof. apply (fold_rounds_rfc (seq 0 10)). Qed.

Lemma pool_words_rfc key nonce c :
  is_bytes key -> is_bytes nonce -> is_u32 c ->
  store32_le_buf (pool_words (chacha_state key nonce c)) = chacha20_block_rfc key nonce c.
Proof.
  intros Hk Hn Hc.
  assert (words (chacha_state key nonce c)) as Hw.
  { split; [done|]. unfold chacha_state. repeat constructor; try apply load32_le_range; try done;
      unfold is_u32 in *; lia. }
  destruct (chacha20_rounds_rfc _ Hw) as [Hr E]. unfold chacha20_block_rfc, pool_words.
  rewrite <- E. generalize dependent (chacha20_rounds (chacha_state key nonce c)). intros pool [Hl _] _.
  destruct Hw as [Hl2 _]. generalize dependent (chacha_state key nonce c). intros s Hl2.
  unfold store32_le_buf. f_equal.
  do 16 (destruct pool as [|?p pool]; [discriminate|]). destruct pool; [|discriminate].
  do 16 (destruct s as [|?s s]; [discriminate|]). destruct s; [|discriminate].
  cbn [map seq zip_with]. rewrite !store32_le_bytes. reflexivity.
Qed.

Lemma length_pool_words s : length (pool_words s) = 16%nat.
Proof. unfold pool_words. by rewrite length_map, length_seq. Qed.

Lemma store32_le_buf_le l : store32_le_buf l = concat (map (le_bytes 4) l).
Proof. unfold store32_le_buf. f_equal. apply map_ext. apply store32_le_bytes. Qed.

(** The words of a block against 64 bytes of text. *)
Lemma xor_words p text :
  is_bytes text -> (64 <= length text)%nat -> length p = 16%nat ->
  concat (map (fun j => store32_le (Z.lxor (rd p (Z.of_nat j)) (load32_le text (4 * Z.of_nat j)))) (seq 0 16))
  = zip_with Z.lxor (take 64 text) (store32_le_buf p).
Proof.
  intros Ht Hl Hp. rewrite store32_le_buf_le.
  rewrite <- xor_block_bytes; [|auto with wg_range|rewrite length_take; lia|done].
  do 16 (destruct p as [|? p]; [discriminate|]). destruct p; [|discriminate].
  unfold xor_block_neon, vst1q_bytes, veorq_u32, vmap2, vld1q_bytes, vld1q_u32. cbn [map concat seq q0 q1 q2 q3].
  assert (forall o, 0 <= o <= 60 -> load32_le (take 64 text) o = load32_le text o) as E.
  { intros o Ho. rewrite <- (take_drop 64 text) at 2. rewrite load32_le_app; [done|lia|rewrite length_take; lia]. }
  rewrite !E by lia. rewrite !(Z.lxor_comm (load32_le _ _)). rewrite <- !app_assoc, app_nil_r. reflexivity.
Qed.

Lemma chacha_state_next key nonce c :
  is_u32 (c + 1) -> 0 <= c ->
  (let input := wr (chacha_state key nonce c) 12 (add32 (rd (chacha_state key nonce c) 12) 1) in
   if rd input 12 =? 0 then wr input 13 (add32 (rd input 13) 1) else input) = chacha_state key nonce (c + 1).
Proof.
  intros Hc Hc0. cbv zeta. rewrite rd_wr_eq by (simpl; lia).
  change (rd (chacha_state key nonce c) 12) with c. unfold add32 at 1. rewrite u32_small by done.
  destruct (Z.eqb_spec (c + 1) 0); [lia|]. unfold add32. rewrite u32_small by done. reflexivity.
Qed.

#[local] Opaque pool_words chacha20_block_rfc chacha_state.

Section blocks.
Context (key nonce : list Z) (Hk : is_bytes key) (Hn : is_bytes nonce).

Lemma djb_blocks_some n : forall text c,
  is_bytes text -> (64 * n <= length text)%nat -> 0 <= c -> c + Z.of_nat n < 2 ^ 32 ->
  djb_blocks n (Some text) (chacha_state key nonce c) =
  (zip_with Z.lxor (take (64 * n) text) (keystream_rfc key nonce c n), Some (drop (64 * n) text),
   chacha_state key nonce (c + Z.of_nat n)).
Proof.
  induction n as [|n IH]; intros text c Ht Hl Hc Hcn.
  { cbn [djb_blocks]. rewrite Nat.mul_0_r, Z.add_0_r. done. }
  assert (is_u32 c) by (unfold is_u32; lia).
  cbn [djb_blocks]. rewrite chacha_state_next by (unfold is_u32; lia).
  cbn [fmap option_fmap option_map]. rewrite IH; [|auto with wg_range|rewrite length_drop; lia|lia..].
  rewrite xor_words by (done || lia || apply length_pool_words). rewrite pool_words_rfc by done.
  rewrite keystream_rfc_S, u32_small, drop_drop by done. unfold add32. rewrite u32_small by (unfold is_u32; lia).
  replace (64 * S n)%nat with (64 + 64 * n)%nat by lia. rewrite <- take_take_drop.
  rewrite zip_with_app by (rewrite length_take, length_block_rfc; lia).
  replace (c + Z.of_nat (S n)) with (c + 1 + Z.of_nat n) by lia. reflexivity.
Qed.

Lemma djb_blocks_none n : forall c,
  0 <= c -> c + Z.of_nat n < 2 ^ 32 ->
  djb_blocks n None (chacha_state key nonce c) =
  (keystream_rfc key nonce c n, None, chacha_state key nonce (c + Z.of_nat n)).
Proof.
  induction n as [|n IH]; intros c Hc Hcn.
  { cbn [djb_blocks]. rewrite Z.add_0_r. done. }
  assert (is_u32 c) by (unfold is_u32; lia).
  cbn [djb_blocks]. rewrite chacha_state_next by (unfold is_u32; lia).
  cbn [fmap option_fmap option_map]. rewrite IH by lia.
  rewrite pool_words_rfc, keystream_rfc_S, u32_small by done. unfold add32. rewrite u32_small by (unfold is_u32; lia).
  replace (c + Z.of_nat (S n)) with (c + 1 + Z.of_nat n) by lia. reflexivity.
Qed.
End blocks.

(** The first words of the state, from the key, the counter and the nonce. *)
Lemma djb_state key nonce c :
  is_bytes nonce -> length nonce = 12%nat -> 0 <= c < 2 ^ 32 ->
  load32_le_buf chacha20_constant 0 4 ++ load32_le_buf key 0 8 ++
    [u32 (c + load32_le nonce 0 * 2 ^ 32); u32 (shr64 (c + load32_le nonce 0 * 2 ^ 32) 32)] ++
    load32_le_buf (take 8 (drop 4 nonce)) 0 2
  = chacha_state key nonce c.
Proof.
  intros Hb Hn Hc. pose proof (load32_le_range nonce 0 Hb) as Hr. unfold is_u32 in Hr.
  assert (u32 (c + load32_le nonce 0 * 2 ^ 32) = c) as -> by (unfold u32; zlia).
  assert (u32 (shr64 (c + load32_le nonce 0 * 2 ^ 32) 32) = load32_le nonce 0) as ->
    by (rewrite shr64_div by lia; unfold u32; zlia).
  assert (load32_le_buf (take 8 (drop 4 nonce)) 0 2 = [load32_le nonce 4; load32_le nonce 8]) as ->; [|reflexivity].
  do 12 (destruct nonce as [|? nonce]; [discriminate|]). destruct nonce; [|discriminate]. reflexivity.
Qed.

Lemma keystream_app key nonce c n m :
  0 <= c -> c + Z.of_nat n < 2 ^ 32 ->
  keystream_rfc key nonce c (n + m) = keystream_rfc key nonce c n ++ keystream_rfc key nonce (c + Z.of_nat n) m.
Proof.
  revert c. induction n as [|n IH]; intros c Hc Hl; [rewrite Z.add_0_r; done|].
  cbn [Nat.add]. rewrite !keystream_rfc_S. unfold add32. rewrite u32_small by (unfold is_u32; lia).
  rewrite (u32_small (c + 1)) by (unfold is_u32; lia). rewrite IH by lia. rewrite <- app_assoc.
  replace (c + Z.of_nat (S n)) with (c + 1 + Z.of_nat n) by lia. reflexivity.
Qed.

Lemma chacha20_djb_rfc text key nonce c :
  is_bytes key -> is_bytes nonce -> length nonce = 12%nat -> is_bytes text ->
  0 <= c -> c + Z.of_nat (length text / 64) < 2 ^ 32 ->
  (crypto_chacha20_djb (Some text) (length text) key (take 8 (drop 4 nonce)) (c + load32_le nonce 0 * 2 ^ 32)).1
  = chacha20_rfc text key nonce c.
Proof.
  intros Hk Hn Hl Ht Hc Hcn. unfold crypto_chacha20_djb. rewrite djb_state by (done || lia).
  pose proof (Nat.div_mod_eq (length text) 64) as Hd. pose proof (Nat.mod_upper_bound (length text) 64) as Hm.
  rewrite djb_blocks_some by (done || lia). cbn [fst].
  set (n := (length text / 64)%nat) in *. set (m := (length text mod 64)%nat) in *.
  unfold chacha20_rfc. set (k := ((length text + 63) / 64)%nat). 
  transitivity (zip_with Z.lxor (take (64 * n) text ++ drop (64 * n) text) (keystream_rfc key nonce c k));
    [|by rewrite take_drop].
  assert (length (drop (64 * n) text) = m) as Hdl by (rewrite length_drop; lia).
  destruct (Nat.ltb_spec 0 m) as [H0|H0].
  - assert (k = n + 1)%nat as ->.
    { symmetry. apply (Nat.div_unique _ _ _ (m - 1)); lia. }
    rewrite keystream_app by lia.
    rewrite zip_with_app by (rewrite length_take, length_keystream; lia). f_equal.
    cbn [default]. rewrite pool_words_rfc by (done || (unfold is_u32; lia)).
    change 1%nat with (S 0). rewrite keystream_rfc_S. cbn [keystream_rfc seq map concat].
    rewrite app_nil_r, u32_small by (unfold is_u32; lia).
    rewrite <- tail_bytes by (rewrite length_block_rfc; lia). rewrite Hdl.
    apply map_ext. intros i. apply Z.lxor_comm.
  - assert (k = n) as ->.
    { symmetry. apply (Nat.div_unique _ _ _ 63); lia. }
    rewrite app_nil_r. rewrite (drop_ge text), app_nil_r by lia. done.
Qed.

Lemma chacha20_djb_block key nonce c :
  is_bytes key -> is_bytes nonce -> length nonce = 12%nat -> 0 <= c -> c + 1 < 2 ^ 32 ->
  (crypto_chacha20_djb None 64 key (take 8 (drop 4 nonce)) (c + load32_le nonce 0 * 2 ^ 32)).1
  = chacha20_block_rfc key nonce c.
Proof.
  intros Hk Hn Hl Hc Hc2. unfold crypto_chacha20_djb. rewrite djb_state by (done || lia).
  change (64 / 64)%nat with 1%nat. change (64 mod 64)%nat with 0%nat.
  rewrite djb_blocks_none by (done || lia). cbn [fst]. rewrite keystream_rfc_S.
  cbn [keystream_rfc seq map concat]. rewrite u32_small by (unfold is_u32; lia).
  change (0 <? 0)%nat with false. cbv iota. rewrite !app_nil_r. reflexivity.
Qed.

(** ** Poly1305 on 32-bit limbs *)

Definition hval (h : list Z) : Z :=
  rd h 0 + rd h 1 * 2 ^ 32 + rd h 2 * 2 ^ 64 + rd h 3 * 2 ^ 96 + rd h 4 * 2 ^ 128.
Definition h_ok (h : list Z) : Prop :=
  is_u32 (rd h 0) /\ is_u32 (rd h 1) /\ is_u32 (rd h 2) /\ is_u32 (rd h 3) /\ 0 <= rd h 4 <= 4.
Definition rval (r : list Z) : Z := rd r 0 + rd r 1 * 2 ^ 32 + rd r 2 * 2 ^ 64 + rd r 3 * 2 ^ 96.
Definition r_ok (r : list Z) : Prop :=
  exists q0 q1 q2 q3 t, r = [4 * q0 + t; 4 * q1; 4 * q2; 4 * q3] /\
    0 <= q0 < 2 ^ 26 /\ 0 <= q1 < 2 ^ 26 /\ 0 <= q2 < 2 ^ 26 /\ 0 <= q3 < 2 ^ 26 /\ 0 <= t < 4.

Lemma mul_bound a b m n : 0 <= a < m -> 0 <= b < n -> 0 <= a * b <= m * n.
Proof. nia. Qed.

Lemma add64_small a b : 0 <= a -> 0 <= b -> a + b < 2 ^ 64 -> add64 a b = a + b.
Proof. intros. apply u64_small. unfold is_u64. lia. Qed.
Lemma mul64_exact a b : 0 <= a * b < 2 ^ 64 -> mul64 a b = a * b.
Proof. intros. apply u64_small. unfold is_u64. lia. Qed.

(** The sum of products of one limb, when nothing overflows. *)
Lemma limb_sum p0 p1 p2 p3 p4 :
  0 <= p0 <= 5 * 2 ^ 59 -> 0 <= p1 <= 5 * 2 ^ 59 -> 0 <= p2 <= 5 * 2 ^ 59 -> 0 <= p3 <= 5 * 2 ^ 59 -> 0 <= p4 < 2 ^ 32 ->
  add64 (add64 (add64 (add64 p0 p1) p2) p3) p4 = p0 + p1 + p2 + p3 + p4.
Proof. intros. rewrite !add64_small; try lia; rewrite !add64_small; try lia; rewrite !add64_small; try lia. all: rewrite !add64_small; lia. Qed.

(** The carry chain: the value of the limbs is unchanged modulo [2^130 - 5]. *)
Lemma partial_reduction x0 x1 x2 x3 x4 :
  0 <= x0 < 2 ^ 64 -> 0 <= x1 < 2 ^ 64 -> 0 <= x2 < 5 * 2 ^ 61 -> 0 <= x3 < 2 ^ 63 + 2 ^ 36 -> 0 <= x4 < 16 ->
  let u5 := u32 (add64 x4 (shr64 x3 32)) in
  let u0 := add64 (mul32 (shr32 u5 2) 5) (Z.land x0 0xffffffff) in
  let u1 := add64 (add64 (shr64 u0 32) (Z.land x1 0xffffffff)) (shr64 x0 32) in
  let u2 := add64 (add64 (shr64 u1 32) (Z.land x2 0xffffffff)) (shr64 x1 32) in
  let u3 := add64 (add64 (shr64 u2 32) (Z.land x3 0xffffffff)) (shr64 x2 32) in
  let u4 := u32 (add64 (shr64 u3 32) (Z.land u5 3)) in
  let h := [Z.land u0 0xffffffff; Z.land u1 0xffffffff; Z.land u2 0xffffffff; Z.land u3 0xffffffff; u4] in
  h_ok h /\ exists K, hval h = x0 + x1 * 2 ^ 32 + x2 * 2 ^ 64 + x3 * 2 ^ 96 + x4 * 2 ^ 128 + K * P1305.
Proof.
  intros H0 H1 H2 H3 H4. cbv zeta.
  assert (forall x, Z.land x 4294967295 = x mod 2 ^ 32) as Em by (intros; apply (Z.land_ones _ 32); lia).
  assert (forall x, Z.land x 3 = x mod 4) as E3 by (intros; apply (Z.land_ones _ 2); lia).
  rewrite !Em, !E3, !shr64_div, ?shr32_div by lia.
  assert (forall x, 0 <= x < 2 ^ 64 -> exists c l, x / 2 ^ 32 = c /\ x mod 2 ^ 32 = l /\
    x = c * 2 ^ 32 + l /\ 0 <= l < 2 ^ 32 /\ 0 <= c < 2 ^ 32) as Hs.
  { intros x Hx. do 2 eexists. repeat split; zlia. }
  destruct (Hs x0) as (c0 & l0 & -> & -> & ? & ? & ?); [lia|].
  destruct (Hs x1) as (c1 & l1 & -> & -> & ? & ? & ?); [lia|].
  destruct (Hs x2) as (c2 & l2 & -> & -> & ? & ? & ?); [lia|].
  destruct (Hs x3) as (c3 & l3 & -> & -> & ? & ? & ?); [lia|].
  rewrite (add64_small x4 c3), (u32_small (x4 + c3)) by (unfold is_u32; lia).
  assert (exists k m, (x4 + c3) / 2 ^ 2 = k /\ (x4 + c3) mod 4 = m /\ x4 + c3 = 4 * k + m /\ 0 <= m < 4 /\ 0 <= k < 2 ^ 29 + 8)
    as (k & m & -> & -> & ? & ? & ?) by (do 2 eexists; repeat split; zlia).
  unfold mul32. rewrite (u32_small (k * 5)) by (unfold is_u32; lia).
  rewrite (add64_small (k * 5) l0) by lia.
  destruct (Hs (k * 5 + l0)) as (d0 & e0 & -> & -> & ? & ? & ?); [lia|].
  rewrite (add64_small d0 l1), (add64_small (d0 + l1) c0) by lia.
  destruct (Hs (d0 + l1 + c0)) as (d1 & e1 & -> & -> & ? & ? & ?); [lia|].
  rewrite (add64_small d1 l2), (add64_small (d1 + l2) c1) by lia.
  destruct (Hs (d1 + l2 + c1)) as (d2 & e2 & -> & -> & ? & ? & ?); [lia|].
  rewrite (add64_small d2 l3), (add64_small (d2 + l3) c2) by lia.
  destruct (Hs (d2 + l3 + c2)) as (d3 & e3 & -> & -> & ? & ? & ?); [lia|].
  rewrite (add64_small d3 m), (u32_small (d3 + m)) by (unfold is_u32; lia).
  split.
  - unfold h_ok, is_u32, rd; simpl nth. lia.
  - exists (- k). unfold hval, P1305, rd; simpl nth. lia.
Qed.

(** The products before the reduction. *)
Lemma products_exact s0 s1 s2 s3 s4 r :
  0 <= s0 < 2 ^ 33 -> 0 <= s1 < 2 ^ 33 -> 0 <= s2 < 2 ^ 33 -> 0 <= s3 < 2 ^ 33 -> 0 <= s4 <= 5 -> r_ok r ->
  let r0 := rd r 0 in let r1 := rd r 1 in let r2 := rd r 2 in let r3 := rd r 3 in
  let rr0 := mul32 (shr32 r0 2) 5 in
  let rr1 := add32 (shr32 r1 2) r1 in
  let rr2 := add32 (shr32 r2 2) r2 in
  let rr3 := add32 (shr32 r3 2) r3 in
  let rr4 := Z.land r0 3 in
  let x0 := add64 (add64 (add64 (add64 (mul64 s0 r0) (mul64 s1 rr3)) (mul64 s2 rr2)) (mul64 s3 rr1)) (mul32 s4 rr0) in
  let x1 := add64 (add64 (add64 (add64 (mul64 s0 r1) (mul64 s1 r0)) (mul64 s2 rr3)) (mul64 s3 rr2)) (mul32 s4 rr1) in
  let x2 := add64 (add64 (add64 (add64 (mul64 s0 r2) (mul64 s1 r1)) (mul64 s2 r0)) (mul64 s3 rr3)) (mul32 s4 rr2) in
  let x3 := add64 (add64 (add64 (add64 (mul64 s0 r3) (mul64 s1 r2)) (mul64 s2 r1)) (mul64 s3 r0)) (mul32 s4 rr3) in
  let x4 := mul32 s4 rr4 in
  (0 <= x0 < 2 ^ 64 /\ 0 <= x1 < 2 ^ 64 /\ 0 <= x2 < 5 * 2 ^ 61 /\ 0 <= x3 < 2 ^ 63 + 2 ^ 36 /\ 0 <= x4 < 16) /\
  exists K, x0 + x1 * 2 ^ 32 + x2 * 2 ^ 64 + x3 * 2 ^ 96 + x4 * 2 ^ 128
    = (s0 + s1 * 2 ^ 32 + s2 * 2 ^ 64 + s3 * 2 ^ 96 + s4 * 2 ^ 128) * rval r + K * P1305.
Proof.
  intros H0 H1 H2 H3 H4 (q0 & q1 & q2 & q3 & t & -> & Hq0 & Hq1 & Hq2 & Hq3 & Ht). cbv zeta.
  unfold rval, rd; simpl nth.
  assert (mul32 (shr32 (4 * q0 + t) 2) 5 = 5 * q0) as ->.
  { rewrite shr32_div by lia. replace ((4 * q0 + t) / 2 ^ 2) with q0 by zlia.
    unfold mul32. rewrite u32_small by (unfold is_u32; lia). lia. }
  assert (forall q, 0 <= q < 2 ^ 26 -> add32 (shr32 (4 * q) 2) (4 * q) = 5 * q) as Hrr.
  { intros q Hq. rewrite shr32_div by lia. replace (4 * q / 2 ^ 2) with q by zlia.
    unfold add32. rewrite u32_small by (unfold is_u32; lia). lia. }
  rewrite !Hrr by done.
  assert (Z.land (4 * q0 + t) 3 = t) as ->.
  { change 3 with (Z.ones 2). rewrite Z.land_ones by lia. zlia. }
  assert (forall s b, 0 <= s < 2 ^ 33 -> 0 <= b < 2 ^ 28 -> mul64 s b = s * b /\ 0 <= s * b <= 2 ^ 61) as Hm.
  { intros s b Hs Hb. pose proof (mul_bound s b _ _ Hs Hb). split; [apply mul64_exact|]; lia. }
  assert (forall s b, 0 <= s < 2 ^ 33 -> 0 <= b < 5 * 2 ^ 26 -> mul64 s b = s * b /\ 0 <= s * b <= 5 * 2 ^ 59) as Hn.
  { intros s b Hs Hb. pose proof (mul_bound s b _ _ Hs Hb). split; [apply mul64_exact|]; lia. }
  assert (forall b, 0 <= b < 5 * 2 ^ 26 -> mul32 s4 b = s4 * b /\ 0 <= s4 * b < 2 ^ 32) as Ho.
  { intros b Hb. assert (0 <= s4 * b <= 5 * (5 * 2 ^ 26)) by nia. split; [apply u32_small; unfold is_u32|]; lia. }
  assert (mul32 s4 t = s4 * t /\ 0 <= s4 * t < 16) as [-> ?].
  { assert (0 <= s4 * t <= 15) by nia. split; [apply u32_small; unfold is_u32|]; lia. }
  assert (0 <= 4 * q0 + t < 2 ^ 28) as R0 by lia. assert (0 <= 4 * q1 < 2 ^ 28) as R1 by lia.
  assert (0 <= 4 * q2 < 2 ^ 28) as R2 by lia. assert (0 <= 4 * q3 < 2 ^ 28) as R3 by lia.
  assert (0 <= 5 * q0 < 5 * 2 ^ 26) as S0 by lia. assert (0 <= 5 * q1 < 5 * 2 ^ 26) as S1 by lia.
  assert (0 <= 5 * q2 < 5 * 2 ^ 26) as S2 by lia. assert (0 <= 5 * q3 < 5 * 2 ^ 26) as S3 by lia.
  repeat match goal with
  | Hs : 0 <= ?s < 2 ^ 33, Hb : 0 <= ?b < 2 ^ 28 |- context [mul64 ?s ?b] =>
      let E := fresh "E" in destruct (Hm s b Hs Hb) as [E ?]; rewrite E; clear E
  | Hs : 0 <= ?s < 2 ^ 33, Hb : 0 <= ?b < 5 * 2 ^ 26 |- context [mul64 ?s ?b] =>
      let E := fresh "E" in destruct (Hn s b Hs Hb) as [E ?]; rewrite E; clear E
  | Hb : 0 <= ?b < 5 * 2 ^ 26 |- context [mul32 s4 ?b] =>
      let E := fresh "E" in destruct (Ho b Hb) as [E ?]; rewrite E; clear E
  end.
  clear R0 R1 R2 R3 S0 S1 S2 S3 Hq0 Hq1 Hq2 Hq3 Ht H0 H1 H2 H3 H4.
  clear Hm Hn Ho Hrr. rewrite !limb_sum by (assumption || match goal with
    H : 0 <= ?x <= 2 ^ 61 |- 0 <= ?x <= _ => clear - H; revert H; generalize x; intros; lia end).
  split.
  { repeat match goal with H : 0 <= s4 * ?b < _ |- _ => revert H; generalize (s4 * b); intros ? H
    | H : 0 <= ?s * ?b <= _ |- _ => revert H; generalize (s * b); intros ? H end.
    split_and!; lia. }
  exists (- (s1 * q3 + s2 * q2 + s3 * q1 + s4 * q0 + 2 ^ 32 * (s2 * q3 + s3 * q2 + s4 * q1) +
             2 ^ 64 * (s3 * q3 + s4 * q2) + 2 ^ 96 * (s4 * q3))).
  unfold P1305. ring.
Qed.

Lemma poly_block_ok r h input fin :
  r_ok r -> h_ok h -> is_bytes input -> (16 <= length input)%nat -> 0 <= fin <= 1 ->
  h_ok (poly_block r h input fin) /\
  hval (poly_block r h input fin) mod P1305 = ((hval h + block_val (take 16 input) fin) * rval r) mod P1305.
Proof.
  intros Hr (H0 & H1 & H2 & H3 & H4) Hi Hl Hf.
  assert (forall o, 0 <= o <= 12 -> load32_le (take 16 input) o = load32_le input o) as E.
  { intros o Ho. rewrite <- (take_drop 16 input) at 2. rewrite load32_le_app; [done|lia|rewrite length_take; lia]. }
  unfold block_val. rewrite <- word_value by (auto with wg_range || (rewrite length_take; lia)).
  rewrite !E by lia. unfold poly_block.
  pose proof (load32_le_range input 0 Hi) as L0. pose proof (load32_le_range input 4 Hi) as L1.
  pose proof (load32_le_range input 8 Hi) as L2. pose proof (load32_le_range input 12 Hi) as L3. unfold is_u32 in *.
  rewrite (add64_small (rd h 0)), (add64_small (rd h 1)), (add64_small (rd h 2)), (add64_small (rd h 3)) by lia.
  assert (add32 (rd h 4) fin = rd h 4 + fin) as -> by (apply u32_small; unfold is_u32; lia). cbv zeta.
  destruct (products_exact (rd h 0 + load32_le input 0) (rd h 1 + load32_le input 4) (rd h 2 + load32_le input 8)
    (rd h 3 + load32_le input 12) (rd h 4 + fin) r) as [(B0 & B1 & B2 & B3 & B4) [K EK]]; try lia; [done|].
  edestruct (partial_reduction _ _ _ _ _ B0 B1 B2 B3 B4) as [Hok [K' EK']].
  split; [exact Hok|]. rewrite EK', EK. rewrite !Z.mod_add by done. f_equal. unfold hval. f_equal. lia.
Qed.

Lemma poly_full_add k n a r m d :
  length m = (16 * k)%nat -> poly_full (k + n) a r (m ++ d) = poly_full n (poly_full k a r m) r d.
Proof.
  revert a m. induction k as [|k IH]; intros a m Hl.
  { destruct m; [done|discriminate]. }
  cbn [Nat.add poly_full]. rewrite take_app_le, drop_app_le by lia. apply IH. rewrite length_drop. lia.
Qed.

Lemma block_val_1 b : length b = 16%nat -> block_val b 1 = le_val (b ++ [1]).
Proof. intros Hl. unfold block_val. rewrite le_val_app, Hl. reflexivity. Qed.

Lemma mod_step a b r : (((a mod P1305) + b) * r) mod P1305 = ((a + b) * r) mod P1305.
Proof.
  rewrite <- (Z.mul_mod_idemp_l (a + b)), <- (Z.add_mod_idemp_l a) by discriminate.
  rewrite Z.mul_mod_idemp_l by discriminate. reflexivity.
Qed.

Lemma poly_blocks_ok n : forall r h data,
  r_ok r -> h_ok h -> is_bytes data -> (16 * n <= length data)%nat ->
  h_ok (poly_blocks n r h data 1) /\
  hval (poly_blocks n r h data 1) mod P1305 = poly_full n (hval h mod P1305) (rval r) data.
Proof.
  induction n as [|n IH]; intros r h data Hr Hh Hd Hl; [done|]. cbn [poly_blocks poly_full].
  destruct (poly_block_ok r h data 1) as [Hok E]; [done|done|done|lia..|].
  destruct (IH r (poly_block r h data 1) (drop 16 data)) as [H1 ->]; [done|done|auto with wg_range|rewrite length_drop; lia|].
  split; [done|]. rewrite E, block_val_1, mod_step by (rewrite length_take; lia). done.
Qed.

Section mono_stream.
Context (key : list Z).

(** A context that has consumed [msg]. *)
Record mono_absorbed (ctx : crypto_poly1305_ctx) (msg : list Z) : Prop := {
  ma_r : r_ok (mp_r ctx);
  ma_rv : rval (mp_r ctx) = key_r key;
  ma_p : Forall is_u32 (mp_pad ctx);
  ma_pv : rval (mp_pad ctx) = key_s key;
  ma_h : h_ok (mp_h ctx);
  ma_hv : hval (mp_h ctx) mod P1305 = poly_full (length msg / 16) 0 (key_r key) msg;
  ma_c : length (mp_c ctx) = 16%nat;
  ma_idx : mp_c_idx ctx = Z.of_nat (length msg mod 16);
  ma_rest : take (length msg mod 16) (mp_c ctx) = drop (16 * (length msg / 16)) msg
}.

(** Whole blocks from a block boundary. *)
Lemma mono_whole ctx msg data n :
  mono_absorbed ctx msg -> (length msg mod 16 = 0)%nat -> is_bytes data -> (16 * n <= length data)%nat ->
  mono_absorbed (set_h ctx (poly_blocks n (mp_r ctx) (mp_h ctx) data 1)) (msg ++ take (16 * n) data).
Proof.
  intros [Hr Hrv Hp Hpv Hh Hhv Hc Hi Hrest] Hm Hd Hl.
  destruct (poly_blocks_ok n (mp_r ctx) (mp_h ctx) data) as [Hok E]; [done..|].
  pose proof (Nat.div_mod_eq (length msg) 16) as Hdm. set (k := (length msg / 16)%nat) in *.
  assert (length (msg ++ take (16 * n) data) = (k + n) * 16)%nat as El by (rewrite length_app, length_take; lia).
  assert (length (msg ++ take (16 * n) data) / 16 = k + n /\ length (msg ++ take (16 * n) data) mod 16 = 0)%nat as [Eq Er].
  { rewrite El, Nat.div_mul, Nat.Div0.mod_mul by lia. done. }
  split; cbn [set_h mp_r mp_pad mp_h mp_c mp_c_idx]; try done.
  - rewrite E, Eq, poly_full_add, Hhv, Hrv by lia. rewrite <- (take_drop (16 * n) data) at 1.
    apply poly_full_app. rewrite length_take. lia.
  - rewrite Er, Hi, Hm. done.
  - rewrite Er, Eq, drop_ge by (rewrite El; lia). done.
Qed.

(** Bytes that do not complete a block. *)
Lemma mono_buffer ctx msg data :
  mono_absorbed ctx msg -> (length msg mod 16 + length data < 16)%nat ->
  mono_absorbed (set_c ctx (copy_at (mp_c ctx) (mp_c_idx ctx) data) (mp_c_idx ctx + Z.of_nat (length data))) (msg ++ data).
Proof.
  intros [Hr Hrv Hp Hpv Hh Hhv Hc Hi Hrest] Hl. pose proof (Nat.div_mod_eq (length msg) 16) as Hdm.
  assert (length (msg ++ data) / 16 = length msg / 16 /\
          length (msg ++ data) mod 16 = length msg mod 16 + length data)%nat as [Eq Er].
  { rewrite length_app. split; [symmetry; apply Nat.div_unique with (length msg mod 16 + length data)%nat; lia|].
    symmetry; apply Nat.mod_unique with (length msg / 16)%nat; lia. }
  split; cbn [set_c mp_r mp_pad mp_h mp_c mp_c_idx]; try done.
  - rewrite Eq, poly_full_app by lia. done.
  - rewrite length_copy_at; lia.
  - rewrite Er, Hi. lia.
  - rewrite Er, Eq, drop_app_le, <- Hrest, Hi by lia.
    rewrite <- (Nat2Z.id (length msg mod 16)) at 1. rewrite take_copy_at by lia. rewrite Nat2Z.id. done.
Qed.

(** The second half of the update: whole blocks, then the remaining bytes. *)
Lemma mono_rest ctx msg data :
  mono_absorbed ctx msg -> (length msg mod 16 = 0)%nat -> is_bytes data ->
  let n := (length data / 16)%nat in
  let ctx := set_h ctx (poly_blocks n (mp_r ctx) (mp_h ctx) data 1) in
  let rest := drop (16 * n) data in
  mono_absorbed (set_c ctx (copy_at (mp_c ctx) (mp_c_idx ctx) rest) (mp_c_idx ctx + Z.of_nat (length rest))) (msg ++ data).
Proof.
  intros Hab Hm Hd n ctx' rest. pose proof (Nat.div_mod_eq (length data) 16) as Hdm.
  pose proof (Nat.mod_upper_bound (length data) 16) as Hb. fold n in Hdm.
  assert (length (take (16 * n) data) = 16 * n)%nat as Ht by (rewrite length_take; lia).
  rewrite <- (take_drop (16 * n) data), app_assoc.
  apply mono_buffer; [apply mono_whole; auto; lia|].
  unfold rest. rewrite length_app, Ht, length_drop.
  replace ((length msg + 16 * n) mod 16)%nat with 0%nat; [lia|].
  replace (16 * n)%nat with (n * 16)%nat by lia. rewrite Nat.Div0.mod_add. lia.
Qed.

Lemma gap_16 x : 0 <= x < 2 ^ 64 -> gap x 16 = (16 - x mod 16) mod 16.
Proof.
  intros Hx. unfold gap. change (16 - 1) with (Z.ones 4). rewrite Z.land_ones by lia.
  unfold add64, not64, u64. change (2 ^ 4) with 16. zlia.
Qed.

(** Forgetting the chunk. *)
Lemma mono_full ctx msg c :
  mono_absorbed ctx msg -> length c = 16%nat ->
  mono_absorbed (set_c ctx c 0) (take (16 * (length msg / 16)) msg) /\
  (length (take (16 * (length msg / 16)) msg) mod 16 = 0)%nat.
Proof.
  intros [Hr Hrv Hp Hpv Hh Hhv Hc Hi Hrest] Hlc. pose proof (Nat.Div0.mul_div_le (length msg) 16).
  assert (length (take (16 * (length msg / 16)) msg) = length msg / 16 * 16)%nat as E by (rewrite length_take; lia).
  assert (length (take (16 * (length msg / 16)) msg) mod 16 = 0)%nat as Em by (rewrite E; apply Nat.Div0.mod_mul).
  split; [|done]. split; cbn [set_c mp_r mp_pad mp_h mp_c mp_c_idx]; try done.
  - rewrite E, Nat.div_mul, Hhv by lia. rewrite <- (take_drop (16 * (length msg / 16)) msg) at 2.
    apply poly_full_app. lia.
  - rewrite Em. done.
  - rewrite Em, E, Nat.div_mul, drop_ge by lia. done.
Qed.

(** The first half of the update: the chunk is filled, and hashed when full. *)
Lemma mono_align ctx msg data :
  mono_absorbed ctx msg -> is_bytes msg -> is_bytes data ->
  let aligned := Z.to_nat (Z.min (gap (mp_c_idx ctx) 16) (Z.of_nat (length data))) in
  let ctx1 := set_c ctx (copy_at (mp_c ctx) (mp_c_idx ctx) (take aligned data)) (mp_c_idx ctx + Z.of_nat aligned) in
  let ctx2 := if mp_c_idx ctx1 =? 16
              then set_c (set_h ctx1 (poly_blocks 1 (mp_r ctx1) (mp_h ctx1) (mp_c ctx1) 1)) (mp_c ctx1) 0 else ctx1 in
  mono_absorbed ctx2 (msg ++ take aligned data) /\
  ((length (msg ++ take aligned data) mod 16 = 0)%nat \/ drop aligned data = []).
Proof.
  intros Hab Hm Hd. pose proof (ma_idx _ _ Hab) as Hi. pose proof (ma_c _ _ Hab) as Hc.
  pose proof (Nat.mod_upper_bound (length msg) 16) as Hb. pose proof (Nat.div_mod_eq (length msg) 16) as Hdm.
  rewrite gap_16 by lia. cbv zeta. set (aligned := Z.to_nat _).
  assert ((length msg mod 16 = 0 /\ aligned = 0) \/
          (0 < length msg mod 16 /\ aligned = Nat.min (16 - length msg mod 16) (length data)))%nat as Hal.
  { unfold aligned. rewrite Hi, (Z.mod_small (Z.of_nat _)) by lia.
    destruct (decide (length msg mod 16 = 0)%nat) as [->|Hne];
      [left; change ((16 - Z.of_nat 0) mod 16) with 0; lia|right].
    rewrite Z.mod_small by lia. lia. }
  clearbody aligned.
  assert (length (take aligned data) = aligned) as Ha by (rewrite length_take; lia).
  cbn [set_c set_h mp_r mp_pad mp_h mp_c mp_c_idx].
  destruct (Z.eqb_spec (mp_c_idx ctx + Z.of_nat aligned) 16) as [E16|E16].
  2: { assert (aligned = 0 /\ length msg mod 16 = 0 \/ length data <= aligned)%nat as Hcase by lia.
       split; [rewrite <- Ha at 2; apply mono_buffer; [done|rewrite Ha; lia]|].
       destruct Hcase as [[-> H0]|Hge]; [left; by rewrite app_nil_r|right; by apply drop_ge]. }
  set (c := copy_at (mp_c ctx) (mp_c_idx ctx) (take aligned data)).
  assert (length c = 16%nat) as Hlc by (unfold c; rewrite length_copy_at; lia).
  assert (c = drop (16 * (length msg / 16)) msg ++ take aligned data) as Ec.
  { unfold c, copy_at. rewrite <- (ma_rest _ _ Hab), Hi, Nat2Z.id, (drop_ge (mp_c ctx)), app_nil_r by lia. done. }
  destruct (mono_full ctx msg c Hab Hlc) as [Hf Hfm].
  pose proof (mono_whole _ _ c 1 Hf Hfm) as Hw. cbn [set_c set_h mp_r mp_pad mp_h mp_c mp_c_idx] in Hw.
  rewrite (take_ge c) in Hw by lia. rewrite Ec, app_assoc, take_drop, <- Ec in Hw.
  split; [apply Hw; [rewrite Ec; auto with wg_range|lia]|]. left.
  rewrite length_app, Ha, Hdm. replace (16 * (length msg / 16) + length msg mod 16 + aligned)%nat
    with ((length msg / 16 + 1) * 16)%nat by lia. apply Nat.Div0.mod_mul.
Qed.

Lemma mono_update ctx msg data :
  mono_absorbed ctx msg -> is_bytes msg -> is_bytes data -> mono_absorbed (crypto_poly1305_update ctx data) (msg ++ data).
Proof.
  intros Hab Hm Hd. unfold crypto_poly1305_update. destruct (Nat.eqb_spec (length data) 0) as [E0|E0].
  { destruct data; [by rewrite app_nil_r|discriminate]. }
  destruct (mono_align ctx msg data Hab Hm Hd) as [Ha Hor]. cbv zeta in Ha, Hor |- *.
  set (aligned := Z.to_nat _) in *.
  match type of Ha with mono_absorbed ?c _ => set (ctx2 := c) in * end.
  clearbody ctx2. replace (msg ++ data) with ((msg ++ take aligned data) ++ drop aligned data)
    by (rewrite <- app_assoc, take_drop; done).
  destruct Hor as [Hor|Hor].
  - apply (mono_rest ctx2 (msg ++ take aligned data) (drop aligned data)); auto with wg_range.
  - rewrite Hor, app_nil_r. cbn [length]. change (0 / 16)%nat with 0%nat. change (16 * 0)%nat with 0%nat.
    rewrite drop_0. cbn [poly_blocks length].
    destruct ctx2 as [c i r p h]. cbn [set_c set_h mp_r mp_pad mp_h mp_c mp_c_idx].
    unfold copy_at. cbn [length app]. rewrite Nat.add_0_r, take_drop, Z.add_0_r. done.
Qed.

Lemma mono_pieces ctx msg pieces :
  mono_absorbed ctx msg -> is_bytes msg -> Forall is_bytes pieces ->
  mono_absorbed (fold_left crypto_poly1305_update pieces ctx) (msg ++ concat pieces).
Proof.
  intros Ha Hm Hp. revert ctx msg Ha Hm. induction Hp as [|p ps Hp Hps IH]; intros ctx msg Ha Hm; simpl.
  - by rewrite app_nil_r.
  - rewrite app_assoc. apply IH; [by apply mono_update|by apply is_bytes_app].
Qed.

(** The conditional subtraction, the addition of the pad and the output. *)
Lemma mono_output h pad :
  h_ok h -> Forall is_u32 pad ->
  (let c := fold_left (fun c i => shr64 (add64 c (rd h i)) 32) [0; 1; 2; 3] 5 in
   let c := add64 c (rd h 4) in
   let c := mul64 (shr64 c 2) 5 in
   (fold_left (fun '(mac, c) i =>
      let c := add64 c (add64 (rd h i) (rd pad i)) in
      (mac ++ store32_le (u32 c), shr64 c 32)) [0; 1; 2; 3] ([], c)).1)
  = le_bytes 16 (hval h mod P1305 + rval pad).
Proof.
  intros (H0 & H1 & H2 & H3 & H4) Hp.
  assert (forall i, is_u32 (rd pad i)) as Hpr by (intros; apply Forall_rd; [done|unfold is_u32; lia]).
  pose proof (Hpr 0) as P0. pose proof (Hpr 1) as P1. pose proof (Hpr 2) as P2. pose proof (Hpr 3) as P3. clear Hpr Hp.
  cbn [fold_left]. cbv zeta. unfold rval, hval. revert H0 H1 H2 H3 H4 P0 P1 P2 P3. unfold is_u32.
  generalize (rd h 0) (rd h 1) (rd h 2) (rd h 3) (rd h 4) (rd pad 0) (rd pad 1) (rd pad 2) (rd pad 3).
  intros h0 h1 h2 h3 h4 p0 p1 p2 p3 H0 H1 H2 H3 H4 P0 P1 P2 P3. clear h pad.
  rewrite !shr64_div by lia.
  assert (forall x, 0 <= x < 2 ^ 35 -> exists c l, x / 2 ^ 32 = c /\ x mod 2 ^ 32 = l /\
    x = c * 2 ^ 32 + l /\ 0 <= l < 2 ^ 32 /\ 0 <= c < 8) as Hs.
  { intros x Hx. do 2 eexists. repeat split; zlia. }
  rewrite (add64_small 5 h0) by lia. destruct (Hs (5 + h0)) as (c0 & l0 & -> & _ & ? & ? & ?); [lia|].
  rewrite (add64_small c0 h1) by lia. destruct (Hs (c0 + h1)) as (c1 & l1 & -> & _ & ? & ? & ?); [lia|].
  rewrite (add64_small c1 h2) by lia. destruct (Hs (c1 + h2)) as (c2 & l2 & -> & _ & ? & ? & ?); [lia|].
  rewrite (add64_small c2 h3) by lia. destruct (Hs (c2 + h3)) as (c3 & l3 & -> & _ & ? & ? & ?); [lia|].
  rewrite (add64_small c3 h4) by lia.
  assert (exists k, (c3 + h4) / 2 ^ 2 = k /\ 0 <= k <= 1 /\ (h0 + h1 * 2 ^ 32 + h2 * 2 ^ 64 + h3 * 2 ^ 96 + h4 * 2 ^ 128) mod P1305
    = h0 + h1 * 2 ^ 32 + h2 * 2 ^ 64 + h3 * 2 ^ 96 + h4 * 2 ^ 128 - k * P1305) as (k & -> & Hk & ->).
  { exists ((c3 + h4) / 2 ^ 2). assert (0 <= (c3 + h4) / 2 ^ 2 <= 1) by zlia. split_and!; try lia.
    symmetry. apply Z.mod_unique with ((c3 + h4) / 2 ^ 2); [left|lia]. unfold P1305.
    assert (4 * ((c3 + h4) / 2 ^ 2) <= c3 + h4 < 4 * ((c3 + h4) / 2 ^ 2) + 4) by zlia.
    set (k := (c3 + h4) / 2 ^ 2) in *. clearbody k. lia. }
  rewrite mul64_exact by lia.
  rewrite (add64_small h0 p0), (add64_small h1 p1), (add64_small h2 p2), (add64_small h3 p3) by lia.
  rewrite (add64_small (k * 5)) by lia. cbv beta iota.
  cbn [fst app]. unfold u32. change 4294967296 with (2 ^ 32).
  destruct (Hs (k * 5 + (h0 + p0))) as (d0 & e0 & -> & -> & ? & ? & ?); [lia|].
  rewrite (add64_small d0) by lia.
  destruct (Hs (d0 + (h1 + p1))) as (d1 & e1 & -> & -> & ? & ? & ?); [lia|].
  rewrite (add64_small d1) by lia.
  destruct (Hs (d1 + (h2 + p2))) as (d2 & e2 & -> & -> & ? & ? & ?); [lia|].
  rewrite (add64_small d2) by lia.
  destruct (Hs (d2 + (h3 + p3))) as (d3 & e3 & _ & -> & ? & ? & ?); [lia|].
  apply le_val_inj; [auto 6 with wg_range..|done|].
  rewrite !le_val_app, !length_app, !store32_le_bytes, !le_val_le_bytes, !length_le_bytes.
  change (256 ^ Z.of_nat 4) with (2 ^ 32). change (256 ^ Z.of_nat (4 + 4)) with (2 ^ 64).
  change (256 ^ Z.of_nat (4 + 4 + 4)) with (2 ^ 96). change (256 ^ Z.of_nat 16) with (2 ^ 128).
  rewrite !(Z.mod_small _ (2 ^ 32)) by lia. unfold P1305.
  apply Z.mod_unique with (d3 + h4 - 4 * k); [left|]; lia.
Qed.

Lemma mono_final ctx msg :
  mono_absorbed ctx msg -> is_bytes msg -> crypto_poly1305_final ctx = poly1305_rfc msg key.
Proof.
  intros Hab Hm. unfold crypto_poly1305_final, poly1305_rfc. fold (key_r key) (key_s key).
  rewrite poly_acc_full by done. pose proof (ma_rest _ _ Hab) as Hrest. pose proof (ma_c _ _ Hab) as Hc.
  pose proof (ma_idx _ _ Hab) as Hi. pose proof (Nat.mod_upper_bound (length msg) 16) as Hmb.
  assert (length (drop (16 * (length msg / 16)) msg) = length msg mod 16)%nat as El.
  { rewrite <- Hrest, length_take. lia. }
  cbv zeta. rewrite El. destruct (Z.eqb_spec (mp_c_idx ctx) 0) as [E0|E0].
  { destruct (Nat.ltb_spec 0 (length msg mod 16)); [lia|].
    rewrite <- (ma_hv _ _ Hab), <- (ma_pv _ _ Hab). apply mono_output; apply Hab. }
  destruct (Nat.ltb_spec 0 (length msg mod 16)); [|lia].
  set (rest := drop (16 * (length msg / 16)) msg) in *.
  assert (wr (copy_at (mp_c ctx) (mp_c_idx ctx) (replicate (Z.to_nat (16 - mp_c_idx ctx)) 0)) (mp_c_idx ctx) 1
          = rest ++ [1] ++ replicate (15 - length rest) 0) as ->.
  { unfold wr, copy_at. rewrite Hi, Nat2Z.id, Hrest, <- El.
    replace (Z.to_nat (16 - Z.of_nat (length rest))) with (S (15 - length rest)) by lia.
    rewrite (drop_ge (mp_c ctx)), app_nil_r by (rewrite length_replicate; lia).
    rewrite insert_app_r_alt, Nat.sub_diag by lia. reflexivity. }
  set (blk := rest ++ [1] ++ replicate (15 - length rest) 0).
  assert (is_bytes rest) as Hrb by (unfold rest; auto with wg_range).
  assert (is_bytes blk) as Hbb. { apply is_bytes_app; [done|]. apply is_bytes_app; [|auto with wg_range]. repeat constructor; lia. }
  assert (length blk = 16%nat) as Hbl by (unfold blk; rewrite !length_app, length_replicate; simpl; lia).
  destruct (poly_block_ok (mp_r ctx) (mp_h ctx) blk 0) as [Hok Hv]; [apply Hab|apply Hab|done|lia|lia|].
  cbn [poly_blocks set_h set_c mp_r mp_pad mp_h mp_c mp_c_idx].
  pose proof (mono_output _ (mp_pad ctx) Hok (ma_p _ _ Hab)) as Eo. cbv zeta in Eo. rewrite Eo.
  rewrite Hv, (ma_rv _ _ Hab), (ma_pv _ _ Hab), <- (ma_hv _ _ Hab), mod_step. do 4 f_equal.
  rewrite (take_ge blk) by lia. unfold block_val, blk. rewrite !le_val_app, le_val_replicate0. lia.
Qed.
End mono_stream.

(** The bitwise and of numbers split at bit [n]. *)
Lemma land_split n p a c v w :
  p = 2 ^ n -> 0 <= n -> 0 <= a < p -> 0 <= c < p ->
  Z.land (a + p * v) (c + p * w) = Z.land a c + p * Z.land v w.
Proof.
  intros -> Hn Ha Hc.
  assert (0 <= Z.land a c) by (apply Z.land_nonneg; lia).
  assert (0 <= Z.land a c < 2 ^ n).
  { apply pow2_range_bits; [lia|lia|]. intros i Hi. rewrite Z.land_spec.
    rewrite (proj1 (pow2_range_bits n a ltac:(lia) ltac:(lia))) by lia. done. }
  rewrite !(Z.mul_comm (2 ^ n)). rewrite <- !lor_shiftl_add by lia.
  apply Z.bits_inj'. intros i Hi. rewrite !Z.land_spec, !Z.lor_spec, !Z.land_spec, !Z.shiftl_spec, Z.land_spec by lia.
  destruct (Z.lt_ge_cases i n).
  - rewrite !(Z.testbit_neg_r _ (i - n)) by lia. btauto.
  - rewrite (proj1 (pow2_range_bits n a ltac:(lia) ltac:(lia))) by lia.
    rewrite (proj1 (pow2_range_bits n c ltac:(lia) ltac:(lia))) by lia. btauto.
Qed.

Lemma land_fffffffc w : Z.land w 0x0ffffffc = 4 * ((w / 4) mod 2 ^ 26).
Proof.
  rewrite (Z.div_mod w 4) at 1 by lia. rewrite Z.add_comm. change 0x0ffffffc with (0 + 4 * Z.ones 26).
  rewrite (land_split 2) by (try apply Z.mod_pos_bound; lia). rewrite Z.land_0_r, Z.land_ones by lia. lia.
Qed.

Lemma load32_le_sub key n o :
  0 <= o <= 12 -> (n + 16 <= length key)%nat -> is_bytes key ->
  load32_le key (Z.of_nat n + o) = load32_le (take 16 (drop n key)) o.
Proof.
  intros Ho Hn Hk.
  rewrite !load32_le_val by (auto with wg_range || rewrite ?length_take, ?length_drop; lia).
  rewrite skipn_firstn_comm, drop_drop, take_take. do 2 f_equal; [lia|]. f_equal. lia.
Qed.

Lemma mono_init key c0 :
  is_bytes key -> length key = 32%nat -> length c0 = 16%nat -> mono_absorbed key (crypto_poly1305_init c0 key) [].
Proof.
  intros Hk Hl Hc.
  pose proof (load32_le_range key 0 Hk) as W0. pose proof (load32_le_range key 4 Hk) as W1.
  pose proof (load32_le_range key 8 Hk) as W2. pose proof (load32_le_range key 12 Hk) as W3.
  assert (mp_r (crypto_poly1305_init c0 key) =
    [Z.land (load32_le key 0) 0x0fffffff; Z.land (load32_le key 4) 0x0ffffffc;
     Z.land (load32_le key 8) 0x0ffffffc; Z.land (load32_le key 12) 0x0ffffffc]) as Er by reflexivity.
  assert (forall x, Z.land x 0x0fffffff = x mod 2 ^ 28) as Em by (intros; apply (Z.land_ones _ 28); lia).
  split; try rewrite Er; try done.
  - rewrite Em, !land_fffffffc. exists (load32_le key 0 mod 2 ^ 28 / 4).
    do 3 eexists. exists (load32_le key 0 mod 2 ^ 28 mod 4). split; [f_equal; apply Z.div_mod; lia|].
    split; [zlia|]. split_and!; try (apply Z.mod_pos_bound; lia).
  - unfold key_r, clamp. rewrite <- (word_value (take 16 key)) by (auto with wg_range || (rewrite length_take; lia)).
    rewrite <- (drop_0 key) at 5 6 7 8. rewrite <- !(load32_le_sub key 0) by (done || lia).
    change (Z.of_nat 0) with 0. rewrite !Z.add_0_l. unfold rval, rd; simpl nth.
    change 0xffffffc0ffffffc0ffffffc0fffffff
      with (0x0fffffff + 2 ^ 32 * (0x0ffffffc + 2 ^ 32 * (0x0ffffffc + 2 ^ 32 * 0x0ffffffc))).
    unfold is_u32 in *.
    replace (load32_le key 0 + load32_le key 4 * 2 ^ 32 + load32_le key 8 * 2 ^ 64 + load32_le key 12 * 2 ^ 96)
      with (load32_le key 0 + 2 ^ 32 * (load32_le key 4 + 2 ^ 32 * (load32_le key 8 + 2 ^ 32 * load32_le key 12))) by lia.
    rewrite !(land_split 32) by lia. lia.
  - cbn [crypto_poly1305_init mp_pad]. repeat constructor; by apply load32_le_range.
  - unfold key_s. rewrite <- (word_value (take 16 (drop 16 key)))
      by (auto with wg_range || (rewrite length_take, length_drop; lia)).
    rewrite <- !(load32_le_sub key 16) by (done || lia). reflexivity.
Qed.

(** The fallback authenticator is the one of RFC 8439. *)
Lemma mono_poly1305_pieces c0 key pieces :
  length c0 = 16%nat -> is_bytes key -> length key = 32%nat -> Forall is_bytes pieces ->
  crypto_poly1305_final (fold_left crypto_poly1305_update pieces (crypto_poly1305_init c0 key))
  = poly1305_rfc (concat pieces) key.
Proof.
  intros. apply mono_final; [|by apply is_bytes_concat].
  apply (mono_pieces key _ []); [by apply mono_init|constructor|done].
Qed.

(** ** The streams *)

(** The fallback ChaCha20 is the RFC 8439 cipher: with the 64-bit counter
    that [crypto_aead_init_ietf] forms from the first nonce word, the text written
    is the RFC one as long as the 32-bit block counter does not wrap. *)
Theorem crypto_chacha20_djb_correct text key nonce c :
  is_bytes key -> is_bytes nonce -> length nonce = 12%nat -> is_bytes text ->
  0 <= c -> c + Z.of_nat (length text / 64) < 2 ^ 32 ->
  (crypto_chacha20_djb (Some text) (length text) key (take 8 (drop 4 nonce)) (c + load32_le nonce 0 * 2 ^ 32)).1
  = chacha20_rfc text key nonce c.
Proof. apply chacha20_djb_rfc. Qed.

Lemma crypto_chacha20_djb_correct_witness :
  (crypto_chacha20_djb (Some (seqZ 0 70)) 70 (replicate 32 3) (take 8 (drop 4 (replicate 12 5)))
     (1 + load32_le (replicate 12 5) 0 * 2 ^ 32)).1
  = chacha20_rfc (seqZ 0 70) (replicate 32 3) (replicate 12 5) 1.
Proof.
  apply (crypto_chacha20_djb_correct (seqZ 0 70) (replicate 32 3) (replicate 12 5) 1).
  - apply (bool_decide_unpack _). vm_compute. exact I.
  - apply (bool_decide_unpack _). vm_compute. exact I.
  - reflexivity.
  - apply (bool_decide_unpack _). vm_compute. exact I.
  - lia.
  - vm_compute. reflexivity.
Defined.

(** The fallback Poly1305 on 32-bit limbs returns the RFC 8439 tag of the
    concatenation of the pieces it was given, whatever its chunk held before. *)
Theorem crypto_poly1305_correct c0 key pieces :
  length c0 = 16%nat -> is_bytes key -> length key = 32%nat -> Forall is_bytes pieces ->
  crypto_poly1305_final (fold_left crypto_poly1305_update pieces (crypto_poly1305_init c0 key))
  = poly1305_rfc (concat pieces) key.
Proof. apply mono_poly1305_pieces. Qed.

Lemma crypto_poly1305_correct_witness :
  crypto_poly1305_final (fold_left crypto_poly1305_update [replicate 5 1; replicate 40 255; []; [7]]
    (crypto_poly1305_init (replicate 16 9) (seqZ 100 32)))
  = poly1305_rfc (replicate 5 1 ++ replicate 40 255 ++ [] ++ [7]) (seqZ 100 32).
Proof.
  rewrite (crypto_poly1305_correct (replicate 16 9) (seqZ 100 32) [replicate 5 1; replicate 40 255; []; [7]]).
  - reflexivity.
  - reflexivity.
  - apply (bool_decide_unpack _). vm_compute. exact I.
  - reflexivity.
  - repeat constructor; lia.
Defined.
