(* ===== verification/Blake2b.v ===== *)
(** * BLAKE2b (library/crypto/monocypher.c)

    The 64-bit hash of Monocypher with its word-wise input buffer, against the hash
    function of RFC 7693. *)

From S2P Require Import Prelude Neon Blake2s Monocypher.

Definition iv : list Z :=
  [0x6a09e667f3bcc908; 0xbb67ae8584caa73b; 0x3c6ef372fe94f82b; 0xa54ff53a5f1d36f1;
   0x510e527fade682d1; 0x9b05688c2b3e6c1f; 0x1f83d9abfb41bd6b; 0x5be0cd19137e2179].

Definition sigma : list (list Z) :=
  [[0; 1; 2; 3; 4; 5; 6; 7; 8; 9; 10; 11; 12; 13; 14; 15];
   [14; 10; 4; 8; 9; 15; 13; 6; 1; 12; 0; 2; 11; 7; 5; 3];
   [11; 8; 12; 0; 5; 2; 15; 13; 10; 14; 3; 6; 7; 1; 9; 4];
   [7; 9; 3; 1; 13; 12; 11; 14; 2; 6; 5; 10; 4; 0; 15; 8];
   [9; 0; 5; 7; 2; 4; 10; 15; 14; 1; 11; 12; 6; 8; 3; 13];
   [2; 12; 6; 10; 0; 11; 8; 3; 4; 13; 7; 5; 15; 14; 1; 9];
   [12; 5; 1; 15; 14; 13; 4; 10; 0; 7; 6; 3; 9; 2; 8; 11];
   [13; 11; 7; 14; 12; 1; 3; 9; 5; 0; 15; 4; 8; 6; 2; 10];
   [6; 15; 14; 9; 11; 3; 0; 8; 12; 2; 13; 7; 1; 4; 10; 5];
   [10; 2; 8; 4; 7; 6; 1; 5; 15; 11; 9; 14; 3; 12; 13; 0];
   [0; 1; 2; 3; 4; 5; 6; 7; 8; 9; 10; 11; 12; 13; 14; 15];
   [14; 10; 4; 8; 9; 15; 13; 6; 1; 12; 0; 2; 11; 7; 5; 3]].

Definition rotr64 (x n : Z) : Z := Z.lxor (shr64 x n) (shl64 x (64 - n)).

Definition load64_le_buf (src : list Z) (o : Z) (size : nat) : list Z :=
  map (fun i => load64_le src (o + 8 * Z.of_nat i)) (seq 0 size).
Definition store64_le_buf (src : list Z) : list Z := concat (map store64_le src).

Record crypto_blake2b_ctx := mkBlake2b {
  hash : list Z;
  input_offset : list Z;
  input : list Z;
  input_idx : Z;
  hash_size : Z
}.

(** ** Compression *)

(** Each half of the macro, on the work vector; the operands are indices, [x] a message
    word. *)
Definition half_G (a b c d x r1 r2 : Z) (v : list Z) : list Z :=
  let v := wr v a (add64 (rd v a) (add64 (rd v b) x)) in let v := wr v d (rotr64 (Z.lxor (rd v d) (rd v a)) r1) in
  let v := wr v c (add64 (rd v c) (rd v d)) in wr v b (rotr64 (Z.lxor (rd v b) (rd v c)) r2).

Definition BLAKE2_G (a b c d x y : Z) (v : list Z) : list Z :=
  half_G a b c d y 16 63 (half_G a b c d x 32 24 v).

Definition BLAKE2_ROUND (input : list Z) (i : nat) (v : list Z) : list Z :=
  let s := nth i sigma [] in
  let v := BLAKE2_G 0 4 8 12 (rd input (rd s 0)) (rd input (rd s 1)) v in
  let v := BLAKE2_G 1 5 9 13 (rd input (rd s 2)) (rd input (rd s 3)) v in
  let v := BLAKE2_G 2 6 10 14 (rd input (rd s 4)) (rd input (rd s 5)) v in
  let v := BLAKE2_G 3 7 11 15 (rd input (rd s 6)) (rd input (rd s 7)) v in
  let v := BLAKE2_G 0 5 10 15 (rd input (rd s 8)) (rd input (rd s 9)) v in
  let v := BLAKE2_G 1 6 11 12 (rd input (rd s 10)) (rd input (rd s 11)) v in
  let v := BLAKE2_G 2 7 8 13 (rd input (rd s 12)) (rd input (rd s 13)) v in
  BLAKE2_G 3 4 9 14 (rd input (rd s 14)) (rd input (rd s 15)) v.

Definition blake2b_compress (ctx : crypto_blake2b_ctx) (is_last_block : Z) : crypto_blake2b_ctx :=
  let x := input_offset ctx in
  let y := input_idx ctx in
  let x := wr x 0 (add64 (rd x 0) y) in
  let x := if rd x 0 <? y then wr x 1 (add64 (rd x 1) 1) else x in
  let h := hash ctx in
  let v := [rd h 0; rd h 1; rd h 2; rd h 3; rd h 4; rd h 5; rd h 6; rd h 7;
            rd iv 0; rd iv 1; rd iv 2; rd iv 3; Z.lxor (rd iv 4) (rd x 0); Z.lxor (rd iv 5) (rd x 1);
            Z.lxor (rd iv 6) (u64 (Z.lnot (is_last_block - 1))); rd iv 7] in
  let v := fold_left (fun v i => BLAKE2_ROUND (input ctx) i v) (seq 0 12) v in
  let h := map (fun i => Z.lxor (rd h (Z.of_nat i)) (Z.lxor (rd v (Z.of_nat i)) (rd v (Z.of_nat i + 8)))) (seq 0 8) in
  mkBlake2b h x (input ctx) (input_idx ctx) (hash_size ctx).

(** ** The incremental interface *)

Definition set_input (ctx : crypto_blake2b_ctx) (i : list Z) (idx : Z) : crypto_blake2b_ctx :=
  mkBlake2b (hash ctx) (input_offset ctx) i idx (hash_size ctx).

Definition crypto_blake2b_keyed_init (hash_size : Z) (key : list Z) : crypto_blake2b_ctx :=
  let key_size := Z.of_nat (length key) in
  let h := wr iv 0 (Z.lxor (rd iv 0) (Z.lxor (Z.lxor 0x01010000 (shl64 key_size 8)) hash_size)) in
  let ctx := mkBlake2b h [0; 0] (replicate 16 0) 0 hash_size in
  if 0 <? key_size then
    let key_block := copy_at (replicate 128 0) 0 key in
    set_input ctx (load64_le_buf key_block 0 16) 128
  else ctx.

Definition crypto_blake2b_init (hash_size : Z) : crypto_blake2b_ctx := crypto_blake2b_keyed_init hash_size [].

(** [ctx->input[word] |= (u64)b << shift] *)
Definition or_word (i : list Z) (word b shift : Z) : list Z := wr i word (Z.lor (rd i word) (shl64 b shift)).

(** The loop up to the end of a word. *)
Definition align_word (ctx : crypto_blake2b_ctx) (message : list Z) : crypto_blake2b_ctx * list Z :=
  if negb (Z.land (input_idx ctx) 7 =? 0) then
    let nb_bytes := Z.to_nat (Z.min (gap (input_idx ctx) 8) (Z.of_nat (length message))) in
    let word := shr64 (input_idx ctx) 3 in
    let byte := Z.land (input_idx ctx) 7 in
    let i := fold_left (fun i k => or_word i word (rd message (Z.of_nat k)) (shl64 (byte + Z.of_nat k) 3))
               (seq 0 nb_bytes) (input ctx) in
    (set_input ctx i (input_idx ctx + Z.of_nat nb_bytes), drop nb_bytes message)
  else (ctx, message).

(** The words up to the end of the block. *)
Definition align_block (ctx : crypto_blake2b_ctx) (message : list Z) : crypto_blake2b_ctx * list Z :=
  if negb (Z.land (input_idx ctx) 127 =? 0) then
    let nb_words := Z.to_nat (shr64 (Z.min (gap (input_idx ctx) 128) (Z.of_nat (length message))) 3) in
    (set_input ctx (copy_at (input ctx) (shr64 (input_idx ctx) 3) (load64_le_buf message 0 nb_words))
       (input_idx ctx + shl64 (Z.of_nat nb_words) 3), drop (8 * nb_words) message)
  else (ctx, message).

Fixpoint blake2b_blocks (nb_blocks : nat) (ctx : crypto_blake2b_ctx) (message : list Z) : crypto_blake2b_ctx * list Z :=
  match nb_blocks with
  | O => (ctx, message)
  | S nb_blocks =>
      let ctx := if input_idx ctx =? 128 then blake2b_compress ctx 0 else ctx in
      blake2b_blocks nb_blocks (set_input ctx (copy_at (input ctx) 0 (load64_le_buf message 0 16)) 128) (drop 128 message)
  end.

Fixpoint remaining_bytes (ctx : crypto_blake2b_ctx) (message : list Z) : crypto_blake2b_ctx :=
  match message with
  | [] => ctx
  | b :: message =>
      let word := shr64 (input_idx ctx) 3 in
      let byte := Z.land (input_idx ctx) 7 in
      remaining_bytes (set_input ctx (or_word (input ctx) word b (shl64 byte 3)) (input_idx ctx + 1)) message
  end.

Definition blake2b_rest (ctx : crypto_blake2b_ctx) (message : list Z) : crypto_blake2b_ctx :=
  if negb (length message =? 0)%nat then
    let ctx := if input_idx ctx =? 128 then let ctx := blake2b_compress ctx 0 in set_input ctx (input ctx) 0 else ctx in
    let ctx := if input_idx ctx =? 0 then set_input ctx (replicate 16 0) (input_idx ctx) else ctx in
    let nb_words := Z.to_nat (shr64 (Z.of_nat (length message)) 3) in
    let ctx := set_input ctx (copy_at (input ctx) 0 (load64_le_buf message 0 nb_words))
                 (input_idx ctx + shl64 (Z.of_nat nb_words) 3) in
    remaining_bytes ctx (drop (8 * nb_words) message)
  else ctx.

Definition crypto_blake2b_update (ctx : crypto_blake2b_ctx) (message : list Z) : crypto_blake2b_ctx :=
  if (length message =? 0)%nat then ctx
  else
    let '(ctx, message) := align_word ctx message in
    let '(ctx, message) := align_block ctx message in
    let nb_blocks := Z.to_nat (shr64 (Z.of_nat (length message)) 7) in
    let '(ctx, message) := blake2b_blocks nb_blocks ctx message in
    blake2b_rest ctx message.

Definition crypto_blake2b_final (ctx : crypto_blake2b_ctx) : list Z :=
  let ctx := blake2b_compress ctx 1 in
  let hash_size := Z.min (hash_size ctx) 64 in
  let nb_words := Z.to_nat (shr64 hash_size 3) in
  store64_le_buf (take nb_words (hash ctx)) ++
  map (fun i => Z.land (shr64 (rd (hash ctx) (shr64 (Z.of_nat i) 3)) (8 * Z.land (Z.of_nat i) 7)) 0xff)
    (seq (8 * nb_words) (Z.to_nat hash_size - 8 * nb_words)).

Definition crypto_blake2b_keyed (hash_size : Z) (key message : list Z) : list Z :=
  let ctx := crypto_blake2b_keyed_init hash_size key in
  let ctx := crypto_blake2b_update ctx message in
  crypto_blake2b_final ctx.

Definition crypto_blake2b (hash_size : Z) (msg : list Z) : list Z := crypto_blake2b_keyed hash_size [] msg.

(** RFC 7693, appendix A: BLAKE2b-512 of "abc". *)
Example blake2b_abc :
  crypto_blake2b 64 [0x61; 0x62; 0x63] =
  [0xBA; 0x80; 0xA5; 0x3F; 0x98; 0x1C; 0x4D; 0x0D; 0x6A; 0x27; 0x97; 0xB6; 0x9F; 0x12; 0xF6; 0xE9;
   0x4C; 0x21; 0x2F; 0x14; 0x68; 0x5A; 0xC4; 0xB7; 0x4B; 0x12; 0xBB; 0x6F; 0xDB; 0xFF; 0xA2; 0xD1;
   0x7D; 0x87; 0xC5; 0x39; 0x2A; 0xAB; 0x79; 0x2D; 0xC2; 0x52; 0xD5; 0xDE; 0x45; 0x33; 0xCC; 0x95;
   0x18; 0xD3; 0x8A; 0xA8; 0xDB; 0xF1; 0x92; 0x5A; 0xB9; 0x23; 0x86; 0xED; 0xD4; 0x00; 0x99; 0x23].
Proof. vm_compute. reflexivity. Qed.

(** ** RFC 7693 for 64-bit words *)

Section rfc.
Variable m : list Z.

(** The mixing function of section 3.1, in two halves. *)
Definition mix_b (a b c d x r1 r2 : Z) (v : list Z) : list Z :=
  let v := wr v a ((rd v a + rd v b + x) mod 2 ^ 64) in
  let v := wr v d (rotr64 (Z.lxor (rd v d) (rd v a)) r1) in
  let v := wr v c ((rd v c + rd v d) mod 2 ^ 64) in
  wr v b (rotr64 (Z.lxor (rd v b) (rd v c)) r2).

Definition G_b (a b c d x y : Z) (v : list Z) : list Z :=
  mix_b a b c d y 16 63 (mix_b a b c d x 32 24 v).

(** Round [i] permutes the message by row [i mod 10] of the table that BLAKE2s has too. *)
Definition round_b (i : nat) (v : list Z) : list Z :=
  let s := sigma_row (i mod 10) in
  let v := G_b 0 4 8 12 (rd m (rd s 0)) (rd m (rd s 1)) v in
  let v := G_b 1 5 9 13 (rd m (rd s 2)) (rd m (rd s 3)) v in
  let v := G_b 2 6 10 14 (rd m (rd s 4)) (rd m (rd s 5)) v in
  let v := G_b 3 7 11 15 (rd m (rd s 6)) (rd m (rd s 7)) v in
  let v := G_b 0 5 10 15 (rd m (rd s 8)) (rd m (rd s 9)) v in
  let v := G_b 1 6 11 12 (rd m (rd s 10)) (rd m (rd s 11)) v in
  let v := G_b 2 7 8 13 (rd m (rd s 12)) (rd m (rd s 13)) v in
  G_b 3 4 9 14 (rd m (rd s 14)) (rd m (rd s 15)) v.
End rfc.

(** The compression function of section 3.2, on sixteen words. *)
Definition F_b (h m : list Z) (t : Z) (last : bool) : list Z :=
  let v := take 8 h ++ iv in
  let v := wr v 12 (Z.lxor (rd v 12) (t mod 2 ^ 64)) in
  let v := wr v 13 (Z.lxor (rd v 13) ((t / 2 ^ 64) mod 2 ^ 64)) in
  let v := if last then wr v 14 (Z.lxor (rd v 14) (2 ^ 64 - 1)) else v in
  let v := fold_left (fun v i => round_b m i v) (seq 0 12) v in
  map (fun i => Z.lxor (Z.lxor (rd h (Z.of_nat i)) (rd v (Z.of_nat i))) (rd v (Z.of_nat i + 8))) (seq 0 8).

(** The sixteen little-endian words of a block; a short block counts as padded with zeros. *)
Definition words_b (block : list Z) : list Z :=
  map (fun i => le_val (take 8 (drop (8 * i) block))) (seq 0 16).

Fixpoint chain_b (h0 M : list Z) (n : nat) : list Z :=
  match n with
  | O => h0
  | S k => F_b (chain_b h0 M k) (words_b (take 128 (drop (128 * k) M))) (128 * Z.of_nat (S k)) false
  end.

(** All blocks but the last one. *)
Definition full_blocks_b (n : nat) : nat := ((n - 1) / 128)%nat.

Definition digest_b (h0 M : list Z) (n : Z) : list Z :=
  let k := full_blocks_b (length M) in
  let h := F_b (chain_b h0 M k) (words_b (drop (128 * k) M)) (Z.of_nat (length M)) true in
  take (Z.to_nat n) (concat (map (le_bytes 8) h)).

Definition param_b (n keylen : Z) : list Z :=
  wr iv 0 (Z.lxor (rd iv 0) (Z.lxor (Z.lxor 0x01010000 (Z.shiftl keylen 8)) n)).

(** BLAKE2b with the key as a first block of its own. *)
Definition blake2b_rfc (n : Z) (input key : list Z) : list Z :=
  digest_b (param_b n (Z.of_nat (length key)))
    ((if (length key =? 0)%nat then [] else key ++ replicate (128 - length key) 0) ++ input) n.

(** ** The compression functions agree *)

Lemma add64_3 a b x : add64 a (add64 b x) = (a + b + x) mod 2 ^ 64.
Proof. unfold add64, u64. change 18446744073709551616 with (2 ^ 64). rewrite Zplus_mod_idemp_r. f_equal. lia. Qed.

Lemma half_G_rfc a b c d x r1 r2 v : half_G a b c d x r1 r2 v = mix_b a b c d x r1 r2 v.
Proof. unfold half_G, mix_b. rewrite add64_3. reflexivity. Qed.

Lemma BLAKE2_G_rfc a b c d x y v : BLAKE2_G a b c d x y v = G_b a b c d x y v.
Proof. unfold BLAKE2_G, G_b. by rewrite !half_G_rfc. Qed.

#[local] Opaque BLAKE2_G G_b.

Lemma sigma_rows i : (i < 12)%nat -> nth i sigma [] = sigma_row (i mod 10).
Proof. intros Hi. do 12 (destruct i as [|i]; [reflexivity|]). lia. Qed.

Lemma BLAKE2_ROUND_rfc m i v : (i < 12)%nat -> BLAKE2_ROUND m i v = round_b m i v.
Proof. intros Hi. unfold BLAKE2_ROUND, round_b. rewrite sigma_rows by done. cbv zeta. by rewrite !BLAKE2_G_rfc. Qed.

#[local] Opaque BLAKE2_ROUND round_b.

Lemma rounds_rfc m v :
  fold_left (fun v i => BLAKE2_ROUND m i v) (seq 0 12) v = fold_left (fun v i => round_b m i v) (seq 0 12) v.
Proof.
  apply (fold_left_ext (fun i => (i < 12)%nat)); [|repeat constructor]. intros a i Hi. exact (BLAKE2_ROUND_rfc m i a Hi).
Qed.

(** The byte counter as two words. *)
Definition count_b (t : Z) : list Z := [t mod 2 ^ 64; (t / 2 ^ 64) mod 2 ^ 64].

Lemma count_b_add t n :
  0 <= t -> 0 <= n < 2 ^ 64 ->
  (let x := wr (count_b t) 0 (add64 (rd (count_b t) 0) n) in
   if rd x 0 <? n then wr x 1 (add64 (rd x 1) 1) else x) = count_b (t + n).
Proof.
  intros Ht Hn. unfold count_b. rewrite rd_pair0. cbv zeta.
  change (wr [t mod 2 ^ 64; (t / 2 ^ 64) mod 2 ^ 64] 0 ?x) with [x; (t / 2 ^ 64) mod 2 ^ 64].
  rewrite rd_pair0, rd_pair1. unfold add64, u64. change 18446744073709551616 with (2 ^ 64). rewrite Zplus_mod_idemp_l.
  destruct (Z.ltb_spec ((t + n) mod 2 ^ 64) n).
  - change (wr [?a; ?b] 1 ?x) with [a; x]. rewrite Zplus_mod_idemp_l. do 2 f_equal. f_equal. zlia.
  - do 2 f_equal. f_equal. zlia.
Qed.

(** The two work vectors. *)
Lemma work_vector h t (last : bool) :
  length h = 8%nat ->
  [rd h 0; rd h 1; rd h 2; rd h 3; rd h 4; rd h 5; rd h 6; rd h 7;
   rd iv 0; rd iv 1; rd iv 2; rd iv 3; Z.lxor (rd iv 4) (rd (count_b t) 0); Z.lxor (rd iv 5) (rd (count_b t) 1);
   Z.lxor (rd iv 6) (u64 (Z.lnot ((if last then 1 else 0) - 1))); rd iv 7] =
  let v := take 8 h ++ iv in
  let v := wr v 12 (Z.lxor (rd v 12) (t mod 2 ^ 64)) in
  let v := wr v 13 (Z.lxor (rd v 13) ((t / 2 ^ 64) mod 2 ^ 64)) in
  if last then wr v 14 (Z.lxor (rd v 14) (2 ^ 64 - 1)) else v.
Proof.
  intros Hh. unfold count_b. rewrite rd_pair0, rd_pair1.
  do 8 (destruct h as [|? h]; [discriminate|]). destruct h; [|discriminate]. destruct last; [reflexivity|].
  change (u64 (Z.lnot (0 - 1))) with 0. rewrite Z.lxor_0_r. reflexivity.
Qed.

(** Compression is [F] with the counter advanced by the bytes of the block. *)
Lemma compress_F_b ctx t (last : bool) :
  length (hash ctx) = 8%nat -> input_offset ctx = count_b t -> 0 <= t -> 0 <= input_idx ctx < 2 ^ 64 ->
  blake2b_compress ctx (if last then 1 else 0) =
  mkBlake2b (F_b (hash ctx) (input ctx) (t + input_idx ctx) last) (count_b (t + input_idx ctx)) (input ctx) (input_idx ctx) (hash_size ctx).
Proof.
  intros Hh Ho Ht Hi. unfold blake2b_compress. rewrite Ho. pose proof (count_b_add t (input_idx ctx) Ht Hi) as E.
  cbv zeta in E |- *. rewrite E, rounds_rfc, work_vector by done. unfold F_b. cbv zeta. f_equal.
  apply map_ext. intros i. symmetry. apply Z.lxor_assoc.
Qed.

#[local] Opaque F_b blake2b_compress.

(** ** The word buffer *)

Lemma length_words_b b : length (words_b b) = 16%nat.
Proof. unfold words_b. by rewrite length_map, length_seq. Qed.

Lemma rd_words_b b i : (i < 16)%nat -> rd (words_b b) (Z.of_nat i) = le_val (take 8 (drop (8 * i) b)).
Proof.
  intros Hi. unfold rd, words_b. rewrite Nat2Z.id.
  rewrite (nth_indep _ _ ((fun i => le_val (take 8 (drop (8 * i) b))) 0%nat)) by (by rewrite length_map, length_seq).
  rewrite (map_nth (fun i => le_val (take 8 (drop (8 * i) b)))). by rewrite seq_nth.
Qed.

Lemma words_b_wr b c i x :
  (i < 16)%nat -> x = le_val (take 8 (drop (8 * i) c)) ->
  (forall j, (j < 16)%nat -> j <> i -> le_val (take 8 (drop (8 * j) c)) = le_val (take 8 (drop (8 * j) b))) ->
  wr (words_b b) (Z.of_nat i) x = words_b c.
Proof.
  intros Hi Ex Hj. unfold wr. rewrite Nat2Z.id. apply list_eq. intros j.
  destruct (decide (j = i)) as [->|Hn].
  - rewrite list_lookup_insert_eq by (by rewrite length_words_b). unfold words_b.
    change (@map nat Z) with (@fmap list _ nat Z). rewrite list_lookup_fmap, lookup_seq_lt by done. cbn. by rewrite Ex.
  - rewrite list_lookup_insert_ne by done. unfold words_b. change (@map nat Z) with (@fmap list _ nat Z). rewrite !list_lookup_fmap.
    destruct (decide (j < 16)%nat) as [H16|H16]; [|by rewrite lookup_seq_ge by lia].
    rewrite lookup_seq_lt by done. cbn [fmap option_fmap option_map]. f_equal. symmetry. apply (Hj j); done.
Qed.

(** A byte put behind the bytes held so far. *)
Lemma or_word_byte T x n :
  is_bytes T -> is_u8 x -> n = Z.of_nat (length T) -> (length T < 128)%nat ->
  or_word (words_b T) (shr64 n 3) x (shl64 (Z.land n 7) 3) = words_b (T ++ [x]).
Proof.
  intros Hb Hx -> Hl. set (q := (length T / 8)%nat). set (r := (length T mod 8)%nat).
  pose proof (Nat.div_mod_eq (length T) 8) as Hd. pose proof (Nat.mod_upper_bound (length T) 8 ltac:(lia)) as Hr. fold q r in Hd, Hr.
  assert (shr64 (Z.of_nat (length T)) 3 = Z.of_nat q) as ->.
  { rewrite shr64_div by lia. unfold q. rewrite Nat2Z.inj_div. done. }
  assert (Z.land (Z.of_nat (length T)) 7 = Z.of_nat r) as ->.
  { change 7 with (Z.ones 3). rewrite Z.land_ones by lia. unfold r. rewrite Nat2Z.inj_mod. done. }
  unfold or_word. rewrite rd_words_b by lia.
  assert (length (drop (8 * q) T) = r) as Hdl by (rewrite length_drop; lia).
  assert (take 8 (drop (8 * q) (T ++ [x])) = drop (8 * q) T ++ [x]) as E1.
  { rewrite drop_app_le by lia. apply take_ge. rewrite length_app, Hdl. cbn. lia. }
  apply words_b_wr; [lia| |].
  - rewrite E1, (take_ge (drop (8 * q) T)) by lia. rewrite le_val_app, Hdl. cbn [le_val].
    assert (shl64 (Z.of_nat r) 3 = 8 * Z.of_nat r) as ->.
    { unfold shl64. rewrite Z.shiftl_mul_pow2 by lia. rewrite u64_small by (unfold is_u64; lia). lia. }
    pose proof (le_val_range (drop (8 * q) T) ltac:(by apply is_bytes_drop)) as Hv. rewrite Hdl in Hv.
    assert (256 ^ Z.of_nat r = 2 ^ (8 * Z.of_nat r)) as Ep by (rewrite Z.pow_mul_r by lia; done). rewrite Ep in *.
    unfold shl64. rewrite u64_small.
    + rewrite lor_shiftl_add by lia. lia.
    + unfold is_u64, is_u8 in *. rewrite Z.shiftl_mul_pow2 by lia. split; [nia|].
      assert (2 ^ (8 * Z.of_nat r) <= 2 ^ 56) by (apply Z.pow_le_mono_r; lia). nia.
  - intros j Hj Hn. destruct (decide (j < q)%nat).
    + rewrite drop_app_le, take_app_le by (rewrite ?length_drop; lia). done.
    + rewrite !drop_ge by (rewrite ?length_app; cbn; lia). done.
Qed.

Lemma load64_le_bytes s o :
  is_bytes s -> 0 <= o -> o + 8 <= Z.of_nat (length s) -> load64_le s o = le_val (take 8 (drop (Z.to_nat o) s)).
Proof.
  intros Hs Ho Hl. destruct (load64_le_val s o Hs Ho Hl) as [-> _]. rewrite !load32_le_val by (done || lia).
  replace (Z.to_nat (o + 4)) with (Z.to_nat o + 4)%nat by lia. rewrite <- drop_drop.
  set (l := drop (Z.to_nat o) s). assert (8 <= length l)%nat by (unfold l; rewrite length_drop; lia).
  replace (take 8 l) with (take 4 l ++ take 4 (drop 4 l)) by (by rewrite take_take_drop).
  rewrite le_val_app, length_take, Nat.min_l by lia. reflexivity.
Qed.

Lemma lookup_words_b b j : (j < 16)%nat -> words_b b !! j = Some (le_val (take 8 (drop (8 * j) b))).
Proof.
  intros Hj. unfold words_b. change (@map nat Z) with (@fmap list _ nat Z). by rewrite list_lookup_fmap, lookup_seq_lt.
Qed.

(** Whole words put behind the bytes held so far. *)
Lemma copy_words T D q w :
  is_bytes D -> length T = (8 * q)%nat -> (8 * w <= length D)%nat -> (q + w <= 16)%nat ->
  copy_at (words_b T) (Z.of_nat q) (load64_le_buf D 0 w) = words_b (T ++ take (8 * w) D).
Proof.
  intros Hb HT HD Hq. unfold copy_at. rewrite Nat2Z.id.
  assert (length (load64_le_buf D 0 w) = w) as Hw by (unfold load64_le_buf; by rewrite length_map, length_seq). rewrite Hw.
  assert (length (take q (words_b T)) = q) as Hq' by (rewrite length_take, length_words_b; lia).
  apply list_eq. intros j. destruct (decide (j < 16)%nat) as [H16|H16].
  2: { rewrite !lookup_ge_None_2; [done|rewrite length_words_b; lia|].
    rewrite !length_app, Hq', Hw, length_drop, length_words_b. lia. }
  rewrite (lookup_words_b (T ++ _) j H16). destruct (decide (j < q)%nat) as [H1|H1].
  { rewrite lookup_app_l, lookup_take_lt, lookup_words_b by lia.
    rewrite drop_app_le, take_app_le by (rewrite ?length_drop; lia). done. }
  rewrite lookup_app_r, Hq' by lia. rewrite drop_app_ge by lia.
  destruct (decide (j < q + w)%nat) as [H2|H2].
  - rewrite lookup_app_l by lia. unfold load64_le_buf. change (@map nat Z) with (@fmap list _ nat Z).
    rewrite list_lookup_fmap, lookup_seq_lt by lia. cbn [fmap option_fmap option_map Nat.add]. f_equal.
    rewrite load64_le_bytes by (done || lia). replace (Z.to_nat (0 + 8 * Z.of_nat (j - q))) with (8 * j - length T)%nat by lia.
    rewrite skipn_firstn_comm, take_take, Nat.min_l by lia. done.
  - rewrite lookup_app_r, Hw, lookup_drop by lia. rewrite lookup_words_b by lia.
    rewrite !drop_ge by (rewrite ?length_take; lia). done.
Qed.

Lemma copy_block T D : is_bytes D -> (128 <= length D)%nat -> copy_at (words_b T) 0 (load64_le_buf D 0 16) = words_b (take 128 D).
Proof.
  intros Hb HD. pose proof (copy_words [] D 0 16 Hb eq_refl HD ltac:(lia)) as E.
  change (words_b (take 128 D)) with (words_b ([] ++ take (8 * 16) D)). rewrite <- E. unfold copy_at. cbn [Z.to_nat Z.of_nat take app]. reflexivity.
Qed.

Lemma words_b_nil : words_b [] = replicate 16 0.
Proof. reflexivity. Qed.

(** ** The incremental interface computes the RFC function *)

Lemma full_blocks_b_bounds n : (0 < n)%nat -> (128 * full_blocks_b n < n <= 128 * full_blocks_b n + 128)%nat.
Proof.
  intros Hn. unfold full_blocks_b. pose proof (Nat.div_mod_eq (n - 1) 128). pose proof (Nat.mod_upper_bound (n - 1) 128). lia.
Qed.

Lemma full_blocks_b_unique n k : (128 * k < n <= 128 * k + 128)%nat -> full_blocks_b n = k.
Proof. intros. unfold full_blocks_b. symmetry. apply (Nat.div_unique _ _ _ (n - 1 - 128 * k)); lia. Qed.

Section correct.
Variable h0 : list Z.
Hypothesis Hh0 : length h0 = 8%nat.

Lemma length_F_b h m t last : length (F_b h m t last) = 8%nat.
Proof. with_strategy transparent [F_b] unfold F_b. cbv zeta. by rewrite length_map, length_seq. Qed.

Lemma length_chain_b M n : length (chain_b h0 M n) = 8%nat.
Proof. destruct n; [exact Hh0|apply length_F_b]. Qed.

Lemma chain_b_app M d n : (128 * n <= length M)%nat -> chain_b h0 (M ++ d) n = chain_b h0 M n.
Proof.
  induction n as [|n IH]; [reflexivity|]. intros Hn. cbn [chain_b]. rewrite IH by lia.
  rewrite drop_app_le, take_app_le by (rewrite ?length_drop; lia). reflexivity.
Qed.

(** The context when [k] blocks of [M] are compressed and the rest is in the buffer. *)
Record held (ctx : crypto_blake2b_ctx) (M : list Z) (k : nat) : Prop := {
  h_hash : hash ctx = chain_b h0 M k;
  h_offset : input_offset ctx = count_b (128 * Z.of_nat k);
  h_input : input ctx = words_b (drop (128 * k) M);
  h_idx : input_idx ctx = Z.of_nat (length M - 128 * k);
  h_range : (128 * k <= length M <= 128 * k + 128)%nat;
  h_bytes : is_bytes M
}.

Definition absorbed_b (ctx : crypto_blake2b_ctx) (M : list Z) : Prop := held ctx M (full_blocks_b (length M)).

(** After more input the number of blocks is determined. *)
Lemma held_absorbed ctx M k : held ctx M k -> (128 * k < length M)%nat -> absorbed_b ctx M.
Proof. intros H Hl. unfold absorbed_b. rewrite (full_blocks_b_unique _ k); [done|]. destruct H. lia. Qed.

Lemma absorbed_idx ctx M : absorbed_b ctx M -> input_idx ctx = 0 -> M = [].
Proof.
  intros H Hi. destruct M as [|x M]; [done|]. exfalso. rewrite (h_idx _ _ _ H) in Hi.
  pose proof (full_blocks_b_bounds (length (x :: M)) ltac:(cbn; lia)). lia.
Qed.

(** Bytes that fit into the block. *)
Lemma remaining_held D ctx M k :
  held ctx M k -> is_bytes D -> (length M + length D <= 128 * k + 128)%nat -> held (remaining_bytes ctx D) (M ++ D) k.
Proof.
  revert ctx M. induction D as [|x D IH]; intros ctx M H HD Hl; [by rewrite app_nil_r|].
  inversion HD as [|? ? Hx HD']; subst. cbn [remaining_bytes length] in *. replace (M ++ x :: D) with ((M ++ [x]) ++ D) by (by rewrite <- app_assoc).
  apply IH; [|done|rewrite length_app; cbn; lia]. destruct H as [E1 E2 E3 E4 E5 E6].
  split; cbn [set_input hash input_offset input input_idx].
  - by rewrite chain_b_app by lia.
  - done.
  - rewrite E3, or_word_byte; [|by apply is_bytes_drop|done|rewrite length_drop; lia|rewrite length_drop; lia].
    by rewrite drop_app_le by lia.
  - rewrite length_app, E4. cbn. lia.
  - rewrite length_app. cbn. lia.
  - apply is_bytes_app; [done|]. by constructor.
Qed.

Lemma size_remaining ctx D : hash_size (remaining_bytes ctx D) = hash_size ctx.
Proof. revert ctx. induction D as [|x D IH]; intros ctx; [done|]. cbn [remaining_bytes]. by rewrite IH. Qed.

(** Words that fit into the block. *)
Lemma words_held ctx M k q w D :
  held ctx M k -> is_bytes D -> length M = (128 * k + 8 * q)%nat -> (8 * w <= length D)%nat -> (q + w <= 16)%nat ->
  held (set_input ctx (copy_at (input ctx) (Z.of_nat q) (load64_le_buf D 0 w)) (Z.of_nat (8 * q + 8 * w)))
    (M ++ take (8 * w) D) k.
Proof.
  intros [E1 E2 E3 E4 E5 E6] HD HM Hw Hq. assert (length (take (8 * w) D) = (8 * w)%nat) as Ht by (rewrite length_take; lia).
  split; cbn [set_input hash input_offset input input_idx].
  - by rewrite chain_b_app by lia.
  - done.
  - rewrite E3, copy_words by (rewrite ?length_drop; done || lia). by rewrite drop_app_le by lia.
  - rewrite length_app, Ht. lia.
  - rewrite length_app, Ht. lia.
  - apply is_bytes_app; [done|by apply is_bytes_take].
Qed.

(** A full block is compressed when more input follows. *)
Lemma compress_held ctx M k D :
  held ctx M k -> length M = (128 * k + 128)%nat ->
  hash (blake2b_compress ctx 0) = chain_b h0 (M ++ D) (S k) /\
  input_offset (blake2b_compress ctx 0) = count_b (128 * Z.of_nat (S k)) /\
  input (blake2b_compress ctx 0) = words_b (drop (128 * k) M) /\ hash_size (blake2b_compress ctx 0) = hash_size ctx.
Proof.
  intros [E1 E2 E3 E4 E5 E6] HM. rewrite (compress_F_b ctx (128 * Z.of_nat k) false).
  - cbn [hash input_offset input hash_size]. rewrite E4. replace (128 * Z.of_nat k + Z.of_nat (length M - 128 * k)) with (128 * Z.of_nat (S k)) by lia.
    split_and!; try done. cbn [chain_b]. rewrite chain_b_app by lia. rewrite E1, E3.
    rewrite drop_app_le, take_app_le, take_ge by (rewrite ?length_drop; lia). done.
  - rewrite E1. apply length_chain_b.
  - done.
  - lia.
  - rewrite E4. lia.
Qed.

(** The loop up to the end of a word puts its bytes one after the other. *)
Lemma fold_left_fmap {A B C} (f : A -> B -> A) (g : C -> B) l a :
  fold_left f (map g l) a = fold_left (fun a c => f a (g c)) l a.
Proof. revert a. induction l as [|x l IH]; intros a; [done|]. apply IH. Qed.

Lemma word_position q r : 0 <= q -> 0 <= r < 8 -> shr64 (8 * q + r) 3 = q /\ Z.land (8 * q + r) 7 = r.
Proof.
  intros Hq Hr. rewrite shr64_div by lia. change 7 with (Z.ones 3). rewrite Z.land_ones by lia. change (2 ^ 3) with 8. split; zlia.
Qed.

Lemma align_fold n : forall D ctx i q r,
  0 <= q -> 0 <= r -> r + Z.of_nat n <= 8 -> (n <= length D)%nat ->
  fold_left (fun i k => or_word i q (rd D (Z.of_nat k)) (shl64 (r + Z.of_nat k) 3)) (seq 0 n) i
  = input (remaining_bytes (set_input ctx i (8 * q + r)) (take n D)).
Proof.
  induction n as [|n IH]; intros D ctx i q r Hq Hr Hn Hl; [done|].
  destruct D as [|x D]; [cbn in Hl; lia|]. cbn [seq fold_left take remaining_bytes set_input input input_idx].
  destruct (word_position q r) as [-> ->]; [lia..|]. rewrite <- seq_shift, fold_left_fmap.
  replace (8 * q + r + 1) with (8 * q + (r + 1)) by lia.
  change (rd (x :: D) (Z.of_nat 0)) with x. change (Z.of_nat 0) with 0. rewrite Z.add_0_r.
  transitivity (input (remaining_bytes (set_input ctx (or_word i q x (shl64 r 3)) (8 * q + (r + 1))) (take n D))); [|done].
  rewrite <- (IH D ctx _ q (r + 1)) by (cbn in Hl; lia). apply (fold_left_ext (fun _ => True)); [|by apply Forall_true]. intros a k _. f_equal.
  - unfold rd. by rewrite !Nat2Z.id.
  - f_equal. lia.
Qed.

Lemma remaining_fields ctx D :
  hash (remaining_bytes ctx D) = hash ctx /\ input_offset (remaining_bytes ctx D) = input_offset ctx /\
  input_idx (remaining_bytes ctx D) = input_idx ctx + Z.of_nat (length D) /\ hash_size (remaining_bytes ctx D) = hash_size ctx.
Proof.
  revert ctx. induction D as [|x D IH]; intros ctx; [cbn; split_and!; try done; lia|]. cbn [remaining_bytes length].
  destruct (IH (set_input ctx (or_word (input ctx) (shr64 (input_idx ctx) 3) x (shl64 (Z.land (input_idx ctx) 7) 3)) (input_idx ctx + 1)))
    as (-> & -> & -> & ->). cbn [set_input hash input_offset input_idx hash_size]. split_and!; try done; lia.
Qed.

Lemma align_word_absorbed ctx M D :
  absorbed_b ctx M -> is_bytes D ->
  exists n, (align_word ctx D).2 = drop n D /\ (n <= length D)%nat /\ absorbed_b (align_word ctx D).1 (M ++ take n D) /\
    (drop n D = [] \/ input_idx (align_word ctx D).1 mod 8 = 0) /\ hash_size (align_word ctx D).1 = hash_size ctx.
Proof.
  intros H HD. pose proof H as [E1 E2 E3 E4 E5 E6]. unfold align_word.
  assert (Z.land (input_idx ctx) 7 = input_idx ctx mod 8) as Hm by (change 7 with (Z.ones 3); rewrite Z.land_ones by lia; done).
  destruct (Z.eqb_spec (Z.land (input_idx ctx) 7) 0) as [E0|E0]; cbn [negb].
  { exists 0%nat. cbn [fst snd take]. rewrite app_nil_r, drop_0. split_and!; try done; [lia|]. right. lia. }
  assert (gap (input_idx ctx) 8 = 8 - input_idx ctx mod 8) as Hg.
  { unfold gap. change (8 - 1) with (Z.ones 3). rewrite Z.land_ones by lia. unfold add64, not64, u64. change (2 ^ 3) with 8. zlia. }
  set (nb := Z.to_nat _). assert (nb = Nat.min (Z.to_nat (8 - input_idx ctx mod 8)) (length D)) as Enb by (unfold nb; rewrite Hg; lia).
  exists nb. cbn [fst snd]. set (q := input_idx ctx / 8). set (r := input_idx ctx mod 8) in *.
  assert (input_idx ctx = 8 * q + r /\ 0 <= r < 8 /\ 0 <= q) as (Eidx & Hr & Hq) by (unfold q, r; zlia).
  assert (length (take nb D) = nb) as Lt by (rewrite length_take; lia).
  rewrite Hm, Eidx. destruct (word_position q r Hq Hr) as [-> _].
  rewrite (align_fold nb D ctx (input ctx) q r) by lia.
  assert (set_input ctx (input ctx) (8 * q + r) = ctx) as -> by (rewrite <- Eidx; by destruct ctx).
  destruct (remaining_fields ctx (take nb D)) as (F1 & F2 & F3 & F4). rewrite Lt in F3.
  assert (set_input ctx (input (remaining_bytes ctx (take nb D))) (8 * q + r + Z.of_nat nb) = remaining_bytes ctx (take nb D)) as ->.
  { rewrite <- Eidx, <- F3. destruct (remaining_bytes ctx (take nb D)). cbn in *. unfold set_input. by rewrite <- F1, <- F2, <- F4. }
  assert (128 * full_blocks_b (length M) < length M)%nat as Hpos by (rewrite E4 in Eidx; lia).
  assert (length M + nb <= 128 * full_blocks_b (length M) + 128)%nat as Hfit by (rewrite E4 in Eidx; zlia).
  pose proof (remaining_held (take nb D) ctx M _ H ltac:(by apply is_bytes_take) ltac:(lia)) as H'.
  split_and!; try done; [lia| |].
  - apply (held_absorbed _ _ _ H'). rewrite length_app. lia.
  - rewrite F3. destruct (Nat.min_spec (Z.to_nat (8 - r)) (length D)) as [[_ Em]|[Hle Em]]; [right|left].
    + rewrite Enb, Em, Eidx. zlia.
    + apply drop_ge. lia.
Qed.

Lemma align_block_absorbed ctx M D :
  absorbed_b ctx M -> is_bytes D -> D = [] \/ input_idx ctx mod 8 = 0 ->
  exists n, (align_block ctx D).2 = drop n D /\ (n <= length D)%nat /\ absorbed_b (align_block ctx D).1 (M ++ take n D) /\
    (input_idx (align_block ctx D).1 mod 128 = 0 \/ (length (drop n D) < 8)%nat) /\
    (drop n D = [] \/ input_idx (align_block ctx D).1 mod 8 = 0) /\ hash_size (align_block ctx D).1 = hash_size ctx.
Proof.
  intros H HD H8. pose proof H as [E1 E2 E3 E4 E5 E6]. unfold align_block.
  assert (Z.land (input_idx ctx) 127 = input_idx ctx mod 128) as Hm by (change 127 with (Z.ones 7); rewrite Z.land_ones by lia; done).
  destruct (Z.eqb_spec (Z.land (input_idx ctx) 127) 0) as [E0|E0]; cbn [negb].
  { exists 0%nat. cbn [fst snd take]. rewrite app_nil_r, drop_0. split_and!; try done; [lia|]. left. lia. }
  destruct H8 as [->|H8].
  { change (Z.of_nat (length [])) with 0.
    assert (Z.to_nat (shr64 (Z.min (gap (input_idx ctx) 128) 0) 3) = 0%nat) as ->.
    { assert (Z.min (gap (input_idx ctx) 128) 0 = 0) as -> by (unfold gap; pose proof (Z.land_nonneg (add64 (not64 (input_idx ctx)) 1) (128 - 1)); lia).
      done. }
    exists 0%nat. cbn [fst snd take]. rewrite app_nil_r. split_and!; try done; [|right; cbn; lia|by left].
    split; cbn [set_input hash input_offset input input_idx]; try done; [|change (shl64 (Z.of_nat 0) 3) with 0; lia].
    unfold copy_at. cbn [length load64_le_buf seq map app]. rewrite Nat.add_0_r, take_drop. done. }
  set (q := Z.to_nat (input_idx ctx / 8)). assert (input_idx ctx = 8 * Z.of_nat q) as Eq by (unfold q; zlia).
  assert (gap (input_idx ctx) 128 = 128 - input_idx ctx) as Hg.
  { unfold gap. change (128 - 1) with (Z.ones 7). rewrite Z.land_ones by lia. unfold add64, not64, u64. change (2 ^ 7) with 128. zlia. }
  assert (q <= 16)%nat as Hq by (clear - Eq E4 E5; lia). rewrite Hg. set (w := Z.to_nat _).
  pose proof (Nat.div_mod_eq (length D) 8) as Hd. pose proof (Nat.mod_upper_bound (length D) 8 ltac:(lia)) as Hd'.
  set (a := (length D / 8)%nat) in *. set (b := (length D mod 8)%nat) in *. clearbody a b.
  assert (w = Nat.min (16 - q) a) as Ew.
  { unfold w. rewrite Eq. destruct (Z.min_spec (128 - 8 * Z.of_nat q) (Z.of_nat (length D))) as [[? ->]|[? ->]];
      rewrite shr64_div by lia; change (2 ^ 3) with 8; clearbody q; clear - Hd Hd' Hq H0; zlia. }
  assert (shr64 (input_idx ctx) 3 = Z.of_nat q) as -> by (rewrite shr64_div by lia; change (2 ^ 3) with 8; zlia).
  assert (input_idx ctx + shl64 (Z.of_nat w) 3 = Z.of_nat (8 * q + 8 * w)) as ->.
  { unfold shl64. rewrite Z.shiftl_mul_pow2, u64_small by (unfold is_u64; lia). lia. }
  pose proof (words_held ctx M _ q w D H HD) as H'. specialize (H' ltac:(clear - Eq E4 E5; lia) ltac:(clearbody w; clear - Ew Hd; lia) ltac:(clearbody w; clear - Ew Hq; lia)).
  exists (8 * w)%nat. cbn [fst snd]. split_and!; try done; [lia| | |right; cbn [set_input input_idx]; zlia].
  - apply (held_absorbed _ _ _ H'). rewrite length_app. assert (input_idx ctx <> 0) by (intros E; by rewrite Hm, E in E0). lia.
  - cbn [set_input input_idx]. destruct (Nat.min_spec (16 - q) a) as [[? Em]|[? Em]]; [left|right].
    + rewrite Ew, Em. replace (Z.of_nat (8 * q + 8 * (16 - q))) with 128 by lia. done.
    + rewrite length_drop. lia.
Qed.

Lemma blocks_absorbed n : forall ctx M D,
  absorbed_b ctx M -> is_bytes D -> input_idx ctx mod 128 = 0 -> (128 * n <= length D)%nat ->
  (blake2b_blocks n ctx D).2 = drop (128 * n) D /\ absorbed_b (blake2b_blocks n ctx D).1 (M ++ take (128 * n) D) /\
  input_idx (blake2b_blocks n ctx D).1 mod 128 = 0 /\ hash_size (blake2b_blocks n ctx D).1 = hash_size ctx.
Proof.
  induction n as [|n IH]; intros ctx M D H HD Hi Hl.
  { cbn [blake2b_blocks fst snd]. rewrite app_nil_r, drop_0. done. }
  cbn [blake2b_blocks]. set (ctx1 := if input_idx ctx =? 128 then blake2b_compress ctx 0 else ctx).
  set (ctx2 := set_input ctx1 _ _).
  pose proof H as [E1 E2 E3 E4 E5 E6]. assert (length (take 128 D) = 128%nat) as Lt by (rewrite length_take; lia).
  assert (absorbed_b ctx2 (M ++ take 128 D) /\ hash_size ctx2 = hash_size ctx) as [H2 Hs].
  { assert (is_bytes (M ++ take 128 D)) by (apply is_bytes_app; [done|by apply is_bytes_take]).
    unfold ctx2, ctx1. clear ctx2 ctx1. destruct (Z.eqb_spec (input_idx ctx) 128) as [Ei|Ei].
    - set (k := full_blocks_b (length M)) in *. assert (length M = 128 * k + 128)%nat as HM by lia.
      destruct (compress_held ctx M k (take 128 D) H HM) as (C1 & C2 & C3 & C4). split; [|exact C4].
      apply (held_absorbed _ _ (S k)); [|rewrite length_app; lia].
      split; cbn [set_input hash input_offset input input_idx]; try done; [|rewrite length_app; lia..].
      + rewrite C3, copy_block by (done || lia). rewrite drop_app_ge by lia.
        replace (128 * S k - length M)%nat with 0%nat by lia. done.
    - assert (input_idx ctx = 0) as Ei0 by zlia. pose proof (absorbed_idx ctx M H Ei0) as ->. split; [|done].
      apply (held_absorbed _ _ 0); [|rewrite length_app; cbn [length]; lia].
      split; cbn [set_input hash input_offset input input_idx]; try done; [|rewrite length_app; cbn [length]; lia..].
      rewrite E3, copy_block by (done || lia). done. }
  destruct (IH ctx2 (M ++ take 128 D) (drop 128 D) H2) as (I1 & I2 & I3 & I4); [by apply is_bytes_drop|done|rewrite length_drop; lia|].
  rewrite I1, drop_drop, I4, Hs. replace (128 + 128 * n)%nat with (128 * S n)%nat by lia. split_and!; try done.
  rewrite <- app_assoc in I2. rewrite take_take_drop in I2. replace (128 + 128 * n)%nat with (128 * S n)%nat in I2 by lia. done.
Qed.

(** Words and bytes put into an empty block. *)
Lemma tail_held ctx M k D :
  held ctx M k -> is_bytes D -> length M = (128 * k)%nat -> (length D < 128)%nat ->
  let w := Z.to_nat (shr64 (Z.of_nat (length D)) 3) in
  held (remaining_bytes (set_input ctx (copy_at (input ctx) 0 (load64_le_buf D 0 w)) (input_idx ctx + shl64 (Z.of_nat w) 3))
    (drop (8 * w) D)) (M ++ D) k.
Proof.
  intros H HD HM Hl. cbv zeta. set (w := Z.to_nat _).
  assert (w = (length D / 8)%nat) as Ew by (unfold w; rewrite shr64_div by lia; change (2 ^ 3) with (Z.of_nat 8); rewrite <- Nat2Z.inj_div; lia).
  pose proof (Nat.div_mod_eq (length D) 8) as Hd. rewrite <- Ew in Hd. clearbody w. clear Ew. set (r := (length D mod 8)%nat) in *. clearbody r.
  assert (input_idx ctx + shl64 (Z.of_nat w) 3 = Z.of_nat (8 * 0 + 8 * w)) as ->.
  { rewrite (h_idx _ _ _ H). unfold shl64. rewrite Z.shiftl_mul_pow2, u64_small by (unfold is_u64; lia). lia. }
  pose proof (words_held ctx M k 0 w D H HD ltac:(lia) ltac:(lia) ltac:(lia)) as H'.
  replace (M ++ D) with ((M ++ take (8 * w) D) ++ drop (8 * w) D) by (by rewrite <- app_assoc, take_drop).
  apply remaining_held; [exact H'|by apply is_bytes_drop|]. rewrite length_app, length_take, length_drop. lia.
Qed.

Lemma size_rest ctx D : hash_size (blake2b_rest ctx D) = hash_size ctx.
Proof.
  unfold blake2b_rest. destruct (negb _); [|done]. rewrite size_remaining. cbn [set_input hash_size].
  destruct (input_idx ctx =? 128); [|by destruct (_ =? 0)].
  cbn [set_input input_idx hash_size Z.eqb]. with_strategy transparent [blake2b_compress] reflexivity.
Qed.

Lemma rest_absorbed ctx M D :
  absorbed_b ctx M -> is_bytes D -> (input_idx ctx mod 128 = 0 /\ (length D < 128)%nat) \/ (length D < 8)%nat ->
  (input_idx ctx mod 128 = 0 \/ input_idx ctx mod 8 = 0 \/ D = []) ->
  absorbed_b (blake2b_rest ctx D) (M ++ D).
Proof.
  intros H HD Hl H8. unfold blake2b_rest. destruct (Nat.eqb_spec (length D) 0) as [E|E]; cbn [negb].
  { destruct D; [|done]. by rewrite app_nil_r. }
  pose proof H as [E1 E2 E3 E4 E5 E6]. set (k := full_blocks_b (length M)) in *.
  destruct (Z.eqb_spec (input_idx ctx) 128) as [Ei|Ei].
  - (* a full block is compressed first *)
    assert (length M = 128 * k + 128)%nat as HM by lia.
    destruct (compress_held ctx M k [] H HM) as (C1 & C2 & C3 & C4). rewrite app_nil_r in C1.
    cbn [set_input input_idx Z.eqb input].
    apply (held_absorbed _ _ (S k)); [|rewrite length_app; lia].
    refine (tail_held (set_input (blake2b_compress ctx 0) (replicate 16 0) 0) M (S k) D _ HD _ _); [|lia|lia].
    split; cbn [set_input hash input_offset input input_idx]; try done; [|lia..].
    rewrite drop_ge by lia. done.
  - destruct (Z.eqb_spec (input_idx ctx) 0) as [E0|E0].
    + pose proof (absorbed_idx ctx M H E0) as ->. apply (held_absorbed _ _ 0); [|rewrite app_nil_l; lia].
      refine (tail_held (set_input ctx (replicate 16 0) (input_idx ctx)) [] 0 D _ HD _ _); [|done|lia].
      split; cbn [set_input hash input_offset input input_idx]; done.
    + (* fewer than eight bytes behind a partly filled block *)
      assert (input_idx ctx mod 128 <> 0) as Hn by zlia. destruct Hl as [[? _]|Hl]; [done|].
      assert (Z.to_nat (shr64 (Z.of_nat (length D)) 3) = 0%nat) as -> by (rewrite shr64_div by lia; change (2 ^ 3) with 8; zlia).
      assert (set_input ctx (copy_at (input ctx) 0 (load64_le_buf D 0 0)) (input_idx ctx + shl64 (Z.of_nat 0) 3) = ctx) as ->.
      { change (shl64 (Z.of_nat 0) 3) with 0. rewrite Z.add_0_r. by destruct ctx. }
      rewrite drop_0. apply (held_absorbed _ _ k); [|rewrite length_app; lia].
      apply remaining_held; [done..|]. destruct H8 as [?|[H8| ->]]; [done| |done]. clear - H8 E4 E5 Hl Ei. zlia.
Qed.

Lemma update_absorbed_b ctx M D :
  absorbed_b ctx M -> is_bytes D ->
  absorbed_b (crypto_blake2b_update ctx D) (M ++ D) /\ hash_size (crypto_blake2b_update ctx D) = hash_size ctx.
Proof.
  intros H HD. unfold crypto_blake2b_update. destruct (Nat.eqb_spec (length D) 0) as [E|E].
  { destruct D; [|done]. by rewrite app_nil_r. }
  destruct (align_word_absorbed ctx M D H HD) as (n & A1 & A2 & A3 & A4 & A5). destruct (align_word ctx D) as [c1 d1]. cbn [fst snd] in *. subst d1.
  assert (is_bytes (drop n D)) as HD1 by (by apply is_bytes_drop).
  destruct (align_block_absorbed c1 _ (drop n D) A3 HD1 A4) as (m & B1 & B2 & B3 & B4 & B6 & B5).
  destruct (align_block c1 (drop n D)) as [c2 d2]. cbn [fst snd] in *. subst d2. rewrite drop_drop in *.
  rewrite <- app_assoc, take_take_drop in B3. set (D2 := drop (n + m) D) in *. set (M2 := M ++ take (n + m) D) in *.
  assert (M ++ D = M2 ++ D2) as -> by (unfold M2, D2; by rewrite <- app_assoc, take_drop).
  assert (is_bytes D2) as HD2 by (by apply is_bytes_drop).
  set (nb := Z.to_nat _). assert (nb = length D2 / 128)%nat as Enb.
  { unfold nb. rewrite shr64_div by lia. change (2 ^ 7) with (Z.of_nat 128). rewrite <- Nat2Z.inj_div. lia. }
  pose proof (Nat.div_mod_eq (length D2) 128) as Hd. pose proof (Nat.mod_upper_bound (length D2) 128 ltac:(lia)) as Hr.
  rewrite <- Enb in Hd. clearbody nb. set (r := (length D2 mod 128)%nat) in *. clearbody r.
  destruct B4 as [B4|B4].
  - destruct (blocks_absorbed nb c2 M2 D2 B3 HD2 B4 ltac:(lia)) as (C1 & C2 & C3 & C4).
    destruct (blake2b_blocks nb c2 D2) as [c3 d3]. cbn [fst snd] in *. subst d3. rewrite size_rest, C4, B5, A5. split; [|done].
    replace (M2 ++ D2) with ((M2 ++ take (128 * nb) D2) ++ drop (128 * nb) D2) by (by rewrite <- app_assoc, take_drop).
    apply rest_absorbed; [done|by apply is_bytes_drop| |by left]. left. split; [done|]. rewrite length_drop. lia.
  - assert (nb = 0%nat) as -> by lia. cbn [blake2b_blocks]. rewrite size_rest, B5, A5. split; [|done].
    apply rest_absorbed; [done..|by right|]. destruct B6 as [B6|B6]; auto.
Qed.

(** The bytes of the digest. *)
Lemma store64_take h n : store64_le_buf (take n h) = take (8 * n) (concat (map (le_bytes 8) h)).
Proof.
  unfold store64_le_buf. revert h. induction n as [|n IH]; intros h; [done|]. destruct h as [|x h]; [by rewrite take_nil|].
  cbn [take map concat]. rewrite IH, store64_le_bytes. replace (8 * S n)%nat with (length (le_bytes 8 x) + 8 * n)%nat by (rewrite length_le_bytes; lia).
  by rewrite firstn_app_2.
Qed.

Lemma rd_le_bytes n x i : (i < n)%nat -> rd (le_bytes n x) (Z.of_nat i) = Z.land (shr64 x (8 * Z.of_nat i)) 0xff.
Proof.
  revert x i. induction n as [|n IH]; intros x i Hi; [lia|]. unfold rd in *. rewrite Nat2Z.id in *. destruct i as [|i].
  - cbn [le_bytes nth]. unfold shr64. rewrite Z.shiftr_0_r. change 255 with (Z.ones 8). rewrite Z.land_ones by lia. done.
  - cbn [le_bytes nth]. specialize (IH (x / 256) i ltac:(lia)). rewrite Nat2Z.id in IH. rewrite IH.
    f_equal. unfold shr64. change 256 with (2 ^ 8). rewrite <- Z.shiftr_div_pow2, Z.shiftr_shiftr by lia. f_equal. lia.
Qed.

Lemma length_concat8 h : length (concat (map (le_bytes 8) h)) = (8 * length h)%nat.
Proof. induction h as [|x h IH]; [done|]. cbn [map concat length]. rewrite length_app, length_le_bytes, IH. lia. Qed.

Lemma rd_concat8 h q r :
  (q < length h)%nat -> (r < 8)%nat ->
  rd (concat (map (le_bytes 8) h)) (Z.of_nat (8 * q + r)) = rd (le_bytes 8 (rd h (Z.of_nat q))) (Z.of_nat r).
Proof.
  revert q. induction h as [|x h IH]; intros q Hq Hr; [cbn in Hq; lia|]. cbn [map concat].
  pose proof (length_le_bytes 8 x) as L8. destruct q as [|q].
  - rewrite rd_app_l by (rewrite L8; lia). done.
  - cbn [length] in Hq. assert (rd (x :: h) (Z.of_nat (S q)) = rd h (Z.of_nat q)) as -> by (unfold rd; by rewrite !Nat2Z.id).
    rewrite <- (IH q) by lia. unfold rd. rewrite !Nat2Z.id, app_nth2; rewrite L8; [f_equal; lia|lia].
Qed.

Lemma map_rd_seq (C : list Z) a k : (a + k <= length C)%nat -> map (fun i => rd C (Z.of_nat i)) (seq a k) = take k (drop a C).
Proof.
  intros Hl. apply list_eq. intros i. change (@map nat Z) with (@fmap list _ nat Z). rewrite list_lookup_fmap.
  destruct (decide (i < k)%nat) as [Hi|Hi].
  - rewrite lookup_seq_lt, lookup_take_lt, lookup_drop by done. destruct (lookup_lt_is_Some_2 C (a + i) ltac:(lia)) as [x Hx].
    rewrite Hx. cbn. f_equal. unfold rd. rewrite Nat2Z.id. by apply nth_lookup_Some.
  - rewrite lookup_seq_ge, lookup_take_ge by lia. done.
Qed.

Lemma output_bytes h n :
  length h = 8%nat -> 0 <= n <= 64 ->
  let nb := Z.to_nat (shr64 n 3) in
  store64_le_buf (take nb h) ++ map (fun i => Z.land (shr64 (rd h (shr64 (Z.of_nat i) 3)) (8 * Z.land (Z.of_nat i) 7)) 0xff)
    (seq (8 * nb) (Z.to_nat n - 8 * nb))
  = take (Z.to_nat n) (concat (map (le_bytes 8) h)).
Proof.
  intros Hh Hn. cbv zeta. set (nb := Z.to_nat _). set (C := concat (map (le_bytes 8) h)).
  assert (8 * nb <= Z.to_nat n)%nat as Hnb by (unfold nb; rewrite shr64_div by lia; change (2 ^ 3) with 8; zlia).
  pose proof (length_concat8 h) as HC. rewrite Hh in HC. fold C in HC.
  rewrite store64_take. fold C. rewrite (map_ext_in _ (fun i => rd C (Z.of_nat i))).
  - rewrite map_rd_seq by lia. rewrite take_take_drop. f_equal. lia.
  - intros i Hi%in_seq. pose proof (Nat.div_mod_eq i 8) as Hd. pose proof (Nat.mod_upper_bound i 8 ltac:(lia)).
    rewrite Hd at 3. unfold C. rewrite rd_concat8, rd_le_bytes by lia. do 2 f_equal.
    + f_equal. rewrite shr64_div by lia. change (2 ^ 3) with (Z.of_nat 8). by rewrite <- Nat2Z.inj_div.
    + f_equal. change 7 with (Z.ones 3). rewrite Z.land_ones by lia. change (2 ^ 3) with (Z.of_nat 8). by rewrite <- Nat2Z.inj_mod.
Qed.

Lemma final_digest_b ctx M :
  absorbed_b ctx M -> 0 <= hash_size ctx <= 64 -> crypto_blake2b_final ctx = digest_b h0 M (hash_size ctx).
Proof.
  intros [E1 E2 E3 E4 E5 E6] Hs. set (k := full_blocks_b (length M)) in *. unfold crypto_blake2b_final.
  rewrite (compress_F_b ctx (128 * Z.of_nat k) true); [|rewrite E1; apply length_chain_b|done|lia|rewrite E4; lia].
  cbn [hash hash_size]. rewrite Z.min_l by lia. rewrite output_bytes by (done || apply length_F_b).
  unfold digest_b. fold k. rewrite E1, E3, E4. replace (128 * Z.of_nat k + Z.of_nat (length M - 128 * k)) with (Z.of_nat (length M)) by lia. done.
Qed.
End correct.

Lemma load_block b : is_bytes b -> length b = 128%nat -> load64_le_buf b 0 16 = words_b b.
Proof.
  intros Hb Hl. unfold load64_le_buf, words_b. apply map_ext_in. intros i Hi%in_seq.
  rewrite load64_le_bytes by (done || lia). do 3 f_equal. lia.
Qed.

Lemma init_absorbed_b n key :
  is_bytes key -> (length key <= 128)%nat ->
  absorbed_b (param_b n (Z.of_nat (length key))) (crypto_blake2b_keyed_init n key)
    (if (length key =? 0)%nat then [] else key ++ replicate (128 - length key) 0) /\
  hash_size (crypto_blake2b_keyed_init n key) = n.
Proof.
  intros Hk Hl. unfold crypto_blake2b_keyed_init.
  assert (shl64 (Z.of_nat (length key)) 8 = Z.shiftl (Z.of_nat (length key)) 8) as ->.
  { unfold shl64. apply u64_small. unfold is_u64. rewrite Z.shiftl_mul_pow2; lia. }
  fold (param_b n (Z.of_nat (length key))). set (h := param_b _ _). destruct (Nat.eqb_spec (length key) 0) as [E|E].
  { rewrite E. cbn [Z.ltb Z.of_nat Z.compare]. split; [|done]. split; cbn; try done; [lia|constructor]. }
  rewrite (proj2 (Z.ltb_lt 0 (Z.of_nat (length key)))) by lia. split; [|done].
  assert (copy_at (replicate 128 0) 0 key = key ++ replicate (128 - length key) 0) as ->.
  { unfold copy_at. change (Z.to_nat 0) with 0%nat. cbn [take app Nat.add]. by rewrite drop_replicate. }
  set (b := key ++ _). assert (length b = 128%nat) as Lb by (unfold b; rewrite length_app, length_replicate; lia).
  assert (is_bytes b) as Hb by (apply is_bytes_app; [done|apply is_bytes_replicate, is_u8_0]).
  unfold absorbed_b. rewrite Lb. change (full_blocks_b 128) with 0%nat.
  split; cbn [set_input hash input_offset input input_idx chain_b]; rewrite ?Lb; try done; [by apply load_block|lia].
Qed.

Lemma blake2b_pieces n key ds :
  0 <= n <= 64 -> is_bytes key -> (length key <= 128)%nat -> Forall is_bytes ds ->
  crypto_blake2b_final (fold_left crypto_blake2b_update ds (crypto_blake2b_keyed_init n key)) = blake2b_rfc n (concat ds) key.
Proof.
  intros Hn Hk Hl Hd. set (h0 := param_b n (Z.of_nat (length key))). assert (length h0 = 8%nat) as Hh by reflexivity.
  assert (forall ctx M, absorbed_b h0 ctx M -> hash_size ctx = n ->
    absorbed_b h0 (fold_left crypto_blake2b_update ds ctx) (M ++ concat ds) /\
    hash_size (fold_left crypto_blake2b_update ds ctx) = n) as Hf.
  { induction Hd as [|d ds Hd _ IH]; intros ctx M HM Hs; cbn [fold_left concat]; [by rewrite app_nil_r|].
    destruct (update_absorbed_b h0 Hh ctx M d HM Hd) as [HM' Hs']. rewrite app_assoc. apply IH; [done|congruence]. }
  destruct (init_absorbed_b n key Hk Hl) as [H0 Hs0]. destruct (Hf _ _ H0 Hs0) as [H1 Hs1].
  rewrite (final_digest_b h0 Hh _ _ H1) by lia. rewrite Hs1. done.
Qed.

(** C32. [crypto_blake2b] with its word-wise buffer computes the RFC 7693 function: for
    any key of at most 128 bytes and any pieces of the message the digest of up to 64
    bytes is that of the key block and the concatenated message. *)
Theorem blake2b_correct n key ds :
  0 <= n <= 64 -> is_bytes key -> (length key <= 128)%nat -> Forall is_bytes ds ->
  crypto_blake2b_final (fold_left crypto_blake2b_update ds (crypto_blake2b_keyed_init n key)) = blake2b_rfc n (concat ds) key.
Proof. apply blake2b_pieces. Qed.

Lemma blake2b_correct_witness :
  crypto_blake2b_final (fold_left crypto_blake2b_update [replicate 3 1; []; replicate 130 255; [7]] (crypto_blake2b_keyed_init 32 [9; 8]))
  = blake2b_rfc 32 (concat [replicate 3 1; []; replicate 130 255; [7]]) [9; 8].
Proof.
  apply (blake2b_correct 32 [9; 8] [replicate 3 1; []; replicate 130 255; [7]]); [lia| |cbn; lia|];
    apply (bool_decide_unpack _); vm_compute; exact I.
Defined.
