(* ===== verification/Argon2.v ===== *)
(** * Argon2 (library/crypto/monocypher.c)

    The password hash of Monocypher against RFC 9106: the hash of variable length, the
    compression function on blocks of 128 words, the choice of the reference blocks and the
    filling of the memory. *)

From S2P Require Import Prelude Neon Blake2s Monocypher Blake2b.

(** ** The code *)

(** A block is the list of its 128 words. *)
Definition blake_update_32 (ctx : crypto_blake2b_ctx) (input : Z) : crypto_blake2b_ctx :=
  crypto_blake2b_update ctx (store32_le input).

Definition blake_update_32_buf (ctx : crypto_blake2b_ctx) (buf : list Z) : crypto_blake2b_ctx :=
  let ctx := blake_update_32 ctx (Z.of_nat (length buf)) in
  crypto_blake2b_update ctx buf.

Definition xor_block (o b : list Z) : list Z :=
  map (fun i => Z.lxor (rd o (Z.of_nat i)) (rd b (Z.of_nat i))) (seq 0 128).

(** The loop of [extended_hash] with its variables [i], [in] and [out]; the digest overlaps its
    input, which is read before it is written. *)
Fixpoint extend_loop (fuel : nat) (digest : list Z) (r i inp out : Z) : list Z * Z * Z :=
  match fuel with
  | O => (digest, inp, out)
  | S fuel =>
      if i <? r then
        let digest := copy_at digest out (crypto_blake2b 64 (take 64 (drop (Z.to_nat inp) digest))) in
        extend_loop fuel digest r (add32 i 1) (add32 inp 32) (add32 out 32)
      else (digest, inp, out)
  end.

Definition extended_hash (digest : list Z) (digest_size : Z) (input : list Z) : list Z :=
  let ctx := crypto_blake2b_init (Z.min digest_size 64) in
  let ctx := blake_update_32 ctx digest_size in
  let ctx := crypto_blake2b_update ctx input in
  let digest := copy_at digest 0 (crypto_blake2b_final ctx) in
  if 64 <? digest_size then
    let r := sub32 (u32 (shr64 (add64 digest_size 31) 5)) 2 in
    let '(digest, inp, out) := extend_loop (Z.to_nat r) digest r 1 0 32 in
    copy_at digest out (crypto_blake2b (sub32 digest_size (mul32 32 r)) (take 64 (drop (Z.to_nat inp) digest)))
  else digest.

Definition LSB (x : Z) : Z := u32 x.

(** [a += b + ((LSB(a) * LSB(b)) << 1);  d ^= a;  d = rotr64(d, r);] on the words of a block. *)
Definition G_step (a b d r : Z) (v : list Z) : list Z :=
  let v := wr v a (add64 (rd v a) (add64 (rd v b) (shl64 (mul64 (LSB (rd v a)) (LSB (rd v b))) 1))) in
  let v := wr v d (Z.lxor (rd v d) (rd v a)) in
  wr v d (rotr64 (rd v d) r).

Definition G (a b c d : Z) (v : list Z) : list Z :=
  let v := G_step a b d 32 v in
  let v := G_step c d b 24 v in
  let v := G_step a b d 16 v in
  G_step c d b 63 v.

Definition ROUND (v0 v1 v2 v3 v4 v5 v6 v7 v8 v9 v10 v11 v12 v13 v14 v15 : Z) (v : list Z) : list Z :=
  let v := G v0 v4 v8 v12 v in let v := G v1 v5 v9 v13 v in
  let v := G v2 v6 v10 v14 v in let v := G v3 v7 v11 v15 v in
  let v := G v0 v5 v10 v15 v in let v := G v1 v6 v11 v12 v in
  let v := G v2 v7 v8 v13 v in G v3 v4 v9 v14 v.

Definition g_rounds (b : list Z) : list Z :=
  let b := fold_left (fun b n => let i := 16 * Z.of_nat n in
    ROUND i (i + 1) (i + 2) (i + 3) (i + 4) (i + 5) (i + 6) (i + 7)
          (i + 8) (i + 9) (i + 10) (i + 11) (i + 12) (i + 13) (i + 14) (i + 15) b) (seq 0 8) b in
  fold_left (fun b n => let i := 2 * Z.of_nat n in
    ROUND i (i + 1) (i + 16) (i + 17) (i + 32) (i + 33) (i + 48) (i + 49)
          (i + 64) (i + 65) (i + 80) (i + 81) (i + 96) (i + 97) (i + 112) (i + 113) b) (seq 0 8) b.

Definition CRYPTO_ARGON2_D : Z := 0.
Definition CRYPTO_ARGON2_I : Z := 1.
Definition CRYPTO_ARGON2_ID : Z := 2.

Record crypto_argon2_config := mkConfig { algorithm : Z; nb_blocks : Z; nb_passes : Z; nb_lanes : Z }.
Record crypto_argon2_inputs := mkInputs { pass_ : list Z; salt : list Z }.
Record crypto_argon2_extras := mkExtras { key : list Z; ad : list Z }.
Definition crypto_argon2_no_extras : crypto_argon2_extras := mkExtras [] [].

(** The work area seen as blocks. *)
Definition blk_at (blocks : list (list Z)) (i : Z) : list Z := nth (Z.to_nat i) blocks [].
Definition set_blk (blocks : list (list Z)) (i : Z) (b : list Z) : list (list Z) := <[Z.to_nat i := b]> blocks.

Section config.
Context (config : crypto_argon2_config).

Definition segment_size : Z := nb_blocks config / nb_lanes config / 4.
Definition lane_size : Z := mul32 segment_size 4.
Definition rounded_blocks : Z := mul32 lane_size (nb_lanes config).

Definition initial_hash (hash_size : Z) (inputs : crypto_argon2_inputs) (extras : crypto_argon2_extras) : list Z :=
  let ctx := crypto_blake2b_init 64 in
  let ctx := blake_update_32 ctx (nb_lanes config) in
  let ctx := blake_update_32 ctx hash_size in
  let ctx := blake_update_32 ctx (nb_blocks config) in
  let ctx := blake_update_32 ctx (nb_passes config) in
  let ctx := blake_update_32 ctx 0x13 in
  let ctx := blake_update_32 ctx (algorithm config) in
  let ctx := blake_update_32_buf ctx (pass_ inputs) in
  let ctx := blake_update_32_buf ctx (salt inputs) in
  let ctx := blake_update_32_buf ctx (key extras) in
  let ctx := blake_update_32_buf ctx (ad extras) in
  crypto_blake2b_final ctx.

(** The first two blocks of each lane; [h0] is the hash, to which the two words are added. *)
Definition first_blocks (h0 : list Z) (blocks : list (list Z)) : list (list Z) :=
  fold_left (fun blocks l =>
    fold_left (fun blocks i =>
      let initial_hash := h0 ++ store32_le (Z.of_nat i) ++ store32_le (Z.of_nat l) in
      let hash_area := extended_hash (replicate 1024 0) 1024 initial_hash in
      set_blk blocks (add32 (mul32 (Z.of_nat l) lane_size) (Z.of_nat i)) (load64_le_buf hash_area 0 128))
      (seq 0 2) blocks) (seq 0 (Z.to_nat (nb_lanes config))) blocks.

(** The variables of the segment loop. *)
Record segment_state := mkSegment { blocks : list (list Z); index_block : list Z; index_ctr : Z }.

Definition refresh_index (pass slice segment : Z) (st : segment_state) : segment_state :=
  let b := [pass; segment; slice; rounded_blocks; nb_passes config; algorithm config; index_ctr st] ++ replicate 121 0 in
  let tmp := b in
  let b := g_rounds b in
  let b := xor_block b tmp in
  let tmp := b in
  let b := g_rounds b in
  let b := xor_block b tmp in
  mkSegment (blocks st) b (add32 (index_ctr st) 1).

(** The index of the reference block. *)
Definition reference_index (pass slice segment block index_seed : Z) : Z :=
  let next_slice := mul32 ((slice + 1) mod 4) segment_size in
  let window_start := if pass =? 0 then 0 else next_slice in
  let nb_segments := if pass =? 0 then slice else 3 in
  let lane := if (pass =? 0) && (slice =? 0) then segment else (shr64 index_seed 32) mod nb_lanes config in
  let window_size := add32 (mul32 nb_segments segment_size)
    (if lane =? segment then sub32 block 1 else if block =? 0 then u32 (-1) else 0) in
  let j1 := Z.land index_seed 0xffffffff in
  let x := shr64 (mul64 j1 j1) 32 in
  let y := shr64 (mul64 window_size x) 32 in
  let z := sub64 (sub32 window_size 1) y in
  let ref := u32 (add64 window_start z mod lane_size) in
  add32 (mul32 lane lane_size) ref.

Definition fill_block (constant_time : bool) (pass slice segment pass_offset : Z) (st : segment_state) (block : Z) : segment_state :=
  let slice_offset := mul32 slice segment_size in
  let lane_offset := mul32 segment lane_size in
  let segment_start := lane_offset + slice_offset in
  let current := segment_start + block in
  let previous := if (block =? 0) && (slice_offset =? 0) then segment_start + lane_size - 1 else segment_start + block - 1 in
  let '(index_seed, st) :=
    if constant_time then
      let st := if (block =? pass_offset) || (block mod 128 =? 0) then refresh_index pass slice segment st else st in
      (rd (index_block st) (block mod 128), st)
    else (rd (blk_at (blocks st) previous) 0, st) in
  let reference := reference_index pass slice segment block index_seed in
  let tmp := blk_at (blocks st) previous in
  let tmp := xor_block tmp (blk_at (blocks st) reference) in
  let bs := if pass =? 0 then set_blk (blocks st) current tmp
            else set_blk (blocks st) current (xor_block (blk_at (blocks st) current) tmp) in
  let tmp := g_rounds tmp in
  let bs := set_blk bs current (xor_block (blk_at bs current) tmp) in
  mkSegment bs (index_block st) (index_ctr st).

(** The index block of a segment starts uninitialised. *)
Definition fill_segment (constant_time : bool) (pass slice pass_offset : Z) (garbage : list Z) (bs : list (list Z)) (segment : Z) : list (list Z) :=
  blocks (fold_left (fill_block constant_time pass slice segment pass_offset)
            (seqZ pass_offset (segment_size - pass_offset)) (mkSegment bs garbage 1)).

Definition fill_slice (garbage : list Z) (pass : Z) (st : bool * list (list Z)) (slice : Z) : bool * list (list Z) :=
  let '(constant_time, bs) := st in
  let pass_offset := if (pass =? 0) && (slice =? 0) then 2 else 0 in
  let constant_time := if (slice =? 2) && (algorithm config =? CRYPTO_ARGON2_ID) then false else constant_time in
  (constant_time, fold_left (fill_segment constant_time pass slice pass_offset garbage) (seqZ 0 (nb_lanes config)) bs).

Definition fill_passes (garbage : list Z) (bs : list (list Z)) : bool * list (list Z) :=
  fold_left (fun st pass => fold_left (fill_slice garbage pass) (seqZ 0 4) st) (seqZ 0 (nb_passes config))
    (negb (algorithm config =? CRYPTO_ARGON2_D), bs).

(** Each last block is added to that of the next lane. *)
Definition xor_lanes (bs : list (list Z)) : list (list Z) * Z :=
  fold_left (fun '(bs, last_block) _ =>
    let next_block := last_block + lane_size in
    (set_blk bs next_block (xor_block (blk_at bs next_block) (blk_at bs last_block)), next_block))
    (seqZ 1 (nb_lanes config - 1)) (bs, lane_size - 1).

(** The hash written over [hash], and the work area, of which [128 * nb_blocks] words are
    wiped. *)
Definition crypto_argon2 (garbage hash : list Z) (hash_size : Z) (work_area : list (list Z))
    (inputs : crypto_argon2_inputs) (extras : crypto_argon2_extras) : list Z * list (list Z) :=
  let bs := first_blocks (initial_hash hash_size inputs extras) work_area in
  let '(_, bs) := fill_passes garbage bs in
  let '(bs, last_block) := xor_lanes bs in
  let final_block := store64_le_buf (blk_at bs last_block) in
  let wiped := Z.to_nat (mul32 128 rounded_blocks / 128) in
  let bs := replicate wiped (replicate 128 0) ++ drop wiped bs in
  (extended_hash hash hash_size final_block, bs).
End config.

(** ** RFC 9106: the compression function *)

(** Section 3.6: the modified BLAKE2b round on sixteen words. *)
Definition GB_step (a b d r : Z) (v : list Z) : list Z :=
  let v := wr v a ((rd v a + rd v b + 2 * (rd v a mod 2 ^ 32) * (rd v b mod 2 ^ 32)) mod 2 ^ 64) in
  wr v d (rotr64 (Z.lxor (rd v d) (rd v a)) r).
Definition GB (a b c d : Z) (v : list Z) : list Z :=
  GB_step c d b 63 (GB_step a b d 16 (GB_step c d b 24 (GB_step a b d 32 v))).
Definition P_rfc (v : list Z) : list Z :=
  let v := GB 3 7 11 15 (GB 2 6 10 14 (GB 1 5 9 13 (GB 0 4 8 12 v))) in
  GB 3 4 9 14 (GB 2 7 8 13 (GB 1 6 11 12 (GB 0 5 10 15 v))).

(** Section 3.5: a block as a matrix of 8 x 8 registers of two words; P on its rows, then on its
    columns. *)
Definition registers (rs : list Z) : list Z := concat (map (fun k => [2 * k; 2 * k + 1]) rs).
Definition row_regs (n : nat) : list Z := map (fun j => 8 * Z.of_nat n + j) (seqZ 0 8).
Definition col_regs (n : nat) : list Z := map (fun j => Z.of_nat n + 8 * j) (seqZ 0 8).

Definition gather (ix v : list Z) : list Z := map (rd v) ix.
Definition scatter (ix w v : list Z) : list Z :=
  fold_left (fun v j => wr v (rd ix (Z.of_nat j)) (rd w (Z.of_nat j))) (seq 0 16) v.
Definition P_at (rs v : list Z) : list Z := scatter (registers rs) (P_rfc (gather (registers rs) v)) v.

Definition P_block (v : list Z) : list Z :=
  fold_left (fun v n => P_at (col_regs n) v) (seq 0 8) (fold_left (fun v n => P_at (row_regs n) v) (seq 0 8) v).
Definition G_rfc (X Y : list Z) : list Z := let R := xor_block X Y in xor_block (P_block R) R.

(** ** Rounds on selected words *)

Lemma rd_app_r (l1 l2 : list Z) i : Z.of_nat (length l1) <= i -> rd (l1 ++ l2) i = rd l2 (i - Z.of_nat (length l1)).
Proof. intros Hi. unfold rd. rewrite app_nth2 by lia. f_equal. lia. Qed.

Lemma G_step_rfc a b d r v : 0 <= a < Z.of_nat (length v) -> 0 <= d < Z.of_nat (length v) -> a <> d -> G_step a b d r v = GB_step a b d r v.
Proof.
  intros Ha Hd Hne. unfold G_step, GB_step. cbv zeta.
  assert (add64 (rd v a) (add64 (rd v b) (shl64 (mul64 (LSB (rd v a)) (LSB (rd v b))) 1)) =
          (rd v a + rd v b + 2 * (rd v a mod 2 ^ 32) * (rd v b mod 2 ^ 32)) mod 2 ^ 64) as ->.
  { unfold add64, shl64, mul64, LSB, u32, u64. rewrite Z.shiftl_mul_pow2 by lia.
    change 18446744073709551616 with (2 ^ 64). change 4294967296 with (2 ^ 32). set (x := rd v a). set (y := rd v b). clearbody x y.
    rewrite Z.mul_mod_idemp_l, Zplus_mod_idemp_r, Z.add_assoc, Zplus_mod_idemp_r by lia. f_equal. ring. }
  set (v1 := wr v a _). assert (length v1 = length v) as L1 by apply length_wr. clearbody v1.
  rewrite (rd_wr_eq v1 d) by (rewrite L1; exact Hd). apply wr_wr_eq.
Qed.

(** The words of [ix] as a list of their own. *)
Definition index_ok (ix : list Z) (n : nat) : Prop := NoDup ix /\ Forall (fun k => 0 <= k < Z.of_nat n) ix /\ length ix = 16%nat.

Record on_words (ix v v' w : list Z) : Prop := {
  ow_words : gather ix v' = w;
  ow_len : length v' = length v;
  ow_frame : forall k, 0 <= k -> ~ In k ix -> rd v' k = rd v k
}.

Lemma rd_gather ix v j : 0 <= j < Z.of_nat (length ix) -> rd (gather ix v) j = rd v (rd ix j).
Proof.
  intros Hj. unfold gather, rd. rewrite (nth_indep _ 0 (nth (Z.to_nat 0) v 0)) by (rewrite length_map; lia).
  change (nth (Z.to_nat 0) v 0) with ((fun i => nth (Z.to_nat i) v 0) 0). rewrite map_nth. reflexivity.
Qed.

Lemma index_inj ix n i j : index_ok ix n -> 0 <= i < 16 -> 0 <= j < 16 -> rd ix i = rd ix j -> i = j.
Proof.
  intros (Hn & _ & Hl) Hi Hj E. unfold rd in E. apply NoDup_ListNoDup in Hn.
  apply (proj1 (List.NoDup_nth ix 0)) in E; [lia|exact Hn|lia|lia].
Qed.

Lemma index_range ix n j : index_ok ix n -> 0 <= j < 16 -> 0 <= rd ix j < Z.of_nat n /\ In (rd ix j) ix.
Proof.
  intros (_ & Hr & Hl) Hj. assert (In (rd ix j) ix) as Hin by (apply nth_In; lia). split; [|exact Hin].
  rewrite Forall_forall in Hr. apply Hr, list_elem_of_In, Hin.
Qed.

Lemma list_eq_rd (l l' : list Z) : length l = length l' -> (forall i, 0 <= i < Z.of_nat (length l) -> rd l i = rd l' i) -> l = l'.
Proof.
  intros Hl H. apply (nth_ext _ _ 0 0 Hl). intros n Hn. specialize (H (Z.of_nat n) ltac:(lia)). unfold rd in H. by rewrite Nat2Z.id in H.
Qed.

Lemma gather_wr ix v j x : index_ok ix (length v) -> 0 <= j < 16 -> gather ix (wr v (rd ix j) x) = wr (gather ix v) j x.
Proof.
  intros Hix Hj. pose proof Hix as (_ & _ & Hl). apply list_eq_rd; [rewrite length_wr; unfold gather; by rewrite !length_map|].
  intros i Hi. unfold gather in Hi. rewrite length_map, Hl in Hi. rewrite rd_gather by lia.
  destruct (index_range ix _ j Hix Hj) as [Rj _]. destruct (Z.eq_dec i j) as [->|Hne].
  - rewrite !rd_wr_eq; [done|unfold gather; rewrite length_map; lia|exact Rj].
  - destruct (index_range ix _ i Hix ltac:(lia)) as [Ri _].
    assert (rd ix j <> rd ix i) by (intros E; apply Hne; symmetry; apply (index_inj ix (length v)); [done|lia|lia|done]).
    rewrite (rd_wr_ne v (rd ix j) (rd ix i)), (rd_wr_ne (gather ix v) j i) by lia. by rewrite rd_gather by lia.
Qed.

Section words.
Context (ix v : list Z) (Hix : index_ok ix (length v)).

Lemma on_refl : on_words ix v v (gather ix v).
Proof. by split. Qed.

Lemma on_rd v' w j : on_words ix v v' w -> 0 <= j < 16 -> rd v' (rd ix j) = rd w j.
Proof. intros [<- _ _] Hj. destruct Hix as (_ & _ & Hl). by rewrite rd_gather by lia. Qed.

Lemma on_wr v' w j x : on_words ix v v' w -> 0 <= j < 16 -> on_words ix v (wr v' (rd ix j) x) (wr w j x).
Proof.
  intros [<- Hl Hf] Hj. destruct (index_range ix _ j Hix Hj) as [Rj Ij]. split.
  - apply gather_wr; [by rewrite Hl|exact Hj].
  - by rewrite length_wr.
  - intros k Hk Hn. rewrite rd_wr_ne; [by apply Hf|lia|exact Hk|]. intros <-. done.
Qed.

Lemma on_G_step v' w a b d r : on_words ix v v' w -> 0 <= a < 16 -> 0 <= b < 16 -> 0 <= d < 16 -> a <> d ->
  on_words ix v (G_step (rd ix a) (rd ix b) (rd ix d) r v') (GB_step a b d r w).
Proof.
  intros H Ha Hb Hd Hne. pose proof (ow_len _ _ _ _ H) as Hl.
  rewrite G_step_rfc; [|rewrite Hl; by apply (index_range ix _ a Hix)|rewrite Hl; by apply (index_range ix _ d Hix)|intros E; apply Hne; by apply (index_inj ix (length v))].
  unfold GB_step. cbv zeta. rewrite (on_rd _ _ a H Ha), (on_rd _ _ b H Hb).
  pose proof (on_wr _ _ a ((rd w a + rd w b + 2 * (rd w a mod 2 ^ 32) * (rd w b mod 2 ^ 32)) mod 2 ^ 64) H Ha) as H1.
  rewrite (on_rd _ _ a H1 Ha), (on_rd _ _ d H1 Hd). by apply on_wr.
Qed.

Lemma on_G v' w a b c d : on_words ix v v' w -> 0 <= a < 16 -> 0 <= b < 16 -> 0 <= c < 16 -> 0 <= d < 16 -> a <> d -> c <> b ->
  on_words ix v (G (rd ix a) (rd ix b) (rd ix c) (rd ix d) v') (GB a b c d w).
Proof. intros H Ha Hb Hc Hd H1 H2. unfold G, GB. cbv zeta. by repeat apply on_G_step. Qed.

(** A round on selected words is P on the list of these words. *)
Lemma ROUND_on :
  on_words ix v (ROUND (rd ix 0) (rd ix 1) (rd ix 2) (rd ix 3) (rd ix 4) (rd ix 5) (rd ix 6) (rd ix 7)
    (rd ix 8) (rd ix 9) (rd ix 10) (rd ix 11) (rd ix 12) (rd ix 13) (rd ix 14) (rd ix 15) v) (P_rfc (gather ix v)).
Proof. unfold ROUND, P_rfc. cbv zeta. repeat (apply on_G; [|lia..]). exact on_refl. Qed.

Lemma length_gather : length (gather ix v) = 16%nat.
Proof. unfold gather. rewrite length_map. apply Hix. Qed.

Lemma scatter_on w : length w = 16%nat -> on_words ix v (scatter ix w v) w.
Proof.
  intros Hw. unfold scatter.
  assert (forall n, (n <= 16)%nat -> on_words ix v (fold_left (fun v j => wr v (rd ix (Z.of_nat j)) (rd w (Z.of_nat j))) (seq 0 n) v)
    (take n w ++ drop n (gather ix v))) as H.
  { induction n as [|n IH]; intros Hn; [cbn [seq fold_left]; rewrite take_0, drop_0; exact on_refl|].
    rewrite seq_S, fold_left_app. cbn [Nat.add fold_left]. specialize (IH ltac:(lia)).
    pose proof (on_wr _ _ (Z.of_nat n) (rd w (Z.of_nat n)) IH ltac:(lia)) as H1. destruct H1 as [H1 H2 H3]. split; [|done|done]. rewrite H1.
    pose proof length_gather as Lg. apply list_eq_rd; [rewrite length_wr, !length_app, !length_take, !length_drop; lia|].
    intros i Hi. rewrite length_wr, length_app, length_take, length_drop in Hi.
    assert (length (take n w) = n /\ length (take (S n) w) = S n) as [L1 L2] by (rewrite !length_take; lia).
    destruct (Z.eq_dec i (Z.of_nat n)) as [->|Hne].
    - rewrite rd_wr_eq by (rewrite length_app, length_drop; lia). rewrite rd_app_l by lia. rewrite rd_take by lia. done.
    - rewrite rd_wr_ne by lia. destruct (Z.lt_ge_cases i (Z.of_nat n)).
      + rewrite !rd_app_l, !rd_take by lia. done.
      + rewrite !rd_app_r, !rd_drop, L1, L2 by lia. f_equal. lia. }
  specialize (H 16%nat (le_n 16)). pose proof length_gather as Lg. rewrite take_ge, drop_ge, app_nil_r in H by lia. exact H.
Qed.

Lemma on_unique v1 v2 w : on_words ix v v1 w -> on_words ix v v2 w -> v1 = v2.
Proof.
  intros [G1 L1 F1] [G2 L2 F2]. apply list_eq_rd; [congruence|]. intros k Hk. destruct (In_dec Z.eq_dec k ix) as [Hin|Hn]; [|rewrite F1, F2 by (lia || done); done].
  apply (In_nth _ _ 0) in Hin as (j & Hj & <-). assert (nth j ix 0 = rd ix (Z.of_nat j)) as -> by (unfold rd; by rewrite Nat2Z.id).
  destruct Hix as (_ & _ & Hl). rewrite <- !rd_gather by lia. congruence.
Qed.
End words.

(** ** The compression function of the code *)

Lemma length_GB_step a b d r v : length (GB_step a b d r v) = length v.
Proof. unfold GB_step. cbv zeta. by rewrite !length_wr. Qed.
Lemma length_P_rfc w : length (P_rfc w) = length w.
Proof. unfold P_rfc, GB. cbv zeta. by rewrite !length_GB_step. Qed.

Lemma ROUND_at rs v : index_ok (registers rs) (length v) -> let ix := registers rs in
  ROUND (rd ix 0) (rd ix 1) (rd ix 2) (rd ix 3) (rd ix 4) (rd ix 5) (rd ix 6) (rd ix 7)
    (rd ix 8) (rd ix 9) (rd ix 10) (rd ix 11) (rd ix 12) (rd ix 13) (rd ix 14) (rd ix 15) v = P_at rs v.
Proof.
  intros Hix. cbv zeta. apply (on_unique _ v Hix _ _ (P_rfc (gather (registers rs) v))); [exact (ROUND_on (registers rs) v Hix)|].
  apply scatter_on; [exact Hix|]. rewrite length_P_rfc. by apply (length_gather _ v).
Qed.

Lemma length_P_at rs v : index_ok (registers rs) (length v) -> length (P_at rs v) = length v.
Proof.
  intros Hix. destruct (scatter_on _ v Hix (P_rfc (gather (registers rs) v))) as [_ H _]; [|exact H].
  rewrite length_P_rfc. by apply (length_gather _ v).
Qed.

Lemma regs_ok n : (n < 8)%nat -> index_ok (registers (row_regs n)) 128 /\ index_ok (registers (col_regs n)) 128.
Proof. intros Hn. do 8 (destruct n as [|n]; [apply (bool_decide_unpack _); vm_compute; exact I|]). lia. Qed.

#[local] Opaque ROUND P_at.

(** Two folds whose steps agree on lists of 128 words. *)
Lemma fold_blocks (f g : list Z -> nat -> list Z) v : length v = 128%nat ->
  (forall v n, length v = 128%nat -> (n < 8)%nat -> f v n = g v n /\ length (g v n) = 128%nat) ->
  fold_left f (seq 0 8) v = fold_left g (seq 0 8) v /\ length (fold_left g (seq 0 8) v) = 128%nat.
Proof.
  intros Hv H. assert (forall n, (n <= 8)%nat -> fold_left f (seq 0 n) v = fold_left g (seq 0 n) v /\ length (fold_left g (seq 0 n) v) = 128%nat) as F.
  { induction n as [|n IH]; intros Hn; [done|]. rewrite !seq_S, !fold_left_app. cbn [Nat.add fold_left]. destruct (IH ltac:(lia)) as [-> L]. apply H; [exact L|lia]. }
  exact (F 8%nat (le_n 8)).
Qed.

Lemma g_rounds_P b : length b = 128%nat -> g_rounds b = P_block b.
Proof.
  intros Hb. unfold g_rounds, P_block. cbv zeta.
  destruct (fold_blocks (fun b n => ROUND (16 * Z.of_nat n) (16 * Z.of_nat n + 1) (16 * Z.of_nat n + 2) (16 * Z.of_nat n + 3) (16 * Z.of_nat n + 4)
    (16 * Z.of_nat n + 5) (16 * Z.of_nat n + 6) (16 * Z.of_nat n + 7) (16 * Z.of_nat n + 8) (16 * Z.of_nat n + 9) (16 * Z.of_nat n + 10)
    (16 * Z.of_nat n + 11) (16 * Z.of_nat n + 12) (16 * Z.of_nat n + 13) (16 * Z.of_nat n + 14) (16 * Z.of_nat n + 15) b)
    (fun v n => P_at (row_regs n) v) b Hb) as [-> L].
  { intros v n Hv Hn. destruct (regs_ok n Hn) as [Hr _]. rewrite <- Hv in Hr. split; [|rewrite (length_P_at _ _ Hr); exact Hv].
    pose proof (ROUND_at (row_regs n) v Hr) as E. do 8 (destruct n as [|n]; [exact E|]). lia. }
  refine (proj1 (fold_blocks _ (fun v n => P_at (col_regs n) v) _ L _)).
  intros v n Hv Hn. destruct (regs_ok n Hn) as [_ Hr]. rewrite <- Hv in Hr. split; [|rewrite (length_P_at _ _ Hr); exact Hv].
  pose proof (ROUND_at (col_regs n) v Hr) as E. do 8 (destruct n as [|n]; [exact E|]). lia.
Qed.

(** ** Sums of blocks *)

Lemma length_xor a b : length (xor_block a b) = 128%nat.
Proof. reflexivity. Qed.

Lemma rd_xor a b i : 0 <= i < 128 -> rd (xor_block a b) i = Z.lxor (rd a i) (rd b i).
Proof.
  intros Hi. unfold xor_block. set (f := fun k : nat => Z.lxor (rd a (Z.of_nat k)) (rd b (Z.of_nat k))). unfold rd at 1.
  rewrite (nth_indep (map f (seq 0 128)) 0 (f 0%nat)) by (rewrite length_map, length_seq; lia).
  rewrite (map_nth f), seq_nth by lia. subst f. cbv beta. rewrite Nat.add_0_l, Z2Nat.id by lia. done.
Qed.

Lemma xor_block_ext a b c d : (forall i, 0 <= i < 128 -> Z.lxor (rd a i) (rd b i) = Z.lxor (rd c i) (rd d i)) -> xor_block a b = xor_block c d.
Proof. intros H. apply map_ext_in. intros i Hi%in_seq. apply H. lia. Qed.

Lemma xor_comm a b : xor_block a b = xor_block b a.
Proof. apply xor_block_ext. intros. apply Z.lxor_comm. Qed.
Lemma xor_assoc a b c : xor_block (xor_block a b) c = xor_block a (xor_block b c).
Proof. apply xor_block_ext. intros i Hi. rewrite !rd_xor by lia. apply Z.lxor_assoc. Qed.

(** Rounds and feed-forward are G on the sum. *)
Lemma g_rounds_G X Y : let R := xor_block X Y in xor_block R (g_rounds R) = G_rfc X Y.
Proof. cbv zeta. rewrite (g_rounds_P (xor_block X Y) (length_xor _ _)). apply xor_comm. Qed.

Lemma zero_xor b : length b = 128%nat -> xor_block (replicate 128 0) b = b.
Proof.
  intros Hb. apply list_eq_rd; [by rewrite length_xor|]. intros i Hi. rewrite length_xor in Hi. rewrite rd_xor by lia. by rewrite rd_replicate.
Qed.

Lemma g_rounds_zero z : length z = 128%nat -> xor_block (g_rounds z) z = G_rfc (replicate 128 0) z.
Proof. intros Lz. unfold G_rfc. rewrite (zero_xor z Lz), (g_rounds_P z Lz). exact eq_refl. Qed.

Lemma length_G_rfc X Y : length (G_rfc X Y) = 128%nat.
Proof. apply length_xor. Qed.

(** ** RFC 9106: the hash of variable length *)

Definition LE32 (x : Z) : list Z := le_bytes 4 x.
Definition H_rfc (n : Z) (A : list Z) : list Z := blake2b_rfc n A [].

(** Half of each of [n + 1] chained hashes, then the last one. *)
Fixpoint H_chain (n : nat) (last : Z) (V : list Z) : list Z :=
  match n with
  | O => take 32 V ++ H_rfc last V
  | S n => take 32 V ++ H_chain n last (H_rfc 64 V)
  end.

(** Section 3.3. *)
Definition H'_rfc (T : Z) (A : list Z) : list Z :=
  if T <=? 64 then H_rfc T (LE32 T ++ A)
  else let r := (T + 31) / 32 - 2 in H_chain (Z.to_nat r - 1) (T - 32 * r) (H_rfc 64 (LE32 T ++ A)).

Lemma H_rfc_code n ds : 0 <= n <= 64 -> Forall is_bytes ds ->
  crypto_blake2b_final (fold_left crypto_blake2b_update ds (crypto_blake2b_keyed_init n [])) = H_rfc n (concat ds).
Proof. intros Hn Hd. apply blake2b_pieces; [exact Hn|constructor|cbn; lia|exact Hd]. Qed.

Lemma blake2b_H_rfc n V : 0 <= n <= 64 -> is_bytes V -> crypto_blake2b n V = H_rfc n V.
Proof.
  intros Hn HV. pose proof (H_rfc_code n [V] Hn ltac:(by repeat constructor)) as E. cbn [concat] in E. rewrite app_nil_r in E. exact E.
Qed.

Lemma H_rfc_ok n A : 0 <= n <= 64 -> is_bytes (H_rfc n A) /\ length (H_rfc n A) = Z.to_nat n.
Proof.
  intros Hn. unfold H_rfc, blake2b_rfc, digest_b. set (h := F_b _ _ _ _). assert (length h = 8%nat) as Lh by reflexivity. clearbody h.
  split; [|rewrite length_take, (length_concat8 h Lh h), Lh; lia]. apply is_bytes_take. apply is_bytes_concat, Forall_fmap, Forall_true. intros. apply is_bytes_le_bytes.
Qed.

#[local] Opaque crypto_blake2b H_rfc crypto_blake2b_final crypto_blake2b_update crypto_blake2b_keyed_init.

Lemma copy_at_app a b c x : length a = Z.to_nat x -> (length c <= length b)%nat -> copy_at (a ++ b) x c = a ++ c ++ drop (length c) b.
Proof.
  intros Ha Hb. unfold copy_at. rewrite <- Ha, take_app_length. rewrite drop_app_ge by lia. do 3 f_equal. lia.
Qed.

(** The loop and the last hash: [a] is done, [V] is the current hash, [b] is still to be
    written. *)
Lemma extend_loop_spec n : forall a V b r i inp out last,
  is_bytes V -> length V = 64%nat -> 0 < i -> r = i + Z.of_nat n -> inp = 32 * (i - 1) -> out = 32 * i -> Z.of_nat (length a) = inp ->
  32 < last <= 64 -> Z.of_nat (length b) = 32 * Z.of_nat n + last - 32 -> 32 * r + last < 2 ^ 32 ->
  let '(d, inp, out) := extend_loop (S n) (a ++ V ++ b) r i inp out in
  copy_at d out (crypto_blake2b last (take 64 (drop (Z.to_nat inp) d))) = a ++ H_chain n last V.
Proof.
  induction n as [|n IH]; intros a V b r i inp out last HV LV Hi Hr Einp Eout La Hl Lb Hb.
  - cbn [extend_loop H_chain]. rewrite (proj2 (Z.ltb_ge i r)) by lia. rewrite drop_app_ge by lia. replace (Z.to_nat inp - length a)%nat with 0%nat by lia. rewrite drop_0.
    rewrite take_app_le, (take_ge V) by lia. rewrite (blake2b_H_rfc last V ltac:(lia) HV). destruct (H_rfc_ok last V ltac:(lia)) as [_ LH].
    assert (a ++ V ++ b = (a ++ take 32 V) ++ (drop 32 V ++ b)) as -> by (rewrite <- app_assoc; f_equal; rewrite app_assoc, take_drop; done).
    rewrite copy_at_app; [|rewrite length_app, length_take; lia|rewrite length_app, length_drop; lia].
    rewrite drop_ge by (rewrite length_app, length_drop; lia). by rewrite app_nil_r, app_assoc.
  - cbn [H_chain]. change (extend_loop (S (S n)) ?d r i inp out) with (if i <? r then extend_loop (S n) (copy_at d out (crypto_blake2b 64 (take 64 (drop (Z.to_nat inp) d)))) r (add32 i 1) (add32 inp 32) (add32 out 32) else (d, inp, out)).
    rewrite (proj2 (Z.ltb_lt i r)) by lia.
    rewrite drop_app_ge by lia. replace (Z.to_nat inp - length a)%nat with 0%nat by lia. rewrite drop_0.
    rewrite take_app_le, (take_ge V) by lia. rewrite (blake2b_H_rfc 64 V ltac:(lia) HV). destruct (H_rfc_ok 64 V ltac:(lia)) as [BH LH].
    assert (a ++ V ++ b = (a ++ take 32 V) ++ (drop 32 V ++ b)) as -> by (rewrite <- app_assoc; f_equal; rewrite app_assoc, take_drop; done).
    rewrite copy_at_app; [|rewrite length_app, length_take; lia|rewrite length_app, length_drop; lia].
    rewrite drop_app_ge by (rewrite length_drop; lia).
    assert (add32 i 1 = i + 1 /\ add32 inp 32 = inp + 32 /\ add32 out 32 = out + 32) as (-> & -> & ->) by (unfold add32; rewrite !u32_small by (unfold is_u32; lia); done).
    specialize (IH (a ++ take 32 V) (H_rfc 64 V) (drop (length (H_rfc 64 V) - length (drop 32 V)) b) r (i + 1) (inp + 32) (out + 32) last BH LH).
    rewrite (app_assoc a (take 32 V) (H_chain _ _ _)). apply IH; try lia; rewrite ?length_app, ?length_take, ?length_drop; lia.
Qed.

Lemma extended_hash_spec digest T A : 0 <= T < 2 ^ 32 -> Z.of_nat (length digest) = T -> is_bytes A ->
  extended_hash digest T A = H'_rfc T A.
Proof.
  intros HT Ld HA. unfold extended_hash, H'_rfc. cbv zeta.
  assert (crypto_blake2b_final (crypto_blake2b_update (blake_update_32 (crypto_blake2b_init (Z.min T 64)) T) A) = H_rfc (Z.min T 64) (LE32 T ++ A)) as ->.
  { pose proof (H_rfc_code (Z.min T 64) [store32_le T; A] ltac:(lia) ltac:(constructor; [apply is_bytes_store32_le|constructor; [exact HA|constructor]])) as E.
    cbn [concat] in E. rewrite app_nil_r in E. unfold LE32. rewrite <- store32_le_bytes. exact E. }
  destruct (H_rfc_ok (Z.min T 64) (LE32 T ++ A) ltac:(lia)) as [BV LV]. 
  assert (copy_at digest 0 (H_rfc (Z.min T 64) (LE32 T ++ A)) = H_rfc (Z.min T 64) (LE32 T ++ A) ++ drop (Z.to_nat (Z.min T 64)) digest) as ->.
  { pose proof (copy_at_app [] digest (H_rfc (Z.min T 64) (LE32 T ++ A)) 0 eq_refl ltac:(lia)) as E. cbn [app] in E. rewrite E, LV. done. }
  destruct (Z.ltb_spec 64 T) as [Hc|Hc].
  - rewrite (proj2 (Z.leb_gt T 64)) by lia. rewrite Z.min_r in * by lia. set (V := H_rfc 64 (LE32 T ++ A)) in *. clearbody V.
    set (r := (T + 31) / 32 - 2).
    assert (sub32 (u32 (shr64 (add64 T 31) 5)) 2 = r /\ 0 < r /\ T - 32 * r <= 64 /\ 32 < T - 32 * r) as (-> & Hr & H1 & H2).
    { unfold sub32, add64. rewrite (u64_small (T + 31)) by (unfold is_u64; lia). rewrite shr64_div by lia. change (2 ^ 5) with 32.
      rewrite !u32_small by (unfold is_u32; try (rewrite u32_small by (unfold is_u32; zlia)); zlia). unfold r. zlia. }
    assert (sub32 T (mul32 32 r) = T - 32 * r) as -> by (unfold sub32, mul32; rewrite !u32_small; [done|unfold is_u32..]; rewrite ?u32_small; unfold is_u32; lia).
    pose proof (extend_loop_spec (Z.to_nat r - 1) [] V (drop 64 digest) r 1 0 32 (T - 32 * r) BV LV) as E. cbn [app] in E.
    specialize (E ltac:(lia) ltac:(lia) eq_refl eq_refl eq_refl ltac:(lia) ltac:(rewrite length_drop; lia) ltac:(lia)).
    replace (S (Z.to_nat r - 1)) with (Z.to_nat r) in E by lia. change (Z.to_nat 64) with 64%nat.
    destruct (extend_loop (Z.to_nat r) (V ++ drop 64 digest) r 1 0 32) as [[d inp] out]. exact E.
  - rewrite (proj2 (Z.leb_le T 64)) by lia. rewrite Z.min_l in * by lia. rewrite drop_ge by lia. apply app_nil_r.
Qed.

Lemma H_chain_ok n : forall last V, is_bytes V -> length V = 64%nat -> 0 <= last <= 64 ->
  is_bytes (H_chain n last V) /\ length (H_chain n last V) = (32 * S n + Z.to_nat last)%nat.
Proof.
  induction n as [|n IH]; intros last V HV LV Hl; cbn [H_chain].
  - destruct (H_rfc_ok last V Hl) as [B L]. split; [apply is_bytes_app; [by apply is_bytes_take|exact B]|rewrite length_app, length_take; lia].
  - destruct (H_rfc_ok 64 V ltac:(lia)) as [B L]. destruct (IH last (H_rfc 64 V) B ltac:(lia) Hl) as [B' L'].
    split; [apply is_bytes_app; [by apply is_bytes_take|exact B']|rewrite length_app, length_take; lia].
Qed.

Lemma H'_rfc_ok T A : 0 <= T -> is_bytes (H'_rfc T A) /\ length (H'_rfc T A) = Z.to_nat T.
Proof.
  intros HT. unfold H'_rfc. cbv zeta. destruct (Z.leb_spec T 64) as [Hc|Hc]; [apply H_rfc_ok; lia|].
  set (V := H_rfc 64 (LE32 T ++ A)). destruct (H_rfc_ok 64 (LE32 T ++ A) ltac:(lia)) as [B L]. fold V in B, L. clearbody V.
  destruct (H_chain_ok (Z.to_nat ((T + 31) / 32 - 2) - 1) (T - 32 * ((T + 31) / 32 - 2)) V B ltac:(lia) ltac:(zlia)) as [B' L'].
  split; [exact B'|]. rewrite L'. assert (0 < (T + 31) / 32 - 2) by zlia. zlia.
Qed.
