(* ===== verification/Argon2Memory.v ===== *)
(** * Filling the memory of Argon2 (library/crypto/monocypher.c)

    RFC 9106 on a memory of lanes and columns, and the proof that [crypto_argon2] computes it on
    its flat array of blocks: the choice of reference blocks, the blocks of indices, the order of
    passes, slices and lanes. *)

From S2P Require Import Prelude Neon Blake2s Monocypher Blake2b Argon2.

(** Two loops over the same range that keep a relation. *)
Lemma fold_range {A B} (R : Z -> A -> B -> Prop) (f : A -> Z -> A) (g : B -> Z -> B) a n x y : 0 <= n -> R a x y ->
  (forall i x y, a <= i < a + n -> R i x y -> R (i + 1) (f x i) (g y i)) ->
  R (a + n) (fold_left f (seqZ a n) x) (fold_left g (seqZ a n) y).
Proof.
  intros Hn Ha Hs. rewrite <- (Z2Nat.id n) in Hs |- * by exact Hn. clear Hn. induction (Z.to_nat n) as [|k IH]; [by rewrite Z.add_0_r|].
  rewrite seqZ_S, !fold_left_app. cbn [fold_left]. replace (a + Z.of_nat (S k)) with (a + Z.of_nat k + 1) by lia.
  apply Hs; [lia|]. apply IH. intros i x' y' Hi. apply Hs. lia.
Qed.

(** ** RFC 9106 *)

(** Columns [start], [start + 1], ... of a ring of [q]. *)
Definition columns (q start n : Z) : list Z := map (fun i => (start + Z.of_nat i) mod q) (seq 0 (Z.to_nat n)).

Section rfc.
Context (config : crypto_argon2_config).
#[local] Abbreviation p := (nb_lanes config).
#[local] Abbreviation m := (nb_blocks config).
#[local] Abbreviation t := (nb_passes config).
#[local] Abbreviation y := (algorithm config).

(** Segments, columns and blocks of the memory. *)
Definition seg : Z := m / (4 * p).
Definition q : Z := 4 * seg.
Definition m' : Z := q * p.

Definition memory : Type := Z -> Z -> list Z.
Definition set_cell (M : memory) (l c : Z) (b : list Z) : memory :=
  fun l' c' => if (l' =? l) && (c' =? c) then b else M l' c'.

(** Section 3.2: the first hash and the first two columns. *)
Definition with_length (b : list Z) : list Z := LE32 (Z.of_nat (length b)) ++ b.
Definition H0_rfc (T : Z) (inputs : crypto_argon2_inputs) (extras : crypto_argon2_extras) : list Z :=
  H_rfc 64 (LE32 p ++ LE32 T ++ LE32 m ++ LE32 t ++ LE32 0x13 ++ LE32 y ++
    with_length (pass_ inputs) ++ with_length (salt inputs) ++ with_length (key extras) ++ with_length (ad extras)).

Definition words_of (b : list Z) : list Z := map (fun i => le_val (take 8 (drop (8 * i) b))) (seq 0 128).
Definition bytes_of (b : list Z) : list Z := concat (map (le_bytes 8) b).
Definition first_rfc (h0 : list Z) : memory :=
  fun l c => if c <? 2 then words_of (H'_rfc 1024 (h0 ++ LE32 c ++ LE32 l)) else [].

(** Section 3.4.2: the blocks that may be referenced, oldest first.  The last three finished
    segments and, in the lane itself, the blocks of this segment; without the block before the
    current one there, and without the last one for the first block of a segment. *)
Definition segment_columns (s : Z) : list Z := map (fun k => s * seg + k) (seqZ 0 seg).
Definition window (pass slice b : Z) (same : bool) : list Z :=
  let finished := if pass =? 0 then seqZ 0 slice else [(slice + 1) mod 4; (slice + 2) mod 4; (slice + 3) mod 4] in
  let W := concat (map segment_columns finished) ++ (if same then map (fun k => slice * seg + k) (seqZ 0 b) else []) in
  if same || (b =? 0) then removelast W else W.

(** Section 3.4.1: the two halves J1 and J2 of a word. *)
Definition address_block (pass lane slice n : Z) : list Z :=
  G_rfc (replicate 128 0) (G_rfc (replicate 128 0) ([pass; lane; slice; m'; t; y; n] ++ replicate 121 0)).
Definition data_independent (pass slice : Z) : bool := (y =? 1) || ((y =? 2) && (pass =? 0) && (slice <? 2)).
Definition J_rfc (M : memory) (pass slice lane b : Z) : Z :=
  if data_independent pass slice then rd (address_block pass lane slice (b / 128 + 1)) (b mod 128)
  else rd (M lane ((slice * seg + b - 1) mod q)) 0.

Definition ref_lane (pass slice lane J : Z) : Z := if (pass =? 0) && (slice =? 0) then lane else (J / 2 ^ 32) mod p.
Definition ref_position (W : list Z) (J : Z) : Z :=
  let x := (J mod 2 ^ 32) * (J mod 2 ^ 32) / 2 ^ 32 in
  let n := Z.of_nat (length W) in
  n - 1 - n * x / 2 ^ 32.

Definition cell_rfc (pass slice lane : Z) (M : memory) (b : Z) : memory :=
  let j := slice * seg + b in
  let J := J_rfc M pass slice lane b in
  let l := ref_lane pass slice lane J in
  let W := window pass slice b (l =? lane) in
  let z := rd W (ref_position W J) in
  let new := G_rfc (M lane ((j - 1) mod q)) (M l z) in
  set_cell M lane j (if pass =? 0 then new else xor_block (M lane j) new).

Definition first_block (pass slice : Z) : Z := if (pass =? 0) && (slice =? 0) then 2 else 0.
Definition segment_rfc (pass slice : Z) (M : memory) (lane : Z) : memory :=
  fold_left (cell_rfc pass slice lane) (seqZ (first_block pass slice) (seg - first_block pass slice)) M.
Definition slice_rfc (pass : Z) (M : memory) (slice : Z) : memory := fold_left (segment_rfc pass slice) (seqZ 0 p) M.
Definition pass_rfc (M : memory) (pass : Z) : memory := fold_left (slice_rfc pass) (seqZ 0 4) M.
Definition fill_rfc (M : memory) : memory := fold_left pass_rfc (seqZ 0 t) M.

Definition argon2_rfc (T : Z) (inputs : crypto_argon2_inputs) (extras : crypto_argon2_extras) : list Z :=
  let M := fill_rfc (first_rfc (H0_rfc T inputs extras)) in
  let C := fold_left (fun C l => xor_block (M l (q - 1)) C) (seqZ 1 (p - 1)) (M 0 (q - 1)) in
  H'_rfc T (bytes_of C).

(** ** Sizes *)

Hypothesis Hp : 1 <= p.
Hypothesis Hm : 8 * p <= m < 2 ^ 32.

Lemma seg_bounds : 2 <= seg /\ q * p <= m.
Proof.
  unfold q, seg. pose proof (Z.mul_div_le m (4 * p) ltac:(lia)). split; [apply Z.div_le_lower_bound; lia|nia].
Qed.

Lemma q_le : q <= m /\ q < 2 ^ 32 /\ 8 <= q /\ q = 4 * seg.
Proof. destruct seg_bounds as [H1 H2]. assert (q = 4 * seg) as E by reflexivity. nia. Qed.

Lemma segment_size_eq : segment_size config = seg.
Proof. unfold segment_size, seg. rewrite Z.div_div by lia. f_equal. ring. Qed.
Lemma lane_size_eq : lane_size config = q.
Proof.
  unfold lane_size. rewrite segment_size_eq. pose proof q_le. unfold mul32. rewrite u32_small by (unfold is_u32; lia). unfold q. ring.
Qed.
Lemma rounded_blocks_eq : rounded_blocks config = m'.
Proof. unfold rounded_blocks. rewrite lane_size_eq. pose proof q_le as Hq. destruct seg_bounds as [_ Hs]. apply u32_small. unfold is_u32, m'. split; [apply Z.mul_nonneg_nonneg; lia|lia]. Qed.

Lemma cell_range l c : 0 <= l < p -> 0 <= c < q -> 0 <= l * q + c < m'.
Proof. unfold m'. intros. pose proof q_le. nia. Qed.
Lemma m'_range : 0 <= m' < 2 ^ 32.
Proof. unfold m'. destruct seg_bounds as [_ Hs]. pose proof q_le as Hq. nia. Qed.

(** ** The window as a range of columns *)

Lemma columns_mod start start' n : start mod q = start' mod q -> columns q start n = columns q start' n.
Proof.
  intros E. unfold columns. apply map_ext. intros i. rewrite <- (Zplus_mod_idemp_l start), E, Zplus_mod_idemp_l. done.
Qed.

Lemma length_columns start n : length (columns q start n) = Z.to_nat n.
Proof. unfold columns. by rewrite length_map, length_seq. Qed.

Lemma rd_columns start n k : 0 <= k < n -> rd (columns q start n) k = (start + k) mod q.
Proof.
  intros Hk. unfold rd, columns. set (f := fun i : nat => (start + Z.of_nat i) mod q).
  rewrite (nth_indep _ 0 (f 0%nat)) by (rewrite length_map, length_seq; lia). rewrite (map_nth f), seq_nth by lia. subst f. cbv beta. f_equal. lia.
Qed.

Lemma columns_app start n k : 0 <= n -> 0 <= k -> columns q start (n + k) = columns q start n ++ columns q (start + n) k.
Proof.
  intros Hn Hk. apply list_eq_rd; [rewrite length_app, !length_columns; lia|]. intros i Hi. rewrite length_columns in Hi.
  rewrite rd_columns by lia. destruct (Z.lt_ge_cases i n).
  - rewrite rd_app_l, rd_columns by (rewrite ?length_columns; lia). done.
  - rewrite rd_app_r, length_columns, rd_columns by (rewrite ?length_columns; lia). f_equal. lia.
Qed.

Lemma columns_range start n : 0 <= start -> 0 <= n -> start + n <= q -> columns q start n = map (fun k => start + k) (seqZ 0 n).
Proof.
  intros Hs Hn Hq. unfold columns, seqZ. rewrite map_map. change (list_fmap nat Z) with (@map nat Z) || idtac.
  apply map_ext_in. intros i Hi%in_seq. rewrite Z.mod_small by lia. lia.
Qed.

Lemma removelast_columns start n : 0 < n -> removelast (columns q start n) = columns q start (n - 1).
Proof.
  intros Hn. replace n with (n - 1 + 1) at 1 by lia. rewrite columns_app by lia. change (columns q (start + (n - 1)) 1) with [(start + (n - 1) + 0) mod q].
  by rewrite removelast_last.
Qed.

(** Where the window starts, how many finished segments it has, and its size. *)
Definition win_start (pass slice : Z) : Z := if pass =? 0 then 0 else (slice + 1) mod 4 * seg.
Definition win_segs (pass slice : Z) : Z := if pass =? 0 then slice else 3.
Definition win_size (pass slice b : Z) (same : bool) : Z :=
  win_segs pass slice * seg + (if same then b - 1 else if b =? 0 then -1 else 0).

Lemma slice_cases s (P : Z -> Prop) : 0 <= s < 4 -> P 0 -> P 1 -> P 2 -> P 3 -> P s.
Proof. intros Hs ? ? ? ?. assert (s = 0 \/ s = 1 \/ s = 2 \/ s = 3) as [-> | [-> | [-> | ->]]] by lia; done. Qed.

Lemma seg_columns s : 0 <= s < 4 -> segment_columns s = columns q (s * seg) seg.
Proof. intros Hs. pose proof q_le. rewrite columns_range by nia. done. Qed.

Lemma columns_next a b n k : 0 <= n -> 0 <= k -> (a + n) mod q = b mod q -> columns q a n ++ columns q b k = columns q a (n + k).
Proof. intros Hn Hk E. rewrite columns_app by lia. f_equal. by apply columns_mod. Qed.

Lemma finished_columns pass slice : 0 <= slice < 4 ->
  concat (map segment_columns (if pass =? 0 then seqZ 0 slice else [(slice + 1) mod 4; (slice + 2) mod 4; (slice + 3) mod 4])) =
  columns q (win_start pass slice) (win_segs pass slice * seg).
Proof.
  intros Hs. pose proof q_le as Hq. unfold win_start, win_segs. destruct (pass =? 0).
  - pattern slice. apply slice_cases; [exact Hs| | | |];
      [change (seqZ 0 0) with (@nil Z)|change (seqZ 0 1) with [0]|change (seqZ 0 2) with [0; 1]|change (seqZ 0 3) with [0; 1; 2]];
      cbn [map concat]; rewrite ?app_nil_r, ?seg_columns by lia; [done|f_equal; lia|..];
      repeat (rewrite columns_next; [|lia|lia|f_equal; lia]); f_equal; lia.
  - pattern slice. apply slice_cases; [exact Hs| | | |]; cbn [map concat];
      [change ((0 + 1) mod 4) with 1; change ((0 + 2) mod 4) with 2; change ((0 + 3) mod 4) with 3
      |change ((1 + 1) mod 4) with 2; change ((1 + 2) mod 4) with 3; change ((1 + 3) mod 4) with 0
      |change ((2 + 1) mod 4) with 3; change ((2 + 2) mod 4) with 0; change ((2 + 3) mod 4) with 1
      |change ((3 + 1) mod 4) with 0; change ((3 + 2) mod 4) with 1; change ((3 + 3) mod 4) with 2];
      rewrite app_nil_r, !seg_columns by lia;
      repeat (rewrite columns_next; [|lia|lia|first [f_equal; lia
        |match goal with |- (?a + ?b) mod q = 0 mod q => replace (a + b) with (0 + 1 * q) by lia; apply Z.mod_add; lia
                       | |- ?a mod q = (0 * seg) mod q => replace a with (0 * seg + 1 * q) by lia; apply Z.mod_add; lia end]]);
      f_equal; lia.
Qed.

(** The blocks that the code fills, and those that it has filled before block [b]. *)
Definition block_ok (pass slice lane b : Z) : Prop := 0 <= pass /\ 0 <= slice < 4 /\ 0 <= lane < p /\ first_block pass slice <= b < seg.
Definition filled (pass slice lane b l c : Z) : Prop :=
  0 < pass \/ c < 2 \/ c < slice * seg \/ (c < slice * seg + seg /\ l < lane) \/ (l = lane /\ c < slice * seg + b).

Lemma first_block_cases pass slice b : first_block pass slice <= b -> 0 <= b /\ (pass = 0 -> slice = 0 -> 2 <= b).
Proof. unfold first_block. destruct (Z.eqb_spec pass 0), (Z.eqb_spec slice 0); cbn [andb]; lia. Qed.

Lemma win_total pass slice b same : 0 <= pass -> 0 <= slice < 4 -> first_block pass slice <= b < seg -> (pass = 0 -> slice = 0 -> same = true) ->
  0 < win_size pass slice b same /\ win_size pass slice b same < q /\
  (same = true \/ b = 0 -> win_size pass slice b same = win_segs pass slice * seg + (if same then b else 0) - 1) /\
  (same = false -> 0 < b -> win_size pass slice b same = win_segs pass slice * seg).
Proof.
  intros Hp0 Hs Hb Hsame. pose proof q_le as Hq. destruct seg_bounds as [H2 _]. destruct (first_block_cases _ _ _ (proj1 Hb)) as [B0 B1].
  unfold win_size, win_segs. destruct (Z.eqb_spec pass 0) as [E|E].
  - destruct (Z.eq_dec slice 0) as [E0|E0].
    + rewrite (Hsame E E0) in *. specialize (B1 E E0). subst slice. split_and!; intros; try discriminate; lia.
    + assert (seg <= slice * seg <= 3 * seg) by nia. destruct same; [|destruct (Z.eqb_spec b 0)]; split_and!; intros; try discriminate; try lia.
  - destruct same; [|destruct (Z.eqb_spec b 0)]; split_and!; intros; try discriminate; try lia.
Qed.

Lemma window_columns pass slice b same : 0 <= pass -> 0 <= slice < 4 -> first_block pass slice <= b < seg -> (pass = 0 -> slice = 0 -> same = true) ->
  window pass slice b same = columns q (win_start pass slice) (win_size pass slice b same).
Proof.
  intros Hp0 Hs Hb Hsame. destruct (win_total pass slice b same Hp0 Hs Hb Hsame) as (W1 & W2 & W3 & W4). pose proof q_le as Hq.
  destruct (first_block_cases _ _ _ (proj1 Hb)) as [B0 _].
  assert (0 <= win_segs pass slice * seg) as Hw by (unfold win_segs; destruct (pass =? 0); nia).
  unfold window. cbv zeta. rewrite finished_columns by done.
  assert (columns q (win_start pass slice) (win_segs pass slice * seg) ++ (if same then map (fun k => slice * seg + k) (seqZ 0 b) else []) =
          columns q (win_start pass slice) (win_segs pass slice * seg + (if same then b else 0))) as ->.
  { destruct same; [|by rewrite app_nil_r, Z.add_0_r]. rewrite <- columns_range by nia. apply columns_next; [lia|lia|].
    unfold win_start, win_segs. destruct (pass =? 0); [done|]. pattern slice. apply slice_cases; [exact Hs| | | |].
    - change ((0 + 1) mod 4) with 1. replace (1 * seg + 3 * seg) with (0 * seg + 1 * q) by lia. apply Z.mod_add. lia.
    - change ((1 + 1) mod 4) with 2. replace (2 * seg + 3 * seg) with (1 * seg + 1 * q) by lia. apply Z.mod_add. lia.
    - change ((2 + 1) mod 4) with 3. replace (3 * seg + 3 * seg) with (2 * seg + 1 * q) by lia. apply Z.mod_add. lia.
    - change ((3 + 1) mod 4) with 0. f_equal; lia. }
  destruct (same || (b =? 0)) eqn:E.
  - rewrite W3 by (apply orb_true_iff in E as [?|?]; [by left|right; lia]). apply removelast_columns.
    rewrite W3 in W1 by (apply orb_true_iff in E as [?|?]; [by left|right; lia]). lia.
  - apply orb_false_iff in E as [-> E]. rewrite W4 by (done || lia). f_equal. lia.
Qed.

(** ** The reference block *)

Lemma position_spec n J : 0 < n < 2 ^ 32 -> let x := (J mod 2 ^ 32) * (J mod 2 ^ 32) / 2 ^ 32 in
  0 <= x < 2 ^ 32 /\ 0 <= n - 1 - n * x / 2 ^ 32 < n.
Proof.
  intros Hn. cbv zeta. pose proof (Z.mod_pos_bound J (2 ^ 32) ltac:(lia)) as Hj. set (j := J mod 2 ^ 32) in *. clearbody j.
  assert (0 <= j * j / 2 ^ 32 < 2 ^ 32) as Hx by (split; [apply Z.div_pos; nia|apply Z.div_lt_upper_bound; nia]).
  split; [exact Hx|]. set (x := j * j / 2 ^ 32) in *. clearbody x.
  assert (0 <= n * x / 2 ^ 32 < n) as Hy by (split; [apply Z.div_pos; nia|apply Z.div_lt_upper_bound; nia]). lia.
Qed.

Lemma window_size_code (ns b : Z) (same : bool) (n : Z) : 0 <= ns <= 3 -> 0 <= b < seg ->
  n = ns * seg + (if same then b - 1 else if b =? 0 then -1 else 0) -> 0 < n < 2 ^ 32 ->
  add32 (mul32 ns seg) (if same then sub32 b 1 else if b =? 0 then u32 (-1) else 0) = n.
Proof.
  intros Hns Hb Hn Hr. pose proof q_le as Hq. assert (mul32 ns seg = ns * seg) as -> by (apply u32_small; unfold is_u32; nia).
  assert ((if same then sub32 b 1 else if b =? 0 then u32 (-1) else 0) = u32 (if same then b - 1 else if b =? 0 then -1 else 0)) as -> by (destruct same; [done|destruct (b =? 0); done]).
  unfold add32, u32. rewrite Zplus_mod_idemp_r, <- Hn. apply Z.mod_small. lia.
Qed.

Lemma reference_code pass slice lane b J (same := ref_lane pass slice lane J =? lane) : block_ok pass slice lane b ->
  let n := win_size pass slice b same in
  reference_index config pass slice lane b J =
  ref_lane pass slice lane J * q + (win_start pass slice + (n - 1 - n * ((J mod 2 ^ 32) * (J mod 2 ^ 32) / 2 ^ 32) / 2 ^ 32)) mod q /\
  0 <= ref_lane pass slice lane J < p /\ 0 < n < q.
Proof.
  intros (B1 & B2 & B3 & B4). cbv zeta. pose proof q_le as Hq. destruct (first_block_cases _ _ _ (proj1 B4)) as [B0 _].
  assert (0 <= ref_lane pass slice lane J < p) as Hl.
  { unfold ref_lane. destruct ((pass =? 0) && (slice =? 0)); [exact B3|apply Z.mod_pos_bound; lia]. }
  assert (pass = 0 -> slice = 0 -> same = true) as Hsame by (intros -> ->; unfold same, ref_lane; cbn; lia).
  destruct (win_total pass slice b same B1 B2 B4 Hsame) as (W1 & W2 & _). split; [|split; [exact Hl|lia]].
  unfold reference_index. cbv zeta. rewrite segment_size_eq, lane_size_eq.
  assert ((if (pass =? 0) && (slice =? 0) then lane else shr64 J 32 mod p) = ref_lane pass slice lane J) as -> by (unfold ref_lane; by rewrite shr64_div by lia).
  fold same. set (l := ref_lane pass slice lane J) in *. clearbody l.
  assert ((if pass =? 0 then 0 else mul32 ((slice + 1) mod 4) seg) = win_start pass slice) as ->.
  { unfold win_start. destruct (pass =? 0); [done|]. apply u32_small. unfold is_u32. pose proof (Z.mod_pos_bound (slice + 1) 4 ltac:(lia)). nia. }
  fold (win_segs pass slice). rewrite (window_size_code (win_segs pass slice) b same (win_size pass slice b same)); [|unfold win_segs; destruct (pass =? 0); lia|lia|done|lia].
  set (n := win_size pass slice b same) in *. clearbody n.
  change 0xffffffff with (Z.ones 32). rewrite Z.land_ones by lia. destruct (position_spec n J ltac:(lia)) as [Hx Hk].
  pose proof (Z.mod_pos_bound J (2 ^ 32) ltac:(lia)) as Hj. set (j := J mod 2 ^ 32) in *. clearbody j.
  assert (mul64 j j = j * j) as -> by (apply u64_small; unfold is_u64; nia). rewrite (shr64_div (j * j)) by lia. set (x := j * j / 2 ^ 32) in *. clearbody x.
  assert (mul64 n x = n * x) as -> by (apply u64_small; unfold is_u64; nia). rewrite shr64_div by lia. set (yy := n * x / 2 ^ 32) in *. clearbody yy.
  assert (sub64 (sub32 n 1) yy = n - 1 - yy) as -> by (unfold sub64, sub32; rewrite u32_small by (unfold is_u32; lia); apply u64_small; unfold is_u64; lia).
  assert (0 <= win_start pass slice < 2 ^ 32) as Hst by (unfold win_start; destruct (pass =? 0); [lia|pose proof (Z.mod_pos_bound (slice + 1) 4 ltac:(lia)); nia]).
  assert (add64 (win_start pass slice) (n - 1 - yy) = win_start pass slice + (n - 1 - yy)) as -> by (apply u64_small; unfold is_u64; lia).
  pose proof (Z.mod_pos_bound (win_start pass slice + (n - 1 - yy)) q ltac:(lia)) as Hc. set (c := _ mod q) in *. clearbody c.
  rewrite (u32_small c) by (unfold is_u32; lia). pose proof (cell_range l c Hl Hc) as Hcell. pose proof m'_range as Hm'.
  assert (mul32 l q = l * q) as -> by (apply u32_small; unfold is_u32; nia). apply u32_small. unfold is_u32. lia.
Qed.

Lemma reference_spec pass slice lane b J : block_ok pass slice lane b ->
  let l := ref_lane pass slice lane J in
  let W := window pass slice b (l =? lane) in
  let z := rd W (ref_position W J) in
  reference_index config pass slice lane b J = l * q + z /\ 0 <= l < p /\ 0 <= z < q /\ 0 <= ref_position W J < Z.of_nat (length W).
Proof.
  intros Hb. cbv zeta. destruct (reference_code pass slice lane b J Hb) as (E & Hl & Hn). destruct Hb as (B1 & B2 & B3 & B4). pose proof q_le as Hq.
  set (l := ref_lane pass slice lane J) in *.
  assert (pass = 0 -> slice = 0 -> (l =? lane) = true) as Hsame by (intros -> ->; unfold l, ref_lane; cbn; lia). clearbody l.
  rewrite window_columns by done. set (n := win_size pass slice b (l =? lane)) in *. clearbody n.
  destruct (position_spec n J ltac:(lia)) as [_ Hk]. unfold ref_position. cbv zeta. rewrite length_columns, Z2Nat.id by lia.
  rewrite rd_columns by exact Hk. split; [exact E|]. split; [exact Hl|]. split; [apply Z.mod_pos_bound; lia|exact Hk].
Qed.

(** The members of the window are finished: they are filled, not the current block or the one
    before it and, in other lanes, not in the current slice. *)
Lemma window_filled pass slice lane b l z : block_ok pass slice lane b -> 0 <= l < p -> (pass = 0 -> slice = 0 -> l = lane) ->
  In z (window pass slice b (l =? lane)) ->
  filled pass slice lane b l z /\
  (l <> lane -> z < slice * seg \/ slice * seg + seg <= z) /\ (l = lane -> z <> slice * seg + b /\ z <> (slice * seg + b - 1) mod q).
Proof.
  intros (B1 & B2 & B3 & B4) Hl Hsame Hin. pose proof q_le as Hq. destruct (first_block_cases _ _ _ (proj1 B4)) as [B0 B5].
  assert (pass = 0 -> slice = 0 -> (l =? lane) = true) as Hs by (intros E1 E2; specialize (Hsame E1 E2); lia).
  destruct (win_total pass slice b (l =? lane) B1 B2 B4 Hs) as (W1 & W2 & _). rewrite window_columns in Hin by done.
  assert (exists k, 0 <= k < win_size pass slice b (l =? lane) /\ z = (win_start pass slice + k) mod q) as (k & Hk & ->).
  { unfold columns in Hin. apply in_map_iff in Hin as (i & <- & Hi%in_seq). exists (Z.of_nat i). split; [lia|done]. }
  unfold win_size, win_segs in Hk. destruct (first_block_cases pass slice b (proj1 B4)) as [_ B6]. unfold filled.
  destruct (Z.eqb_spec pass 0) as [->|Hpos].
  - assert (0 < slice -> seg <= slice * seg <= 3 * seg) as Hss by nia. change (win_start 0 slice) with 0. rewrite Z.add_0_l.
    rewrite (Z.mod_small k) by (destruct (l =? lane), (b =? 0); nia). rewrite (Z.mod_small (slice * seg + b - 1)).
    + destruct (Z.eqb_spec l lane) as [->|Hne]; [lia|]. destruct (b =? 0); lia.
    + assert (slice = 0 -> 2 <= b) by (intros; by apply B5). assert (slice * seg <= 3 * seg) by nia. destruct (Z.eq_dec slice 0) as [->|]; lia.
  - assert ((win_start pass slice + k) mod q = ((slice + 1) * seg + k) mod q) as ->.
    { unfold win_start. rewrite (proj2 (Z.eqb_neq pass 0) Hpos). rewrite <- (Zplus_mod_idemp_l (_ * seg)), <- (Zplus_mod_idemp_l ((slice + 1) * seg)). f_equal. f_equal.
      pattern slice. apply slice_cases; [exact B2|done|done|done|]. change ((3 + 1) mod 4 * seg) with 0. replace ((3 + 1) * seg) with (0 + 1 * q) by lia. symmetry. apply Z.mod_add. lia. }
    assert (0 <= slice * seg <= 3 * seg) as Hss by nia. set (o := slice * seg) in *. replace ((slice + 1) * seg) with (o + seg) by (subst o; ring). clearbody o.
    assert (forall u, q <= u < 2 * q -> u mod q = u - q) as Hwrap by (intros u Hu; symmetry; apply (Z.mod_unique _ _ 1); lia).
    assert (0 <= o + b - 1 -> (o + b - 1) mod q = o + b - 1) as Hj by (intros; apply Z.mod_small; lia).
    assert (o + b - 1 < 0 -> (o + b - 1) mod q = q - 1) as Hj' by (intros; symmetry; apply (Z.mod_unique _ _ (-1)); lia).
    split; [left; lia|].
    destruct (Z.lt_ge_cases (o + seg + k) q) as [Hc|Hc]; [rewrite (Z.mod_small (o + seg + k)) by lia|rewrite (Hwrap (o + seg + k)) by (destruct (l =? lane), (b =? 0); lia)];
      (destruct (Z.eqb_spec l lane) as [->|Hne]; [|destruct (b =? 0); lia]); (split; [lia|]); intros _;
      (destruct (Z.lt_ge_cases (o + b - 1) 0) as [Hn|Hn]; [rewrite (Hj' Hn)|rewrite (Hj Hn)]; lia).
Qed.

(** ** The array and the memory *)

(** On the cells of [F] the array holds the memory; [rest] is what lies behind the [m'] blocks. *)
Record rep (rest : list (list Z)) (F : Z -> Z -> Prop) (bs : list (list Z)) (M : memory) : Prop := {
  rep_len : m' <= Z.of_nat (length bs);
  rep_rest : drop (Z.to_nat m') bs = rest;
  rep_cell : forall l c, 0 <= l < p -> 0 <= c < q -> F l c -> blk_at bs (l * q + c) = M l c
}.

Lemma cell_inj l c l' c' : 0 <= c < q -> 0 <= c' < q -> l * q + c = l' * q + c' -> l = l' /\ c = c'.
Proof.
  intros Hc Hc' E. assert (forall a d, 0 <= d < q -> (a * q + d) / q = a) as Hd by (intros a d Hd; rewrite Z.div_add_l, Z.div_small by lia; lia).
  assert (l = l') as -> by (rewrite <- (Hd l c Hc), E; by apply Hd). lia.
Qed.

Lemma blk_at_set bs i j b : 0 <= i < Z.of_nat (length bs) -> 0 <= j -> blk_at (set_blk bs i b) j = if j =? i then b else blk_at bs j.
Proof.
  intros Hi Hj. unfold blk_at, set_blk. destruct (Z.eqb_spec j i) as [->|Hne].
  - apply nth_lookup_Some. apply list_lookup_insert_eq. lia.
  - rewrite !nth_lookup, list_lookup_insert_ne by lia. done.
Qed.

Lemma rep_set rest F F' bs M l c b : rep rest F bs M -> 0 <= l < p -> 0 <= c < q ->
  (forall l' c', 0 <= l' < p -> 0 <= c' < q -> F' l' c' -> (l' = l /\ c' = c) \/ F l' c') ->
  rep rest F' (set_blk bs (l * q + c) b) (set_cell M l c b).
Proof.
  intros [Hlen Hrest Hcell] Hl Hc HF. pose proof (cell_range l c Hl Hc) as Hr. split.
  - unfold set_blk. by rewrite length_insert.
  - unfold set_blk. rewrite drop_insert_lt by lia. exact Hrest.
  - intros l' c' Hl' Hc' H'. pose proof (cell_range l' c' Hl' Hc') as Hr'. rewrite blk_at_set by lia. unfold set_cell.
    destruct (Z.eqb_spec (l' * q + c') (l * q + c)) as [E|E].
    + apply cell_inj in E as [-> ->]; [|done|done]. by rewrite !Z.eqb_refl.
    + destruct (HF l' c' Hl' Hc' H') as [[-> ->]|HF']; [lia|]. destruct (Z.eqb_spec l' l), (Z.eqb_spec c' c); cbn [andb]; subst; try lia; by apply Hcell.
Qed.

Lemma rep_weaken rest F F' bs M : rep rest F bs M -> (forall l c, 0 <= l < p -> 0 <= c < q -> F' l c -> F l c) -> rep rest F' bs M.
Proof. intros [H1 H2 H3] HF. split; [done|done|]. intros l c Hl Hc H. by apply H3, HF. Qed.

(** ** The index block *)

#[local] Opaque g_rounds G_rfc xor_block.

Lemma refresh_address pass slice lane st :
  index_block (refresh_index config pass slice lane st) = address_block pass lane slice (index_ctr st).
Proof.
  unfold refresh_index, address_block. cbn [index_block]. rewrite rounded_blocks_eq.
  rewrite (g_rounds_zero ([pass; lane; slice; m'; t; y; index_ctr st] ++ replicate 121 0) eq_refl).
  exact (g_rounds_zero _ (length_G_rfc _ _)).
Qed.

Lemma refresh_blocks pass slice lane st : blocks (refresh_index config pass slice lane st) = blocks st.
Proof. exact eq_refl. Qed.
Lemma refresh_ctr pass slice lane st : index_ctr (refresh_index config pass slice lane st) = add32 (index_ctr st) 1.
Proof. exact eq_refl. Qed.
#[local] Opaque refresh_index address_block.

Definition index_state (ct : bool) (pass slice lane b : Z) (st : segment_state) : Prop := ct = true ->
  (b = first_block pass slice -> index_ctr st = 1) /\
  (first_block pass slice < b -> index_block st = address_block pass lane slice ((b - 1) / 128 + 1) /\ index_ctr st = (b - 1) / 128 + 2).

(** The index block that block [b] reads. *)
Lemma refresh_spec pass slice lane b st : block_ok pass slice lane b -> index_state true pass slice lane b st ->
  let st' := if (b =? first_block pass slice) || (b mod 128 =? 0) then refresh_index config pass slice lane st else st in
  blocks st' = blocks st /\ index_block st' = address_block pass lane slice (b / 128 + 1) /\ index_ctr st' = b / 128 + 2.
Proof.
  intros (B1 & B2 & B3 & B4) Hi. pose proof q_le as Hq. destruct (Hi eq_refl) as [I1 I2]. assert (0 <= first_block pass slice <= 2) as Hf by (unfold first_block; case_match; lia).
  assert (forall n, 0 <= n < 2 ^ 31 -> add32 n 1 = n + 1) as Ha by (intros n Hn; apply u32_small; unfold is_u32; lia). cbv zeta.
  destruct (Z.eqb_spec b (first_block pass slice)) as [E|E]; cbn [orb].
  - specialize (I1 E). rewrite refresh_address, refresh_blocks, refresh_ctr, I1. assert (b / 128 = 0) as -> by (apply Z.div_small; lia). split_and!; reflexivity.
  - destruct (I2 ltac:(lia)) as [I3 I4]. destruct (Z.eqb_spec (b mod 128) 0) as [E0|E0].
    + rewrite refresh_address, refresh_blocks, refresh_ctr, I4, Ha by zlia. assert ((b - 1) / 128 + 2 = b / 128 + 1) as -> by zlia. split_and!; try reflexivity. lia.
    + rewrite I3, I4. assert ((b - 1) / 128 = b / 128) as -> by zlia. split_and!; reflexivity.
Qed.

(** ** One block *)

#[local] Opaque reference_index window.

Lemma previous_cell pass slice lane b : block_ok pass slice lane b -> let c := (slice * seg + b - 1) mod q in
  (if (b =? 0) && (mul32 slice seg =? 0) then mul32 lane q + mul32 slice seg + q - 1 else mul32 lane q + mul32 slice seg + b - 1) = lane * q + c /\
  0 <= c < q /\ filled pass slice lane b lane c.
Proof.
  intros (B1 & B2 & B3 & B4). pose proof q_le as Hq. destruct (first_block_cases _ _ _ (proj1 B4)) as [B0 B5]. cbv zeta.
  assert (0 <= slice * seg <= 3 * seg) as Hs by nia. pose proof (cell_range lane 0 B3 ltac:(lia)) as Hl. pose proof m'_range as Hm'.
  assert (mul32 slice seg = slice * seg) as -> by (apply u32_small; unfold is_u32; lia).
  assert (mul32 lane q = lane * q) as -> by (apply u32_small; unfold is_u32; lia).
  assert (slice * seg = 0 <-> slice = 0) as Hz by nia. unfold filled. set (o := slice * seg) in *. clearbody o.
  destruct (Z.eqb_spec b 0) as [->|Hb], (Z.eqb_spec o 0) as [Ho|Ho]; cbn [andb].
  1: { assert ((o + 0 - 1) mod q = q - 1) as -> by (symmetry; apply (Z.mod_unique _ _ (-1)); lia). split; [lia|]. split; [lia|].
       left. assert (slice = 0) by tauto. destruct (Z.eq_dec pass 0) as [E|]; [specialize (B5 E ltac:(done)); lia|lia]. }
  all: rewrite Z.mod_small by lia; split; [lia|]; split; [lia|]; lia.
Qed.

(** The new content of the current block. *)
Lemma write_block pass bs cur prev ref : 0 <= cur < Z.of_nat (length bs) ->
  let tmp := xor_block (blk_at bs prev) (blk_at bs ref) in
  let bs' := if pass =? 0 then set_blk bs cur tmp else set_blk bs cur (xor_block (blk_at bs cur) tmp) in
  let G := G_rfc (blk_at bs prev) (blk_at bs ref) in
  set_blk bs' cur (xor_block (blk_at bs' cur) (g_rounds tmp)) = set_blk bs cur (if pass =? 0 then G else xor_block (blk_at bs cur) G).
Proof.
  intros Hc. cbv zeta. pose proof (g_rounds_G (blk_at bs prev) (blk_at bs ref)) as E. cbv zeta in E.
  set (tmp := xor_block (blk_at bs prev) (blk_at bs ref)) in *. clearbody tmp.
  destruct (pass =? 0); rewrite blk_at_set, Z.eqb_refl by lia; unfold set_blk; rewrite list_insert_insert_eq; [by rewrite E|by rewrite xor_assoc, E].
Qed.

Lemma fill_block_spec rest pass slice lane b st M : block_ok pass slice lane b ->
  let ct := data_independent pass slice in
  index_state ct pass slice lane b st -> rep rest (filled pass slice lane b) (blocks st) M ->
  let st' := fill_block config ct pass slice lane (first_block pass slice) st b in
  rep rest (filled pass slice lane (b + 1)) (blocks st') (cell_rfc pass slice lane M b) /\ index_state ct pass slice lane (b + 1) st'.
Proof.
  intros Hb ct Hi Hrep. cbv zeta. unfold fill_block. rewrite segment_size_eq, lane_size_eq.
  destruct (previous_cell pass slice lane b Hb) as (Ep & Hc & Hf). cbv zeta. rewrite Ep. clear Ep.
  set (c := (slice * seg + b - 1) mod q) in *. pose proof Hb as (B1 & B2 & B3 & B4). pose proof q_le as Hq. destruct (first_block_cases _ _ _ (proj1 B4)) as [B0 _].
  pose proof (rep_cell _ _ _ _ Hrep lane c B3 Hc Hf) as Eprev.
  assert (exists st1, (if ct then
        (rd (index_block (if (b =? first_block pass slice) || (b mod 128 =? 0) then refresh_index config pass slice lane st else st)) (b mod 128),
         if (b =? first_block pass slice) || (b mod 128 =? 0) then refresh_index config pass slice lane st else st) else (rd (blk_at (blocks st) (lane * q + c)) 0, st)) = (J_rfc M pass slice lane b, st1) /\
      blocks st1 = blocks st /\ index_state ct pass slice lane (b + 1) st1) as (st1 & -> & Eb & Hi1).
  { unfold J_rfc. fold ct. destruct ct.
    - destruct (refresh_spec pass slice lane b st Hb Hi) as (R1 & R2 & R3). cbv zeta in R1, R2, R3 |- *. eexists. rewrite R2. split; [reflexivity|]. split; [exact R1|].
      intros _. split; [lia|]. intros _. replace (b + 1 - 1) with b by lia. exact (conj R2 R3).
    - exists st. rewrite Eprev. split; [reflexivity|]. split; [reflexivity|]. intros E. discriminate E. }
  split; [|intros E; exact (Hi1 E)]. cbn [blocks]. rewrite Eb.
  destruct (reference_spec pass slice lane b (J_rfc M pass slice lane b) Hb) as (-> & Hl & Hz & Hw).
  unfold cell_rfc. cbv zeta. set (l := ref_lane pass slice lane (J_rfc M pass slice lane b)) in *.
  assert (pass = 0 -> slice = 0 -> l = lane) as Hsame by (intros -> ->; reflexivity).
  set (W := window pass slice b (l =? lane)) in *. set (z := rd W (ref_position W (J_rfc M pass slice lane b))) in *.
  assert (In z W) as Hin by (apply nth_In; lia).
  destruct (window_filled pass slice lane b l z Hb Hl Hsame Hin) as (Fz & _). clearbody z. clear Hw Hin W. clearbody l.
  pose proof (rep_cell _ _ _ _ Hrep l z Hl Hz Fz) as Eref.
  assert (0 <= slice * seg <= 3 * seg) as Hs by nia. pose proof (cell_range lane 0 B3 ltac:(lia)) as Hl0. pose proof m'_range as Hm'.
  assert (mul32 slice seg = slice * seg) as -> by (apply u32_small; unfold is_u32; lia).
  assert (mul32 lane q = lane * q) as -> by (apply u32_small; unfold is_u32; lia).
  pose proof (cell_range lane (slice * seg + b) B3 ltac:(lia)) as Hcur. pose proof (rep_len _ _ _ _ Hrep) as Hlen.
  rewrite (write_block pass (blocks st) (lane * q + slice * seg + b) (lane * q + c) (l * q + z)) by lia. rewrite Eprev, Eref, <- Z.add_assoc.
  assert (pass <> 0 -> blk_at (blocks st) (lane * q + (slice * seg + b)) = M lane (slice * seg + b)) as Ecur.
  { intros Hn. apply (rep_cell _ _ _ _ Hrep lane (slice * seg + b) B3 ltac:(lia)). left. lia. }
  assert ((if pass =? 0 then G_rfc (M lane c) (M l z) else xor_block (blk_at (blocks st) (lane * q + (slice * seg + b))) (G_rfc (M lane c) (M l z))) =
          (if pass =? 0 then G_rfc (M lane c) (M l z) else xor_block (M lane (slice * seg + b)) (G_rfc (M lane c) (M l z)))) as ->.
  { destruct (Z.eqb_spec pass 0); [reflexivity|]. by rewrite Ecur. }
  apply (rep_set _ (filled pass slice lane b)); [exact Hrep|exact B3|lia|].
  intros l' c' Hl' Hc' F'. unfold filled in *. destruct (Z.eq_dec l' lane), (Z.eq_dec c' (slice * seg + b)); [left; done|right; lia..].
Qed.

(** ** Segments, slices, passes *)

#[local] Opaque fill_block cell_rfc.

Lemma segment_spec rest pass slice lane garbage bs M : 0 <= pass -> 0 <= slice < 4 -> 0 <= lane < p -> rep rest (filled pass slice lane 0) bs M ->
  rep rest (filled pass slice (lane + 1) 0) (fill_segment config (data_independent pass slice) pass slice (first_block pass slice) garbage bs lane)
    (segment_rfc pass slice M lane).
Proof.
  intros Hp0 Hs Hl Hrep. destruct seg_bounds as [Hseg _]. unfold fill_segment, segment_rfc. rewrite segment_size_eq. set (off := first_block pass slice).
  assert (0 <= off <= 2 /\ (0 < off -> slice = 0)) as [Ho Ho'] by (unfold off, first_block; destruct (Z.eqb_spec pass 0), (Z.eqb_spec slice 0); cbn [andb]; lia).
  pose proof (fold_range (fun b st M => rep rest (filled pass slice lane b) (blocks st) M /\ index_state (data_independent pass slice) pass slice lane b st)
    (fill_block config (data_independent pass slice) pass slice lane off) (cell_rfc pass slice lane) off (seg - off) (mkSegment bs garbage 1) M ltac:(lia)) as F.
  destruct F as [F _].
  - split.
    + apply (rep_weaken _ (filled pass slice lane 0)); [exact Hrep|]. intros l c _ _ H. unfold filled in *. destruct (Z.eq_dec off 0) as [->|]; [exact H|]. specialize (Ho' ltac:(lia)). lia.
    + intros _. fold off. split; [done|lia].
  - intros b st N Hb [H1 H2]. apply fill_block_spec; [|exact H2|exact H1]. unfold block_ok. fold off. lia.
  - replace (off + (seg - off)) with seg in F by lia. apply (rep_weaken _ _ _ _ _ F). intros l c _ _ H. unfold filled in *. lia.
Qed.

Hypothesis Hy : y = 0 \/ y = 1 \/ y = 2.

(** The variable [constant_time] before a slice. *)
Definition constant_before (pass slice : Z) : bool := (y =? 1) || ((y =? 2) && (pass =? 0) && (slice <=? 2)).

Lemma slice_spec rest garbage pass slice ct bs M : 0 <= pass -> 0 <= slice < 4 -> ct = constant_before pass slice -> rep rest (filled pass slice 0 0) bs M ->
  let st := fill_slice config garbage pass (ct, bs) slice in
  st.1 = constant_before pass (slice + 1) /\ rep rest (filled pass (slice + 1) 0 0) st.2 (slice_rfc pass M slice).
Proof.
  intros Hp0 Hs -> Hrep. cbv zeta. unfold fill_slice, slice_rfc. cbn [fst snd]. fold (first_block pass slice).
  assert ((if (slice =? 2) && (y =? CRYPTO_ARGON2_ID) then false else constant_before pass slice) = data_independent pass slice) as ->.
  { unfold constant_before, data_independent, CRYPTO_ARGON2_ID. destruct Hy as [-> | [-> | ->]]; cbn [Z.eqb Pos.eqb orb andb].
    - by rewrite andb_false_r.
    - by rewrite andb_false_r.
    - rewrite andb_true_r. destruct (Z.eqb_spec slice 2) as [->|]; [by rewrite andb_false_r|]. f_equal. lia. }
  split.
  - unfold constant_before, data_independent. f_equal. f_equal. lia.
  - pose proof (fold_range (fun l bs M => rep rest (filled pass slice l 0) bs M) (fill_segment config (data_independent pass slice) pass slice (first_block pass slice) garbage)
      (segment_rfc pass slice) 0 p bs M ltac:(lia) Hrep) as F.
    apply (rep_weaken _ (filled pass slice (0 + p) 0)).
    + apply F. intros l bs' M' Hl H. apply segment_spec; [exact Hp0|exact Hs|lia|exact H].
    + intros l c Hl Hc H. unfold filled in *. lia.
Qed.

#[local] Opaque fill_slice slice_rfc.

Lemma pass_spec rest garbage pass ct bs M : 0 <= pass -> ct = constant_before pass 0 -> rep rest (filled pass 0 0 0) bs M ->
  let st := fold_left (fill_slice config garbage pass) (seqZ 0 4) (ct, bs) in
  st.1 = constant_before (pass + 1) 0 /\ rep rest (filled (pass + 1) 0 0 0) st.2 (pass_rfc M pass).
Proof.
  intros Hp0 Hct Hrep. cbv zeta. unfold pass_rfc. pose proof q_le as Hq.
  destruct (fold_range (fun s st M => st.1 = constant_before pass s /\ rep rest (filled pass s 0 0) st.2 M) (fill_slice config garbage pass) (slice_rfc pass) 0 4 (ct, bs) M ltac:(lia)) as [F1 F2].
  - split; [exact Hct|exact Hrep].
  - intros s [ct' bs'] M' Hs [H1 H2]. cbn [fst snd] in H1, H2. apply slice_spec; [exact Hp0|lia|exact H1|exact H2].
  - split.
    + rewrite F1. unfold constant_before. replace (pass + 1 =? 0) with false by lia. replace (0 + 4 <=? 2) with false by reflexivity.
      f_equal. destruct (y =? 2), (pass =? 0); reflexivity.
    + apply (rep_weaken _ _ _ _ _ F2). intros l c _ Hc _. unfold filled. lia.
Qed.

Lemma fill_spec rest garbage bs M : 1 <= t -> rep rest (filled 0 0 0 0) bs M ->
  rep rest (fun _ _ => True) (fill_passes config garbage bs).2 (fill_rfc M).
Proof.
  intros Ht Hrep. unfold fill_passes, fill_rfc.
  destruct (fold_range (fun k st M => st.1 = constant_before k 0 /\ rep rest (filled k 0 0 0) st.2 M)
    (fun st pass => fold_left (fill_slice config garbage pass) (seqZ 0 4) st) pass_rfc 0 t (negb (y =? CRYPTO_ARGON2_D), bs) M ltac:(lia)) as [_ F].
  - split; [|exact Hrep]. unfold constant_before, CRYPTO_ARGON2_D. destruct Hy as [-> | [-> | ->]]; reflexivity.
  - intros k [ct bs'] M' Hk [H1 H2]. cbn [fst snd] in H1, H2. apply pass_spec; [lia|exact H1|exact H2].
  - apply (rep_weaken _ _ _ _ _ F). intros l c _ _ _. unfold filled. lia.
Qed.

(** ** The first two columns *)

#[local] Opaque extended_hash H'_rfc.

Lemma rep_fill rest (F F' : Z -> Z -> Prop) bs M l c b : rep rest F bs M -> 0 <= l < p -> 0 <= c < q -> M l c = b ->
  (forall l' c', 0 <= l' < p -> 0 <= c' < q -> F' l' c' -> (l' = l /\ c' = c) \/ F l' c') -> rep rest F' (set_blk bs (l * q + c) b) M.
Proof.
  intros Hrep Hl Hc Hb HF. destruct (rep_set rest F F' bs M l c b Hrep Hl Hc HF) as [H1 H2 H3]. split; [exact H1|exact H2|].
  intros l' c' Hl' Hc' H. rewrite (H3 l' c' Hl' Hc' H). unfold set_cell. destruct (Z.eqb_spec l' l), (Z.eqb_spec c' c); cbn [andb]; subst; done.
Qed.

Lemma load_words b : is_bytes b -> length b = 1024%nat -> load64_le_buf b 0 128 = words_of b.
Proof.
  intros Hb Hl. unfold load64_le_buf, words_of. apply map_ext_in. intros i Hi%in_seq. rewrite load64_le_bytes by (done || lia). do 3 f_equal. lia.
Qed.

Lemma first_cell h0 l c : is_bytes h0 -> 0 <= c < 2 ->
  load64_le_buf (extended_hash (replicate 1024 0) 1024 (h0 ++ store32_le c ++ store32_le l)) 0 128 = first_rfc h0 l c.
Proof.
  intros Hh Hc. unfold first_rfc. rewrite (proj2 (Z.ltb_lt c 2)) by lia. unfold LE32. rewrite <- !store32_le_bytes.
  rewrite extended_hash_spec; [|lia|reflexivity|apply is_bytes_app; [exact Hh|apply is_bytes_app; apply is_bytes_store32_le]].
  destruct (H'_rfc_ok 1024 (h0 ++ store32_le c ++ store32_le l) ltac:(lia)) as [B L]. by apply load_words.
Qed.

Lemma first_blocks_spec h0 bs : is_bytes h0 -> m' <= Z.of_nat (length bs) ->
  rep (drop (Z.to_nat m') bs) (filled 0 0 0 0) (first_blocks config h0 bs) (first_rfc h0).
Proof.
  intros Hh Hlen. unfold first_blocks. pose proof q_le as Hq. pose proof m'_range as Hm'.
  set (f := fun bs l => _). assert (forall n, (n <= Z.to_nat p)%nat -> rep (drop (Z.to_nat m') bs) (fun l c => l < Z.of_nat n /\ c < 2) (fold_left f (seq 0 n) bs) (first_rfc h0)) as H.
  { induction n as [|n IH]; intros Hn; [split; [exact Hlen|reflexivity|intros l c Hl _ [H _]; lia]|].
    rewrite seq_S, fold_left_app. cbn [Nat.add fold_left]. specialize (IH ltac:(lia)). set (b := fold_left f (seq 0 n) bs) in *. clearbody b.
    unfold f. cbn [seq fold_left]. rewrite lane_size_eq. change (Z.of_nat 0) with 0. change (Z.of_nat 1) with 1. rewrite !first_cell by (done || lia).
    pose proof (cell_range (Z.of_nat n) 1 ltac:(lia) ltac:(lia)) as Hr.
    assert (mul32 (Z.of_nat n) q = Z.of_nat n * q) as -> by (apply u32_small; unfold is_u32; lia).
    assert (forall i, 0 <= i < 2 -> add32 (Z.of_nat n * q) i = Z.of_nat n * q + i) as Ha by (intros i Hi; apply u32_small; unfold is_u32; lia). rewrite !Ha by lia.
    apply (rep_fill _ (fun l c => (l < Z.of_nat n /\ c < 2) \/ (l = Z.of_nat n /\ c = 0))); [|lia|lia|reflexivity|intros; lia].
    apply (rep_fill _ (fun l c => l < Z.of_nat n /\ c < 2)); [exact IH|lia|lia|reflexivity|intros; lia]. }
  apply (rep_weaken _ _ _ _ _ (H (Z.to_nat p) (le_n _))). intros l c Hl Hc F. unfold filled in F. lia.
Qed.

Lemma initial_hash_spec T inputs extras : is_bytes (pass_ inputs) -> is_bytes (salt inputs) -> is_bytes (key extras) -> is_bytes (ad extras) ->
  initial_hash config T inputs extras = H0_rfc T inputs extras.
Proof.
  intros Hpa Hsa Hke Had. unfold H0_rfc, with_length, LE32. rewrite <- !store32_le_bytes. pose proof is_bytes_store32_le as Hst.
  pose proof (H_rfc_code 64 [store32_le p; store32_le T; store32_le m; store32_le t; store32_le 0x13; store32_le y;
    store32_le (Z.of_nat (length (pass_ inputs))); pass_ inputs; store32_le (Z.of_nat (length (salt inputs))); salt inputs;
    store32_le (Z.of_nat (length (key extras))); key extras; store32_le (Z.of_nat (length (ad extras))); ad extras] ltac:(lia)) as E.
  cbn [concat] in E. rewrite app_nil_r in E. rewrite <- !app_assoc. apply E.
  repeat (apply Forall_cons; split; [first [apply Hst|assumption]|]). apply Forall_nil_2.
Qed.

(** ** The last column *)

Lemma xor_lanes_spec rest bs M : rep rest (fun _ _ => True) bs M ->
  let r := xor_lanes config bs in
  blk_at r.1 r.2 = fold_left (fun C l => xor_block (M l (q - 1)) C) (seqZ 1 (p - 1)) (M 0 (q - 1)) /\
  m' <= Z.of_nat (length r.1) /\ drop (Z.to_nat m') r.1 = rest.
Proof.
  intros [H1 H2 H3]. cbv zeta. unfold xor_lanes. rewrite lane_size_eq. pose proof q_le as Hq.
  destruct (fold_range (fun l (st : list (list Z) * Z) C => st.2 = (l - 1) * q + (q - 1) /\ blk_at st.1 st.2 = C /\ m' <= Z.of_nat (length st.1) /\
      drop (Z.to_nat m') st.1 = rest /\ forall l', l <= l' < p -> blk_at st.1 (l' * q + (q - 1)) = M l' (q - 1))
    (fun '(bs, last_block) _ => (set_blk bs (last_block + q) (xor_block (blk_at bs (last_block + q)) (blk_at bs last_block)), last_block + q))
    (fun C l => xor_block (M l (q - 1)) C) 1 (p - 1) (bs, q - 1) (M 0 (q - 1)) ltac:(lia)) as (F1 & F2 & F3 & F4 & _).
  - cbn [fst snd]. split_and!; [lia| |exact H1|exact H2|].
    + exact (H3 0 (q - 1) ltac:(lia) ltac:(lia) I).
    + intros l' Hl'. exact (H3 l' (q - 1) ltac:(lia) ltac:(lia) I).
  - intros l [b last] C Hl (Elast & I2 & I3 & I4 & I5). cbn [fst snd] in *. subst last. pose proof (cell_range l (q - 1) ltac:(lia) ltac:(lia)) as Hr.
    replace ((l - 1) * q + (q - 1) + q) with (l * q + (q - 1)) by ring. rewrite I2, (I5 l) by lia. split_and!.
    + ring.
    + rewrite blk_at_set, Z.eqb_refl by lia. reflexivity.
    + unfold set_blk. by rewrite length_insert.
    + unfold set_blk. rewrite drop_insert_lt by lia. exact I4.
    + intros l' Hl'. pose proof (cell_range l' (q - 1) ltac:(lia) ltac:(lia)) as Hr'. rewrite blk_at_set by lia.
      destruct (Z.eqb_spec (l' * q + (q - 1)) (l * q + (q - 1))) as [E|_]; [apply cell_inj in E; lia|apply I5; lia].
  - exact (conj F2 (conj F3 F4)).
Qed.

#[local] Opaque first_blocks initial_hash fill_passes xor_lanes.

Lemma crypto_argon2_spec garbage hash T work inputs extras :
  1 <= t -> 0 <= T < 2 ^ 32 -> Z.of_nat (length hash) = T -> m' <= Z.of_nat (length work) ->
  is_bytes (pass_ inputs) -> is_bytes (salt inputs) -> is_bytes (key extras) -> is_bytes (ad extras) ->
  (crypto_argon2 config garbage hash T work inputs extras).1 = argon2_rfc T inputs extras /\
  (m' < 2 ^ 25 -> (crypto_argon2 config garbage hash T work inputs extras).2 =
     replicate (Z.to_nat m') (replicate 128 0) ++ drop (Z.to_nat m') work).
Proof.
  intros Ht HT Lh Lw Bp Bs Bk Ba. unfold crypto_argon2. cbv zeta. rewrite (initial_hash_spec T inputs extras Bp Bs Bk Ba), rounded_blocks_eq.
  destruct (H_rfc_ok 64 (LE32 p ++ LE32 T ++ LE32 m ++ LE32 t ++ LE32 0x13 ++ LE32 y ++
    with_length (pass_ inputs) ++ with_length (salt inputs) ++ with_length (key extras) ++ with_length (ad extras)) ltac:(lia)) as [Bh _].
  fold (H0_rfc T inputs extras) in Bh. pose proof (first_blocks_spec _ work Bh Lw) as R1.
  apply (fill_spec _ garbage _ _ Ht) in R1. unfold argon2_rfc. cbv zeta.
  set (M := fill_rfc (first_rfc (H0_rfc T inputs extras))) in *. clearbody M.
  set (bs := fill_passes config garbage (first_blocks config (H0_rfc T inputs extras) work)) in *. clearbody bs. destruct bs as [ct bs]. cbn [snd] in R1.
  apply xor_lanes_spec in R1. cbv zeta in R1. destruct (xor_lanes config bs) as [bs' last]. cbn [fst snd] in R1 |- *. destruct R1 as (E1 & E2 & E3).
  rewrite E1. set (C := fold_left _ _ _). clearbody C. split.
  - assert (store64_le_buf C = bytes_of C) as -> by (unfold store64_le_buf, bytes_of; f_equal; apply map_ext; intros; apply store64_le_bytes).
    apply extended_hash_spec; [exact HT|exact Lh|]. unfold bytes_of. apply is_bytes_concat, Forall_fmap, Forall_true. intros. apply is_bytes_le_bytes.
  - intros Hm25. pose proof m'_range. assert (mul32 128 m' / 128 = m') as -> by (unfold mul32; rewrite u32_small by (unfold is_u32; lia); zlia). by rewrite E3.
Qed.
End rfc.

(** ** The contract *)

(** C22. [crypto_argon2] is the function of RFC 9106 for the three variants and all valid
    configurations, whatever the work area and the block of indices held before: the variable-length
    hash in overlapping buffers, the rounds on selected words, the blocks of indices refreshed every
    128 blocks, the window arithmetic in 32 and 64 bits and the flat array compute the memory of
    lanes and columns; up to 32 GiB the whole work area is wiped, and nothing behind it changes. *)
Theorem argon2_is_rfc9106 config garbage hash T work inputs extras :
  1 <= nb_lanes config -> 8 * nb_lanes config <= nb_blocks config < 2 ^ 32 -> 1 <= nb_passes config ->
  algorithm config = CRYPTO_ARGON2_D \/ algorithm config = CRYPTO_ARGON2_I \/ algorithm config = CRYPTO_ARGON2_ID ->
  0 <= T < 2 ^ 32 -> Z.of_nat (length hash) = T -> m' config <= Z.of_nat (length work) ->
  is_bytes (pass_ inputs) -> is_bytes (salt inputs) -> is_bytes (key extras) -> is_bytes (ad extras) ->
  (crypto_argon2 config garbage hash T work inputs extras).1 = argon2_rfc config T inputs extras /\
  (m' config < 2 ^ 25 -> (crypto_argon2 config garbage hash T work inputs extras).2 =
     replicate (Z.to_nat (m' config)) (replicate 128 0) ++ drop (Z.to_nat (m' config)) work).
Proof. intros Hp Hm Ht Hy. exact (crypto_argon2_spec config Hp Hm Hy garbage hash T work inputs extras Ht). Qed.

(** C23. Every reference is safe, for every value of the index word: the index lies in the work
    area, the block has been filled before, it is not the block being computed, and outside the
    own lane it is not in the slice that the other lanes are working on, so that the segments of
    a slice do not depend on each other. *)
Theorem argon2_reference_safe config pass slice lane b J :
  1 <= nb_lanes config -> 8 * nb_lanes config <= nb_blocks config < 2 ^ 32 -> block_ok config pass slice lane b ->
  exists l z, reference_index config pass slice lane b J = l * q config + z /\
    0 <= l < nb_lanes config /\ 0 <= z < q config /\ 0 <= l * q config + z < rounded_blocks config /\
    filled config pass slice lane b l z /\
    (l = lane -> z <> slice * seg config + b) /\
    (l <> lane -> z < slice * seg config \/ slice * seg config + seg config <= z).
Proof.
  intros Hp Hm Hb. destruct (reference_spec config Hp Hm pass slice lane b J Hb) as (E & Hl & Hz & Hw).
  set (l := ref_lane config pass slice lane J) in *. set (W := window config pass slice b (l =? lane)) in *.
  assert (pass = 0 -> slice = 0 -> l = lane) as Hs by (intros -> ->; reflexivity).
  assert (In (rd W (ref_position W J)) W) as Hin by (apply nth_In; lia).
  destruct (window_filled config Hp Hm pass slice lane b l _ Hb Hl Hs Hin) as (F1 & F2 & F3).
  exists l, (rd W (ref_position W J)). rewrite (rounded_blocks_eq config Hp Hm). pose proof (cell_range config Hp Hm l _ Hl Hz). split_and!; try done; try lia; intros El; apply (F3 El).
Qed.

(** From 32 GiB on the number of words to wipe wraps. *)
Lemma argon2_wipe_wraps : let config := mkConfig CRYPTO_ARGON2_ID (2 ^ 25) 1 1 in rounded_blocks config = 2 ^ 25 /\ mul32 128 (rounded_blocks config) = 0.
Proof. vm_compute. split; reflexivity. Qed.

Lemma argon2_is_rfc9106_witness :
  let config := mkConfig CRYPTO_ARGON2_ID 17 1 2 in let work := replicate 20 [7] in
  let inputs := mkInputs [1; 2] [3] in
  (crypto_argon2 config [] (replicate 40 9) 40 work inputs crypto_argon2_no_extras).1 = argon2_rfc config 40 inputs crypto_argon2_no_extras /\
  (m' config < 2 ^ 25 -> (crypto_argon2 config [] (replicate 40 9) 40 work inputs crypto_argon2_no_extras).2 =
     replicate (Z.to_nat (m' config)) (replicate 128 0) ++ drop (Z.to_nat (m' config)) work).
Proof.
  intros config work inputs. apply (argon2_is_rfc9106 config [] (replicate 40 9) 40 work inputs crypto_argon2_no_extras); try (vm_compute; congruence);
    [cbn; lia|right; right; reflexivity|lia|apply (bool_decide_unpack _); vm_compute; exact I..].
Defined.

Lemma argon2_reference_safe_witness : let config := mkConfig CRYPTO_ARGON2_D 17 1 2 in
  exists l z, reference_index config 0 1 1 0 12345678901 = l * q config + z /\
    0 <= l < nb_lanes config /\ 0 <= z < q config /\ 0 <= l * q config + z < rounded_blocks config /\
    filled config 0 1 1 0 l z /\
    (l = 1 -> z <> 1 * seg config + 0) /\
    (l <> 1 -> z < 1 * seg config \/ 1 * seg config + seg config <= z).
Proof.
  intros config. apply (argon2_reference_safe config 0 1 1 0 12345678901); [vm_compute; discriminate|cbn; lia|].
  unfold block_ok. change (seg config) with 2. cbn. lia.
Defined.
