(* ===== verification/Scalar.v ===== *)
(** * Arithmetic modulo the order of the base point (library/crypto/monocypher.c)

    Integers of eight and sixteen 32-bit words, the reduction modulo L by Barrett's
    method, and the two functions built on it. *)

From S2P Require Import Prelude Monocypher.

Definition L : list Z :=
  [0x5cf5d3ed; 0x5812631a; 0xa2f79cd6; 0x14def9de; 0x00000000; 0x00000000; 0x00000000; 0x10000000].

(** The inner loop of the products: [for (j = 0; j < n; j++)] with the carry. *)
Definition mul_row (x : Z) (b p : list Z) (i : Z) (n : nat) : list Z * Z :=
  fold_left (fun '(p, carry) j =>
    let carry := add64 carry (add64 (rd p (i + Z.of_nat j)) (mul64 x (rd b (Z.of_nat j)))) in
    (wr p (i + Z.of_nat j) (u32 carry), shr64 carry 32)) (seq 0 n) (p, 0).

Definition multiply (p a b : list Z) : list Z :=
  fold_left (fun p i =>
    let '(p, carry) := mul_row (rd a (Z.of_nat i)) b p (Z.of_nat i) 8 in
    wr p (Z.of_nat i + 8) (u32 carry)) (seq 0 8) p.

(** [carry += f(i); r[i] = (u32)carry; carry >>= 32;] for eight words. *)
Definition carry_loop (carry : Z) (f : Z -> Z) : list Z * Z :=
  fold_left (fun '(r, carry) i =>
    let carry := add64 carry (f (Z.of_nat i)) in (r ++ [u32 carry], shr64 carry 32)) (seq 0 8) ([], carry).

Definition is_above_l (x : list Z) : Z :=
  (carry_loop 1 (fun i => add64 (rd x i) (Z.land (not32 (rd L i)) 0xffffffff))).2.

Definition remove_l (x : list Z) : list Z :=
  let carry := is_above_l x in
  let mask := add32 (not32 (u32 carry)) 1 in
  (carry_loop carry (fun i => add64 (rd x i) (Z.land (not32 (rd L i)) mask))).1.

Definition barrett_r : list Z :=
  [0x0a2c131b; 0xed9ce5a3; 0x086329a7; 0x2106215d; 0xffffffeb; 0xffffffff; 0xffffffff; 0xffffffff; 0xf].

(** [xr = x * r] *)
Definition mul_by_r (x : list Z) : list Z :=
  fold_left (fun xr i =>
    let '(xr, carry) := mul_row (rd barrett_r (Z.of_nat i)) x xr (Z.of_nat i) 16 in
    wr xr (Z.of_nat i + 16) (u32 carry)) (seq 0 9) (replicate 25 0).

(** [xr = floor(xr / 2^512) * L], its first 256 bits. *)
Definition mul_by_l (xr : list Z) : list Z :=
  let xr := copy_at xr 0 (replicate 8 0) in
  fold_left (fun xr i => (mul_row (rd xr (Z.of_nat i + 16)) L xr (Z.of_nat i) (8 - i)).1) (seq 0 8) xr.

Definition mod_l (x : list Z) : list Z :=
  let xr := mul_by_r x in
  let xr := mul_by_l xr in
  let '(low, _) := carry_loop 1 (fun i => add64 (rd x i) (Z.land (not32 (rd xr i)) 0xffffffff)) in
  let xr := copy_at xr 0 low in
  store32_le_buf (remove_l (take 8 xr)).

Definition crypto_eddsa_reduce (expanded : list Z) : list Z := mod_l (load32_le_buf expanded 0 16).

Definition crypto_eddsa_mul_add (a b c : list Z) : list Z :=
  let A := load32_le_buf a 0 8 in
  let B := load32_le_buf b 0 8 in
  let p := load32_le_buf c 0 8 ++ replicate 8 0 in
  mod_l (multiply p A B).

(** ** Values *)

Fixpoint wval (l : list Z) : Z := match l with [] => 0 | x :: l => x + 2 ^ 32 * wval l end.
Definition words32 (l : list Z) : Prop := Forall is_u32 l.

Definition order : Z := 2 ^ 252 + 27742317777372353535851937790883648493.

Lemma wval_L : wval L = order.
Proof. reflexivity. Qed.

Lemma wval_app a b : wval (a ++ b) = wval a + 2 ^ (32 * Z.of_nat (length a)) * wval b.
Proof.
  induction a as [|x a IH]; [cbn [wval app length]; change (2 ^ (32 * Z.of_nat 0)) with 1; lia|]. cbn [wval app length]. rewrite IH.
  replace (32 * Z.of_nat (S (length a))) with (32 + 32 * Z.of_nat (length a)) by lia. rewrite Z.pow_add_r by lia. ring.
Qed.

Lemma wval_range l : words32 l -> 0 <= wval l < 2 ^ (32 * Z.of_nat (length l)).
Proof.
  induction 1 as [|x l Hx _ IH]; [cbn; lia|]. cbn [wval length].
  replace (32 * Z.of_nat (S (length l))) with (32 + 32 * Z.of_nat (length l)) by lia. rewrite Z.pow_add_r by lia.
  unfold is_u32 in Hx. nia.
Qed.

Lemma wval_wr l i v : (0 <= i < Z.of_nat (length l)) -> wval (wr l i v) = wval l + (v - rd l i) * 2 ^ (32 * i).
Proof.
  intros Hi. unfold wr, rd. set (n := Z.to_nat i). replace i with (Z.of_nat n) by lia. assert (n < length l)%nat as Hn by lia.
  clearbody n. clear Hi i. revert n Hn. induction l as [|x l IH]; intros n Hn; [cbn in Hn; lia|].
  destruct n as [|n]; [change (<[0%nat := v]> (x :: l)) with (v :: l)|change (<[S n := v]> (x :: l)) with (x :: <[n := v]> l)];
    cbn [wval nth].
  - change (32 * Z.of_nat 0) with 0. rewrite Z.pow_0_r. ring.
  - cbn [length] in Hn. specialize (IH n ltac:(lia)). rewrite IH.
    replace (32 * Z.of_nat (S n)) with (32 + 32 * Z.of_nat n) by lia. rewrite Z.pow_add_r by lia. ring.
Qed.

Lemma wval_split n l : wval l = wval (take n l) + 2 ^ (32 * Z.of_nat (length (take n l))) * wval (drop n l).
Proof. rewrite <- wval_app, take_drop. done. Qed.

Lemma wval_replicate0 n : wval (replicate n 0) = 0.
Proof. induction n as [|n IH]; [done|]. cbn [replicate wval]. lia. Qed.

Lemma wval_store l : words32 l -> le_val (store32_le_buf l) = wval l.
Proof.
  induction 1 as [|x l Hx _ IH]; [done|]. unfold store32_le_buf in *. cbn [map concat wval].
  rewrite le_val_app, length_store32_le, IH, store32_le_bytes, le_val_le_bytes. rewrite Z.mod_small by (unfold is_u32 in Hx; cbn; lia). done.
Qed.

Lemma is_bytes_store_buf l : is_bytes (store32_le_buf l).
Proof. unfold store32_le_buf. apply is_bytes_concat, Forall_fmap, Forall_true. intros. apply is_bytes_store32_le. Qed.
Lemma length_store_buf l : length (store32_le_buf l) = (4 * length l)%nat.
Proof. unfold store32_le_buf. induction l as [|x l IH]; [done|]. cbn [map concat length]. rewrite length_app, IH, length_store32_le. lia. Qed.

(** ** Rows *)

Lemma words32_rd l i : words32 l -> is_u32 (rd l i).
Proof. intros H. apply Forall_rd; [done|unfold is_u32; lia]. Qed.

Lemma wval_take_S n b : (n < length b)%nat -> wval (take (S n) b) = wval (take n b) + rd b (Z.of_nat n) * 2 ^ (32 * Z.of_nat n).
Proof.
  intros Hn. destruct (lookup_lt_is_Some_2 b n Hn) as [y Hy]. rewrite (take_S_r _ _ _ Hy), wval_app, length_take, Nat.min_l by lia.
  unfold rd. rewrite Nat2Z.id, (nth_lookup_Some _ _ _ _ Hy). cbn [wval]. ring.
Qed.

(** One word of a product: nothing overflows 64 bits. *)
Lemma mac_word c p x y :
  is_u32 c -> is_u32 p -> is_u32 x -> is_u32 y ->
  let s := add64 c (add64 p (mul64 x y)) in s = c + p + x * y /\ is_u32 (u32 s) /\ is_u32 (shr64 s 32) /\ u32 s + 2 ^ 32 * shr64 s 32 = s.
Proof.
  intros Hc Hp Hx Hy. unfold is_u32 in Hc, Hp, Hx, Hy. assert (0 <= x * y <= (2 ^ 32 - 1) * (2 ^ 32 - 1)) as Hm by nia.
  assert (mul64 x y = x * y) as E1 by (apply u64_small; unfold is_u64; lia).
  assert (add64 p (x * y) = p + x * y) as E2 by (apply u64_small; unfold is_u64; lia).
  assert (add64 c (p + x * y) = c + (p + x * y)) as E3 by (apply u64_small; unfold is_u64; lia).
  cbv zeta. rewrite E1, E2, E3, shr64_div by lia. set (s := c + (p + x * y)).
  split_and!; [unfold s; lia|apply u32_range|unfold is_u32; zlia|unfold u32; zlia].
Qed.

Record row_ok (x : Z) (b p p' : list Z) (i : Z) (n : nat) (c : Z) : Prop := {
  ro_len : length p' = length p;
  ro_words : words32 p';
  ro_carry : is_u32 c;
  ro_val : wval p' + c * 2 ^ (32 * (i + Z.of_nat n)) = wval p + x * wval (take n b) * 2 ^ (32 * i);
  ro_frame : forall k, 0 <= k -> k < i \/ i + Z.of_nat n <= k -> rd p' k = rd p k
}.

Lemma mul_row_spec x b p i n :
  is_u32 x -> words32 b -> words32 p -> (n <= length b)%nat -> 0 <= i -> i + Z.of_nat n <= Z.of_nat (length p) ->
  row_ok x b p (mul_row x b p i n).1 i n (mul_row x b p i n).2.
Proof.
  intros Hx Hb Hp Hn Hi Hl. unfold mul_row. induction n as [|n IH].
  { cbn [seq fold_left fst snd take wval]. split; [done|done|unfold is_u32; lia|rewrite Z.mul_0_l, take_0; cbn [wval]; rewrite Z.mul_0_r, Z.mul_0_l; done|done]. }
  specialize (IH ltac:(lia) ltac:(lia)). rewrite seq_S, fold_left_app. cbn [Nat.add fold_left].
  destruct (fold_left _ (seq 0 n) (p, 0)) as [q c]. cbn [fst snd] in *. destruct IH as [H1 H2 H3 H4 H5].
  destruct (mac_word c (rd q (i + Z.of_nat n)) x (rd b (Z.of_nat n)) H3 (words32_rd _ _ H2) Hx (words32_rd _ _ Hb)) as (Es & U & V & W).
  set (s := add64 c _) in *. split.
  - by rewrite length_wr.
  - by apply Forall_wr.
  - done.
  - rewrite wval_wr by lia. rewrite wval_take_S by lia.
    replace (32 * (i + Z.of_nat (S n))) with (32 * (i + Z.of_nat n) + 32) by lia. rewrite Z.pow_add_r by lia.
    replace (32 * (i + Z.of_nat n)) with (32 * i + 32 * Z.of_nat n) in * by lia. rewrite Z.pow_add_r in * by lia.
    set (A := 2 ^ (32 * i)) in *. set (B := 2 ^ (32 * Z.of_nat n)) in *. set (C := 2 ^ 32) in *.
    transitivity (wval q + (u32 s + C * shr64 s 32 - rd q (i + Z.of_nat n)) * (A * B)); [ring|]. rewrite W, Es.
    transitivity (wval q + c * (A * B) + x * rd b (Z.of_nat n) * (A * B)); [ring|]. rewrite H4. ring.
  - intros k Hk Hr. rewrite rd_wr_ne by lia. apply H5; lia.
Qed.

(** ** Products *)

(** The outer loop of a full product: the word above the row is still 0 and takes the carry. *)
Lemma mul_rows a b p m n :
  words32 a -> words32 b -> words32 p -> (n <= length a)%nat -> length b = m -> (n + m <= length p)%nat ->
  (forall k, Z.of_nat m <= k -> rd p k = 0) ->
  let q := fold_left (fun p i => let '(p, carry) := mul_row (rd a (Z.of_nat i)) b p (Z.of_nat i) m in
                                 wr p (Z.of_nat i + Z.of_nat m) (u32 carry)) (seq 0 n) p in
  length q = length p /\ words32 q /\ wval q = wval p + wval (take n a) * wval b /\
  (forall k, Z.of_nat (n + m) <= k -> rd q k = 0).
Proof.
  intros Ha Hb Hp Hn Hm Hl Hz. cbv zeta. induction n as [|n IH].
  { cbn [seq fold_left Nat.add]. rewrite take_0. cbn [wval]. split_and!; try done; ring. }
  specialize (IH ltac:(lia) ltac:(lia)). rewrite seq_S, fold_left_app. cbn [Nat.add fold_left].
  set (q := fold_left _ (seq 0 n) p) in *. destruct IH as (I1 & I2 & I3 & I4).
  pose proof (mul_row_spec (rd a (Z.of_nat n)) b q (Z.of_nat n) m (words32_rd _ _ Ha) Hb I2 ltac:(lia) ltac:(lia) ltac:(lia)) as R.
  destruct (mul_row (rd a (Z.of_nat n)) b q (Z.of_nat n) m) as [q' c]. cbn [fst snd] in R. destruct R as [R1 R2 R3 R4 R5].
  rewrite (u32_small c) by done. split_and!.
  - rewrite length_wr. lia.
  - by apply Forall_wr.
  - rewrite wval_wr by lia. rewrite (R5 (Z.of_nat n + Z.of_nat m)), I4 by lia. rewrite wval_take_S, take_ge in * by lia.
    replace (wval q' + (c - 0) * 2 ^ (32 * (Z.of_nat n + Z.of_nat m))) with (wval q' + c * 2 ^ (32 * (Z.of_nat n + Z.of_nat m))) by ring.
    rewrite R4, I3. ring.
  - intros k Hk. rewrite rd_wr_ne by lia. rewrite R5 by lia. apply I4. lia.
Qed.

Lemma rd_app_replicate p n k : Z.of_nat (length p) <= k -> rd (p ++ replicate n 0) k = 0.
Proof. intros Hk. unfold rd. rewrite app_nth2 by lia. rewrite <- (Nat2Z.id (_ - _)). apply rd_replicate. Qed.

Lemma multiply_spec a b c :
  words32 a -> words32 b -> words32 c -> length a = 8%nat -> length b = 8%nat -> length c = 8%nat ->
  let p := multiply (c ++ replicate 8 0) a b in
  length p = 16%nat /\ words32 p /\ wval p = wval a * wval b + wval c.
Proof.
  intros Ha Hb Hc La Lb Lc. cbv zeta.
  assert (words32 (c ++ replicate 8 0)) as Hp by (apply Forall_app; split; [done|repeat constructor; unfold is_u32; lia]).
  destruct (mul_rows a b (c ++ replicate 8 0) 8 8) as (H1 & H2 & H3 & _); try done; [lia|rewrite length_app, Lc; cbn; lia|intros k Hk; apply rd_app_replicate; lia|].
  split_and!; [etransitivity; [exact H1|]; by rewrite length_app, Lc|exact H2|]. etransitivity; [exact H3|].
  rewrite take_ge, wval_app, wval_replicate0 by lia. lia.
Qed.

(** ** Carries *)

Definition isum (f : Z -> Z) (n : nat) : Z := fold_left (fun s i => s + f (Z.of_nat i) * 2 ^ (32 * Z.of_nat i)) (seq 0 n) 0.

Lemma isum_S f n : isum f (S n) = isum f n + f (Z.of_nat n) * 2 ^ (32 * Z.of_nat n).
Proof. unfold isum. by rewrite seq_S, fold_left_app. Qed.

Lemma carry_loop_bound K carry f :
  0 <= carry <= K -> K < 2 ^ 31 -> (forall i, 0 <= i < 8 -> 0 <= f i < (K + 1) * 2 ^ 32 - K) ->
  length (carry_loop carry f).1 = 8%nat /\ words32 (carry_loop carry f).1 /\ 0 <= (carry_loop carry f).2 <= K /\
  wval (carry_loop carry f).1 + (carry_loop carry f).2 * 2 ^ 256 = carry + isum f 8.
Proof.
  intros Hc HK Hf. unfold carry_loop.
  assert (forall n, (n <= 8)%nat ->
    let r := fold_left (fun '(r, carry) i => let carry := add64 carry (f (Z.of_nat i)) in (r ++ [u32 carry], shr64 carry 32))
               (seq 0 n) ([], carry) in
    length r.1 = n /\ words32 r.1 /\ 0 <= r.2 <= K /\ wval r.1 + r.2 * 2 ^ (32 * Z.of_nat n) = carry + isum f n) as H.
  { induction n as [|n IH]; intros Hn; [cbn; split_and!; try constructor; lia|].
    specialize (IH ltac:(lia)). rewrite seq_S, fold_left_app. cbn [Nat.add fold_left].
    destruct (fold_left _ (seq 0 n) _) as [r c]. cbn [fst snd] in *. destruct IH as (I1 & I2 & I3 & I4).
    specialize (Hf (Z.of_nat n) ltac:(lia)). assert (add64 c (f (Z.of_nat n)) = c + f (Z.of_nat n)) as E by (apply u64_small; unfold is_u64; lia).
    rewrite E, shr64_div by lia. set (s := c + f (Z.of_nat n)) in *. split_and!.
    - rewrite length_app, I1. cbn. lia.
    - apply Forall_app. split; [done|]. repeat constructor; apply u32_range.
    - zlia.
    - subst s. zlia.
    - rewrite wval_app, I1, isum_S. cbn [wval]. replace (32 * Z.of_nat (S n)) with (32 * Z.of_nat n + 32) by lia.
      rewrite Z.pow_add_r by lia. set (B := 2 ^ (32 * Z.of_nat n)) in *. assert (u32 s + 2 ^ 32 * (s / 2 ^ 32) = s) as Es by (unfold u32; zlia).
      transitivity (wval r + B * (u32 s + 2 ^ 32 * (s / 2 ^ 32))); [ring|]. rewrite Es. unfold s.
      transitivity (wval r + c * B + f (Z.of_nat n) * B); [ring|]. rewrite I4. ring. }
  exact (H 8%nat ltac:(lia)).
Qed.

Lemma carry_loop_spec carry f :
  0 <= carry <= 1 -> (forall i, 0 <= i < 8 -> 0 <= f i < 2 ^ 33 - 1) ->
  length (carry_loop carry f).1 = 8%nat /\ words32 (carry_loop carry f).1 /\ 0 <= (carry_loop carry f).2 <= 1 /\
  wval (carry_loop carry f).1 + (carry_loop carry f).2 * 2 ^ 256 = carry + isum f 8.
Proof. intros Hc Hf. apply (carry_loop_bound 1); [done|lia|]. intros i Hi. specialize (Hf i Hi). lia. Qed.

(** Sums over the eight words. *)
Lemma isum_rd n l : (n <= length l)%nat -> isum (rd l) n = wval (take n l).
Proof. induction n as [|n IH]; intros Hl; [done|]. rewrite isum_S, wval_take_S, IH by lia. done. Qed.

Lemma isum_ext f g n : (forall i, 0 <= i < Z.of_nat n -> f i = g i) -> isum f n = isum g n.
Proof. induction n as [|n IH]; intros H; [done|]. rewrite !isum_S, IH, H by (intros; try apply H; lia). done. Qed.

Lemma isum_add f g n : isum (fun i => f i + g i) n = isum f n + isum g n.
Proof. induction n as [|n IH]; [done|]. rewrite !isum_S, IH. ring. Qed.

Lemma isum_scale f c n : isum (fun i => f i * c) n = isum f n * c.
Proof. induction n as [|n IH]; [done|]. rewrite !isum_S, IH. ring. Qed.

Lemma isum_opp f n : isum (fun i => - f i) n = - isum f n.
Proof. induction n as [|n IH]; [done|]. rewrite !isum_S, IH. ring. Qed.

Lemma isum_const c n : isum (fun _ => c * (2 ^ 32 - 1)) n = c * (2 ^ (32 * Z.of_nat n) - 1).
Proof.
  induction n as [|n IH]; [cbn; lia|]. rewrite isum_S, IH. replace (32 * Z.of_nat (S n)) with (32 * Z.of_nat n + 32) by lia.
  rewrite Z.pow_add_r by lia. ring.
Qed.

Lemma not32_land x m : is_u32 x -> m = 0 \/ m = 0xffffffff -> Z.land (not32 x) m = if m =? 0 then 0 else 2 ^ 32 - 1 - x.
Proof.
  intros Hx [->| ->]; [by rewrite Z.land_0_r|]. change 0xffffffff with (Z.ones 32). rewrite Z.land_ones by lia.
  unfold not32, is_u32 in *. cbn [Z.eqb]. rewrite Z.mod_small by lia. done.
Qed.

(** [x - y] on eight words, in two's complement. *)
Lemma subtract_spec (x y : list Z) :
  words32 x -> words32 y -> (8 <= length x)%nat -> (8 <= length y)%nat ->
  let r := carry_loop 1 (fun i => add64 (rd x i) (Z.land (not32 (rd y i)) 0xffffffff)) in
  length r.1 = 8%nat /\ words32 r.1 /\ 0 <= r.2 <= 1 /\
  wval r.1 + r.2 * 2 ^ 256 = wval (take 8 x) - wval (take 8 y) + 2 ^ 256.
Proof.
  intros Hx Hy Lx Ly. cbv zeta.
  assert (forall i, add64 (rd x i) (Z.land (not32 (rd y i)) 0xffffffff) = rd x i + (1 * (2 ^ 32 - 1) + - rd y i)) as E.
  { intros i. pose proof (words32_rd x i Hx) as Hxi. pose proof (words32_rd y i Hy) as Hyi.
    rewrite not32_land by auto. cbn [Z.eqb]. unfold is_u32 in *. unfold add64. rewrite u64_small by (unfold is_u64; lia). lia. }
  destruct (carry_loop_spec 1 (fun i => add64 (rd x i) (Z.land (not32 (rd y i)) 0xffffffff))) as (H1 & H2 & H3 & H4); [lia| |].
  { intros i _. rewrite E. pose proof (words32_rd x i Hx). pose proof (words32_rd y i Hy). unfold is_u32 in *. lia. }
  split_and!; [done|done|lia|lia|]. rewrite H4.
  rewrite (isum_ext _ (fun i => rd x i + (1 * (2 ^ 32 - 1) + - rd y i))) by (intros; apply E).
  rewrite !isum_add, isum_opp, isum_const, !isum_rd by lia. change (2 ^ (32 * Z.of_nat 8)) with (2 ^ 256). lia.
Qed.

Lemma words32_L : words32 L.
Proof. repeat constructor; unfold is_u32; lia. Qed.

Lemma is_above_l_spec x :
  words32 x -> length x = 8%nat -> is_above_l x = if order <=? wval x then 1 else 0.
Proof.
  intros Hx Lx. unfold is_above_l. destruct (subtract_spec x L Hx words32_L) as (H1 & H2 & H3 & H4); [lia|cbn; lia|].
  set (r := carry_loop _ _) in *. rewrite !take_ge in H4 by (rewrite ?Lx; cbn; lia). rewrite wval_L in H4.
  pose proof (wval_range _ H2) as Hr. pose proof (wval_range _ Hx) as Hxr. rewrite H1 in Hr. rewrite Lx in Hxr.
  change (2 ^ (32 * Z.of_nat 8)) with (2 ^ 256) in *. assert (0 < order < 2 ^ 256) by (unfold order; lia).
  destruct (Z.leb_spec order (wval x)); nia.
Qed.

(** The conditional subtraction reduces what is below 2 L. *)
Lemma remove_l_spec x :
  words32 x -> length x = 8%nat -> wval x < 2 * order ->
  length (remove_l x) = 8%nat /\ words32 (remove_l x) /\ wval (remove_l x) = wval x mod order.
Proof.
  intros Hx Lx Hv. unfold remove_l. rewrite is_above_l_spec by done. pose proof (wval_range _ Hx) as Hxr. rewrite Lx in Hxr.
  assert (0 < order < 2 ^ 252 + 2 ^ 125) as Ho by (unfold order; lia).
  destruct (Z.leb_spec order (wval x)) as [Hc|Hc].
  - change (add32 (not32 (u32 1)) 1) with 0xffffffff. destruct (subtract_spec x L Hx words32_L) as (H1 & H2 & H3 & H4); [lia|cbn; lia|].
    set (r := carry_loop _ _) in *. rewrite !take_ge in H4 by (rewrite ?Lx; cbn; lia). rewrite wval_L in H4.
    split_and!; [done..|]. pose proof (wval_range _ H2) as Hr. rewrite H1 in Hr. change (2 ^ (32 * Z.of_nat 8)) with (2 ^ 256) in *.
    rewrite <- (Z.mod_unique (wval x) order 1 (wval x - order)) by lia. nia.
  - change (add32 (not32 (u32 0)) 1) with 0.
    assert (forall i, add64 (rd x i) (Z.land (not32 (rd L i)) 0) = rd x i) as E.
    { intros i. rewrite Z.land_0_r. unfold add64. rewrite Z.add_0_r. apply u64_small. pose proof (words32_rd x i Hx). unfold is_u32, is_u64 in *. lia. }
    destruct (carry_loop_spec 0 (fun i => add64 (rd x i) (Z.land (not32 (rd L i)) 0))) as (H1 & H2 & H3 & H4); [lia| |].
    { intros i _. rewrite E. pose proof (words32_rd x i Hx). unfold is_u32 in *. lia. }
    rewrite (isum_ext _ (rd x)) in H4 by (intros; apply E). rewrite isum_rd, take_ge in H4 by lia.
    split_and!; [done..|]. pose proof (wval_range _ H2) as Hr. rewrite H1 in Hr. change (2 ^ (32 * Z.of_nat 8)) with (2 ^ 256) in *.
    rewrite Z.mod_small by lia. nia.
Qed.

(** ** Barrett reduction *)

Lemma barrett_r_val : wval barrett_r = 2 ^ 512 / order.
Proof. vm_compute. reflexivity. Qed.
Lemma words32_barrett : words32 barrett_r.
Proof. repeat constructor; unfold is_u32; lia. Qed.

Lemma mul_by_r_spec x :
  words32 x -> length x = 16%nat ->
  length (mul_by_r x) = 25%nat /\ words32 (mul_by_r x) /\ wval (mul_by_r x) = wval x * (2 ^ 512 / order).
Proof.
  intros Hx Lx. destruct (mul_rows barrett_r x (replicate 25 0) 16 9 words32_barrett Hx) as (H1 & H2 & H3 & _).
  - repeat constructor; unfold is_u32; lia.
  - cbn. lia.
  - done.
  - cbn. lia.
  - intros k _. apply rd_replicate.
  - split_and!; [exact H1|exact H2|]. etransitivity; [exact H3|]. rewrite wval_replicate0, take_ge, barrett_r_val by (cbn; lia). ring.
Qed.

Lemma wval_mod_take n l : words32 l -> (n <= length l)%nat -> wval l mod 2 ^ (32 * Z.of_nat n) = wval (take n l).
Proof.
  intros Hl Hn. pose proof (wval_range (take n l) ltac:(by apply Forall_take)) as Hr. rewrite length_take, Nat.min_l in Hr by lia.
  rewrite (wval_split n l), length_take, Nat.min_l by lia. rewrite Z.mul_comm, Z.mod_add by lia. by apply Z.mod_small.
Qed.

Lemma wval_div_drop n l : words32 l -> (n <= length l)%nat -> wval l / 2 ^ (32 * Z.of_nat n) = wval (drop n l).
Proof.
  intros Hl Hn. pose proof (wval_range (take n l) ltac:(by apply Forall_take)) as Hr. rewrite length_take, Nat.min_l in Hr by lia.
  rewrite (wval_split n l), length_take, Nat.min_l by lia. rewrite Z.mul_comm, Z.div_add by lia. rewrite Z.div_small by done. lia.
Qed.

(** The truncated product by L. *)
Lemma mul_by_l_rows xr n :
  words32 xr -> length xr = 25%nat -> (n <= 8)%nat -> (wval xr) mod 2 ^ 256 = 0 ->
  let q := fold_left (fun xr i => (mul_row (rd xr (Z.of_nat i + 16)) L xr (Z.of_nat i) (8 - i)).1) (seq 0 n) xr in
  length q = 25%nat /\ words32 q /\ (wval q) mod 2 ^ 256 = (wval (take n (drop 16 xr)) * order) mod 2 ^ 256 /\
  (forall k, 8 <= k -> rd q k = rd xr k).
Proof.
  intros Hx Lx Hn H0. cbv zeta. induction n as [|n IH]; [cbn [seq fold_left]; rewrite take_0; split_and!; try done|].
  specialize (IH ltac:(lia)). rewrite seq_S, fold_left_app. cbn [Nat.add fold_left]. set (q := fold_left _ (seq 0 n) xr) in *.
  destruct IH as (I1 & I2 & I3 & I4).
  pose proof (mul_row_spec (rd q (Z.of_nat n + 16)) L q (Z.of_nat n) (8 - n) (words32_rd _ _ I2) words32_L I2
    ltac:(cbn; lia) ltac:(lia) ltac:(lia)) as [R1 R2 R3 R4 R5].
  rewrite I4 in * by lia. set (w := rd xr (Z.of_nat n + 16)) in *. set (q' := mul_row _ _ _ _ _) in *. split_and!.
  - congruence.
  - done.
  - replace (32 * (Z.of_nat n + Z.of_nat (8 - n))) with 256 in R4 by lia.
    rewrite wval_take_S by (rewrite length_drop; lia).
    assert (rd (drop 16 xr) (Z.of_nat n) = w) as -> by (unfold w; rewrite rd_drop by lia; f_equal; lia).
    pose proof (wval_split (8 - n) L) as HL. rewrite wval_L, length_take, Nat.min_l in HL by (cbn; lia).
    assert (2 ^ (32 * Z.of_nat (8 - n)) * 2 ^ (32 * Z.of_nat n) = 2 ^ 256) as Ep by (rewrite <- Z.pow_add_r by lia; f_equal; lia).
    set (A := 2 ^ (32 * Z.of_nat n)) in *. set (T := wval (take (8 - n) L)) in *. set (D := wval (drop (8 - n) L)) in *.
    assert (wval q'.1 = wval q + w * order * A + (- (w * D) - q'.2) * 2 ^ 256) as E.
    { transitivity (wval q + w * T * A - q'.2 * 2 ^ 256); [rewrite <- R4; ring|]. rewrite HL, <- Ep. ring. }
    rewrite E, Z.mod_add by lia. rewrite Z.mul_add_distr_r, <- Zplus_mod_idemp_l, I3, Zplus_mod_idemp_l. f_equal. ring.
  - intros k Hk. rewrite R5 by lia. by apply I4.
Qed.

Lemma mul_by_l_spec xr :
  words32 xr -> length xr = 25%nat ->
  length (mul_by_l xr) = 25%nat /\ words32 (mul_by_l xr) /\
  wval (take 8 (mul_by_l xr)) = (wval xr / 2 ^ 512 * order) mod 2 ^ 256.
Proof.
  intros Hx Lx. unfold mul_by_l. set (z := copy_at xr 0 (replicate 8 0)).
  assert (z = replicate 8 0 ++ drop 8 xr) as Ez by reflexivity.
  assert (length z = 25%nat) as Lz by (rewrite Ez, length_app, length_drop, Lx; done).
  assert (words32 z) as Hz by (rewrite Ez; apply Forall_app; split; [repeat constructor; unfold is_u32; lia|by apply Forall_drop]).
  assert (drop 16 z = drop 16 xr) as Ed by (rewrite Ez, drop_app_ge, drop_drop by (cbn; lia); done).
  destruct (mul_by_l_rows z 8 Hz Lz ltac:(lia)) as (H1 & H2 & H3 & _).
  { rewrite Ez, wval_app, wval_replicate0. change (2 ^ (32 * Z.of_nat (length (replicate 8 0)))) with (2 ^ 256).
    rewrite Z.add_0_l, Z.mul_comm. by apply Z_mod_mult. }
  split_and!; [done..|]. set (q := fold_left _ _ z) in *.
  rewrite <- (wval_mod_take 8 q) by (done || lia). change (2 ^ (32 * Z.of_nat 8)) with (2 ^ 256). rewrite H3, Ed.
  change (2 ^ 512) with (2 ^ (32 * Z.of_nat 16)). rewrite wval_div_drop by (done || lia).
  rewrite <- (wval_mod_take 8 (drop 16 xr)) by ((by apply Forall_drop) || rewrite length_drop; lia).
  change (2 ^ (32 * Z.of_nat 8)) with (2 ^ 256). by rewrite Zmult_mod_idemp_l.
Qed.

(** The quotient is at most one too small. *)
Lemma barrett_bounds X :
  0 <= X < 2 ^ 512 -> 0 <= X - X * (2 ^ 512 / order) / 2 ^ 512 * order < 2 * order.
Proof.
  intros HX. set (R := 2 ^ 512 / order). set (Q := X * R / 2 ^ 512). assert (0 < order) as Ho by (unfold order; lia).
  assert (R * order <= 2 ^ 512 < R * order + order) as HR by (unfold R; clear - Ho; zlia).
  assert (0 < 2 ^ 512) as Hp by lia. assert (Q * 2 ^ 512 <= X * R < Q * 2 ^ 512 + 2 ^ 512) as HQ by (unfold Q; clear - Hp; zlia).
  clearbody R Q. set (N := 2 ^ 512) in *. clearbody N. set (O := order) in *. clearbody O.
  assert (Q * N * O <= X * R * O < (Q * N + N) * O) as H1 by (split; [apply Z.mul_le_mono_nonneg_r|apply Z.mul_lt_mono_pos_r]; lia).
  assert (X * (R * O) <= X * N) as H2 by (apply Z.mul_le_mono_nonneg_l; lia).
  assert (X * N <= X * (R * O + O)) as H3 by (apply Z.mul_le_mono_nonneg_l; lia).
  assert (X * O < N * O) as H4 by (apply Z.mul_lt_mono_pos_r; lia).
  assert (Q * O * N <= X * N /\ X * N < (Q * O + 2 * O) * N) as [H5 H6] by (clear - H1 H2 H3 H4; lia).
  apply Z.mul_le_mono_pos_r in H5; [|lia]. apply Z.mul_lt_mono_pos_r in H6; [|lia]. lia.
Qed.

Lemma mod_l_spec x :
  words32 x -> length x = 16%nat ->
  is_bytes (mod_l x) /\ length (mod_l x) = 32%nat /\ le_val (mod_l x) = wval x mod order.
Proof.
  intros Hx Lx. unfold mod_l. destruct (mul_by_r_spec x Hx Lx) as (R1 & R2 & R3).
  destruct (mul_by_l_spec (mul_by_r x) R2 R1) as (M1 & M2 & M3). set (xr := mul_by_l (mul_by_r x)) in *. clearbody xr.
  rewrite R3 in M3. destruct (subtract_spec x xr Hx M2 ltac:(lia) ltac:(lia)) as (S1 & S2 & S3 & S4).
  destruct (carry_loop _ _) as [low c]. cbn [fst snd] in *.
  assert (take 8 (copy_at xr 0 low) = low) as -> by (clear - S1; unfold copy_at; change (Z.to_nat 0) with 0%nat; rewrite take_0; cbn [app]; apply take_app_length'; lia).
  pose proof (wval_range x Hx) as Hxr. rewrite Lx in Hxr. change (2 ^ (32 * Z.of_nat 16)) with (2 ^ 512) in Hxr.
  pose proof (barrett_bounds (wval x) Hxr) as Hb. set (Q := wval x * (2 ^ 512 / order) / 2 ^ 512) in *.
  pose proof (wval_range low S2) as Hlr. rewrite S1 in Hlr. change (2 ^ (32 * Z.of_nat 8)) with (2 ^ 256) in *.
  assert (wval low = wval x - Q * order) as El.
  { assert (2 * order < 2 ^ 256) as H2 by (unfold order; lia).
    rewrite <- (Z.mod_small (wval low) (2 ^ 256)), <- (Z.mod_small (wval x - Q * order) (2 ^ 256)) by lia.
    replace (wval low) with (wval (take 8 x) - wval (take 8 xr) + (1 - c) * 2 ^ 256) by lia. rewrite Z.mod_add by lia.
    rewrite M3, Zminus_mod_idemp_r. rewrite <- (wval_mod_take 8 x Hx ltac:(rewrite Lx; lia)).
    change (2 ^ (32 * Z.of_nat 8)) with (2 ^ 256). rewrite Zminus_mod_idemp_l. reflexivity. }
  destruct (remove_l_spec low S2 S1 ltac:(lia)) as (F1 & F2 & F3). split_and!.
  - apply is_bytes_store_buf.
  - rewrite length_store_buf, F1. done.
  - rewrite (wval_store _ F2). rewrite F3, El. rewrite <- (Z.mod_add (wval x - Q * order) Q order) by (unfold order; lia). f_equal. ring.
Qed.

Lemma wval_load s n :
  is_bytes s -> (4 * n <= length s)%nat ->
  words32 (load32_le_buf s 0 n) /\ length (load32_le_buf s 0 n) = n /\ wval (load32_le_buf s 0 n) = le_val (take (4 * n) s).
Proof.
  intros Hs Hn. unfold load32_le_buf. split_and!; [|by rewrite length_map, length_seq|].
  - apply Forall_fmap, Forall_true. intros i. by apply load32_le_range.
  - induction n as [|n IH]; [done|]. rewrite seq_S, map_app, wval_app, IH, length_map, length_seq by lia. cbn [map wval Nat.add].
    rewrite load32_le_val by (done || lia). replace (Z.to_nat (0 + 4 * Z.of_nat n)) with (4 * n)%nat by lia.
    replace (take (4 * S n) s) with (take (4 * n) s ++ take 4 (drop (4 * n) s)) by (rewrite take_take_drop; f_equal; lia).
    rewrite le_val_app, length_take, Nat.min_l by lia. replace (256 ^ Z.of_nat (4 * n)) with (2 ^ (32 * Z.of_nat n)); [ring|].
    change 256 with (2 ^ 8). rewrite <- Z.pow_mul_r by lia. f_equal. lia.
Qed.

Lemma eddsa_reduce_spec e :
  is_bytes e -> length e = 64%nat ->
  is_bytes (crypto_eddsa_reduce e) /\ length (crypto_eddsa_reduce e) = 32%nat /\
  le_val (crypto_eddsa_reduce e) = le_val e mod order.
Proof.
  intros He Le. destruct (wval_load e 16 He ltac:(lia)) as (H1 & H2 & H3).
  destruct (mod_l_spec _ H1 H2) as (M1 & M2 & M3). split_and!; [done..|]. unfold crypto_eddsa_reduce. by rewrite M3, H3, take_ge by lia.
Qed.

Lemma eddsa_mul_add_spec a b c :
  is_bytes a -> is_bytes b -> is_bytes c -> length a = 32%nat -> length b = 32%nat -> length c = 32%nat ->
  is_bytes (crypto_eddsa_mul_add a b c) /\ length (crypto_eddsa_mul_add a b c) = 32%nat /\
  le_val (crypto_eddsa_mul_add a b c) = (le_val a * le_val b + le_val c) mod order.
Proof.
  intros Ha Hb Hc La Lb Lc. destruct (wval_load a 8 Ha ltac:(lia)) as (A1 & A2 & A3).
  destruct (wval_load b 8 Hb ltac:(lia)) as (B1 & B2 & B3). destruct (wval_load c 8 Hc ltac:(lia)) as (C1 & C2 & C3).
  rewrite take_ge in A3, B3, C3 by lia. destruct (multiply_spec _ _ _ A1 B1 C1 A2 B2 C2) as (P1 & P2 & P3).
  destruct (mod_l_spec _ P2 P1) as (M1 & M2 & M3). unfold crypto_eddsa_mul_add. split_and!; [done..|].
  by rewrite M3, P3, A3, B3, C3.
Qed.

(** Arithmetic modulo the order L of the base point: [crypto_eddsa_reduce] returns the
    32 bytes of a 64-byte number modulo L and [crypto_eddsa_mul_add] those of a * b + c,
    for all inputs, although the product is cut at 256 bits and L is subtracted at most
    once. *)
Theorem scalar_arithmetic a b c e :
  is_bytes a -> is_bytes b -> is_bytes c -> is_bytes e ->
  length a = 32%nat -> length b = 32%nat -> length c = 32%nat -> length e = 64%nat ->
  crypto_eddsa_reduce e = le_bytes 32 (le_val e mod order) /\
  crypto_eddsa_mul_add a b c = le_bytes 32 ((le_val a * le_val b + le_val c) mod order).
Proof.
  intros Ha Hb Hc He La Lb Lc Le. destruct (eddsa_reduce_spec e He Le) as (R1 & R2 & R3).
  destruct (eddsa_mul_add_spec a b c Ha Hb Hc La Lb Lc) as (M1 & M2 & M3).
  rewrite <- R3, <- M3. rewrite <- R2 at 1. rewrite <- M2 at 1. by rewrite !le_bytes_le_val.
Qed.

Lemma scalar_arithmetic_witness :
  let a := replicate 32 255 in let e := replicate 64 255 in
  crypto_eddsa_reduce e = le_bytes 32 (le_val e mod order) /\
  crypto_eddsa_mul_add a a a = le_bytes 32 ((le_val a * le_val a + le_val a) mod order).
Proof.
  intros a e. apply (scalar_arithmetic a a a e); try reflexivity; apply (bool_decide_unpack _); vm_compute; exact I.
Defined.
