(* ===== verification/Prime25519.v ===== *)
(** * The prime of Curve25519

    [fe_invert] of library/crypto/monocypher.c inverts by exponentiation, which is
    right because 2^255 - 19 is prime.  This file proves that, with a chain of
    Pocklington certificates, and derives the two facts the curve code relies on:
    Fermat's theorem and that 1 has no other square roots than 1 and -1. *)

From S2P Require Import Prelude.
From Stdlib Require Import Zdivisibility.
From Stdlib Require ZmodInv.

(** ** Congruences *)

Definition eqmod (n a b : Z) : Prop := (n | a - b).

Lemma eqmod_iff n a b : n <> 0 -> eqmod n a b <-> a mod n = b mod n.
Proof. intros. unfold eqmod. by rewrite Z.cong_iff_0, Z.mod_divide. Qed.

#[global] Instance eqmod_equiv n : Equivalence (eqmod n).
Proof.
  unfold eqmod. split.
  - intros a. exists 0. lia.
  - intros a b [k Hk]. exists (- k). lia.
  - intros a b c [k Hk] [j Hj]. exists (k + j). lia.
Qed.
#[global] Instance eqmod_add n : Proper (eqmod n ==> eqmod n ==> eqmod n) Z.add.
Proof. intros a b [k Hk] c d [j Hj]. exists (k + j). lia. Qed.
#[global] Instance eqmod_sub n : Proper (eqmod n ==> eqmod n ==> eqmod n) Z.sub.
Proof. intros a b [k Hk] c d [j Hj]. exists (k - j). lia. Qed.
#[global] Instance eqmod_opp n : Proper (eqmod n ==> eqmod n) Z.opp.
Proof. intros a b [k Hk]. exists (- k). lia. Qed.
#[global] Instance eqmod_mul n : Proper (eqmod n ==> eqmod n ==> eqmod n) Z.mul.
Proof. intros a b [k Hk] c d [j Hj]. exists (k * c + b * j). lia. Qed.
#[global] Instance eqmod_pow n : Proper (eqmod n ==> eq ==> eqmod n) Z.pow.
Proof.
  intros a b Hab e ? <-. destruct (Z.lt_ge_cases e 0); [by rewrite !Z.pow_neg_r by lia|].
  revert e H. apply natlike_ind; [by rewrite !Z.pow_0_r|].
  intros e He IH. rewrite !Z.pow_succ_r by lia. by apply eqmod_mul.
Qed.

Lemma mod_eqmod n a : eqmod n (a mod n) a.
Proof. exists (- (a / n)). destruct (decide (n = 0)) as [->|]; [rewrite Z.mod_0_r; lia|]. rewrite Z.mod_eq; lia. Qed.

Lemma eqmod_weaken d n a b : (d | n) -> eqmod n a b -> eqmod d a b.
Proof. unfold eqmod. intros ? ?. by etransitivity. Qed.

(** ** Pocklington's criterion *)

Lemma prime_divisor n : 1 < n -> exists d, Z.prime d /\ (d | n).
Proof.
  induction (Z.lt_wf 0 n) as [n _ IH]. intros Hn.
  destruct (Znumtheory.prime_dec n) as [Hp|Hp].
  - exists n. split; [by apply Znumtheory.prime_alt|done].
  - apply Znumtheory.not_prime_divide in Hp as (k & Hk & Hd); [|done].
    destruct (IH k) as (d & Hpd & Hdk); [lia..|]. exists d. split; [done|by etransitivity].
Qed.

(** A number that is not prime has a prime factor up to its square root. *)
Lemma small_prime_divisor n :
  1 < n -> (forall d, Z.prime d -> (d | n) -> n < d * d) -> Z.prime n.
Proof.
  intros Hn H. split; [done|]. intros k Hk [j Hj].
  assert (1 < j) by nia. assert (exists m, 1 < m /\ (m | n) /\ m * m <= n) as (m & Hm & Hdm & Hmm).
  { destruct (Z.le_ge_cases k j);
      [exists k; split; [lia|]; split; [by exists j|nia]
      |exists j; split; [lia|]; split; [exists k; lia|nia]]. }
  destruct (prime_divisor m Hm) as (d & Hd & Hdd).
  specialize (H d Hd ltac:(by etransitivity)). apply Z.divide_pos_le in Hdd; [|lia].
  pose proof (Z.prime_ge_2 d Hd). nia.
Qed.

(** An element of order [q] in the group of units modulo [d]. *)
Lemma order_divides d q b :
  Z.prime d -> Z.prime q -> eqmod d (b ^ q) 1 -> ~ eqmod d b 1 -> (q | d - 1).
Proof.
  intros Hd Hq Hb Hn. pose proof (Z.prime_ge_2 d Hd). pose proof (Z.prime_ge_2 q Hq).
  destruct (Z.BoolSpec_divide q (d - 1)) as [|Hnd]; [done|]. exfalso. apply Hn.
  apply (Z.coprime_prime_l q) in Hnd; [|done].
  apply Z.Bezout_coprime in Hnd as (u & v & Huv).
  assert (b mod d <> 0) as Hb0.
  { intros Hb0. assert (eqmod d b 0) as Hz by (rewrite <- (mod_eqmod d b), Hb0; reflexivity).
    rewrite Hz, Z.pow_0_l in Hb by lia. apply eqmod_iff in Hb; [|lia]. rewrite Z.mod_0_l, Z.mod_small in Hb; lia. }
  assert (eqmod d (b ^ (d - 1)) 1) as Hf
    by (apply eqmod_iff; [lia|]; rewrite ZmodInv.Z.fermat_nz, Z.mod_small by (done || lia); done).
  (* b^(q u') = b^(1 + (d-1) v') for nonnegative u', v' *)
  set (s := Z.abs u + Z.abs v).
  assert (q * (u + s * (d - 1)) = 1 + (d - 1) * (s * q - v)) as He by nia.
  assert (0 <= u + s * (d - 1)) by nia. assert (0 <= s * q - v) by nia.
  assert (b ^ (q * (u + s * (d - 1))) = b * b ^ ((d - 1) * (s * q - v))) as Hp
    by (rewrite He, Z.pow_add_r, Z.pow_1_r by nia; done).
  rewrite !Z.pow_mul_r in Hp by nia.
  assert (eqmod d ((b ^ q) ^ (u + s * (d - 1))) (b * (b ^ (d - 1)) ^ (s * q - v))) as Hc
    by (rewrite Hp; reflexivity).
  rewrite Hb, Hf, !Z.pow_1_l, Z.mul_1_r in Hc by lia. by symmetry.
Qed.

Definition prods (qs : list Z) : Z := foldr Z.mul 1 qs.

Lemma coprime_prods q qs : Z.prime q -> Forall Z.prime qs -> q ∉ qs -> Z.coprime q (prods qs).
Proof.
  intros Hq. induction 1 as [|r qs Hr Hqs IH]; intros Hin; [apply Z.coprime_1_r|].
  apply not_elem_of_cons in Hin as [Hne Hin]. cbn. apply Z.coprime_mul_r; [|by apply IH].
  apply Z.coprime_prime_l; [done|]. intros Hd. apply Hne. by apply Z.divide_prime_prime.
Qed.

Lemma prods_divide m qs :
  NoDup qs -> Forall Z.prime qs -> Forall (fun q => (q | m)) qs -> (prods qs | m).
Proof.
  induction 1 as [|q qs Hin _ IH]; intros Hp Hd; [apply Z.divide_1_l|].
  inversion_clear Hp; inversion_clear Hd. destruct (IH ltac:(done) ltac:(done)) as [k Hk].
  assert (q | prods qs * k) as Hq by (rewrite Z.mul_comm, <- Hk; done).
  apply Z.gauss in Hq as [j Hj]; [|by apply coprime_prods].
  exists j. change (prods (q :: qs)) with (q * prods qs). rewrite Hk, Hj. ring.
Qed.

Lemma pocklington n a qs :
  1 < n -> NoDup qs -> Forall Z.prime qs -> n <= prods qs * prods qs ->
  eqmod n (a ^ (n - 1)) 1 ->
  Forall (fun q => (q | n - 1) /\ Z.gcd (a ^ ((n - 1) / q) - 1) n = 1) qs -> Z.prime n.
Proof.
  intros Hn Hnd Hp Hsz Ha Hq. apply small_prime_divisor; [done|]. intros d Hd Hdn.
  pose proof (Z.prime_ge_2 d Hd).
  assert (prods qs | d - 1) as Hdiv.
  { apply prods_divide; [done..|]. rewrite Forall_forall in *. intros q Hin.
    destruct (Hq q Hin) as [Hqn Hg]. pose proof (Z.prime_ge_2 q (Hp q Hin)).
    destruct Hqn as [k Hk].
    apply (order_divides d q (a ^ ((n - 1) / q))); [done|by apply Hp| |].
    - rewrite <- Z.pow_mul_r by (try apply Z.div_pos; lia).
      replace ((n - 1) / q * q) with (n - 1) by (rewrite Hk, Z.div_mul; lia).
      apply (eqmod_weaken d n); done.
    - intros H1. unfold eqmod in H1.
      pose proof (Z.gcd_greatest _ _ _ H1 Hdn) as Hg1. rewrite Hg in Hg1.
      apply Z.divide_1_r_nonneg in Hg1; lia. }
  apply Z.divide_pos_le in Hdiv; [|lia].
  assert (0 < prods qs).
  { clear -Hp. induction Hp as [|q qs Hq _ IH]; [done|]. pose proof (Z.prime_ge_2 q Hq).
    change (prods (q :: qs)) with (q * prods qs). nia. }
  nia.
Qed.

(** ** Checking certificates

    Powers of 2 by repeated squaring.  [shrink] subtracts some multiple of [n],
    chosen with a precomputed reciprocal so that numbers stay small; whatever the
    reciprocal, the result is congruent. *)

Definition shrink (n k m x : Z) : Z := x - n * Z.shiftr (Z.shiftr x k * m) (k + 20).

Fixpoint pow2m (n k m : Z) (e : positive) : Z :=
  match e with
  | xH => 2
  | xO e => let r := pow2m n k m e in shrink n k m (r * r)
  | xI e => let r := pow2m n k m e in shrink n k m (2 * (r * r))
  end.

Definition pow2_mod (n e : Z) : Z :=
  let k := Z.log2 n - 2 in pow2m n k (2 ^ (k + k + 20) / n) (Z.to_pos e) mod n.

Definition check_cert (n : Z) (qs : list Z) : bool :=
  (1 <? n) && (n <=? prods qs * prods qs) && (pow2_mod n (n - 1) =? 1) &&
  forallb (fun q => (2 <=? q) && ((n - 1) mod q =? 0) && (Z.gcd (pow2_mod n ((n - 1) / q) - 1) n =? 1)) qs.

(** Trial division, for the leaves of the chain. *)
Definition check_small (n r : Z) : bool :=
  (1 <? n) && (n <? (r + 1) * (r + 1)) && forallb (fun d => negb (n mod d =? 0)) (seqZ 2 (r - 1)).

Lemma shrink_eqmod n k m x : eqmod n (shrink n k m x) x.
Proof. unfold shrink. exists (- Z.shiftr (Z.shiftr x k * m) (k + 20)). lia. Qed.

Lemma pow2m_eqmod n k m e : eqmod n (pow2m n k m e) (2 ^ Z.pos e).
Proof.
  induction e as [e IH|e IH|]; cbn [pow2m]; [| |done]; rewrite shrink_eqmod, IH.
  - rewrite <- Z.pow_add_r, <- Z.pow_succ_r by lia.
    replace (Z.pos e~1) with (Z.succ (Z.pos e + Z.pos e)) by lia. reflexivity.
  - rewrite <- Z.pow_add_r by lia. replace (Z.pos e~0) with (Z.pos e + Z.pos e) by lia. reflexivity.
Qed.

Lemma pow2_mod_eqmod n e : 0 < e -> eqmod n (pow2_mod n e) (2 ^ e).
Proof.
  intros He. unfold pow2_mod. rewrite mod_eqmod, pow2m_eqmod, Z2Pos.id by lia. reflexivity.
Qed.

Lemma check_cert_sound n qs :
  Forall Z.prime qs -> NoDup qs -> check_cert n qs = true -> Z.prime n.
Proof.
  unfold check_cert. intros Hp Hnd. rewrite !andb_true_iff, forallb_forall, Z.ltb_lt, Z.leb_le, Z.eqb_eq.
  intros [[[H1 H2] H3] H4]. apply (pocklington n 2 qs); [done..| |].
  - rewrite <- pow2_mod_eqmod by lia. rewrite H3. reflexivity.
  - apply Forall_forall. intros q Hq. apply list_elem_of_In in Hq. specialize (H4 q Hq).
    rewrite !andb_true_iff, Z.leb_le, !Z.eqb_eq in H4. destruct H4 as [[Hq2 Hm] Hg].
    apply Z.mod_divide in Hm as [k Hk]; [|lia]. split; [by exists k|].
    assert ((n - 1) / q = k) as Hdk by (rewrite Hk, Z.div_mul; lia). rewrite Hdk in *.
    etransitivity; [|exact Hg]. rewrite <- (Z.gcd_mod_l (2 ^ k - 1)), <- (Z.gcd_mod_l (pow2_mod n k - 1)) by lia.
    f_equal. assert (eqmod n (2 ^ k - 1) (pow2_mod n k - 1)) as H; [|apply eqmod_iff in H; [exact H|lia]].
    rewrite pow2_mod_eqmod by nia. reflexivity.
Qed.

Lemma check_small_sound n r : 0 <= r -> check_small n r = true -> Z.prime n.
Proof.
  unfold check_small. intros Hr. rewrite !andb_true_iff, forallb_forall, !Z.ltb_lt.
  intros [[H1 H2] H3]. apply small_prime_divisor; [done|]. intros d Hd Hdn.
  pose proof (Z.prime_ge_2 d Hd). destruct (Z.le_gt_cases d r); [|nia].
  specialize (H3 d). rewrite negb_true_iff, Z.eqb_neq in H3.
  destruct H3; [apply list_elem_of_In, elem_of_seqZ; lia|]. apply Z.mod_divide; [lia|done].
Qed.

(** ** The chain *)

Definition p25519 : Z := 2 ^ 255 - 19.

Ltac prime_small r := apply (check_small_sound _ r); [done|vm_compute; reflexivity].
Ltac prime_cert qs :=
  apply (check_cert_sound _ qs); [repeat (apply Forall_cons_2; [solve [auto]|]); apply Forall_nil_2|
    repeat (apply NoDup_cons; split; [rewrite ?elem_of_cons, ?elem_of_nil; lia|]); apply NoDup_nil; done
    |vm_compute; reflexivity].

Lemma prime_103 : Z.prime 103. Proof. prime_small 11. Qed.
Lemma prime_127 : Z.prime 127. Proof. prime_small 12. Qed.
Lemma prime_991 : Z.prime 991. Proof. prime_small 32. Qed.
Lemma prime_4153 : Z.prime 4153. Proof. prime_small 65. Qed.
Lemma prime_430751 : Z.prime 430751. Proof. prime_small 657. Qed.
Lemma prime_569003 : Z.prime 569003. Proof. prime_small 755. Qed.
#[local] Hint Resolve prime_103 prime_127 prime_991 prime_4153 prime_430751 prime_569003 : core.

Lemma prime_chain1 : Z.prime 8574133.
Proof. prime_cert [991; 103]. Qed.
#[local] Hint Resolve prime_chain1 : core.

Lemma prime_chain2 : Z.prime 2773320623.
Proof. prime_cert [569003]. Qed.
#[local] Hint Resolve prime_chain2 : core.

Lemma prime_chain3 : Z.prime 72106336199.
Proof. prime_cert [2773320623]. Qed.
#[local] Hint Resolve prime_chain3 : core.

Lemma prime_chain4 : Z.prime 1919519569386763.
Proof. prime_cert [8574133; 127]. Qed.
#[local] Hint Resolve prime_chain4 : core.

Lemma prime_chain5 : Z.prime 31757755568855353.
Proof. prime_cert [430751; 4153]. Qed.
#[local] Hint Resolve prime_chain5 : core.

Lemma prime_chain6 : Z.prime 75445702479781427272750846543864801.
Proof. prime_cert [1919519569386763; 72106336199]. Qed.
#[local] Hint Resolve prime_chain6 : core.

Lemma prime_chain7 : Z.prime 74058212732561358302231226437062788676166966415465897661863160754340907.
Proof. prime_cert [75445702479781427272750846543864801; 31757755568855353]. Qed.
#[local] Hint Resolve prime_chain7 : core.

(** 2^255 - 19 is prime. *)
Lemma prime_p25519 : Z.prime p25519.
Proof. prime_cert [74058212732561358302231226437062788676166966415465897661863160754340907]. Qed.

(** ** The field *)

Abbreviation feq := (eqmod p25519) (only parsing).

Lemma feq_mod a b : feq a b <-> a mod p25519 = b mod p25519.
Proof. by apply eqmod_iff. Qed.

Lemma field_fermat x : ~ feq x 0 -> feq (x ^ (p25519 - 1)) 1.
Proof.
  intros Hx. apply feq_mod. rewrite ZmodInv.Z.fermat_nz; [done|exact prime_p25519|].
  intros H. apply Hx, feq_mod. exact H.
Qed.

Lemma field_integral a b : feq (a * b) 0 -> feq a 0 \/ feq b 0.
Proof. unfold eqmod. rewrite !Z.sub_0_r. apply Z.divide_prime_mul, prime_p25519. Qed.

Lemma field_sqrt_one y : feq (y * y) 1 -> feq y 1 \/ feq y (-1).
Proof.
  intros H. destruct (field_integral (y - 1) (y + 1)) as [Hy|Hy].
  - replace ((y - 1) * (y + 1)) with (y * y - 1) by ring. rewrite H. reflexivity.
  - left. replace y with (y - 1 + 1) by ring. rewrite Hy. reflexivity.
  - right. replace y with (y + 1 - 1) by ring. rewrite Hy. reflexivity.
Qed.
