(* ===== verification/Field25519.v ===== *)
(** * Arithmetic modulo 2^255 - 19

    The field elements of library/crypto/monocypher.c: ten signed limbs of
    alternately 26 and 25 bits.  Every operation on [int32_t] and [int64_t] is
    written with its wrap-around; the theorems show that within the bounds of the
    comments nothing wraps and that the operations compute in the field. *)

From S2P Require Import Prelude Prime25519 Monocypher.

(** ** Signed integers *)

Definition i32 (x : Z) : Z := (x + 2147483648) mod 4294967296 - 2147483648.
Definition i64 (x : Z) : Z := (x + 9223372036854775808) mod 18446744073709551616 - 9223372036854775808.

(** ** Field elements *)

Definition fe_0 : list Z := replicate 10 0.
Definition fe_1 : list Z := 1 :: replicate 9 0.
Definition sqrtm1 : list Z :=
  [-32595792; -7943725; 9377950; 3500415; 12389472; -272473; -25146209; -2005654; 326686; 11406482].

Definition fe_copy (f : list Z) : list Z := f.
Definition fe_neg (f : list Z) : list Z := (fun x => i32 (- x)) <$> f.
Definition fe_add (f g : list Z) : list Z := zip_with (fun x y => i32 (x + y)) f g.
Definition fe_sub (f g : list Z) : list Z := zip_with (fun x y => i32 (x - y)) f g.

(** Constant-time selection: [x] is the difference of the limbs under the mask. *)
Definition cswap_mask (f g : list Z) (b : Z) : list Z :=
  zip_with (fun x y => Z.land (Z.lxor x y) (i32 (- b))) f g.
Definition fe_cswap (f g : list Z) (b : Z) : list Z * list Z :=
  let x := cswap_mask f g b in (zip_with Z.lxor f x, zip_with Z.lxor g x).
Definition fe_ccopy (f g : list Z) (b : Z) : list Z := zip_with Z.lxor f (cswap_mask f g b).

(** [FE_CARRY]: [c = (t_i + 2^(k-1)) >> k; t_i -= c * 2^k; t_j += c * m], one entry
    [(i, j, k, m)] for each line of the macro. *)
Definition carry (t : list Z) (l : Z * Z * Z * Z) : list Z :=
  let '(i, j, k, m) := l in
  let c := Z.shiftr (i64 (rd t i + 2 ^ (k - 1))) k in
  let t := wr t i (i64 (rd t i - i64 (c * 2 ^ k))) in
  wr t j (i64 (rd t j + i64 (c * m))).

Definition carry_lines : list (Z * Z * Z * Z) :=
  [(0, 1, 26, 1); (4, 5, 26, 1); (1, 2, 25, 1); (5, 6, 25, 1); (2, 3, 26, 1); (6, 7, 26, 1);
   (3, 4, 25, 1); (7, 8, 25, 1); (4, 5, 26, 1); (8, 9, 26, 1); (9, 0, 25, 19); (0, 1, 26, 1)].

Definition FE_CARRY (t : list Z) : list Z := i32 <$> fold_left carry carry_lines t.

Definition load24_le (s : list Z) (o : Z) : Z :=
  Z.lor (Z.lor (rd s o) (shl32 (rd s (o + 1)) 8)) (shl32 (rd s (o + 2)) 16).

Definition fe_frombytes_mask (s : list Z) (nb_mask : Z) : list Z :=
  let mask := shr32 16777215 nb_mask in
  FE_CARRY
    [load32_le s 0; shl32 (load24_le s 4) 6; shl32 (load24_le s 7) 5; shl32 (load24_le s 10) 3;
     shl32 (load24_le s 13) 2; load32_le s 16; shl32 (load24_le s 20) 7; shl32 (load24_le s 23) 5;
     shl32 (load24_le s 26) 4; shl32 (Z.land (load24_le s 29) mask) 2].

Definition fe_frombytes (s : list Z) : list Z := fe_frombytes_mask s 1.

(** The two loops of [fe_tobytes]: the sign of the number, then the carries. *)
Definition tobytes_sign (t : list Z) : Z :=
  fold_left (fun q i =>
    let q := Z.shiftr (i32 (q + rd t (2 * i))) 26 in
    Z.shiftr (i32 (q + rd t (2 * i + 1))) 25)
    [0; 1; 2; 3; 4] (Z.shiftr (i32 (i32 (19 * rd t 9) + 2 ^ 24)) 25).

Definition tobytes_limb (tq : list Z * Z) (i k : Z) : list Z * Z :=
  let '(t, q) := tq in
  let t := wr t i (i32 (rd t i + q)) in
  let q := Z.shiftr (rd t i) k in
  (wr t i (i32 (rd t i - i32 (q * 2 ^ k))), q).

Definition tobytes_carry (t : list Z) (q : Z) : list Z * Z :=
  fold_left (fun tq i => tobytes_limb (tobytes_limb tq (i * 2) 26) (i * 2 + 1) 25)
    [0; 1; 2; 3; 4] (t, i32 (q * 19)).

(** The eight words of the output, from the limbs as [uint32_t]. *)
Definition limb_words (u : Z -> Z) : list Z :=
  [Z.lor (shr32 (u 0) 0) (shl32 (u 1) 26); Z.lor (shr32 (u 1) 6) (shl32 (u 2) 19);
   Z.lor (shr32 (u 2) 13) (shl32 (u 3) 13); Z.lor (shr32 (u 3) 19) (shl32 (u 4) 6);
   Z.lor (shr32 (u 5) 0) (shl32 (u 6) 25); Z.lor (shr32 (u 6) 7) (shl32 (u 7) 19);
   Z.lor (shr32 (u 7) 13) (shl32 (u 8) 12); Z.lor (shr32 (u 8) 20) (shl32 (u 9) 6)].

Definition fe_tobytes (h : list Z) : list Z :=
  let q := tobytes_sign h in
  let '(t, _) := tobytes_carry h q in
  concat (store32_le <$> limb_words (fun i => u32 (rd t i))).

(** A sum of products in [int64_t], as [f0*(i64)g0 + F1*(i64)G9 + ...]. *)
Definition sop (l : list (Z * Z)) : Z := fold_left (fun acc ab => i64 (acc + i64 (ab.1 * ab.2))) l 0.

Definition fe_mul_small (f : list Z) (g : Z) : list Z :=
  FE_CARRY ((fun x => i64 (x * g)) <$> f).

Definition fe_mul (f g : list Z) : list Z :=
  let f0 := rd f 0 in let f1 := rd f 1 in let f2 := rd f 2 in let f3 := rd f 3 in let f4 := rd f 4 in
  let f5 := rd f 5 in let f6 := rd f 6 in let f7 := rd f 7 in let f8 := rd f 8 in let f9 := rd f 9 in
  let g0 := rd g 0 in let g1 := rd g 1 in let g2 := rd g 2 in let g3 := rd g 3 in let g4 := rd g 4 in
  let g5 := rd g 5 in let g6 := rd g 6 in let g7 := rd g 7 in let g8 := rd g 8 in let g9 := rd g 9 in
  let F1 := i32 (f1 * 2) in let F3 := i32 (f3 * 2) in let F5 := i32 (f5 * 2) in let F7 := i32 (f7 * 2) in
  let F9 := i32 (f9 * 2) in let G1 := i32 (g1 * 19) in let G2 := i32 (g2 * 19) in let G3 := i32 (g3 * 19) in
  let G4 := i32 (g4 * 19) in let G5 := i32 (g5 * 19) in let G6 := i32 (g6 * 19) in let G7 := i32 (g7 * 19) in
  let G8 := i32 (g8 * 19) in let G9 := i32 (g9 * 19) in
  FE_CARRY
    [sop [(f0, g0); (F1, G9); (f2, G8); (F3, G7); (f4, G6); (F5, G5); (f6, G4); (F7, G3); (f8, G2); (F9, G1)];
     sop [(f0, g1); (f1, g0); (f2, G9); (f3, G8); (f4, G7); (f5, G6); (f6, G5); (f7, G4); (f8, G3); (f9, G2)];
     sop [(f0, g2); (F1, g1); (f2, g0); (F3, G9); (f4, G8); (F5, G7); (f6, G6); (F7, G5); (f8, G4); (F9, G3)];
     sop [(f0, g3); (f1, g2); (f2, g1); (f3, g0); (f4, G9); (f5, G8); (f6, G7); (f7, G6); (f8, G5); (f9, G4)];
     sop [(f0, g4); (F1, g3); (f2, g2); (F3, g1); (f4, g0); (F5, G9); (f6, G8); (F7, G7); (f8, G6); (F9, G5)];
     sop [(f0, g5); (f1, g4); (f2, g3); (f3, g2); (f4, g1); (f5, g0); (f6, G9); (f7, G8); (f8, G7); (f9, G6)];
     sop [(f0, g6); (F1, g5); (f2, g4); (F3, g3); (f4, g2); (F5, g1); (f6, g0); (F7, G9); (f8, G8); (F9, G7)];
     sop [(f0, g7); (f1, g6); (f2, g5); (f3, g4); (f4, g3); (f5, g2); (f6, g1); (f7, g0); (f8, G9); (f9, G8)];
     sop [(f0, g8); (F1, g7); (f2, g6); (F3, g5); (f4, g4); (F5, g3); (f6, g2); (F7, g1); (f8, g0); (F9, G9)];
     sop [(f0, g9); (f1, g8); (f2, g7); (f3, g6); (f4, g5); (f5, g4); (f6, g3); (f7, g2); (f8, g1); (f9, g0)]].

Definition fe_sq (f : list Z) : list Z :=
  let f0 := rd f 0 in let f1 := rd f 1 in let f2 := rd f 2 in let f3 := rd f 3 in let f4 := rd f 4 in
  let f5 := rd f 5 in let f6 := rd f 6 in let f7 := rd f 7 in let f8 := rd f 8 in let f9 := rd f 9 in
  let f0_2 := i32 (f0 * 2) in let f1_2 := i32 (f1 * 2) in let f2_2 := i32 (f2 * 2) in let f3_2 := i32 (f3 * 2) in
  let f4_2 := i32 (f4 * 2) in let f5_2 := i32 (f5 * 2) in let f6_2 := i32 (f6 * 2) in let f7_2 := i32 (f7 * 2) in
  let f5_38 := i32 (f5 * 38) in let f6_19 := i32 (f6 * 19) in let f7_38 := i32 (f7 * 38) in let f8_19 := i32 (f8 * 19) in
  let f9_38 := i32 (f9 * 38) in
  FE_CARRY
    [sop [(f0, f0); (f1_2, f9_38); (f2_2, f8_19); (f3_2, f7_38); (f4_2, f6_19); (f5, f5_38)];
     sop [(f0_2, f1); (f2, f9_38); (f3_2, f8_19); (f4, f7_38); (f5_2, f6_19)];
     sop [(f0_2, f2); (f1_2, f1); (f3_2, f9_38); (f4_2, f8_19); (f5_2, f7_38); (f6, f6_19)];
     sop [(f0_2, f3); (f1_2, f2); (f4, f9_38); (f5_2, f8_19); (f6, f7_38)];
     sop [(f0_2, f4); (f1_2, f3_2); (f2, f2); (f5_2, f9_38); (f6_2, f8_19); (f7, f7_38)];
     sop [(f0_2, f5); (f1_2, f4); (f2_2, f3); (f6, f9_38); (f7_2, f8_19)];
     sop [(f0_2, f6); (f1_2, f5_2); (f2_2, f4); (f3_2, f3); (f7_2, f9_38); (f8, f8_19)];
     sop [(f0_2, f7); (f1_2, f6); (f2_2, f5); (f3_2, f4); (f8, f9_38)];
     sop [(f0_2, f8); (f1_2, f7_2); (f2_2, f6); (f3_2, f5_2); (f4, f4); (f9, f9_38)];
     sop [(f0_2, f9); (f1_2, f8); (f2_2, f7); (f3_2, f6); (f4, f5_2)]].

(** ** Comparison *)

(** 1 if equal, 0 if not. *)
Definition fe_isequal (f g : list Z) : Z := 1 + crypto_verify32 (fe_tobytes f) (fe_tobytes g).

Definition fe_isodd (f : list Z) : Z := Z.land (rd (fe_tobytes f) 0) 1.

(** ** Values and bounds

    [fe_val] is the number a limb vector stands for.  [within B t] bounds every limb
    by the entry of [B] at its place; [tight] and [loose] are the two bounds of the
    comments, 1.1 * 2^25 and 1.65 * 2^26 for the even limbs and half of that for
    the odd ones. *)

Fixpoint lval (ws ts : list Z) : Z :=
  match ws, ts with w :: ws, t :: ts => w * t + lval ws ts | _, _ => 0 end.

Definition fe_weights : list Z := Eval vm_compute in
  [2 ^ 0; 2 ^ 26; 2 ^ 51; 2 ^ 77; 2 ^ 102; 2 ^ 128; 2 ^ 153; 2 ^ 179; 2 ^ 204; 2 ^ 230].
Definition fe_val (t : list Z) : Z := lval fe_weights t.

Definition within (B t : list Z) : Prop := Forall2 (fun b x => Z.abs x <= b) B t.

Definition alt (e o : Z) : list Z := [e; o; e; o; e; o; e; o; e; o].
Abbreviation tight := (within (alt 36909875 18454937)).
Abbreviation loose := (within (alt 110729625 55364812)).

#[global] Instance within_dec B t : Decision (within B t).
Proof. unfold within. apply _. Defined.

Lemma i32_small x : Z.abs x < 2147483648 -> i32 x = x.
Proof. unfold i32. intros. rewrite Z.mod_small; lia. Qed.
Lemma i64_small x : Z.abs x < 9223372036854775808 -> i64 x = x.
Proof. unfold i64. intros. rewrite Z.mod_small; lia. Qed.

Lemma within_length B t : within B t -> length t = length B.
Proof. intros H. symmetry. by apply Forall2_length in H. Qed.

Lemma within_mono B B' t : Forall2 Z.le B B' -> within B t -> within B' t.
Proof.
  intros HB Ht. revert B' HB. induction Ht; intros B' HB; inversion_clear HB; constructor; [lia|].
  by apply IHHt.
Qed.

Lemma within_rd B t i : within B t -> Z.abs (rd t i) <= rd B i.
Proof.
  intros H. unfold rd. generalize (Z.to_nat i) as n. induction H; intros [|n]; simpl; try lia. apply IHForall2.
Qed.

Lemma within_wr B t i b v : within B t -> Z.abs v <= b -> within (wr B i b) (wr t i v).
Proof. intros. by apply Forall2_insert. Qed.

Lemma within_decompose B t : within B t -> length B = 10%nat ->
  exists t0 t1 t2 t3 t4 t5 t6 t7 t8 t9, t = [t0; t1; t2; t3; t4; t5; t6; t7; t8; t9].
Proof.
  intros H HB. apply within_length in H. rewrite HB in H.
  do 10 (destruct t as [|? t]; [discriminate|]). destruct t; [|discriminate]. eauto 11.
Qed.

Lemma lval_wr ws ts i v :
  length ws = length ts -> 0 <= i < Z.of_nat (length ts) ->
  lval ws (wr ts i v) = lval ws ts + rd ws i * (v - rd ts i).
Proof.
  intros Hl Hi. unfold rd, wr. assert (Z.to_nat i < length ts)%nat as Hn by lia. revert Hn Hl.
  generalize (Z.to_nat i) as n. clear Hi i. revert ws.
  induction ts as [|t ts IH]; intros [|w ws] [|n] Hn Hl; simpl in *; try lia.
  rewrite IH by lia. lia.
Qed.

(** ** Carry propagation *)

(** The bounds after one line of [FE_CARRY], and whether that line is within
    [int64_t] and keeps the value modulo the prime. *)
Definition carry_bound (B : list Z) (l : Z * Z * Z * Z) : list Z :=
  let '(i, j, k, m) := l in
  let c := (rd B i + 2 ^ (k - 1)) / 2 ^ k in
  let B := wr B i (2 ^ (k - 1)) in
  wr B j (rd B j + c * m).

Definition carry_ok (B : list Z) (l : Z * Z * Z * Z) : bool :=
  let '(i, j, k, m) := l in
  (0 <=? i) && (i <? 10) && (0 <=? j) && (j <? 10) && negb (i =? j) && (0 <? k) && (0 <=? m) &&
  (rd B i + 2 ^ k <? 2 ^ 63) &&
  (rd B j + (rd B i + 2 ^ (k - 1)) / 2 ^ k * m <? 2 ^ 63) &&
  ((rd fe_weights j * m - rd fe_weights i * 2 ^ k) mod p25519 =? 0).

Lemma carry_quot t k B :
  0 < k -> Z.abs t <= B ->
  Z.abs ((t + 2 ^ (k - 1)) / 2 ^ k) <= (B + 2 ^ (k - 1)) / 2 ^ k /\
  Z.abs (t - (t + 2 ^ (k - 1)) / 2 ^ k * 2 ^ k) <= 2 ^ (k - 1).
Proof.
  intros Hk Ht. replace (2 ^ k) with (2 * 2 ^ (k - 1)) by (rewrite <- Z.pow_succ_r by lia; f_equal; lia).
  assert (0 < 2 ^ (k - 1)) as Hp by (apply Z.pow_pos_nonneg; lia).
  set (h := 2 ^ (k - 1)) in *. clearbody h. clear Hk.
  pose proof (Z.div_mod (t + h) (2 * h) ltac:(lia)). pose proof (Z.mod_pos_bound (t + h) (2 * h) ltac:(lia)).
  pose proof (Z.div_mod (B + h) (2 * h) ltac:(lia)). pose proof (Z.mod_pos_bound (B + h) (2 * h) ltac:(lia)).
  split; [|nia]. apply Z.abs_le. split; nia.
Qed.

Lemma carry_sound B t l :
  within B t -> length B = 10%nat -> carry_ok B l = true ->
  within (carry_bound B l) (carry t l) /\ feq (fe_val (carry t l)) (fe_val t).
Proof.
  destruct l as [[[i j] k] m]. unfold carry_ok, carry_bound, carry. intros Ht HB.
  rewrite !andb_true_iff, negb_true_iff, Z.eqb_neq, Z.eqb_eq, !Z.ltb_lt, !Z.leb_le.
  intros [[[[[[[[[Hi0 Hi] Hj0] Hj] Hij] Hk] Hm] Hbi] Hbj] Hw].
  pose proof (within_rd B t i Ht) as Hti. pose proof (within_rd B t j Ht) as Htj.
  pose proof (within_length B t Ht) as Hlt.
  destruct (carry_quot (rd t i) k (rd B i) Hk Hti) as [Hc Hr].
  assert (2 * 2 ^ (k - 1) = 2 ^ k) as Hk2 by (rewrite <- Z.pow_succ_r by lia; f_equal; lia).
  assert (0 < 2 ^ (k - 1)) as Hp by (apply Z.pow_pos_nonneg; lia).
  change (2 ^ 63) with 9223372036854775808 in *.
  rewrite Z.shiftr_div_pow2, (i64_small (rd t i + _)) by lia.
  set (c := (rd t i + 2 ^ (k - 1)) / 2 ^ k) in *.
  rewrite (i64_small (c * 2 ^ k)) by lia. rewrite (i64_small (rd t i - _)) by lia.
  rewrite !rd_wr_ne by lia.
  assert (Z.abs (c * m) <= (rd B i + 2 ^ (k - 1)) / 2 ^ k * m) as Hcm
    by (rewrite Z.abs_mul, (Z.abs_eq m) by done; by apply Z.mul_le_mono_nonneg_r).
  rewrite (i64_small (c * m)) by lia. rewrite (i64_small (rd t j + _)) by lia. split.
  - apply within_wr; [by apply within_wr|lia].
  - unfold fe_val. rewrite !lval_wr, rd_wr_ne by (rewrite ?length_wr; simpl; lia).
    apply Z.mod_divide in Hw as [q Hq]; [|done]. exists (q * c).
    match goal with |- ?l = ?r => replace l with ((rd fe_weights j * m - rd fe_weights i * 2 ^ k) * c) by ring end.
    rewrite Hq. ring.
Qed.

Fixpoint carries_ok (B : list Z) (ls : list (Z * Z * Z * Z)) : bool :=
  match ls with [] => true | l :: ls => carry_ok B l && carries_ok (carry_bound B l) ls end.

Lemma carries_sound ls B t :
  within B t -> length B = 10%nat -> carries_ok B ls = true ->
  within (fold_left carry_bound ls B) (fold_left carry ls t) /\ feq (fe_val (fold_left carry ls t)) (fe_val t).
Proof.
  revert B t. induction ls as [|l ls IH]; intros B t Ht HB Hok; simpl in *; [done|].
  apply andb_true_iff in Hok as [H1 H2]. destruct (carry_sound B t l Ht HB H1) as [Hw Hv].
  destruct (IH _ _ Hw) as [Hw' Hv']; [|done|].
  - destruct l as [[[i j] k] m]. simpl. by rewrite !length_wr.
  - split; [done|]. by rewrite Hv'.
Qed.

Lemma fmap_i32_small B t : within B t -> Forall (fun b => b < 2147483648) B -> i32 <$> t = t.
Proof.
  induction 1; inversion_clear 1; [done|]. cbn. rewrite i32_small by lia. f_equal. by apply IHForall2.
Qed.

(** Limbs below 2^62 come out tight, with the value unchanged in the field. *)
Lemma FE_CARRY_sound t :
  within (replicate 10 (2 ^ 62)) t -> tight (FE_CARRY t) /\ feq (fe_val (FE_CARRY t)) (fe_val t).
Proof.
  intros Ht. destruct (carries_sound carry_lines _ t Ht eq_refl) as [Hw Hv]; [vm_compute; reflexivity|].
  apply (within_mono _ (alt 36909875 18454937)) in Hw.
  - unfold FE_CARRY. rewrite (fmap_i32_small _ _ Hw); [done|]. repeat (apply Forall_cons_2; [lia|]); apply Forall_nil_2.
  - apply (bool_decide_unpack _). vm_compute. exact I.
Qed.

(** ** Addition, subtraction, selection *)

Lemma alt_limbs e o t : within (alt e o) t ->
  exists t0 t1 t2 t3 t4 t5 t6 t7 t8 t9, t = [t0; t1; t2; t3; t4; t5; t6; t7; t8; t9] /\
  (-e <= t0 <= e /\ -o <= t1 <= o /\ -e <= t2 <= e /\ -o <= t3 <= o /\ -e <= t4 <= e) /\
  (-o <= t5 <= o /\ -e <= t6 <= e /\ -o <= t7 <= o /\ -e <= t8 <= e /\ -o <= t9 <= o).
Proof.
  intros H. destruct (within_decompose _ _ H eq_refl) as (?&?&?&?&?&?&?&?&?&?&->).
  unfold alt, within in H. rewrite !Forall2_cons, !Z.abs_le in H. do 10 eexists. split; [reflexivity|]. tauto.
Qed.

(** Names the limbs of a vector within [alt e o] and their bounds. *)
Ltac limbs H :=
  apply alt_limbs in H as (? & ? & ? & ? & ? & ? & ? & ? & ? & ? & -> & [? [? [? [? ?]]]] & [? [? [? [? ?]]]]).
Ltac within_limbs := unfold within, alt; repeat (apply Forall2_cons; split; [lia|]); apply Forall2_nil; done.

Lemma fe_add_sound f g : tight f -> tight g -> loose (fe_add f g) /\ fe_val (fe_add f g) = fe_val f + fe_val g.
Proof.
  intros Hf Hg. limbs Hf. limbs Hg. unfold fe_add. cbn [zip_with]. rewrite !i32_small by lia.
  split; [within_limbs|]. unfold fe_val, fe_weights. cbn [lval]. ring.
Qed.

Lemma fe_sub_sound f g : tight f -> tight g -> loose (fe_sub f g) /\ fe_val (fe_sub f g) = fe_val f - fe_val g.
Proof.
  intros Hf Hg. limbs Hf. limbs Hg. unfold fe_sub. cbn [zip_with]. rewrite !i32_small by lia.
  split; [within_limbs|]. unfold fe_val, fe_weights. cbn [lval]. ring.
Qed.

Lemma fe_neg_sound f : tight f -> tight (fe_neg f) /\ fe_val (fe_neg f) = - fe_val f.
Proof.
  intros Hf. limbs Hf. unfold fe_neg. cbn [fmap list_fmap]. rewrite !i32_small by lia.
  split; [within_limbs|]. unfold fe_val, fe_weights. cbn [lval]. ring.
Qed.

Lemma tight_loose f : tight f -> loose f.
Proof. apply within_mono. apply (bool_decide_unpack _). vm_compute. exact I. Qed.

Lemma lxor_cancel f g : length f = length g ->
  zip_with Z.lxor f (zip_with (fun x y => Z.land (Z.lxor x y) (-1)) f g) = g /\
  zip_with Z.lxor g (zip_with (fun x y => Z.land (Z.lxor x y) (-1)) f g) = f /\
  zip_with Z.lxor f (zip_with (fun x y => Z.land (Z.lxor x y) 0) f g) = f /\
  zip_with Z.lxor g (zip_with (fun x y => Z.land (Z.lxor x y) 0) f g) = g.
Proof.
  revert g. induction f as [|x f IH]; intros [|y g] H; try discriminate; [done|].
  injection H as H. destruct (IH g H) as (H1 & H2 & H3 & H4). cbn [zip_with].
  rewrite !Z.land_m1_r, !Z.land_0_r, !Z.lxor_0_r, H1, H2, H3, H4.
  rewrite <- Z.lxor_assoc, Z.lxor_nilpotent, Z.lxor_0_l.
  by rewrite (Z.lxor_comm x y), <- Z.lxor_assoc, Z.lxor_nilpotent, Z.lxor_0_l.
Qed.

(** The masks implement a conditional exchange and a conditional assignment. *)
Lemma fe_cswap_sound f g b : length f = length g -> b = 0 \/ b = 1 ->
  fe_cswap f g b = if b =? 1 then (g, f) else (f, g).
Proof.
  intros H. destruct (lxor_cancel f g H) as (H1 & H2 & H3 & H4). unfold fe_cswap, cswap_mask.
  intros [-> | ->]; [change (i32 (- 0)) with 0; by rewrite H3, H4|change (i32 (- (1))) with (-1); by rewrite H1, H2].
Qed.
Lemma fe_ccopy_sound f g b : length f = length g -> b = 0 \/ b = 1 ->
  fe_ccopy f g b = if b =? 1 then g else f.
Proof.
  intros H. destruct (lxor_cancel f g H) as (H1 & H2 & H3 & H4). unfold fe_ccopy, cswap_mask.
  intros [-> | ->]; [change (i32 (- 0)) with 0; by rewrite H3|change (i32 (- (1))) with (-1); by rewrite H1].
Qed.

(** ** Products *)

Definition dotp (l : list (Z * Z)) : Z := foldr (fun ab s => ab.1 * ab.2 + s) 0 l.

Lemma sop_sound L l :
  Forall2 (fun B x => Z.abs x.1 <= B.1 /\ Z.abs x.2 <= B.2) L l -> dotp L <= 2 ^ 62 ->
  sop l = dotp l /\ Z.abs (dotp l) <= dotp L.
Proof.
  intros H HL. assert (forall acc, Z.abs acc + dotp L <= 2 ^ 62 ->
    fold_left (fun acc ab => i64 (acc + i64 (ab.1 * ab.2))) l acc = acc + dotp l /\
    Z.abs (dotp l) <= dotp L /\ 0 <= dotp L) as Hg; [|destruct (Hg 0) as (H1 & H2 & _); [lia|done]].
  clear HL. change (2 ^ 62) with 4611686018427387904.
  induction H as [|[a b] [x y] L l [Ha Hb] H IH]; intros acc Hacc; cbn [fold_left dotp foldr fst snd] in *; [lia|].
  fold (dotp L) in *. fold (dotp l) in *.
  assert (Z.abs (x * y) <= a * b) by (rewrite Z.abs_mul; nia). destruct (IH 0) as (_ & H1 & H2); [nia|].
  rewrite (i64_small (x * y)) by lia. rewrite i64_small by lia.
  destruct (IH (acc + x * y)) as (-> & _); lia.
Qed.

Lemma sop_sound62 L l :
  Forall2 (fun B x => Z.abs x.1 <= B.1 /\ Z.abs x.2 <= B.2) L l -> dotp L <= 2 ^ 62 ->
  sop l = dotp l /\ Z.abs (dotp l) <= 2 ^ 62.
Proof. intros H1 H2. destruct (sop_sound L l H1 H2). split; [done|lia]. Qed.

Lemma terms_cons a b x y L l :
  Z.abs x <= a -> Z.abs y <= b ->
  Forall2 (fun B x => Z.abs x.1 <= B.1 /\ Z.abs x.2 <= B.2) L l ->
  Forall2 (fun B x => Z.abs x.1 <= B.1 /\ Z.abs x.2 <= B.2) ((a, b) :: L) ((x, y) :: l).
Proof. intros. by constructor. Qed.

Lemma abs_limb e t : - e <= t <= e -> Z.abs t <= e.
Proof. lia. Qed.
Lemma abs_limb_mul e t c : 0 <= c -> - e <= t <= e -> Z.abs (t * c) <= e * c.
Proof. intros. rewrite Z.abs_mul. nia. Qed.

(** Replaces every [sop] by the sum it stands for, and bounds it. *)
Ltac sop_bound :=
  first [eapply abs_limb; eassumption | eapply abs_limb_mul; [discriminate|eassumption]].
Ltac sops :=
  repeat match goal with |- context [sop ?l] =>
    let H := fresh in
    assert (sop l = dotp l /\ Z.abs (dotp l) <= 2 ^ 62) as [H ?]
      by (eapply sop_sound62;
          [repeat (eapply terms_cons; [sop_bound|sop_bound|]); apply List.Forall2_nil
          |vm_compute; discriminate]);
    rewrite H; clear H
  end.
Ltac read_limbs := cbv [rd nth Z.to_nat Pos.to_nat Pos.iter_op Init.Nat.add].

(** The sums of [fe_mul] and [fe_sq], as polynomials in the limbs: they are the
    product, with 2^255 replaced by 19. *)
Lemma mul_sums f0 f1 f2 f3 f4 f5 f6 f7 f8 f9 g0 g1 g2 g3 g4 g5 g6 g7 g8 g9 :
  feq (fe_val
    [dotp [(f0, g0); (f1 * 2, g9 * 19); (f2, g8 * 19); (f3 * 2, g7 * 19); (f4, g6 * 19); (f5 * 2, g5 * 19); (f6, g4 * 19); (f7 * 2, g3 * 19); (f8, g2 * 19); (f9 * 2, g1 * 19)];
     dotp [(f0, g1); (f1, g0); (f2, g9 * 19); (f3, g8 * 19); (f4, g7 * 19); (f5, g6 * 19); (f6, g5 * 19); (f7, g4 * 19); (f8, g3 * 19); (f9, g2 * 19)];
     dotp [(f0, g2); (f1 * 2, g1); (f2, g0); (f3 * 2, g9 * 19); (f4, g8 * 19); (f5 * 2, g7 * 19); (f6, g6 * 19); (f7 * 2, g5 * 19); (f8, g4 * 19); (f9 * 2, g3 * 19)];
     dotp [(f0, g3); (f1, g2); (f2, g1); (f3, g0); (f4, g9 * 19); (f5, g8 * 19); (f6, g7 * 19); (f7, g6 * 19); (f8, g5 * 19); (f9, g4 * 19)];
     dotp [(f0, g4); (f1 * 2, g3); (f2, g2); (f3 * 2, g1); (f4, g0); (f5 * 2, g9 * 19); (f6, g8 * 19); (f7 * 2, g7 * 19); (f8, g6 * 19); (f9 * 2, g5 * 19)];
     dotp [(f0, g5); (f1, g4); (f2, g3); (f3, g2); (f4, g1); (f5, g0); (f6, g9 * 19); (f7, g8 * 19); (f8, g7 * 19); (f9, g6 * 19)];
     dotp [(f0, g6); (f1 * 2, g5); (f2, g4); (f3 * 2, g3); (f4, g2); (f5 * 2, g1); (f6, g0); (f7 * 2, g9 * 19); (f8, g8 * 19); (f9 * 2, g7 * 19)];
     dotp [(f0, g7); (f1, g6); (f2, g5); (f3, g4); (f4, g3); (f5, g2); (f6, g1); (f7, g0); (f8, g9 * 19); (f9, g8 * 19)];
     dotp [(f0, g8); (f1 * 2, g7); (f2, g6); (f3 * 2, g5); (f4, g4); (f5 * 2, g3); (f6, g2); (f7 * 2, g1); (f8, g0); (f9 * 2, g9 * 19)];
     dotp [(f0, g9); (f1, g8); (f2, g7); (f3, g6); (f4, g5); (f5, g4); (f6, g3); (f7, g2); (f8, g1); (f9, g0)]])
    (fe_val [f0; f1; f2; f3; f4; f5; f6; f7; f8; f9] * fe_val [g0; g1; g2; g3; g4; g5; g6; g7; g8; g9]).
Proof.
  exists (- (2 ^ 0 * (2 * f1 * g9 + f2 * g8 + 2 * f3 * g7 + f4 * g6 + 2 * f5 * g5 + f6 * g4 + 2 * f7 * g3 + f8 * g2 + 2 * f9 * g1) +
    2 ^ 26 * (f2 * g9 + f3 * g8 + f4 * g7 + f5 * g6 + f6 * g5 + f7 * g4 + f8 * g3 + f9 * g2) +
    2 ^ 51 * (2 * f3 * g9 + f4 * g8 + 2 * f5 * g7 + f6 * g6 + 2 * f7 * g5 + f8 * g4 + 2 * f9 * g3) +
    2 ^ 77 * (f4 * g9 + f5 * g8 + f6 * g7 + f7 * g6 + f8 * g5 + f9 * g4) +
    2 ^ 102 * (2 * f5 * g9 + f6 * g8 + 2 * f7 * g7 + f8 * g6 + 2 * f9 * g5) +
    2 ^ 128 * (f6 * g9 + f7 * g8 + f8 * g7 + f9 * g6) +
    2 ^ 153 * (2 * f7 * g9 + f8 * g8 + 2 * f9 * g7) +
    2 ^ 179 * (f8 * g9 + f9 * g8) +
    2 ^ 204 * (2 * f9 * g9))).
  unfold fe_val, fe_weights, p25519. cbn [lval dotp foldr fst snd]. ring.
Qed.

Lemma sq_sums f0 f1 f2 f3 f4 f5 f6 f7 f8 f9 :
  feq (fe_val
    [dotp [(f0, f0); (f1 * 2, f9 * 38); (f2 * 2, f8 * 19); (f3 * 2, f7 * 38); (f4 * 2, f6 * 19); (f5, f5 * 38)];
     dotp [(f0 * 2, f1); (f2, f9 * 38); (f3 * 2, f8 * 19); (f4, f7 * 38); (f5 * 2, f6 * 19)];
     dotp [(f0 * 2, f2); (f1 * 2, f1); (f3 * 2, f9 * 38); (f4 * 2, f8 * 19); (f5 * 2, f7 * 38); (f6, f6 * 19)];
     dotp [(f0 * 2, f3); (f1 * 2, f2); (f4, f9 * 38); (f5 * 2, f8 * 19); (f6, f7 * 38)];
     dotp [(f0 * 2, f4); (f1 * 2, f3 * 2); (f2, f2); (f5 * 2, f9 * 38); (f6 * 2, f8 * 19); (f7, f7 * 38)];
     dotp [(f0 * 2, f5); (f1 * 2, f4); (f2 * 2, f3); (f6, f9 * 38); (f7 * 2, f8 * 19)];
     dotp [(f0 * 2, f6); (f1 * 2, f5 * 2); (f2 * 2, f4); (f3 * 2, f3); (f7 * 2, f9 * 38); (f8, f8 * 19)];
     dotp [(f0 * 2, f7); (f1 * 2, f6); (f2 * 2, f5); (f3 * 2, f4); (f8, f9 * 38)];
     dotp [(f0 * 2, f8); (f1 * 2, f7 * 2); (f2 * 2, f6); (f3 * 2, f5 * 2); (f4, f4); (f9, f9 * 38)];
     dotp [(f0 * 2, f9); (f1 * 2, f8); (f2 * 2, f7); (f3 * 2, f6); (f4, f5 * 2)]])
    (fe_val [f0; f1; f2; f3; f4; f5; f6; f7; f8; f9] * fe_val [f0; f1; f2; f3; f4; f5; f6; f7; f8; f9]).
Proof.
  exists (- (2 ^ 0 * (2 * f1 * f9 + f2 * f8 + 2 * f3 * f7 + f4 * f6 + 2 * f5 * f5 + f6 * f4 + 2 * f7 * f3 + f8 * f2 + 2 * f9 * f1) +
    2 ^ 26 * (f2 * f9 + f3 * f8 + f4 * f7 + f5 * f6 + f6 * f5 + f7 * f4 + f8 * f3 + f9 * f2) +
    2 ^ 51 * (2 * f3 * f9 + f4 * f8 + 2 * f5 * f7 + f6 * f6 + 2 * f7 * f5 + f8 * f4 + 2 * f9 * f3) +
    2 ^ 77 * (f4 * f9 + f5 * f8 + f6 * f7 + f7 * f6 + f8 * f5 + f9 * f4) +
    2 ^ 102 * (2 * f5 * f9 + f6 * f8 + 2 * f7 * f7 + f8 * f6 + 2 * f9 * f5) +
    2 ^ 128 * (f6 * f9 + f7 * f8 + f8 * f7 + f9 * f6) +
    2 ^ 153 * (2 * f7 * f9 + f8 * f8 + 2 * f9 * f7) +
    2 ^ 179 * (f8 * f9 + f9 * f8) +
    2 ^ 204 * (2 * f9 * f9))).
  unfold fe_val, fe_weights, p25519. cbn [lval dotp foldr fst snd]. ring.
Qed.

Ltac within62 :=
  unfold within; cbn [replicate];
  repeat (apply Forall2_cons; split; [assumption|]); apply Forall2_nil; exact I.

Lemma fe_mul_sound f g :
  loose f -> loose g -> tight (fe_mul f g) /\ feq (fe_val (fe_mul f g)) (fe_val f * fe_val g).
Proof.
  intros Hf Hg. limbs Hf. limbs Hg. unfold fe_mul. cbv zeta. read_limbs.
  rewrite !i32_small by lia. sops.
  edestruct FE_CARRY_sound as [Ht Hv]; [|split; [exact Ht|rewrite Hv; apply mul_sums]]. within62.
Qed.

Lemma fe_sq_sound f :
  loose f -> tight (fe_sq f) /\ feq (fe_val (fe_sq f)) (fe_val f * fe_val f).
Proof.
  intros Hf. limbs Hf. unfold fe_sq. cbv zeta. read_limbs. rewrite !i32_small by lia. sops.
  edestruct FE_CARRY_sound as [Ht Hv]; [|split; [exact Ht|rewrite Hv; apply sq_sums]]. within62.
Qed.

Lemma fe_mul_small_sound f g :
  loose f -> Z.abs g < 2 ^ 31 -> tight (fe_mul_small f g) /\ feq (fe_val (fe_mul_small f g)) (fe_val f * g).
Proof.
  intros Hf Hg. limbs Hf. unfold fe_mul_small. cbn [fmap list_fmap].
  assert (forall y, Z.abs y <= 110729625 -> Z.abs (y * g) <= 2 ^ 62) as Hx by (intros y Hy; rewrite Z.abs_mul; nia).
  assert (forall y, Z.abs y <= 110729625 -> i64 (y * g) = y * g) as Hi
    by (intros y Hy; specialize (Hx y Hy); apply i64_small; lia).
  rewrite !Hi by lia. edestruct FE_CARRY_sound as [Ht Hv]; [|split; [exact Ht|rewrite Hv]].
  - unfold within; cbn [replicate]. repeat (apply Forall2_cons; split; [apply Hx; lia|]). by apply Forall2_nil.
  - unfold fe_val, fe_weights. cbn [lval].
    match goal with |- feq ?a ?b => replace a with b by ring end. reflexivity.
Qed.

(** ** Decoding *)

(** Evaluates reads at constant offsets. *)
Ltac read_bytes :=
  repeat match goal with |- context [rd ?l ?o] =>
    let v := eval vm_compute in (Z.to_nat o) in change (rd l o) with (nth v l 0) end;
  cbn [nth].

Lemma load24_le_val s o : is_bytes s ->
  load24_le s o = rd s o + 2 ^ 8 * rd s (o + 1) + 2 ^ 16 * rd s (o + 2) /\ 0 <= load24_le s o < 2 ^ 24.
Proof.
  intros Hs. unfold load24_le.
  pose proof (is_bytes_rd s o Hs) as H0. pose proof (is_bytes_rd s (o + 1) Hs) as H1.
  pose proof (is_bytes_rd s (o + 2) Hs) as H2.
  rewrite !shl32_byte by (done || lia). unfold is_u8 in *.
  rewrite (lor_shiftl_add (rd s o)), lor_shiftl_add by lia. lia.
Qed.

Lemma load32_le_rd s o : is_bytes s ->
  load32_le s o = rd s o + 2 ^ 8 * rd s (o + 1) + 2 ^ 16 * rd s (o + 2) + 2 ^ 24 * rd s (o + 3).
Proof.
  intros Hs. unfold load32_le. rewrite load4_val by auto with wg_range. cbn [le_val]. ring.
Qed.

Lemma shl32_load24 s o k : is_bytes s -> 0 <= k <= 8 -> shl32 (load24_le s o) k = load24_le s o * 2 ^ k.
Proof.
  intros Hs Hk. unfold shl32. rewrite Z.shiftl_mul_pow2 by lia. apply u32_small.
  destruct (load24_le_val s o Hs) as [_ H].
  assert (0 < 2 ^ k) by (apply Z.pow_pos_nonneg; lia).
  assert (2 ^ k <= 2 ^ 8) by (apply Z.pow_le_mono_r; lia). unfold is_u32. nia.
Qed.

Lemma le_val_mod255 s : is_bytes s -> length s = 32%nat ->
  le_val s mod 2 ^ 255 = le_val (take 29 s) + 2 ^ 232 * (load24_le s 29 mod 2 ^ 23).
Proof.
  intros Hs Hl. rewrite <- (take_drop 29 s) at 1. rewrite le_val_app, length_take, Hl.
  change (256 ^ Z.of_nat (29 `min` 32)) with (2 ^ 232).
  assert (load24_le s 29 = le_val (drop 29 s)) as ->.
  { rewrite (proj1 (load24_le_val s 29 Hs)).
    do 32 (destruct s as [|? s]; [discriminate|]). destruct s; [|discriminate].
    read_bytes. cbn [drop le_val]. ring. }
  pose proof (le_val_range (take 29 s) (is_bytes_take 29 s Hs)) as Hr. rewrite length_take, Hl in Hr.
  change (256 ^ Z.of_nat (29 `min` 32)) with (2 ^ 232) in Hr.
  set (a := le_val (take 29 s)) in *. set (b := le_val (drop 29 s)).
  pose proof (Z.div_mod b (2 ^ 23) ltac:(lia)). pose proof (Z.mod_pos_bound b (2 ^ 23) ltac:(lia)).
  symmetry. apply (Z.mod_unique _ _ (b / 2 ^ 23)); lia.
Qed.

Lemma fe_frombytes_sound s : is_bytes s -> length s = 32%nat ->
  tight (fe_frombytes s) /\ feq (fe_val (fe_frombytes s)) (le_val s mod 2 ^ 255).
Proof.
  intros Hs Hl. rewrite le_val_mod255 by done. unfold fe_frombytes, fe_frombytes_mask.
  change (shr32 16777215 1) with (Z.ones 23). rewrite Z.land_ones by lia.
  assert (shl32 (load24_le s 29 mod 2 ^ 23) 2 = (load24_le s 29 mod 2 ^ 23) * 4) as ->.
  { unfold shl32. rewrite Z.shiftl_mul_pow2 by lia. apply u32_small.
    pose proof (Z.mod_pos_bound (load24_le s 29) (2 ^ 23) ltac:(lia)). unfold is_u32. lia. }
  rewrite !shl32_load24 by (done || lia).
  pose proof (Z.mod_pos_bound (load24_le s 29) (2 ^ 23) ltac:(lia)) as Hm.
  set (m := load24_le s 29 mod 2 ^ 23) in *. clearbody m.
  edestruct FE_CARRY_sound as [Ht Hv]; [|split; [exact Ht|rewrite Hv]].
  - unfold within; cbn [replicate].
    pose proof (fun o => proj2 (load24_le_val s o Hs)) as H24.
    pose proof (fun o => load32_le_range s o Hs) as H32. unfold is_u32 in H32.
    pose proof (H24 4); pose proof (H24 7); pose proof (H24 10); pose proof (H24 13); pose proof (H24 20);
    pose proof (H24 23); pose proof (H24 26); pose proof (H32 0); pose proof (H32 16).
    repeat (apply Forall2_cons; split; [lia|]). by apply Forall2_nil.
  - rewrite !load32_le_rd, !(fun o => proj1 (load24_le_val s o Hs)) by done.
    do 32 (destruct s as [|? s]; [discriminate|]). destruct s; [|discriminate].
    read_bytes.
    unfold fe_val, fe_weights. cbn [lval take le_val].
    match goal with |- feq ?a ?b => replace a with b by ring end. reflexivity.
Qed.

(** ** Encoding *)

Lemma floor_step a W t k : 0 < W -> 0 <= k -> (a / W + t) / 2 ^ k = (a + W * t) / (W * 2 ^ k).
Proof.
  intros HW Hk. assert (0 < 2 ^ k) by (apply Z.pow_pos_nonneg; lia).
  rewrite <- Z.div_div by lia. f_equal. rewrite (Z.mul_comm W), Z.div_add; lia.
Qed.

Lemma floor_chain q t0 t1 t2 t3 t4 t5 t6 t7 t8 t9 :
  ((((((((((q + t0) / 2 ^ 26 + t1) / 2 ^ 25 + t2) / 2 ^ 26 + t3) / 2 ^ 25 + t4) / 2 ^ 26 + t5) / 2 ^ 25
     + t6) / 2 ^ 26 + t7) / 2 ^ 25 + t8) / 2 ^ 26 + t9) / 2 ^ 25 =
  (q + fe_val [t0; t1; t2; t3; t4; t5; t6; t7; t8; t9]) / 2 ^ 255.
Proof.
  replace (q + t0) with (q / 1 + t0) by (rewrite Z.div_1_r; ring).
  repeat match goal with |- context [(?a / ?W + ?t) / 2 ^ ?k] =>
    lazymatch a with context [Z.div] => fail | _ => rewrite (floor_step a W t k) by lia end end.
  f_equal. unfold fe_val, fe_weights. cbn [lval]. ring.
Qed.

Lemma sign_step q t k :
  Z.abs q <= 16 -> Z.abs t <= 36909875 -> 25 <= k <= 26 ->
  Z.shiftr (i32 (q + t)) k = (q + t) / 2 ^ k /\ Z.abs ((q + t) / 2 ^ k) <= 16.
Proof.
  intros Hq Ht Hk. rewrite i32_small, Z.shiftr_div_pow2 by lia. split; [done|].
  assert (k = 25 \/ k = 26) as [-> | ->] by lia; apply Z.abs_le; zlia.
Qed.

(** The first loop finds the sign: the quotient of the number by 2^255. *)
Lemma tobytes_sign_eq h : tight h -> tobytes_sign h = if fe_val h <? 0 then -1 else 0.
Proof.
  intros Hh. limbs Hh. unfold tobytes_sign. cbn [fold_left]. read_bytes.
  rewrite (i32_small (19 * _)), (i32_small (_ + 2 ^ 24)), (Z.shiftr_div_pow2 (19 * _ + _)) by lia.
  match goal with |- context [(19 * ?t9 + 2 ^ 24) / 2 ^ 25] => set (q := (19 * t9 + 2 ^ 24) / 2 ^ 25) end.
  assert (Z.abs q <= 16) as Hq by (subst q; apply Z.abs_le; zlia).
  assert (25 <= 26 <= 26) as K26 by lia. assert (25 <= 25 <= 26) as K25 by lia.
  repeat match goal with |- context [Z.shiftr (i32 (?a + ?t)) ?k] =>
    lazymatch a with context [Z.shiftr] => fail | _ =>
      let H := fresh in let H' := fresh in
      destruct (sign_step a t k) as [H H']; [first [assumption|lia]|lia|lia|]; rewrite H; clear H
    end end.
  rewrite floor_chain. assert (q = (19 * x8 + 2 ^ 24) / 2 ^ 25) as Hqd by reflexivity. clearbody q.
  clear K26 K25. repeat match goal with H : Z.abs (_ / _) <= _ |- _ => clear H end.
  set (w := fe_val _). assert (Z.abs w < 2 ^ 255 - 19 /\ (0 < q -> 0 < w) /\ (q < 0 -> w < - 16)) as (H10 & H11 & H12)
    by (subst w; unfold fe_val, fe_weights; cbn [lval]; repeat split; zlia).
  clearbody w. destruct (Z.ltb_spec w 0).
  - symmetry. apply (Z.div_unique _ _ _ (q + w + 2 ^ 255)); lia.
  - apply Z.div_small; lia.
Qed.

(** One limb of the second loop. *)
Lemma tobytes_limb_step t q i k :
  Z.abs q <= 19 -> Z.abs (rd t i) <= 36909875 -> k = 25 \/ k = 26 -> 0 <= i < Z.of_nat (length t) ->
  exists r q', tobytes_limb (t, q) i k = (wr t i r, q') /\
    0 <= r < 2 ^ k /\ r = rd t i + q - 2 ^ k * q' /\ Z.abs q' <= 19.
Proof.
  intros Hq Ht Hk Hi. unfold tobytes_limb.
  rewrite rd_wr_eq, wr_wr_eq, (i32_small (rd t i + q)), Z.shiftr_div_pow2 by lia.
  exists ((rd t i + q) mod 2 ^ k), ((rd t i + q) / 2 ^ k).
  set (x := rd t i + q) in *. assert (Z.abs x <= 36909894) as Hx by lia. clearbody x.
  assert (Z.abs (x / 2 ^ k) <= 2 /\ Z.abs (x / 2 ^ k * 2 ^ k) < 2 ^ 31 /\ 0 <= x mod 2 ^ k < 2 ^ k /\
          x = 2 ^ k * (x / 2 ^ k) + x mod 2 ^ k) as (H1 & H2 & H3 & H4)
    by (destruct Hk as [-> | ->]; rewrite !Z.abs_le, Z.abs_lt; zlia).
  change (2 ^ 31) with 2147483648 in H2.
  assert (2 ^ k <= 2 ^ 26) by (apply Z.pow_le_mono_r; lia).
  rewrite (i32_small (x / 2 ^ k * 2 ^ k)), i32_small by lia.
  split; [do 2 f_equal; lia|]. lia.
Qed.

Ltac tobytes_limb_tac :=
  match goal with |- context [tobytes_limb (?t, ?c) ?i ?k] =>
    lazymatch t with context [tobytes_limb] => fail | _ =>
      let iv := eval vm_compute in i in
      let r := fresh "r" in let e := fresh "e" in let H := fresh in let Hr := fresh in
      destruct (tobytes_limb_step t c iv k) as (r & e & H & ? & Hr & ?); [assumption|read_bytes; assumption|auto|cbn; clear; lia|];
      change (tobytes_limb (t, c) i k) with (tobytes_limb (t, c) iv k); rewrite H; clear H;
      cbv [rd nth Z.to_nat Pos.to_nat Pos.iter_op Init.Nat.add] in Hr;
      let t' := eval cbv [wr insert list_insert Z.to_nat Pos.to_nat Pos.iter_op Init.Nat.add] in (wr t iv r) in
      change (wr t iv r) with t'
    end end.

Lemma tobytes_carry_eq h q : tight h -> Z.abs q <= 1 -> exists r e,
  tobytes_carry h q = (r, e) /\ fe_val r + 2 ^ 255 * e = fe_val h + 19 * q /\
  Forall2 (fun b x => 0 <= x < b) (alt (2 ^ 26) (2 ^ 25)) r.
Proof.
  intros Hh Hq. unfold tobytes_carry. rewrite i32_small by lia. assert (Z.abs (q * 19) <= 19) as Hq' by lia.
  apply (within_mono _ (alt 36909875 36909875)) in Hh; [|apply (bool_decide_unpack _); vm_compute; exact I].
  destruct (within_decompose _ _ Hh eq_refl) as (?&?&?&?&?&?&?&?&?&?&->).
  unfold within, alt in Hh. rewrite !Forall2_cons in Hh. destruct Hh as (?&?&?&?&?&?&?&?&?&?&_). cbn [fold_left].
  repeat tobytes_limb_tac.
  do 2 eexists. split; [reflexivity|]. split; [|unfold alt; repeat (apply Forall2_cons; split; [assumption|]); by apply Forall2_nil].
  subst. unfold fe_val, fe_weights. cbn [lval]. ring.
Qed.

Lemma word_join a b k : 0 <= k <= 32 -> 0 <= a < 2 ^ k -> Z.lor a (shl32 b k) = a + 2 ^ k * (b mod 2 ^ (32 - k)).
Proof.
  intros Hk Ha. unfold shl32, u32. rewrite Z.shiftl_mul_pow2 by lia.
  replace 4294967296 with (2 ^ (32 - k) * 2 ^ k) by (rewrite <- Z.pow_add_r by lia; replace (32 - k + k) with 32 by lia; done).
  rewrite Z.mul_mod_distr_r by (try apply Z.pow_nonzero; lia).
  rewrite <- Z.shiftl_mul_pow2, lor_shiftl_add by lia. ring.
Qed.

Lemma le_val_words v l : is_u32 v -> le_val (store32_le v ++ l) = v + 2 ^ 32 * le_val l.
Proof.
  intros Hv. rewrite le_val_app, store32_le_bytes, le_val_le_bytes, length_le_bytes.
  change (256 ^ Z.of_nat 4) with (2 ^ 32). rewrite Z.mod_small; [done|exact Hv].
Qed.

(** Reduced limbs are stored as the little-endian bytes of their value. *)
Lemma limb_words_val r0 r1 r2 r3 r4 r5 r6 r7 r8 r9 :
  Forall2 (fun b x => 0 <= x < b) (alt (2 ^ 26) (2 ^ 25)) [r0; r1; r2; r3; r4; r5; r6; r7; r8; r9] ->
  le_val (concat (store32_le <$> limb_words (fun i => u32 (rd [r0; r1; r2; r3; r4; r5; r6; r7; r8; r9] i)))) =
  fe_val [r0; r1; r2; r3; r4; r5; r6; r7; r8; r9].
Proof.
  unfold alt. rewrite !Forall2_cons. intros (H0 & H1 & H2 & H3 & H4 & H5 & H6 & H7 & H8 & H9 & _).
  unfold limb_words. cbv beta. read_bytes. rewrite !u32_small by (unfold is_u32; lia).
  rewrite !shr32_div by lia. rewrite !word_join by first [lia | split; [apply Z.div_pos|apply Z.div_lt_upper_bound]; lia].
  cbn [fmap list_fmap concat]. rewrite !le_val_words by (unfold is_u32; zlia).
  unfold fe_val, fe_weights. cbn [lval le_val]. zlia.
Qed.

Lemma fe_val_bound h : tight h -> Z.abs (fe_val h) < p25519.
Proof. intros Hh. limbs Hh. unfold fe_val, fe_weights, p25519. cbn [lval]. lia. Qed.

Lemma fe_tobytes_sound h : tight h -> fe_tobytes h = le_bytes 32 (fe_val h mod p25519).
Proof.
  intros Hh. pose proof (fe_val_bound h Hh) as Hb. unfold fe_tobytes. rewrite tobytes_sign_eq by done.
  set (q := if fe_val h <? 0 then -1 else 0).
  destruct (tobytes_carry_eq h q Hh) as (r & e & -> & Hv & Hr); [subst q; case_cmp; lia|].
  assert (exists r0 r1 r2 r3 r4 r5 r6 r7 r8 r9, r = [r0; r1; r2; r3; r4; r5; r6; r7; r8; r9])
    as (r0 & r1 & r2 & r3 & r4 & r5 & r6 & r7 & r8 & r9 & ->).
  { apply Forall2_length in Hr. do 10 (destruct r as [|? r]; [discriminate|]). destruct r; [|discriminate]. eauto 11. }
  assert (0 <= fe_val [r0; r1; r2; r3; r4; r5; r6; r7; r8; r9] < 2 ^ 255) as Hrv
    by (unfold alt in Hr; rewrite !Forall2_cons in Hr; unfold fe_val, fe_weights; cbn [lval]; lia).
  assert (fe_val h mod p25519 = fe_val [r0; r1; r2; r3; r4; r5; r6; r7; r8; r9]) as ->.
  { symmetry. subst q. unfold p25519 in *. change (2 ^ 255) with (2 ^ 255 - 19 + 19) in Hrv.
    destruct (Z.ltb_spec (fe_val h) 0).
    - assert (e = -1) by lia. apply (Z.mod_unique _ _ (-1)); lia.
    - assert (e = 0) by lia. apply (Z.mod_unique _ _ 0); lia. }
  rewrite <- (limb_words_val _ _ _ _ _ _ _ _ _ _ Hr).
  set (l := concat _). assert (is_bytes l) as Hl.
  { apply is_bytes_concat, Forall_fmap, Forall_true. intros. apply is_bytes_store32_le. }
  change 32%nat with (length l). symmetry. by apply le_bytes_le_val.
Qed.

(** ** Comparison *)

Lemma fe_tobytes_inj f g : tight f -> tight g -> fe_tobytes f = fe_tobytes g <-> feq (fe_val f) (fe_val g).
Proof.
  intros Hf Hg. rewrite !fe_tobytes_sound, feq_mod by done. split; [|by intros ->].
  intros H%(f_equal le_val). rewrite !le_val_le_bytes in H.
  assert (forall x, 0 <= x mod p25519 < 256 ^ Z.of_nat 32) as Hr
    by (intros x; pose proof (Z.mod_pos_bound x p25519 ltac:(done)); unfold p25519 in *; change (256 ^ Z.of_nat 32) with (2 ^ 256); lia).
  rewrite !(Z.mod_small (_ mod p25519)) in H by apply Hr. done.
Qed.

(** Equality is decided in the field, not on the limbs. *)
Lemma fe_isequal_sound f g : tight f -> tight g ->
  (feq (fe_val f) (fe_val g) /\ fe_isequal f g = 1) \/ (~ feq (fe_val f) (fe_val g) /\ fe_isequal f g = 0).
Proof.
  intros Hf Hg. unfold fe_isequal. rewrite <- fe_tobytes_inj by done. rewrite crypto_verify32_spec.
  - destruct (decide _) as [E|E]; [left|right]; (split; [exact E|reflexivity]).
  - rewrite fe_tobytes_sound by done. auto with wg_range.
  - rewrite fe_tobytes_sound by done. auto with wg_range.
  - rewrite fe_tobytes_sound by done. apply length_le_bytes.
  - rewrite fe_tobytes_sound by done. apply length_le_bytes.
Qed.

Lemma fe_tobytes_bytes h : is_bytes (fe_tobytes h) /\ length (fe_tobytes h) = 32%nat.
Proof.
  unfold fe_tobytes. destruct (tobytes_carry h (tobytes_sign h)) as [t q].
  generalize (fun i => u32 (rd t i)) as u. intros u. split; [|done].
  apply is_bytes_concat, Forall_fmap, Forall_true. intros. apply is_bytes_store32_le.
Qed.

(** ** The contract of the field operations *)

(** For limbs within the bounds of the comments, 1.65 * 2^26 and 1.65 * 2^25,
    [fe_mul], [fe_sq] and [fe_mul_small] return limbs within 1.1 * 2^25 and 1.1 * 2^24
    that stand for the product, the square and the multiple modulo 2^255 - 19: no
    intermediate result of 32 or 64 bits is cut. *)
Theorem fe_mul_correct f g c : loose f -> loose g -> Z.abs c < 2 ^ 31 ->
  (tight (fe_mul f g) /\ fe_val (fe_mul f g) mod p25519 = (fe_val f * fe_val g) mod p25519) /\
  (tight (fe_sq f) /\ fe_val (fe_sq f) mod p25519 = fe_val f ^ 2 mod p25519) /\
  (tight (fe_mul_small f c) /\ fe_val (fe_mul_small f c) mod p25519 = (fe_val f * c) mod p25519).
Proof.
  intros Hf Hg Hc. rewrite <- !feq_mod, Z.pow_2_r.
  split; [|split]; [by apply fe_mul_sound|by apply fe_sq_sound|by apply fe_mul_small_sound].
Qed.

(** Limbs at the bounds. *)
Lemma fe_mul_correct_witness :
  fe_val (fe_mul (alt 110729625 55364812) (alt (-110729625) 55364812)) mod p25519 =
  (fe_val (alt 110729625 55364812) * fe_val (alt (-110729625) 55364812)) mod p25519.
Proof.
  apply (fe_mul_correct (alt 110729625 55364812) (alt (-110729625) 55364812) 121666);
    [apply (bool_decide_unpack _); vm_compute; exact I..|reflexivity].
Defined.

(** Reading 32 bytes as a field element ignores the last bit, and writing it back
    gives the canonical bytes: the least nonnegative representative.  Two field
    elements have the same bytes exactly when they are equal in the field. *)
Theorem fe_bytes_canonical s f g : is_bytes s -> length s = 32%nat -> tight f -> tight g ->
  fe_tobytes (fe_frombytes s) = le_bytes 32 ((le_val s mod 2 ^ 255) mod p25519) /\
  (fe_tobytes f = fe_tobytes g <-> fe_val f mod p25519 = fe_val g mod p25519).
Proof.
  intros Hs Hl Hf Hg. destruct (fe_frombytes_sound s Hs Hl) as [Ht Hv]. split.
  - rewrite fe_tobytes_sound by done. f_equal. by apply feq_mod.
  - rewrite <- feq_mod. by apply fe_tobytes_inj.
Qed.

(** The bytes 2^256 - 1 are read as 18. *)
Lemma fe_bytes_canonical_witness :
  fe_tobytes (fe_frombytes (replicate 32 255)) = le_bytes 32 18 /\ fe_tobytes fe_0 <> fe_tobytes fe_1.
Proof.
  split.
  - apply (fe_bytes_canonical (replicate 32 255) fe_0 fe_1); try reflexivity;
      apply (bool_decide_unpack _); vm_compute; exact I.
  - vm_compute. discriminate.
Defined.
