(* ===== verification/Curve25519.v ===== *)
(** * X25519

    The Montgomery ladder of library/crypto/monocypher.c ([crypto_x25519] and what
    it calls above the field arithmetic) and the function of RFC 7748 it computes. *)

From S2P Require Import Prelude Prime25519 Monocypher Field25519.

(** ** The code *)

(** [fe_sq] followed by [n - 1] further squarings in place. *)
Definition fe_sqn (f : list Z) (n : nat) : list Z := Nat.iter n fe_sq f.

(** [t0 = x^((p-5)/8)] *)
Definition invsqrt_pow (x : list Z) : list Z :=
  let t0 := fe_sq x in
  let t1 := fe_sq t0 in let t1 := fe_sq t1 in let t1 := fe_mul x t1 in
  let t0 := fe_mul t0 t1 in
  let t0 := fe_sq t0 in let t0 := fe_mul t1 t0 in
  let t1 := fe_sqn t0 5 in let t0 := fe_mul t1 t0 in
  let t1 := fe_sqn t0 10 in let t1 := fe_mul t1 t0 in
  let t2 := fe_sqn t1 20 in let t1 := fe_mul t2 t1 in
  let t1 := fe_sqn t1 10 in let t0 := fe_mul t1 t0 in
  let t1 := fe_sqn t0 50 in let t1 := fe_mul t1 t0 in
  let t2 := fe_sqn t1 100 in let t1 := fe_mul t2 t1 in
  let t1 := fe_sqn t1 50 in let t0 := fe_mul t1 t0 in
  let t0 := fe_sqn t0 2 in fe_mul t0 x.

Definition invsqrt (x : list Z) : list Z * Z :=
  let t0 := invsqrt_pow x in
  let quartic := fe_sq t0 in
  let quartic := fe_mul quartic x in
  let check := fe_0 in let z0 := fe_isequal x check in
  let check := fe_1 in let p1 := fe_isequal quartic check in
  let check := fe_neg check in let m1 := fe_isequal quartic check in
  let check := fe_neg sqrtm1 in let ms := fe_isequal quartic check in
  let isr := fe_mul t0 sqrtm1 in
  let isr := fe_ccopy isr t0 (1 - Z.lor m1 ms) in
  (isr, Z.lor (Z.lor p1 m1) z0).

Definition fe_invert (x : list Z) : list Z :=
  let tmp := fe_sq x in
  let '(tmp, _) := invsqrt tmp in
  let tmp := fe_sq tmp in
  fe_mul tmp x.

Definition crypto_eddsa_trim_scalar (inp : list Z) : list Z :=
  let out := inp in
  let out := wr out 0 (Z.land (rd out 0) 248) in
  let out := wr out 31 (Z.land (rd out 31) 127) in
  wr out 31 (Z.lor (rd out 31) 64).

Definition scalar_bit (s : list Z) (i : Z) : Z :=
  if i <? 0 then 0 else Z.land (Z.shiftr (rd s (Z.shiftr i 3)) (Z.land i 7)) 1.

(** The variables of the loop of [scalarmult]. *)
Record ladder : Type := mkLadder { x2 : list Z; z2 : list Z; x3 : list Z; z3 : list Z; swap : Z }.

Definition ladder_swap (l : ladder) (b : Z) : ladder :=
  let '(x2, x3) := fe_cswap (x2 l) (x3 l) b in
  let '(z2, z3) := fe_cswap (z2 l) (z3 l) b in
  mkLadder x2 z2 x3 z3 (swap l).

Definition ladder_step (x1 : list Z) (l : ladder) : ladder :=
  let '(mkLadder x2 z2 x3 z3 swap) := l in
  let t0 := fe_sub x3 z3 in
  let t1 := fe_sub x2 z2 in
  let x2 := fe_add x2 z2 in
  let z2 := fe_add x3 z3 in
  let z3 := fe_mul t0 x2 in
  let z2 := fe_mul z2 t1 in
  let t0 := fe_sq t1 in
  let t1 := fe_sq x2 in
  let x3 := fe_add z3 z2 in
  let z2 := fe_sub z3 z2 in
  let x2 := fe_mul t1 t0 in
  let t1 := fe_sub t1 t0 in
  let z2 := fe_sq z2 in
  let z3 := fe_mul_small t1 121666 in
  let x3 := fe_sq x3 in
  let t0 := fe_add t0 z3 in
  let z3 := fe_mul x1 z2 in
  let z2 := fe_mul t1 t0 in
  mkLadder x2 z2 x3 z3 swap.

(** [for (pos = nb_bits - 1; pos >= 0; --pos)] *)
Fixpoint ladder_loop (scalar x1 : list Z) (n : nat) (l : ladder) : ladder :=
  match n with
  | O => l
  | S pos =>
      let b := scalar_bit scalar (Z.of_nat pos) in
      let l := ladder_swap l (Z.lxor (swap l) b) in
      let l := mkLadder (x2 l) (z2 l) (x3 l) (z3 l) b in
      ladder_loop scalar x1 pos (ladder_step x1 l)
  end.

Definition scalarmult (scalar p : list Z) (nb_bits : nat) : list Z :=
  let x1 := fe_frombytes p in
  let l := mkLadder fe_1 fe_0 (fe_copy x1) fe_1 0 in
  let l := ladder_loop scalar x1 nb_bits l in
  let l := ladder_swap l (swap l) in
  let z2 := fe_invert (z2 l) in
  fe_tobytes (fe_mul (x2 l) z2).

Definition crypto_x25519 (your_secret_key their_public_key : list Z) : list Z :=
  scalarmult (crypto_eddsa_trim_scalar your_secret_key) their_public_key 255.

Definition base_point : list Z := 9 :: replicate 31 0.
Definition crypto_x25519_public_key (secret_key : list Z) : list Z := crypto_x25519 secret_key base_point.

(** ** RFC 7748

    Section 5, on integers modulo p.  [clamp] is decodeScalar25519, and the masking
    of the last bit of the coordinate is decodeUCoordinate. *)

Module RFC7748.

Definition clamp (k : Z) : Z := 2 ^ 254 + 8 * ((k / 8) mod 2 ^ 251).

Record st : Type := mkSt { x_2 : Z; z_2 : Z; x_3 : Z; z_3 : Z }.

Definition step (x_1 : Z) (s : st) : st :=
  let '(mkSt x_2 z_2 x_3 z_3) := s in
  let A := x_2 + z_2 in
  let AA := A ^ 2 in
  let B := x_2 - z_2 in
  let BB := B ^ 2 in
  let E := AA - BB in
  let C := x_3 + z_3 in
  let D := x_3 - z_3 in
  let DA := D * A in
  let CB := C * B in
  mkSt (AA * BB mod p25519) (E * (AA + 121665 * E) mod p25519)
       ((DA + CB) ^ 2 mod p25519) (x_1 * (DA - CB) ^ 2 mod p25519).

Definition cswap (b : bool) (s : st) : st :=
  if b then mkSt (x_3 s) (z_3 s) (x_2 s) (z_2 s) else s.

Fixpoint loop (k x_1 : Z) (n : nat) (swap : bool) (s : st) : st * bool :=
  match n with
  | O => (s, swap)
  | S t =>
      let k_t := Z.testbit k (Z.of_nat t) in
      loop k x_1 t k_t (step x_1 (cswap (xorb swap k_t) s))
  end.

Definition mult (k u : Z) (bits : nat) : Z :=
  let x_1 := u mod 2 ^ 255 in
  let '(s, swap) := loop k x_1 bits false (mkSt 1 0 x_1 1) in
  let s := cswap swap s in
  x_2 s * z_2 s ^ (p25519 - 2) mod p25519.

Definition x25519 (k u : Z) : Z := mult (clamp k) u 255.

End RFC7748.

(** ** Powers

    [pw x e f]: the field element [f] stands for [x^e]. *)

Definition pw (x e : Z) (f : list Z) : Prop := tight f /\ feq (fe_val f) (x ^ e).

Lemma pw_one f : tight f -> pw (fe_val f) 1 f.
Proof. intros H. split; [done|]. rewrite Z.pow_1_r. reflexivity. Qed.

Lemma pw_mul x a b f g : 0 <= a -> 0 <= b -> pw x a f -> pw x b g -> pw x (a + b) (fe_mul f g).
Proof.
  intros Ha Hb [Hf Ef] [Hg Eg]. destruct (fe_mul_sound f g) as [Ht Hv]; [by apply tight_loose..|].
  split; [done|]. rewrite Hv, Ef, Eg, Z.pow_add_r by done. reflexivity.
Qed.

Lemma pw_sq x a f : 0 <= a -> pw x a f -> pw x (2 * a) (fe_sq f).
Proof.
  intros Ha [Hf Ef]. destruct (fe_sq_sound f) as [Ht Hv]; [by apply tight_loose|].
  split; [done|]. rewrite Hv, Ef, <- Z.pow_add_r by done. replace (a + a) with (2 * a) by lia. reflexivity.
Qed.

Lemma pw_sqn x a f n : 0 <= a -> pw x a f -> pw x (2 ^ Z.of_nat n * a) (fe_sqn f n).
Proof.
  intros Ha Hf. induction n as [|n IH]; [by rewrite Z.mul_1_l|].
  rewrite Nat2Z.inj_succ, Z.pow_succ_r, <- Z.mul_assoc by lia.
  apply pw_sq; [|exact IH]. apply Z.mul_nonneg_nonneg; [apply Z.pow_nonneg; lia|done].
Qed.

Lemma pw_eq x a b f : a = b -> pw x a f -> pw x b f.
Proof. by intros ->. Qed.

Lemma pw_let x e a f (k : list Z -> list Z) :
  pw x a f -> (forall t, pw x a t -> pw x e (k t)) -> pw x e (let t := f in k t).
Proof. intros H Hk. apply Hk, H. Qed.

Ltac pw_op :=
  first [eapply pw_mul; cycle 2; [eassumption|eassumption|..]
        |eapply pw_sqn; cycle 1; [eassumption|..]
        |eapply pw_sq; cycle 1; [eassumption|..]]; vm_compute; discriminate.

#[local] Opaque fe_mul fe_sq fe_sqn fe_mul_small fe_tobytes fe_frombytes fe_isequal fe_ccopy.

(** One assignment of the addition chain, which reaches the exponent [e]. *)
Ltac pw_step e :=
  match goal with |- pw ?x ?E (let t := ?f in @?k t) => refine (pw_let x E e f k _ _) end; cbv beta;
  [eapply pw_eq; cycle 1; [pw_op|vm_compute; reflexivity]|intros ? ?].

Lemma invsqrt_pow_sound x : tight x -> pw (fe_val x) ((p25519 - 5) / 8) (invsqrt_pow x).
Proof.
  intros Hx. cbv beta delta [invsqrt_pow]. pose proof (pw_one x Hx) as H1. set (X := fe_val x) in *. clearbody X.
  pw_step 2. pw_step 4. pw_step 8. pw_step 9. pw_step 11. pw_step 22. pw_step (2 ^ 5 - 1).
  pw_step (2 ^ 10 - 2 ^ 5). pw_step (2 ^ 10 - 1). pw_step (2 ^ 20 - 2 ^ 10). pw_step (2 ^ 20 - 1).
  pw_step (2 ^ 40 - 2 ^ 20). pw_step (2 ^ 40 - 1). pw_step (2 ^ 50 - 2 ^ 10). pw_step (2 ^ 50 - 1).
  pw_step (2 ^ 100 - 2 ^ 50). pw_step (2 ^ 100 - 1). pw_step (2 ^ 200 - 2 ^ 100). pw_step (2 ^ 200 - 1).
  pw_step (2 ^ 250 - 2 ^ 50). pw_step (2 ^ 250 - 1). pw_step (2 ^ 252 - 4).
  eapply pw_eq; cycle 1; [pw_op|vm_compute; reflexivity].
Qed.

(** ** Inverse square root and inverse *)

Ltac closed_tight := apply (bool_decide_unpack _); vm_compute; exact I.
Lemma tight_fe_0 : tight fe_0. Proof. closed_tight. Qed.
Lemma tight_fe_1 : tight fe_1. Proof. closed_tight. Qed.
Lemma tight_sqrtm1 : tight sqrtm1. Proof. closed_tight. Qed.
#[local] Hint Resolve tight_fe_0 tight_fe_1 tight_sqrtm1 : core.

Definition sqrt_m1 : Z := fe_val sqrtm1.

Lemma sqrt_m1_sq : feq (sqrt_m1 * sqrt_m1) (-1).
Proof. apply feq_mod. vm_compute. reflexivity. Qed.

(** The fourth roots of unity. *)
Lemma fourth_root q : feq ((q * q) * (q * q)) 1 ->
  feq q 1 \/ feq q (-1) \/ feq q sqrt_m1 \/ feq q (- sqrt_m1).
Proof.
  intros H. destruct (field_sqrt_one _ H) as [H1|H1].
  - destruct (field_sqrt_one _ H1); auto.
  - destruct (field_integral (q - sqrt_m1) (q + sqrt_m1)) as [Hq|Hq].
    + replace ((q - sqrt_m1) * (q + sqrt_m1)) with (q * q - sqrt_m1 * sqrt_m1) by ring.
      rewrite H1, sqrt_m1_sq. reflexivity.
    + right; right; left. replace q with (q - sqrt_m1 + sqrt_m1) by ring. rewrite Hq. reflexivity.
    + right; right; right. replace q with (q + sqrt_m1 - sqrt_m1) by ring. rewrite Hq. reflexivity.
Qed.

Lemma roots_distinct :
  ~ feq 1 (-1) /\ ~ feq 1 (- sqrt_m1) /\ ~ feq (-1) 1 /\ ~ feq sqrt_m1 1 /\ ~ feq sqrt_m1 (-1) /\
  ~ feq sqrt_m1 (- sqrt_m1) /\ ~ feq (- sqrt_m1) 1 /\ ~ feq (- sqrt_m1) (-1).
Proof. rewrite !feq_mod. vm_compute. repeat split; discriminate. Qed.

Lemma fe_isequal_01 f g v w : tight f -> tight g -> feq (fe_val f) v -> feq (fe_val g) w ->
  (feq v w -> fe_isequal f g = 1) /\ (~ feq v w -> fe_isequal f g = 0).
Proof.
  intros Hf Hg Hv Hw. destruct (fe_isequal_sound f g Hf Hg) as [[He ->]|[He ->]]; rewrite Hv, Hw in He; tauto.
Qed.

Lemma pw_quartic x t0 : tight x -> pw (fe_val x) ((p25519 - 5) / 8) t0 ->
  pw (fe_val x) ((p25519 - 1) / 4) (fe_mul (fe_sq t0) x) /\
  feq (fe_val (fe_mul (fe_sq t0) x)) (fe_val t0 * fe_val t0 * fe_val x).
Proof.
  intros Hx H0. pose proof (pw_one x Hx) as H1. split.
  - eapply pw_eq; cycle 1; [eapply pw_mul; cycle 2; [eapply pw_sq; cycle 1; [exact H0|]|exact H1|..]|];
      vm_compute; (reflexivity || discriminate).
  - destruct H0 as [Ht _]. destruct (fe_sq_sound t0) as [Hs Es]; [by apply tight_loose|].
    destruct (fe_mul_sound (fe_sq t0) x) as [_ ->]; [by apply tight_loose..|]. rewrite Es. reflexivity.
Qed.

Lemma quartic_roots x q : tight x -> ~ feq (fe_val x) 0 -> pw (fe_val x) ((p25519 - 1) / 4) q ->
  feq (fe_val q) 1 \/ feq (fe_val q) (-1) \/ feq (fe_val q) sqrt_m1 \/ feq (fe_val q) (- sqrt_m1).
Proof.
  intros Hx Hn [_ Hq]. apply fourth_root. rewrite Hq. rewrite <- !Z.pow_add_r by (vm_compute; discriminate).
  match goal with |- feq (_ ^ ?e) 1 => replace e with (p25519 - 1) by (vm_compute; reflexivity) end.
  by apply field_fermat.
Qed.

(** The value chosen by the masks at the end of [invsqrt]. *)
Lemma invsqrt_select i t0 m1 ms : tight i -> tight t0 -> (m1 = 0 \/ m1 = 1) -> (ms = 0 \/ ms = 1) ->
  fe_ccopy i t0 (1 - Z.lor m1 ms) = if Z.lor m1 ms =? 1 then i else t0.
Proof.
  intros Hi Ht Hm Hs. rewrite fe_ccopy_sound; [|by rewrite (within_length _ _ Hi), (within_length _ _ Ht)|];
    destruct Hm as [-> | ->], Hs as [-> | ->]; auto.
Qed.

Lemma fe_isequal_cases f g : tight f -> tight g -> fe_isequal f g = 0 \/ fe_isequal f g = 1.
Proof. intros Hf Hg. destruct (fe_isequal_sound f g Hf Hg) as [[_ ->]|[_ ->]]; auto. Qed.

Lemma invsqrt_zero x t0 : feq (fe_val x) 0 -> pw (fe_val x) ((p25519 - 5) / 8) t0 -> feq (fe_val t0) 0.
Proof.
  intros Hx [_ ->]. rewrite Hx, Z.pow_0_l by (vm_compute; reflexivity). reflexivity.
Qed.

Lemma invsqrt_twist t x : feq (- (t * t * x)) (x * ((t * sqrt_m1) * (t * sqrt_m1))).
Proof.
  replace (x * (t * sqrt_m1 * (t * sqrt_m1))) with (sqrt_m1 * sqrt_m1 * (t * t * x)) by ring.
  rewrite sqrt_m1_sq. replace (-1 * (t * t * x)) with (- (t * t * x)) by ring. reflexivity.
Qed.

Lemma invsqrt_spec x isr r : tight x -> invsqrt x = (isr, r) ->
  tight isr /\
  ((feq (fe_val x) 0 /\ feq (fe_val isr) 0 /\ r = 1) \/
   (~ feq (fe_val x) 0 /\ feq (fe_val x * (fe_val isr * fe_val isr)) 1 /\ r = 1) \/
   (~ feq (fe_val x) 0 /\ feq (fe_val x * (fe_val isr * fe_val isr)) sqrt_m1 /\ r = 0)).
Proof.
  intros Hx. unfold invsqrt. pose proof (invsqrt_pow_sound x Hx) as H0. set (t0 := invsqrt_pow x) in *. clearbody t0.
  destruct (pw_quartic x t0 Hx H0) as [Hq Eq]. set (q := fe_mul (fe_sq t0) x) in *. clearbody q.
  destruct (fe_neg_sound fe_1) as [Tm Em]; [done|]. destruct (fe_neg_sound sqrtm1) as [Ts Es]; [done|].
  destruct (fe_mul_sound t0 sqrtm1) as [Ti Ei]; [apply tight_loose, H0|by apply tight_loose|].
  fold sqrt_m1 in *. change (fe_val fe_1) with 1 in Em.
  rewrite invsqrt_select by (try apply fe_isequal_cases; try apply Hq; try apply H0; done). intros E. apply pair_eq in E as [<- <-].
  split; [destruct (_ =? 1); [done|apply H0]|].
  assert (forall g w, tight g -> fe_val g = w -> (feq (fe_val q) w -> fe_isequal q g = 1) /\
    (~ feq (fe_val q) w -> fe_isequal q g = 0)) as Hc
    by (intros g w Hg <-; apply fe_isequal_01; try apply Hq; done).
  destruct (Hc _ 1 tight_fe_1 eq_refl) as [P1 P0]. destruct (Hc _ _ Tm Em) as [M1 M0]. destruct (Hc _ _ Ts Es) as [S1 S0].
  destruct (fe_isequal_sound x fe_0 Hx tight_fe_0) as [[Xz ->]|[Xz ->]]; change (fe_val fe_0) with 0 in Xz.
  - left. split; [done|]. pose proof (invsqrt_zero x t0 Xz H0) as T0. split.
    + destruct (_ =? 1); [rewrite Ei|]; rewrite T0; reflexivity.
    + destruct (fe_isequal_cases q fe_1 (proj1 Hq) tight_fe_1) as [-> | ->],
        (fe_isequal_cases q (fe_neg fe_1) (proj1 Hq) Tm) as [-> | ->]; done.
  - right. destruct roots_distinct as (D1 & D2 & D3 & D4 & D5 & D6 & D7 & D8).
    destruct (quartic_roots x q Hx Xz Hq) as [R|[R|[R|R]]]; rewrite R in P1, P0, M1, M0, S1, S0; rewrite Eq in R.
    + left. rewrite P1, M0, S0 by (done || reflexivity). change (Z.lor 0 0 =? 1) with false. cbv iota. split; [done|]. split; [|done].
      rewrite <- R, Z.mul_comm. reflexivity.
    + left. rewrite P0, M1 by (done || reflexivity).
      assert ((Z.lor 1 (fe_isequal q (fe_neg sqrtm1)) =? 1) = true) as ->
        by (destruct (fe_isequal_cases q (fe_neg sqrtm1) (proj1 Hq) Ts) as [-> | ->]; done).
      split; [done|]. split; [|done]. rewrite Ei, <- (invsqrt_twist (fe_val t0)), R. reflexivity.
    + right. rewrite P0, M0, S0 by done. change (Z.lor 0 0 =? 1) with false. cbv iota. split; [done|]. split; [|done].
      rewrite <- R, Z.mul_comm. reflexivity.
    + right. rewrite P0, M0, S1 by (done || reflexivity). change (Z.lor 0 1 =? 1) with true. cbv iota. split; [done|]. split; [|done].
      rewrite Ei, <- (invsqrt_twist (fe_val t0)), R, Z.opp_involutive. reflexivity.
Qed.

(** The square root of -1 is not a square itself. *)
Lemma sqrt_m1_nonresidue w : ~ feq (w * w) sqrt_m1.
Proof.
  intros Hw. destruct roots_distinct as (D1 & _). apply D1.
  assert (~ feq w 0) as Hn.
  { intros H. rewrite H in Hw. apply feq_mod in Hw. vm_compute in Hw. discriminate. }
  pose proof (field_fermat w Hn) as Hf. rewrite <- Hf.
  replace (p25519 - 1) with (2 * (2 * ((p25519 - 1) / 4))) by (vm_compute; reflexivity).
  rewrite (Z.pow_mul_r w), (Z.pow_2_r w), Hw by (vm_compute; discriminate).
  rewrite Z.pow_mul_r, Z.pow_2_r, sqrt_m1_sq by (vm_compute; discriminate).
  change (-1) with (Z.opp 1). rewrite Z.pow_opp_odd, Z.pow_1_l; [reflexivity|vm_compute; discriminate|].
  apply Z.odd_spec. vm_compute. reflexivity.
Qed.

Lemma fe_invert_bound x : loose x ->
  tight (fe_invert x) /\ feq (fe_val (fe_invert x)) (fe_val x ^ (p25519 - 2)).
Proof.
  intros Hx. unfold fe_invert. destruct (fe_sq_sound x Hx) as [Ht Et].
  destruct (invsqrt (fe_sq x)) as [isr r] eqn:E. destruct (invsqrt_spec _ _ _ Ht E) as [Hi Hc].
  destruct (fe_sq_sound isr) as [Hs Es]; [by apply tight_loose|].
  destruct (fe_mul_sound (fe_sq isr) x) as [Hm Em]; [by apply tight_loose|done|]. split; [done|].
  rewrite Em, Es. set (X := fe_val x) in *. set (Y := fe_val isr) in *. rewrite Et in Hc.
  destruct Hc as [(H0 & Hy & _)|[(H0 & Hy & _)|(H0 & Hy & _)]].
  - assert (feq X 0) as Hz by (destruct (field_integral _ _ H0); done).
    rewrite Hz, Z.mul_0_r, Z.pow_0_l by (vm_compute; reflexivity). reflexivity.
  - assert (~ feq X 0) as Hz by (intros Hz; apply H0; rewrite Hz; reflexivity).
    transitivity (X ^ (p25519 - 1) * (Y * Y * X)); [rewrite field_fermat, Z.mul_1_l by done; reflexivity|].
    replace (X ^ (p25519 - 1)) with (X * X ^ (p25519 - 2))
      by (rewrite <- Z.pow_succ_r by (vm_compute; discriminate); f_equal; vm_compute; reflexivity).
    replace (X * X ^ (p25519 - 2) * (Y * Y * X)) with (X ^ (p25519 - 2) * (X * X * (Y * Y))) by ring.
    rewrite Hy, Z.mul_1_r. reflexivity.
  - destruct (sqrt_m1_nonresidue (X * Y)). rewrite <- Hy.
    replace (X * Y * (X * Y)) with (X * X * (Y * Y)) by ring. reflexivity.
Qed.

Lemma fe_invert_sound x : tight x ->
  tight (fe_invert x) /\ feq (fe_val (fe_invert x)) (fe_val x ^ (p25519 - 2)).
Proof. intros Hx. by apply fe_invert_bound, tight_loose. Qed.

(** ** The ladder

    [rep f v] and [repl f v]: the limbs [f] are tight (or loose) and stand for [v]. *)

Definition rep (f : list Z) (v : Z) : Prop := tight f /\ feq (fe_val f) v.
Definition repl (f : list Z) (v : Z) : Prop := loose f /\ feq (fe_val f) v.

Create HintDb wg_field.

Lemma rep_repl f v : rep f v -> repl f v.
Proof. intros [H E]. split; [by apply tight_loose|done]. Qed.
Lemma rep_add f g a b : rep f a -> rep g b -> repl (fe_add f g) (a + b).
Proof. intros [Hf Ef] [Hg Eg]. destruct (fe_add_sound f g Hf Hg) as [H E]. split; [done|]. by rewrite E, Ef, Eg. Qed.
Lemma rep_sub f g a b : rep f a -> rep g b -> repl (fe_sub f g) (a - b).
Proof. intros [Hf Ef] [Hg Eg]. destruct (fe_sub_sound f g Hf Hg) as [H E]. split; [done|]. by rewrite E, Ef, Eg. Qed.
Lemma rep_mul f g a b : repl f a -> repl g b -> rep (fe_mul f g) (a * b).
Proof. intros [Hf Ef] [Hg Eg]. destruct (fe_mul_sound f g Hf Hg) as [H E]. split; [done|]. by rewrite E, Ef, Eg. Qed.
Lemma rep_sq f a : repl f a -> rep (fe_sq f) (a * a).
Proof. intros [Hf Ef]. destruct (fe_sq_sound f Hf) as [H E]. split; [done|]. by rewrite E, Ef. Qed.
Lemma rep_mul_small f a g : repl f a -> Z.abs g < 2 ^ 31 -> rep (fe_mul_small f g) (a * g).
Proof. intros [Hf Ef] Hg. destruct (fe_mul_small_sound f g Hf Hg) as [H E]. split; [done|]. by rewrite E, Ef. Qed.
Lemma rep_feq f a b : rep f a -> feq a b -> rep f b.
Proof. intros [Hf Ef] E. split; [done|]. by rewrite Ef. Qed.

#[local] Hint Resolve rep_add rep_sub rep_mul rep_sq : wg_field.
#[local] Hint Extern 1 (rep (fe_mul_small _ _) _) => (eapply rep_mul_small; [|done]) : wg_field.
#[local] Hint Extern 5 (repl _ _) => (apply rep_repl) : wg_field.

Import RFC7748.

(** The limbs of the code stand for the numbers of the RFC. *)
Definition ladder_rep (l : ladder) (s : st) (sw : bool) : Prop :=
  rep (x2 l) (x_2 s) /\ rep (z2 l) (z_2 s) /\ rep (x3 l) (x_3 s) /\ rep (z3 l) (z_3 s) /\ swap l = Z.b2z sw.

Lemma rep_length f g a b : rep f a -> rep g b -> length f = length g.
Proof. intros [Hf _] [Hg _]. by rewrite (within_length _ _ Hf), (within_length _ _ Hg). Qed.

Lemma ladder_swap_rep l s sw b : ladder_rep l s sw -> ladder_rep (ladder_swap l (Z.b2z b)) (cswap b s) sw.
Proof.
  intros (H1 & H2 & H3 & H4 & H5). unfold ladder_swap.
  rewrite !fe_cswap_sound by (first [by eapply rep_length | destruct b; auto]).
  destruct b; repeat split; (apply H1 || apply H2 || apply H3 || apply H4 || apply H5).
Qed.

Lemma ladder_step_rep x1 x_1 l s sw :
  rep x1 x_1 -> ladder_rep l s sw -> ladder_rep (ladder_step x1 l) (step x_1 s) sw.
Proof.
  destruct l as [a b c d w], s as [A B C D]. unfold ladder_rep; cbn [x2 z2 x3 z3 swap x_2 z_2 x_3 z_3].
  intros H1 (Hx2 & Hz2 & Hx3 & Hz3 & Hw). unfold ladder_step, step.
  cbn [x2 z2 x3 z3 swap x_2 z_2 x_3 z_3].
  split; [|split; [|split; [|split; [|done]]]]; (eapply rep_feq; [solve [eauto 30 with wg_field]|]);
    rewrite mod_eqmod; match goal with |- feq ?a ?b => replace a with b by ring end; reflexivity.
Qed.

(** ** Scalars *)

Lemma le_val_testbit s i : is_bytes s -> 0 <= i -> Z.testbit (le_val s) i = Z.testbit (rd s (i / 8)) (i mod 8).
Proof.
  intros Hs. revert i. induction Hs as [|b s Hb Hs IH]; intros i Hi.
  - unfold rd. rewrite nth_lookup. cbn. by rewrite !Z.bits_0.
  - cbn [le_val]. rewrite Z.mul_comm. change 256 with (2 ^ 8). unfold is_u8 in Hb.
    rewrite <- lor_shiftl_add, Z.lor_spec, Z.shiftl_spec by lia.
    destruct (Z.lt_ge_cases i 8).
    + rewrite (Z.testbit_neg_r _ (i - 8)), orb_false_r, Z.div_small, Z.mod_small by lia. done.
    + rewrite (proj1 (pow2_range_bits 8 b ltac:(lia) ltac:(lia))) by lia. rewrite orb_false_l, IH by lia.
      replace ((i - 8) mod 8) with (i mod 8) by zlia. f_equal.
      unfold rd. replace (Z.to_nat (i / 8)) with (S (Z.to_nat ((i - 8) / 8))) by zlia. done.
Qed.

Lemma scalar_bit_sound s i : is_bytes s -> 0 <= i -> scalar_bit s i = Z.b2z (Z.testbit (le_val s) i).
Proof.
  intros Hs Hi. unfold scalar_bit. rewrite le_val_testbit by done.
  destruct (Z.ltb_spec i 0); [lia|]. rewrite !Z.shiftr_div_pow2 by (try apply Z.land_nonneg; lia).
  change 7 with (Z.ones 3). change 1 with (Z.ones 1) at 1. rewrite !Z.land_ones by lia.
  rewrite Z.testbit_spec' by (change (2 ^ 3) with 8; zlia). done.
Qed.

(** A property of all bytes, by enumeration. *)
Lemma byte_forall (P : Z -> bool) : forallb P (seqZ 0 256) = true -> forall b, is_u8 b -> P b = true.
Proof.
  intros H b Hb. rewrite forallb_forall in H. apply H, list_elem_of_In, elem_of_seqZ. unfold is_u8 in Hb. lia.
Qed.

Lemma trim_low b : is_u8 b -> Z.land b 248 = 8 * (b / 8).
Proof. intros Hb. apply Z.eqb_eq. revert b Hb. apply byte_forall. vm_compute. reflexivity. Qed.
Lemma trim_high b : is_u8 b -> Z.lor (Z.land b 127) 64 = 64 + b mod 64.
Proof. intros Hb. apply Z.eqb_eq. revert b Hb. apply byte_forall. vm_compute. reflexivity. Qed.

Lemma le_val_wr l i v : 0 <= i < Z.of_nat (length l) -> le_val (wr l i v) = le_val l + 256 ^ i * (v - rd l i).
Proof.
  intros Hi. replace i with (Z.of_nat (Z.to_nat i)) by lia. unfold wr, rd. rewrite !Nat2Z.id.
  assert (Z.to_nat i < length l)%nat as Hn by lia. revert Hn. generalize (Z.to_nat i) as n. clear Hi i.
  induction l as [|b l IH]; intros [|n] Hn; cbn [length] in *; try lia; cbn [insert list_insert le_val nth].
  - change (256 ^ Z.of_nat 0) with 1. lia.
  - change (list_insert n v l) with (<[n:=v]> l). rewrite IH, Nat2Z.inj_succ, Z.pow_succ_r by lia. lia.
Qed.

Lemma trim_scalar_sound s : is_bytes s -> length s = 32%nat ->
  is_bytes (crypto_eddsa_trim_scalar s) /\ length (crypto_eddsa_trim_scalar s) = 32%nat /\
  le_val (crypto_eddsa_trim_scalar s) = clamp (le_val s).
Proof.
  intros Hs Hl. unfold crypto_eddsa_trim_scalar.
  rewrite rd_wr_eq, wr_wr_eq, rd_wr_ne by (rewrite ?length_wr; lia).
  pose proof (is_bytes_rd s 0 Hs) as H0. pose proof (is_bytes_rd s 31 Hs) as H31.
  rewrite trim_low, trim_high by done. unfold is_u8 in H0, H31. split; [|split].
  - apply Forall_wr; [apply Forall_wr; [done|]|]; unfold is_u8; zlia.
  - by rewrite !length_wr.
  - rewrite !le_val_wr, rd_wr_ne by (rewrite ?length_wr; lia). change (256 ^ 31) with (2 ^ 248). change (256 ^ 0) with 1.
    assert (exists m, le_val s = rd s 0 + 256 * m) as [m Hm]
      by (destruct s as [|b l]; [discriminate|]; by exists (le_val l)).
    assert (exists a, le_val s = a + 2 ^ 248 * rd s 31 /\ 0 <= a < 2 ^ 248) as (a & Ha & Hr).
    { exists (le_val (take 31 s)). pose proof (le_val_range (take 31 s) (is_bytes_take 31 s Hs)) as Hr.
      rewrite length_take, Hl in Hr. split; [|exact Hr]. rewrite <- (take_drop 31 s) at 1.
      rewrite le_val_app, length_take, Hl. f_equal. change (256 ^ Z.of_nat (31 `min` 32)) with (2 ^ 248). f_equal.
      do 31 (destruct s as [|? s]; [discriminate|]). destruct s as [|b [|]]; try discriminate. read_bytes. cbn [drop le_val]. lia. }
    unfold clamp. set (b0 := rd s 0) in *. set (b31 := rd s 31) in *. set (n := le_val s) in *.
    clearbody b0 b31 n. zlia.
Qed.

(** ** The whole function *)

Lemma ladder_loop_rep scalar k x1 x_1 n l s sw :
  is_bytes scalar -> le_val scalar = k -> rep x1 x_1 -> ladder_rep l s sw ->
  ladder_rep (ladder_loop scalar x1 n l) (loop k x_1 n sw s).1 (loop k x_1 n sw s).2.
Proof.
  intros Hs <- H1. revert l s sw. induction n as [|n IH]; intros l s sw Hl; [done|].
  cbn [ladder_loop loop]. rewrite scalar_bit_sound by (done || lia).
  set (b := Z.testbit _ _). assert (Z.lxor (swap l) (Z.b2z b) = Z.b2z (xorb sw b)) as ->
    by (destruct Hl as (_ & _ & _ & _ & ->); destruct sw, b; done).
  apply IH, ladder_step_rep; [done|].
  destruct (ladder_swap_rep l s sw (xorb sw b) Hl) as (? & ? & ? & ? & _). done.
Qed.

Lemma rep_closed f v : tight f -> fe_val f = v -> rep f v.
Proof. intros Hf <-. split; [done|reflexivity]. Qed.

Lemma scalarmult_sound scalar k p n : is_bytes scalar -> le_val scalar = k -> is_bytes p -> length p = 32%nat ->
  scalarmult scalar p n = le_bytes 32 (mult k (le_val p) n).
Proof.
  intros Hs Hk Hp Hl. unfold scalarmult, mult. pose proof (fe_frombytes_sound p Hp Hl) as H1.
  set (x1 := fe_frombytes p) in *. set (x_1 := le_val p mod 2 ^ 255) in *. cbv zeta.
  assert (ladder_rep (mkLadder fe_1 fe_0 (fe_copy x1) fe_1 0) (mkSt 1 0 x_1 1) false) as H0
    by (split; [|split; [|split; [|split]]]; first [exact H1 | reflexivity | by apply rep_closed]).
  pose proof (ladder_loop_rep scalar k x1 x_1 n _ _ _ Hs Hk H1 H0) as Hn.
  destruct (loop k x_1 n false _) as [s sw]. cbn [fst snd] in Hn.
  set (l := ladder_loop _ _ _ _) in *. assert (swap l = Z.b2z sw) as -> by apply Hn.
  destruct (ladder_swap_rep l s sw sw Hn) as (Rx & Rz & _).
  destruct (fe_invert_sound _ (proj1 Rz)) as [Hi Ei].
  assert (rep (fe_invert (z2 (ladder_swap l (Z.b2z sw)))) (z_2 (cswap sw s) ^ (p25519 - 2))) as Ri
    by (split; [done|rewrite Ei, (proj2 Rz); reflexivity]).
  destruct (rep_mul _ _ _ _ (rep_repl _ _ Rx) (rep_repl _ _ Ri)) as [Hm Em].
  rewrite fe_tobytes_sound by done. f_equal. by apply feq_mod.
Qed.

Lemma crypto_x25519_sound sk pk :
  is_bytes sk -> length sk = 32%nat -> is_bytes pk -> length pk = 32%nat ->
  crypto_x25519 sk pk = le_bytes 32 (x25519 (le_val sk) (le_val pk)).
Proof.
  intros Hs Ls Hp Lp. destruct (trim_scalar_sound sk Hs Ls) as (Ht & _ & Hv).
  unfold crypto_x25519, x25519. by rewrite (scalarmult_sound _ _ pk 255 Ht Hv Hp Lp).
Qed.

(** C16. For every 32-byte secret and every 32-byte public key [crypto_x25519] computes
    the function X25519 of RFC 7748: the bytes it stores are the number that the ladder
    of the RFC gives for the clamped secret and the coordinate with its last bit masked,
    in canonical form. *)
Theorem crypto_x25519_rfc7748 sk pk :
  is_bytes sk -> length sk = 32%nat -> is_bytes pk -> length pk = 32%nat ->
  crypto_x25519 sk pk = le_bytes 32 (x25519 (le_val sk) (le_val pk)).
Proof. apply crypto_x25519_sound. Qed.

(** Two concrete keys of 32 bytes. *)
Lemma crypto_x25519_rfc7748_witness :
  crypto_x25519 (replicate 32 7) base_point = le_bytes 32 (x25519 (le_val (replicate 32 7)) (le_val base_point)).
Proof.
  apply (crypto_x25519_rfc7748 (replicate 32 7) base_point); try reflexivity;
    apply (bool_decide_unpack _); vm_compute; exact I.
Defined.

(** Whatever the arguments, the result is 32 bytes. *)
Lemma crypto_x25519_bytes sk pk : is_bytes (crypto_x25519 sk pk) /\ length (crypto_x25519 sk pk) = 32%nat.
Proof. unfold crypto_x25519, scalarmult. apply fe_tobytes_bytes. Qed.

(** [fe_invert] inverts: its result times its argument is 1 in the field, for every
    argument that is not 0, and it returns 0 for 0. *)
Theorem fe_invert_correct x : tight x ->
  tight (fe_invert x) /\
  (fe_val x mod p25519 <> 0 -> (fe_val x * fe_val (fe_invert x)) mod p25519 = 1) /\
  (fe_val x mod p25519 = 0 -> fe_val (fe_invert x) mod p25519 = 0).
Proof.
  intros Hx. destruct (fe_invert_sound x Hx) as [Ht Hv]. split; [done|]. split; intros Hn.
  - change 1 with (1 mod p25519). apply feq_mod. rewrite Hv, <- Z.pow_succ_r by (vm_compute; discriminate).
    replace (Z.succ (p25519 - 2)) with (p25519 - 1) by lia. apply field_fermat. by rewrite feq_mod.
  - change 0 with (0 mod p25519) in Hn |- *. apply feq_mod in Hn. apply feq_mod.
    rewrite Hv, Hn, Z.pow_0_l by (vm_compute; reflexivity). reflexivity.
Qed.

(** The inverse of -1. *)
Lemma fe_invert_correct_witness : (fe_val (fe_neg fe_1) * fe_val (fe_invert (fe_neg fe_1))) mod p25519 = 1.
Proof.
  apply (fe_invert_correct (fe_neg fe_1)); [apply (bool_decide_unpack _); vm_compute; exact I|vm_compute; discriminate].
Defined.

(** [invsqrt] on a field element [x] returns 1 and the inverse square root of [x]
    when [x] is a square that is not 0, returns 0 and a root of sqrt(-1)/x when [x] is
    not a square, and returns 1 and 0 for 0. *)
Theorem invsqrt_correct x isr r y : tight x -> invsqrt x = (isr, r) ->
  let X := fe_val x in let Y := fe_val isr in
  tight isr /\
  (X mod p25519 = 0 -> Y mod p25519 = 0 /\ r = 1) /\
  (X mod p25519 <> 0 -> r = 1 /\ (X * Y ^ 2) mod p25519 = 1 \/
                        r = 0 /\ (X * Y ^ 2) mod p25519 = sqrt_m1 mod p25519) /\
  (y ^ 2 mod p25519 = X mod p25519 -> r = 1).
Proof.
  intros Hx E X Y. destruct (invsqrt_spec x isr r Hx E) as [Ht Hc]. fold X Y in Hc. clearbody X Y.
  rewrite <- Z.pow_2_r in Hc. change (X mod p25519 = 0) with (X mod p25519 = 0 mod p25519).
  change (Y mod p25519 = 0) with (Y mod p25519 = 0 mod p25519).
  change ((X * Y ^ 2) mod p25519 = 1) with ((X * Y ^ 2) mod p25519 = 1 mod p25519).
  rewrite <- !feq_mod. split; [done|]. split; [|split]; [| |intros Hy]; try tauto.
  destruct Hc as [(_ & _ & Hr)|[(_ & _ & Hr)|(_ & Hs & _)]]; [done..|].
  destruct (sqrt_m1_nonresidue (y * Y)). rewrite <- Hs, <- Hy. replace (y * Y * (y * Y)) with (y ^ 2 * Y ^ 2) by ring.
  reflexivity.
Qed.

(** 1 is the square of 1. *)
Lemma invsqrt_correct_witness : (invsqrt fe_1).2 = 1.
Proof.
  apply (invsqrt_correct fe_1 (invsqrt fe_1).1 (invsqrt fe_1).2 1).
  - apply (bool_decide_unpack _); vm_compute; exact I.
  - apply surjective_pairing.
  - reflexivity.
Defined.
