(* ===== verification/Edwards.v ===== *)
(** * The twisted Edwards curve behind X25519

    The group of Curve25519 in the form y^2 - x^2 = 1 + d x^2 y^2, over a field in which
    -1 is a square and [d] is not: there the addition formulas have no exceptions.  The
    file proves the group laws and what one step of the Montgomery ladder computes on
    the ratio (1 + y) / (1 - y), the coordinate u of RFC 7748. *)

From Stdlib Require Import Field Ring.
From S2P Require Import Prelude.

Section edwards.
Context {F : Type} (zero one : F) (add mul sub : F -> F -> F) (opp : F -> F) (div : F -> F -> F) (inv : F -> F).
Context (Fth : field_theory zero one add mul sub opp div inv (@eq F)).
Context (eq_dec : forall x y : F, {x = y} + {x <> y}).

Declare Scope fld_scope.
#[local] Open Scope fld_scope.
#[local] Notation "0" := zero : fld_scope.
#[local] Notation "1" := one : fld_scope.
#[local] Notation "2" := (add one one) : fld_scope.
#[local] Infix "+" := add : fld_scope.
#[local] Infix "*" := mul : fld_scope.
#[local] Infix "-" := sub : fld_scope.
#[local] Infix "/" := div : fld_scope.
#[local] Notation "- x" := (opp x) : fld_scope.

Add Field Ffield : Fth.

Context (d i : F).
Hypothesis two_nz : 2 <> 0.
Hypothesis i_sq : i * i = - (1).
Hypothesis d_nonsquare : forall x, x * x <> d.

(** ** Fields *)

Lemma mul_nz a b : a <> 0 -> b <> 0 -> a * b <> 0.
Proof.
  intros Ha Hb E. apply Hb. transitivity (inv a * (a * b)); [field; done|]. rewrite E. ring.
Qed.
Lemma integral a b : a * b = 0 -> a = 0 \/ b = 0.
Proof. intros E. destruct (eq_dec a 0); [auto|]. destruct (eq_dec b 0); [auto|]. by destruct (mul_nz a b). Qed.
Lemma sub_zero a b : a - b = 0 -> a = b.
Proof. intros E. transitivity (a - b + b); [ring|]. rewrite E. ring. Qed.
Lemma sq_zero a : a * a = 0 -> a = 0.
Proof. intros E. by destruct (integral a a E). Qed.

Lemma nonsquare a b : a * a = d * (b * b) -> b = 0.
Proof.
  intros E. destruct (eq_dec b 0) as [|Hb]; [done|]. destruct (d_nonsquare (a / b)).
  transitivity (a * a / (b * b)); [field; done|]. rewrite E. field. done.
Qed.

(** ** Points *)

Definition curve (x y : F) : F := y * y - x * x - 1 - d * x * x * y * y.
Definition on_curve (P : F * F) : Prop := curve P.1 P.2 = 0.

Definition padd (P Q : F * F) : F * F :=
  let '(x1, y1) := P in
  let '(x2, y2) := Q in
  let e := d * x1 * x2 * y1 * y2 in
  ((x1 * y2 + y1 * x2) / (1 + e), (y1 * y2 + x1 * x2) / (1 - e)).
Definition pzero : F * F := (0, 1).
Definition pneg (P : F * F) : F * F := (- P.1, P.2).

(** The denominators are never 0. *)
Lemma complete_aux x1 y1 x2 y2 s :
  curve x1 y1 = 0 -> curve x2 y2 = 0 -> s * s = 1 -> d * x1 * x2 * y1 * y2 = s -> False.
Proof.
  intros H1 H2 Hs He.
  assert (forall t, t * t = 1 -> (i * x1 + s * (t * y1)) * (i * x1 + s * (t * y1)) =
    d * ((x1 * y1 * (i * x2 + t * y2)) * (x1 * y1 * (i * x2 + t * y2)))) as Hsq.
  { intros t Ht.
    transitivity (i * i * (x1 * x1) + (s * s) * (t * t) * (y1 * y1) + 2 * (i * (x1 * (y1 * (s * t))))); [ring|].
    transitivity (d * (x1 * y1) * (x1 * y1) * (i * i * (x2 * x2) + t * t * (y2 * y2)) +
      2 * (i * (x1 * (y1 * (t * (d * x1 * x2 * y1 * y2)))))); [|ring].
    rewrite He, i_sq, Hs, Ht. apply sub_zero.
    transitivity (curve x1 y1 - d * x1 * x1 * y1 * y1 * curve x2 y2 +
      (1 - (d * x1 * x2 * y1 * y2) * (d * x1 * x2 * y1 * y2))); [unfold curve; ring|].
    rewrite H1, H2, He, Hs. ring. }
  pose proof (nonsquare _ _ (Hsq 1 ltac:(ring))) as Hp. pose proof (nonsquare _ _ (Hsq (- (1)) ltac:(ring))) as Hm.
  assert (s <> 0) as Hs0 by (intros ->; apply two_nz; transitivity (0 * 0 + 0 * 0); [rewrite Hs; ring|ring]).
  assert (x1 * y1 * (2 * y2) = 0) as Hy.
  { transitivity (x1 * y1 * (i * x2 + 1 * y2) - x1 * y1 * (i * x2 + - (1) * y2)); [ring|]. rewrite Hp, Hm. ring. }
  apply Hs0. rewrite <- He. transitivity (d * x2 / 2 * (x1 * y1 * (2 * y2))); [field; done|]. rewrite Hy. ring.
Qed.

Lemma one_sq_opp : - (1) * - (1) = 1.
Proof. ring. Qed.

Lemma complete_add x1 y1 x2 y2 : curve x1 y1 = 0 -> curve x2 y2 = 0 ->
  1 + d * x1 * x2 * y1 * y2 <> 0 /\ 1 - d * x1 * x2 * y1 * y2 <> 0.
Proof.
  intros H1 H2. split; intros E.
  - apply (complete_aux x1 y1 x2 y2 (- (1)) H1 H2 one_sq_opp).
    transitivity (1 + d * x1 * x2 * y1 * y2 - 1); [ring|]. rewrite E. ring.
  - apply (complete_aux x1 y1 x2 y2 1 H1 H2); [ring|].
    transitivity (1 - (1 - d * x1 * x2 * y1 * y2)); [ring|]. rewrite E. ring.
Qed.

(** ** Group laws *)

Lemma on_curve_zero : on_curve pzero.
Proof. unfold on_curve, curve, pzero. cbn. ring. Qed.

Lemma on_curve_neg P : on_curve P -> on_curve (pneg P).
Proof.
  destruct P as [x y]. unfold on_curve. cbn. intros H. transitivity (curve x y); [unfold curve; ring|done].
Qed.

Lemma on_curve_add P Q : on_curve P -> on_curve Q -> on_curve (padd P Q).
Proof.
  destruct P as [x1 y1], Q as [x2 y2]. unfold on_curve. cbn. intros H1 H2.
  destruct (complete_add x1 y1 x2 y2 H1 H2) as [Hp Hm]. set (e := d * x1 * x2 * y1 * y2) in *.
  set (N := x1 * y2 + y1 * x2). set (M := y1 * y2 + x1 * x2).
  assert (M * M * (1 + e) * (1 + e) - N * N * (1 - e) * (1 - e) - (1 + e) * (1 + e) * (1 - e) * (1 - e)
          - d * N * N * M * M = 0) as E.
  { transitivity
     ((x1 * x1 * y1 * y1 * x2 * x2 * x2 * x2 * y2 * y2 * y2 * y2 * d * d * d + x1 * x1 * x2 * x2 * y2 * y2 *
      d - y1 * y1 * x2 * x2 * y2 * y2 * d + x2 * x2 * x2 * x2 * y2 * y2 * d + x2 * x2 * x2 * x2 - x2 * x2 *
      y2 * y2 * y2 * y2 * d - x2 * x2 * y2 * y2 * d - 2 * (x2 * x2 * y2 * y2) + y2 * y2 * y2 * y2) * curve x1 y1 +
      (- x1 * x1 * x1 * x1 * y1 * y1 * x2 * x2 * y2 * y2 * d * d + x1 * x1 * y1 * y1 * y1 * y1 * x2 * x2 * y2
      * y2 * d * d - x1 * x1 * y1 * y1 * x2 * x2 * y2 * y2 * d * d - x1 * x1 * x2 * x2 + x1 * x1 * y2 * y2 +
      y1 * y1 * x2 * x2 - y1 * y1 * y2 * y2 - x2 * x2 + y2 * y2 + 1) * curve x2 y2).
    - subst e N M. unfold curve. ring.
    - rewrite H1, H2. ring. }
  transitivity ((M * M * (1 + e) * (1 + e) - N * N * (1 - e) * (1 - e) - (1 + e) * (1 + e) * (1 - e) * (1 - e)
          - d * N * N * M * M) / ((1 + e) * (1 + e) * (1 - e) * (1 - e))).
  - unfold curve. field. done.
  - rewrite E. field. done.
Qed.

Lemma padd_comm P Q : padd P Q = padd Q P.
Proof.
  destruct P as [x1 y1], Q as [x2 y2]. cbn. f_equal; f_equal; ring.
Qed.

Lemma padd_zero P : padd pzero P = P.
Proof.
  destruct P as [x y]. cbn. assert (1 <> 0) as H1 by (intros E; apply two_nz; rewrite E; ring).
  f_equal; field; (assert (forall a, a = 1 -> a <> 0) as Ha by congruence); apply Ha; ring.
Qed.

Lemma padd_neg P : on_curve P -> padd P (pneg P) = pzero.
Proof.
  destruct P as [x y]. intros H. destruct (complete_add x y (- x) y) as [Hp Hm]; [done|by apply (on_curve_neg (x, y))|].
  cbn. unfold pzero. f_equal; [field; done|]. unfold on_curve in H. cbn in H.
  transitivity ((1 - d * x * - x * y * y + curve x y) / (1 - d * x * - x * y * y)); [unfold curve; field; done|].
  rewrite H. field. done.
Qed.

(** The two coordinates of both sides of the associative law have numerators [L], [R]
    and denominators whose cross products differ by a multiple of the curve equations. *)
Lemma assoc_x x1 y1 x2 y2 x3 y3 :
  curve x1 y1 = 0 -> curve x2 y2 = 0 -> curve x3 y3 = 0 ->
  let D := d * x1 * x2 * y1 * y2 in let N := x1 * y2 + y1 * x2 in let M := y1 * y2 + x1 * x2 in
  let E := d * x2 * x3 * y2 * y3 in let N' := x2 * y3 + y2 * x3 in let M' := y2 * y3 + x2 * x3 in
  (N * (1 - D) * y3 + M * (1 + D) * x3) * ((1 + E) * (1 - E) + d * x1 * y1 * N' * M') =
  (x1 * M' * (1 + E) + y1 * N' * (1 - E)) * ((1 + D) * (1 - D) + d * N * M * x3 * y3).
Proof.
  intros H1 H2 H3 D N M E N' M'. apply sub_zero.
  transitivity
    (d * (- x1 * x2 * x2 * x2 * x2 * y2 * y2 * y2 * x3 * x3 * y3 * d - x1 * x2 * x2 * x2 * x2 * y2 * x3 * x3 *
        y3 - x1 * x2 * x2 * x2 * y2 * y2 * y2 * y2 * x3 * y3 * y3 * d - x1 * x2 * x2 * x2 * y2 * y2 * x3 *
        x3 * x3 - x1 * x2 * x2 * x2 * y2 * y2 * x3 + x1 * x2 * x2 * y2 * y2 * y2 * y3 * y3 * y3 - x1 * x2 *
        x2 * y2 * y2 * y2 * y3 + x1 * x2 * y2 * y2 * y2 * y2 * x3 * y3 * y3 + y1 * x2 * x2 * x2 * x2 * y2 *
        y2 * y2 * x3 * y3 * y3 * d + y1 * x2 * x2 * x2 * x2 * y2 * x3 * y3 * y3 + y1 * x2 * x2 * x2 * y2 *
        y2 * y2 * y2 * x3 * x3 * y3 * d + y1 * x2 * x2 * x2 * y2 * y2 * y3 * y3 * y3 - y1 * x2 * x2 * x2 *
        y2 * y2 * y3 - y1 * x2 * x2 * y2 * y2 * y2 * x3 * x3 * x3 - y1 * x2 * x2 * y2 * y2 * y2 * x3 - y1 *
        x2 * y2 * y2 * y2 * y2 * x3 * x3 * y3) * curve x1 y1 +
     d * (x1 * x1 * x1 * x2 * x2 * y2 * x3 * x3 * y3 + x1 * x1 * x1 * x2 * y2 * y2 * x3 * y3 * y3 - x1 * x1 *
        y1 * x2 * x2 * y2 * x3 * x3 * x3 - x1 * x1 * y1 * x2 * x2 * y2 * x3 - x1 * x1 * y1 * x2 * y2 * y2 *
        y3 * y3 * y3 + x1 * x1 * y1 * x2 * y2 * y2 * y3 - x1 * y1 * y1 * x2 * x2 * y2 * y3 * y3 * y3 + x1 *
        y1 * y1 * x2 * x2 * y2 * y3 - x1 * y1 * y1 * x2 * y2 * y2 * x3 * x3 * x3 - x1 * y1 * y1 * x2 * y2 *
        y2 * x3 + x1 * x2 * x2 * y2 * x3 * x3 * y3 + x1 * x2 * y2 * y2 * x3 * y3 * y3 + y1 * y1 * y1 * x2 *
        x2 * y2 * x3 * y3 * y3 + y1 * y1 * y1 * x2 * y2 * y2 * x3 * x3 * y3 - y1 * x2 * x2 * y2 * x3 * y3 *
        y3 - y1 * x2 * y2 * y2 * x3 * x3 * y3) * curve x2 y2 +
     d * (x1 * x1 * x1 * x2 * x2 * x2 * y2 * y2 * x3 + x1 * x1 * x1 * x2 * x2 * y2 * y2 * y2 * y3 + x1 * x1 *
        y1 * x2 * x2 * x2 * x2 * y2 * y2 * y2 * x3 * d + x1 * x1 * y1 * x2 * x2 * x2 * x2 * y2 * x3 - x1 *
        x1 * y1 * x2 * x2 * x2 * y2 * y2 * y2 * y2 * y3 * d + x1 * x1 * y1 * x2 * y2 * y2 * y2 * y2 * y3 -
        x1 * y1 * y1 * x2 * x2 * x2 * x2 * y2 * y2 * y2 * y3 * d - x1 * y1 * y1 * x2 * x2 * x2 * x2 * y2 *
        y3 + x1 * y1 * y1 * x2 * x2 * x2 * y2 * y2 * y2 * y2 * x3 * d - x1 * y1 * y1 * x2 * y2 * y2 * y2 *
        y2 * x3 + x1 * x2 * x2 * x2 * y2 * y2 * x3 + x1 * x2 * x2 * y2 * y2 * y2 * y3 - y1 * y1 * y1 * x2 *
        x2 * x2 * y2 * y2 * y3 - y1 * y1 * y1 * x2 * x2 * y2 * y2 * y2 * x3 + y1 * x2 * x2 * x2 * y2 * y2 *
        y3 + y1 * x2 * x2 * y2 * y2 * y2 * x3) * curve x3 y3).
  - subst D N M E N' M'. unfold curve. ring.
  - rewrite H1, H2, H3. ring.
Qed.

Lemma assoc_y x1 y1 x2 y2 x3 y3 :
  curve x1 y1 = 0 -> curve x2 y2 = 0 -> curve x3 y3 = 0 ->
  let D := d * x1 * x2 * y1 * y2 in let N := x1 * y2 + y1 * x2 in let M := y1 * y2 + x1 * x2 in
  let E := d * x2 * x3 * y2 * y3 in let N' := x2 * y3 + y2 * x3 in let M' := y2 * y3 + x2 * x3 in
  (M * (1 + D) * y3 + N * (1 - D) * x3) * ((1 + E) * (1 - E) - d * x1 * y1 * N' * M') =
  (y1 * M' * (1 + E) + x1 * N' * (1 - E)) * ((1 + D) * (1 - D) - d * N * M * x3 * y3).
Proof.
  intros H1 H2 H3 D N M E N' M'. apply sub_zero.
  transitivity
    (d * (x1 * x2 * x2 * x2 * x2 * y2 * y2 * y2 * x3 * y3 * y3 * d + x1 * x2 * x2 * x2 * x2 * y2 * x3 * y3 *
        y3 + x1 * x2 * x2 * x2 * y2 * y2 * y2 * y2 * x3 * x3 * y3 * d + x1 * x2 * x2 * x2 * y2 * y2 * y3 *
        y3 * y3 - x1 * x2 * x2 * x2 * y2 * y2 * y3 - x1 * x2 * x2 * y2 * y2 * y2 * x3 * x3 * x3 - x1 * x2 *
        x2 * y2 * y2 * y2 * x3 - x1 * x2 * y2 * y2 * y2 * y2 * x3 * x3 * y3 - y1 * x2 * x2 * x2 * x2 * y2 *
        y2 * y2 * x3 * x3 * y3 * d - y1 * x2 * x2 * x2 * x2 * y2 * x3 * x3 * y3 - y1 * x2 * x2 * x2 * y2 *
        y2 * y2 * y2 * x3 * y3 * y3 * d - y1 * x2 * x2 * x2 * y2 * y2 * x3 * x3 * x3 - y1 * x2 * x2 * x2 *
        y2 * y2 * x3 + y1 * x2 * x2 * y2 * y2 * y2 * y3 * y3 * y3 - y1 * x2 * x2 * y2 * y2 * y2 * y3 + y1 *
        x2 * y2 * y2 * y2 * y2 * x3 * y3 * y3) * curve x1 y1 +
     d * (- x1 * x1 * x1 * x2 * x2 * y2 * x3 * y3 * y3 - x1 * x1 * x1 * x2 * y2 * y2 * x3 * x3 * y3 + x1 * x1
        * y1 * x2 * x2 * y2 * y3 * y3 * y3 - x1 * x1 * y1 * x2 * x2 * y2 * y3 + x1 * x1 * y1 * x2 * y2 * y2
        * x3 * x3 * x3 + x1 * x1 * y1 * x2 * y2 * y2 * x3 + x1 * y1 * y1 * x2 * x2 * y2 * x3 * x3 * x3 + x1
        * y1 * y1 * x2 * x2 * y2 * x3 + x1 * y1 * y1 * x2 * y2 * y2 * y3 * y3 * y3 - x1 * y1 * y1 * x2 * y2
        * y2 * y3 - x1 * x2 * x2 * y2 * x3 * y3 * y3 - x1 * x2 * y2 * y2 * x3 * x3 * y3 - y1 * y1 * y1 * x2
        * x2 * y2 * x3 * x3 * y3 - y1 * y1 * y1 * x2 * y2 * y2 * x3 * y3 * y3 + y1 * x2 * x2 * y2 * x3 * x3
        * y3 + y1 * x2 * y2 * y2 * x3 * y3 * y3) * curve x2 y2 +
     d * (x1 * x1 * x1 * x2 * x2 * x2 * y2 * y2 * y3 + x1 * x1 * x1 * x2 * x2 * y2 * y2 * y2 * x3 + x1 * x1 *
        y1 * x2 * x2 * x2 * x2 * y2 * y2 * y2 * y3 * d + x1 * x1 * y1 * x2 * x2 * x2 * x2 * y2 * y3 - x1 *
        x1 * y1 * x2 * x2 * x2 * y2 * y2 * y2 * y2 * x3 * d + x1 * x1 * y1 * x2 * y2 * y2 * y2 * y2 * x3 -
        x1 * y1 * y1 * x2 * x2 * x2 * x2 * y2 * y2 * y2 * x3 * d - x1 * y1 * y1 * x2 * x2 * x2 * x2 * y2 *
        x3 + x1 * y1 * y1 * x2 * x2 * x2 * y2 * y2 * y2 * y2 * y3 * d - x1 * y1 * y1 * x2 * y2 * y2 * y2 *
        y2 * y3 + x1 * x2 * x2 * x2 * y2 * y2 * y3 + x1 * x2 * x2 * y2 * y2 * y2 * x3 - y1 * y1 * y1 * x2 *
        x2 * x2 * y2 * y2 * x3 - y1 * y1 * y1 * x2 * x2 * y2 * y2 * y2 * y3 + y1 * x2 * x2 * x2 * y2 * y2 *
        x3 + y1 * x2 * x2 * y2 * y2 * y2 * y3) * curve x3 y3).
  - subst D N M E N' M'. unfold curve. ring.
  - rewrite H1, H2, H3. ring.
Qed.

Lemma cross a b c e : b <> 0 -> e <> 0 -> a * e = c * b -> a / b = c / e.
Proof. intros Hb He E. transitivity (a * e / (b * e)); [field; done|]. rewrite E. field. done. Qed.

Lemma padd_assoc P Q R : on_curve P -> on_curve Q -> on_curve R -> padd (padd P Q) R = padd P (padd Q R).
Proof.
  destruct P as [x1 y1], Q as [x2 y2], R as [x3 y3]. intros H1 H2 H3.
  pose proof (on_curve_add _ _ H1 H2) as H12. pose proof (on_curve_add _ _ H2 H3) as H23.
  unfold on_curve in *. cbn in *.
  destruct (complete_add _ _ _ _ H1 H2) as [A1 A2]. destruct (complete_add _ _ _ _ H2 H3) as [B1 B2].
  destruct (complete_add _ _ _ _ H12 H3) as [C1 C2]. destruct (complete_add _ _ _ _ H1 H23) as [D1 D2].
  pose proof (assoc_x x1 y1 x2 y2 x3 y3 H1 H2 H3) as Ex. pose proof (assoc_y x1 y1 x2 y2 x3 y3 H1 H2 H3) as Ey.
  cbv zeta in Ex, Ey. clear H12 H23.
  set (e := d * x1 * x2 * y1 * y2) in *. set (N := x1 * y2 + y1 * x2) in *. set (M := y1 * y2 + x1 * x2) in *.
  set (e' := d * x2 * x3 * y2 * y3) in *. set (N' := x2 * y3 + y2 * x3) in *. set (M' := y2 * y3 + x2 * x3) in *.
  clearbody e N M e' N' M'.
  assert ((1 + e) * (1 - e) + d * N * M * x3 * y3 <> 0 /\ (1 + e) * (1 - e) - d * N * M * x3 * y3 <> 0) as [C1' C2'].
  { split; intros E; [apply C1|apply C2]; [transitivity (((1 + e) * (1 - e) + d * N * M * x3 * y3) / ((1 + e) * (1 - e)))|
      transitivity (((1 + e) * (1 - e) - d * N * M * x3 * y3) / ((1 + e) * (1 - e)))]; try (field; done); rewrite E; field; done. }
  assert ((1 + e') * (1 - e') + d * x1 * y1 * N' * M' <> 0 /\ (1 + e') * (1 - e') - d * x1 * y1 * N' * M' <> 0) as [D1' D2'].
  { split; intros E; [apply D1|apply D2]; [transitivity (((1 + e') * (1 - e') + d * x1 * y1 * N' * M') / ((1 + e') * (1 - e')))|
      transitivity (((1 + e') * (1 - e') - d * x1 * y1 * N' * M') / ((1 + e') * (1 - e')))]; try (field; done); rewrite E; field; done. }
  f_equal.
  - transitivity ((N * (1 - e) * y3 + M * (1 + e) * x3) / ((1 + e) * (1 - e) + d * N * M * x3 * y3)); [field; done|].
    rewrite (cross _ _ _ _ C1' D1' Ex). field. repeat split; try done; intros Z; apply D1'; rewrite <- Z; ring.
  - transitivity ((M * (1 + e) * y3 + N * (1 - e) * x3) / ((1 + e) * (1 - e) - d * N * M * x3 * y3)); [field; done|].
    rewrite (cross _ _ _ _ C2' D2' Ey). field. repeat split; try done; intros Z; apply D2'; rewrite <- Z; ring.
Qed.

(** ** Multiples *)

Fixpoint smul (n : nat) (P : F * F) : F * F :=
  match n with
  | O => pzero
  | S n => padd P (smul n P)
  end.

Lemma on_curve_smul n P : on_curve P -> on_curve (smul n P).
Proof. intros H. induction n; [apply on_curve_zero|by apply on_curve_add]. Qed.
#[local] Hint Resolve on_curve_zero on_curve_neg on_curve_add on_curve_smul : core.

Lemma smul_add a b P : on_curve P -> smul (a + b)%nat P = padd (smul a P) (smul b P).
Proof.
  intros H. induction a as [|a IH]; cbn [smul Nat.add]; [by rewrite padd_zero|]. rewrite IH, padd_assoc; auto.
Qed.

Lemma smul_mul a b P : on_curve P -> smul (a * b)%nat P = smul a (smul b P).
Proof. intros H. induction a as [|a IH]; cbn [smul Nat.mul]; [done|]. by rewrite smul_add, IH. Qed.

Lemma smul_swap a b P : on_curve P -> smul a (smul b P) = smul b (smul a P).
Proof. intros H. by rewrite <- !smul_mul, Nat.mul_comm. Qed.

Lemma smul_double n P : on_curve P -> padd (smul n P) (smul n P) = smul (2 * n)%nat P.
Proof. intros H. rewrite <- smul_add by done. f_equal. lia. Qed.

Lemma smul_diff n P : on_curve P -> padd (smul (S n) P) (pneg (smul n P)) = P.
Proof.
  intros H. cbn [smul]. rewrite padd_assoc, padd_neg, padd_comm, padd_zero; auto.
Qed.

Lemma diff_y_sym P Q : (padd P (pneg Q)).2 = (padd Q (pneg P)).2.
Proof. destruct P as [x1 y1], Q as [x2 y2]. cbn. f_equal; ring. Qed.

(** ** The coordinate u

    The ladder keeps u as a ratio [X : Z], of which (1 + y) : (1 - y) is a multiple. *)

Definition rep_u (X Z : F) (P : F * F) : Prop := exists l, l <> 0 /\ X = l * (1 + P.2) /\ Z = l * (1 - P.2).

Context (a24 : F).
Hypothesis a24_d : a24 * (1 + d) = - d.

Lemma one_nz : 1 <> 0.
Proof. intros E. apply two_nz. rewrite E. ring. Qed.

Lemma i_nz : i <> 0.
Proof.
  intros E. apply one_nz. transitivity (- (i * i)); [rewrite i_sq; ring|]. rewrite E. ring.
Qed.

Lemma dy_nz y : 1 + d * (y * y) <> 0.
Proof.
  intros E. assert (y = 0) as ->.
  { apply (nonsquare i). rewrite i_sq. transitivity (1 + d * (y * y) - 1); [rewrite E; ring|ring]. }
  apply one_nz. rewrite <- E. ring.
Qed.

Lemma d_nz : 1 + d <> 0.
Proof. intros E. apply (dy_nz 1). rewrite <- E. ring. Qed.

Definition dbl_X (X Z : F) : F := (X + Z) * (X + Z) * ((X - Z) * (X - Z)).
Definition dbl_Z (X Z : F) : F :=
  let E := (X + Z) * (X + Z) - (X - Z) * (X - Z) in E * ((X + Z) * (X + Z) + a24 * E).

Lemma a24_val : a24 = - d / (1 + d).
Proof. transitivity (a24 * (1 + d) / (1 + d)); [field; apply d_nz|by rewrite a24_d]. Qed.

Lemma rep_double X Z P : on_curve P -> rep_u X Z P -> rep_u (dbl_X X Z) (dbl_Z X Z) (padd P P).
Proof.
  destruct P as [x y]. intros H (l & Hl & -> & ->). pose proof d_nz as D1. pose proof (dy_nz y) as D2.
  destruct (complete_add x y x y H H) as [_ D3]. unfold on_curve in H. cbn in H |- *.
  exists (2 * 2 * 2 * (l * l) * (l * l) * (1 + d * (y * y)) * (1 - d * x * x * y * y) / (1 + d)). split.
  { assert (forall a b, a <> 0 -> b <> 0 -> a / b <> 0) as Hd.
    { intros a b Ha Hb E. apply Ha. transitivity (a / b * b); [field; done|]. rewrite E. ring. }
    apply Hd; [|done]. repeat apply mul_nz; done. }
  unfold dbl_X, dbl_Z. cbn [snd]. rewrite a24_val. split; apply sub_zero.
  - transitivity (2 * 2 * 2 * (l * l * l * l) * (1 - d * (y * y)) * curve x y / (1 + d)); [|rewrite H; field; done].
    unfold curve. field. done.
  - transitivity (- (2 * 2 * 2 * (l * l * l * l) * (1 + d * (y * y)) * curve x y / (1 + d))); [|rewrite H; field; done].
    unfold curve. field. done.
Qed.

(** Differential addition: [u] is the coordinate of the difference of the two points. *)
Definition dif_X (X2 Z2 X3 Z3 : F) : F :=
  let s := (X3 - Z3) * (X2 + Z2) + (X3 + Z3) * (X2 - Z2) in s * s.
Definition dif_Z (u X2 Z2 X3 Z3 : F) : F :=
  let s := (X3 - Z3) * (X2 + Z2) - (X3 + Z3) * (X2 - Z2) in u * (s * s).

Lemma dif_identity x1 y1 x2 y2 : curve x1 y1 = 0 -> curve x2 y2 = 0 ->
  let e := d * x1 * x2 * y1 * y2 in
  (y1 + y2) * (y1 + y2) * ((1 - e - (y1 * y2 + x1 * x2)) * (1 + e - (y2 * y1 - x1 * x2))) =
  (y2 - y1) * (y2 - y1) * ((1 - e + (y1 * y2 + x1 * x2)) * (1 + e + (y2 * y1 - x1 * x2))).
Proof.
  intros H1 H2 e. apply sub_zero.
  transitivity (2 * 2 * y1 * y2 * (x2 * x2 * (y2 * y2 * d + 1) * curve x1 y1 + (y1 * y1 - 1) * curve x2 y2));
    [subst e; unfold curve; ring|rewrite H1, H2; ring].
Qed.

Lemma rep_ratio X Z P : X * (1 - P.2) = Z * (1 + P.2) -> (X = 0 -> Z = 0 -> False) -> rep_u X Z P.
Proof.
  destruct P as [x y]. cbn. intros E Hn.
  assert (forall a, 2 * a = 0 -> a = 0) as H2 by (intros a Ha; by destruct (integral 2 a Ha)).
  exists ((X + Z) / 2). cbn. split; [|split].
  - intros Hl. assert (X = 0) as HX.
    { apply H2. transitivity (X * (1 - y) - Z * (1 + y) + (X + Z) / 2 * 2 * (1 + y)); [field; done|]. rewrite E, Hl. ring. }
    apply (Hn HX). transitivity ((X + Z) / 2 * 2 - X); [field; done|]. rewrite Hl, HX. ring.
  - apply sub_zero. transitivity ((X * (1 - y) - Z * (1 + y)) / 2); [field; done|]. rewrite E. field. done.
  - apply sub_zero. transitivity ((Z * (1 + y) - X * (1 - y)) / 2); [field; done|]. rewrite E. field. done.
Qed.

(** Both results of the differential addition are 0 only when the difference has y = 1 or y = -1. *)
Lemma dif_nz x1 y1 x2 y2 u w : curve x1 y1 = 0 -> curve x2 y2 = 0 -> u <> 0 ->
  w * (1 + d * x1 * x2 * y1 * y2) = y2 * y1 - x1 * x2 -> w * w <> 1 ->
  (y1 + y2) * (y1 + y2) = 0 -> u * ((y2 - y1) * (y2 - y1)) = 0 -> False.
Proof.
  intros H1 H2 Hu Hw Hw2 Hs Hd. apply sq_zero in Hs. apply integral in Hd as [|Hd]; [done|]. apply sq_zero in Hd.
  assert (y2 = 0) as ->.
  { destruct (integral 2 y2) as [|]; [|done..]. transitivity (y1 + y2 + (y2 - y1)); [ring|]. rewrite Hs, Hd. ring. }
  assert (y1 = 0) as -> by (transitivity (y1 + 0); [ring|done]). apply Hw2.
  assert (w = - (x1 * x2)) as ->.
  { transitivity (w * (1 + d * x1 * x2 * 0 * 0)); [ring|]. rewrite Hw. ring. }
  apply sub_zero. transitivity (- curve x1 0 * (x2 * x2) + curve x2 0); [unfold curve; ring|].
  rewrite H1, H2. ring.
Qed.

Lemma rep_dif u X2 Z2 X3 Z3 P Q : on_curve P -> on_curve Q ->
  let w := (padd Q (pneg P)).2 in u * (1 - w) = 1 + w -> w * w <> 1 ->
  rep_u X2 Z2 P -> rep_u X3 Z3 Q -> rep_u (dif_X X2 Z2 X3 Z3) (dif_Z u X2 Z2 X3 Z3) (padd P Q).
Proof.
  destruct P as [x1 y1], Q as [x2 y2]. intros H1 H2 w Hu Hw (l & Hl & -> & ->) (m & Hm & -> & ->).
  destruct (complete_add _ _ _ _ H1 H2) as [C1 C2]. unfold on_curve in *. cbn [fst snd] in *.
  pose proof (dif_identity _ _ _ _ H1 H2) as Hid. cbv zeta in Hid.
  assert (w * (1 + d * x1 * x2 * y1 * y2) = y2 * y1 - x1 * x2) as Ew.
  { subst w. cbn. field. intros Z. apply C1. rewrite <- Z. ring. }
  assert (1 - w <> 0 /\ u <> 0) as [W1 U0].
  { split; intros Z; apply Hw.
    - transitivity ((1 - (1 - w)) * (1 - (1 - w))); [ring|]. rewrite Z. ring.
    - assert (1 + w = 0) as Z' by (rewrite <- Hu, Z; ring).
      transitivity ((1 + w - 1) * (1 + w - 1)); [ring|]. rewrite Z'. ring. }
  clearbody w. unfold dif_X, dif_Z. set (k := 2 * 2 * l * m).
  assert (k * k <> 0) as Hk by (subst k; repeat apply mul_nz; done).
  replace ((m * (1 + y2) - m * (1 - y2)) * (l * (1 + y1) + l * (1 - y1)) + (m * (1 + y2) + m * (1 - y2)) *
    (l * (1 + y1) - l * (1 - y1))) with (k * (y1 + y2)) by (subst k; ring).
  replace ((m * (1 + y2) - m * (1 - y2)) * (l * (1 + y1) + l * (1 - y1)) - (m * (1 + y2) + m * (1 - y2)) *
    (l * (1 + y1) - l * (1 - y1))) with (k * (y2 - y1)) by (subst k; ring).
  apply rep_ratio.
  - cbn. set (e := d * x1 * x2 * y1 * y2) in *. set (M := y1 * y2 + x1 * x2) in *. set (W := y2 * y1 - x1 * x2) in *.
    assert (u = (1 + w) / (1 - w)) as -> by (rewrite <- Hu; field; done).
    rewrite <- Ew in Hid. apply sub_zero.
    transitivity (k * k * ((y1 + y2) * (y1 + y2) * ((1 - e - M) * (1 + e - w * (1 + e))) -
      (y2 - y1) * (y2 - y1) * ((1 - e + M) * (1 + e + w * (1 + e)))) / ((1 - e) * (1 + e) * (1 - w))); [field; done|].
    rewrite Hid. field. done.
  - intros EX EZ. apply (dif_nz x1 y1 x2 y2 u w H1 H2 U0 Ew Hw).
    + destruct (integral (k * k) ((y1 + y2) * (y1 + y2))) as [|]; [|done..]. rewrite <- EX. ring.
    + destruct (integral (k * k) (u * ((y2 - y1) * (y2 - y1)))) as [|]; [|done..]. rewrite <- EZ. ring.
Qed.

(** ** The ladder

    [u] is the coordinate of a point [P] that is neither the neutral element nor the
    point of order 2. *)

Definition ucoord (P : F * F) : F := if eq_dec P.2 1 then 0 else (1 + P.2) / (1 - P.2).
Definition small (P : F * F) : Prop := P.2 * P.2 = 1.

Lemma one_sub_nz y : y <> 1 -> 1 - y <> 0.
Proof. intros Hy E. apply Hy. symmetry. by apply sub_zero. Qed.

Lemma ucoord_ratio P : ~ small P -> ucoord P * (1 - P.2) = 1 + P.2.
Proof.
  unfold ucoord, small. intros Hs. destruct (eq_dec P.2 1) as [E|E]; [destruct Hs; rewrite E; ring|].
  field. by apply one_sub_nz.
Qed.

Lemma ucoord_small P : small P -> ucoord P = 0.
Proof.
  unfold ucoord, small. intros Hs. destruct (eq_dec P.2 1) as [E|E]; [done|].
  pose proof (one_sub_nz _ E) as Hn. assert (1 + P.2 = 0) as ->; [|field; done].
  destruct (integral (1 - P.2) (1 + P.2)) as [|]; [|done..].
  transitivity (1 - P.2 * P.2); [ring|]. rewrite Hs. ring.
Qed.

Lemma small_x P : on_curve P -> small P -> P.1 = 0.
Proof.
  destruct P as [x y]. unfold on_curve, small. cbn. intros H Hs. apply sq_zero.
  destruct (integral (1 + d) (x * x)) as [E|E]; [|by apply d_nz in E|done].
  transitivity (- (curve x y) + (y * y - 1) * (1 - d * (x * x))); [unfold curve; ring|]. rewrite H, Hs. ring.
Qed.

Lemma small_smul n P : on_curve P -> small P -> small (smul n P).
Proof.
  intros H Hs. induction n as [|n IH]; cbn [smul]; [unfold small; cbn; ring|].
  pose proof (small_x P H Hs) as Hx. destruct P as [x y], (smul n (x, y)) as [x' y']. unfold small in *. cbn in *. subst x.
  transitivity (y * y * (y' * y')); [|rewrite Hs, IH; ring].
  field. intros E. apply one_nz. rewrite <- E. ring.
Qed.

(** The result of the ladder, a quotient. *)
Lemma rep_result X Z Zi P : rep_u X Z P -> (Z = 0 -> Zi = 0) -> (Z <> 0 -> Z * Zi = 1) -> X * Zi = ucoord P.
Proof.
  intros (l & Hl & -> & ->) H0 H1. unfold ucoord. destruct (eq_dec P.2 1) as [E|E].
  - rewrite H0; [ring|]. rewrite E. ring.
  - pose proof (one_sub_nz _ E) as Hn. transitivity (l * (1 - P.2) * Zi * ((1 + P.2) / (1 - P.2))); [field; done|].
    rewrite H1 by (by apply mul_nz). ring.
Qed.

Lemma rep_start P : ~ small P -> rep_u 1 0 (smul 0 P) /\ rep_u (ucoord P) 1 (smul 1 P).
Proof.
  intros Hs. split; apply rep_ratio.
  - cbn. ring.
  - intros E _. by apply one_nz.
  - cbn [smul]. rewrite padd_comm, padd_zero, ucoord_ratio by done. ring.
  - intros _ E. by apply one_nz.
Qed.

Section step.
Context (P : F * F) (u : F).
Hypothesis HP : on_curve P.
Hypothesis Hu : u * (1 - P.2) = 1 + P.2.
Hypothesis Hs : ~ small P.

Lemma rep_step_0 k X2 Z2 X3 Z3 : rep_u X2 Z2 (smul k P) -> rep_u X3 Z3 (smul (S k) P) ->
  rep_u (dbl_X X2 Z2) (dbl_Z X2 Z2) (smul (2 * k) P) /\
  rep_u (dif_X X2 Z2 X3 Z3) (dif_Z u X2 Z2 X3 Z3) (smul (2 * k + 1) P).
Proof.
  intros H2 H3. split; [rewrite <- smul_double by done; apply rep_double; auto|].
  replace (2 * k + 1)%nat with (k + S k)%nat by lia. rewrite smul_add by done.
  apply rep_dif; rewrite ?smul_diff; auto.
Qed.

Lemma rep_step_1 k X2 Z2 X3 Z3 : rep_u X2 Z2 (smul (S k) P) -> rep_u X3 Z3 (smul k P) ->
  rep_u (dbl_X X2 Z2) (dbl_Z X2 Z2) (smul (S (2 * k + 1)) P) /\
  rep_u (dif_X X2 Z2 X3 Z3) (dif_Z u X2 Z2 X3 Z3) (smul (2 * k + 1) P).
Proof.
  intros H2 H3. split.
  - replace (S (2 * k + 1)) with (2 * S k)%nat by lia. rewrite <- smul_double by done. apply rep_double; auto.
  - replace (2 * k + 1)%nat with (S k + k)%nat by lia. rewrite smul_add by done.
    apply rep_dif; rewrite ?(diff_y_sym (smul k P)), ?smul_diff; auto.
Qed.
End step.

(** A function that multiplies points by way of their coordinate commutes with itself. *)
Lemma ucoord_agree (mult : nat -> F -> F) (ok : nat -> Prop) G a b :
  (forall n P, ok n -> on_curve P -> ~ small P -> mult n (ucoord P) = ucoord (smul n P)) ->
  (forall n, ok n -> mult n 0 = 0) -> on_curve G -> ok a -> ok b ->
  mult a (ucoord (smul b G)) = mult b (ucoord (smul a G)).
Proof.
  intros Hm H0 HG Ha Hb. assert (forall n P, ok n -> on_curve P -> mult n (ucoord P) = ucoord (smul n P)) as H.
  { intros n P Hn HP. destruct (eq_dec (P.2 * P.2) 1) as [E|E]; [|by apply Hm].
    rewrite (ucoord_small P E), H0, ucoord_small; [done|by apply small_smul|done]. }
  by rewrite !H, smul_swap by auto.
Qed.

End edwards.
