(* ===== verification/Extended.v ===== *)
(** * Extended coordinates and integer multiples on the Edwards curve

    A point (x, y) as (Z x, Z y, Z, Z x y), the sums and doubles that library/crypto/monocypher.c
    computes on them, the encoding by y and a sign, and multiples of a point by integers, over
    the field of Edwards.v. *)

From Stdlib Require Import Field Ring.
From S2P Require Import Prelude Edwards.

Section extended.
Context {F : Type} (zero one : F) (add mul sub : F -> F -> F) (opp : F -> F) (div : F -> F -> F) (inv : F -> F).
Context (Fth : field_theory zero one add mul sub opp div inv (@eq F)).
Context (eq_dec : forall x y : F, {x = y} + {x <> y}).

Declare Scope ext_scope.
#[local] Open Scope ext_scope.
#[local] Notation "0" := zero : ext_scope.
#[local] Notation "1" := one : ext_scope.
#[local] Notation "2" := (add one one) : ext_scope.
#[local] Infix "+" := add : ext_scope.
#[local] Infix "*" := mul : ext_scope.
#[local] Infix "-" := sub : ext_scope.
#[local] Infix "/" := div : ext_scope.
#[local] Notation "- x" := (opp x) : ext_scope.

Add Field Efield : Fth.

Context (d i : F).
Hypothesis two_nz : 2 <> 0.
Hypothesis i_sq : i * i = - (1).
Hypothesis d_nonsquare : forall x, x * x <> d.

#[local] Abbreviation curve := (curve one mul sub d).
#[local] Abbreviation on_curve := (on_curve zero one mul sub d).
#[local] Abbreviation padd := (padd one add mul sub div d).
#[local] Abbreviation pneg := (pneg opp).
#[local] Abbreviation pzero := (pzero zero one).
#[local] Abbreviation smul := (smul zero one add mul sub div d).

#[local] Definition nz_mul := mul_nz _ _ _ _ _ _ _ _ Fth.
#[local] Definition complete := complete_add _ _ _ _ _ _ _ _ Fth eq_dec _ _ two_nz i_sq d_nonsquare.
#[local] Definition oc_add := on_curve_add _ _ _ _ _ _ _ _ Fth eq_dec _ _ two_nz i_sq d_nonsquare.
#[local] Definition oc_neg := on_curve_neg _ _ _ _ _ _ _ _ Fth d.
#[local] Definition oc_zero := on_curve_zero _ _ _ _ _ _ _ _ Fth d.
#[local] Definition oc_smul := on_curve_smul _ _ _ _ _ _ _ _ Fth eq_dec _ _ two_nz i_sq d_nonsquare.
#[local] Definition p_assoc := padd_assoc _ _ _ _ _ _ _ _ Fth eq_dec _ _ two_nz i_sq d_nonsquare.
#[local] Definition p_comm := padd_comm _ _ _ _ _ _ _ _ Fth d.
#[local] Definition p_zero := padd_zero _ _ _ _ _ _ _ _ Fth d two_nz.
#[local] Definition p_neg := padd_neg _ _ _ _ _ _ _ _ Fth eq_dec _ _ two_nz i_sq d_nonsquare.

(** ** Extended coordinates *)

Definition ext (X Y Z T : F) (P : F * F) : Prop := Z <> 0 /\ X = Z * P.1 /\ Y = Z * P.2 /\ T = Z * (P.1 * P.2).

(** The form in which the second operand of an addition is kept. *)
Definition cached (Yp Ym Z T2 : F) (P : F * F) : Prop :=
  Z <> 0 /\ Yp = Z * (P.2 + P.1) /\ Ym = Z * (P.2 - P.1) /\ T2 = Z * (P.1 * P.2) * (2 * d).

Lemma ext_zero : ext 0 1 1 0 pzero.
Proof.
  unfold ext, Edwards.pzero. cbn [fst snd]. split; [apply (one_nz _ _ _ _ _ _ _ _ Fth two_nz)|].
  split; [|split]; ring.
Qed.

Lemma ext_cached X Y Z T P : ext X Y Z T P -> cached (Y + X) (Y - X) Z (T * (2 * d)) P.
Proof. intros (Hz & -> & -> & ->). split; [done|]. split; [|split]; ring. Qed.

Lemma ext_opp X Y Z T P : ext X Y Z T P -> ext (- X) Y Z (- T) (pneg P).
Proof. destruct P as [x y]. unfold ext. cbn [fst snd Edwards.pneg]. intros (Hz & -> & -> & ->). split; [done|]. split; [|split]; ring. Qed.

Lemma cached_affine x y : cached (y + x) (y - x) 1 (y * x * (2 * d)) (x, y).
Proof. split; [apply (one_nz _ _ _ _ _ _ _ _ Fth two_nz)|]. cbn [fst snd]. split; [|split]; ring. Qed.

Lemma cached_neg Yp Ym Z T2 P : cached Yp Ym Z T2 P -> cached Ym Yp Z (- T2) (pneg P).
Proof. destruct P as [x y]. unfold cached. cbn [fst snd Edwards.pneg]. intros (Hz & -> & -> & ->). split; [done|]. split; [|split]; ring. Qed.

(** Addition: [a] and [b] are the products of the sums and of the differences. *)
Lemma ext_add X Y Z T Yp Ym Z2 T2 P Q : on_curve P -> on_curve Q -> ext X Y Z T P -> cached Yp Ym Z2 T2 Q ->
  let a := (Y + X) * Yp in let b := (Y - X) * Ym in let C := (Z + Z) * Z2 in let D := T * T2 in
  ext ((a - b) * (C - D)) ((a + b) * (C + D)) ((C + D) * (C - D)) ((a - b) * (a + b)) (padd P Q).
Proof.
  destruct P as [x1 y1], Q as [x2 y2]. unfold ext, cached, Edwards.on_curve. cbn [fst snd Edwards.padd].
  intros H1 H2 (Hz & -> & -> & ->) (Hz2 & -> & -> & ->). cbv zeta.
  destruct (complete x1 y1 x2 y2 H1 H2) as [Hp Hm]. set (E := d * x1 * x2 * y1 * y2) in *.
  set (N := x1 * y2 + y1 * x2). set (M := y1 * y2 + x1 * x2). set (W := 2 * (Z * Z2)).
  assert (W <> 0) as HW by (apply nz_mul; [done|by apply nz_mul]).
  replace ((Z + Z) * Z2 + Z * (x1 * y1) * (Z2 * (x2 * y2) * (2 * d))) with (W * (1 + E)) by (subst W E; ring).
  replace ((Z + Z) * Z2 - Z * (x1 * y1) * (Z2 * (x2 * y2) * (2 * d))) with (W * (1 - E)) by (subst W E; ring).
  replace ((Z * y1 + Z * x1) * (Z2 * (y2 + x2)) - (Z * y1 - Z * x1) * (Z2 * (y2 - x2))) with (W * N) by (subst W N; ring).
  replace ((Z * y1 + Z * x1) * (Z2 * (y2 + x2)) + (Z * y1 - Z * x1) * (Z2 * (y2 - x2))) with (W * M) by (subst W M; ring).
  clearbody W N M E. split; [by repeat apply nz_mul|]. split; [|split]; field; done.
Qed.

(** The same with [Z2 = 1], where the code leaves the product out. *)
Lemma ext_madd X Y Z T Yp Ym T2 P Q : on_curve P -> on_curve Q -> ext X Y Z T P -> cached Yp Ym 1 T2 Q ->
  let a := (Y + X) * Yp in let b := (Y - X) * Ym in let C := Z + Z in let D := T * T2 in
  ext ((a - b) * (C - D)) ((a + b) * (C + D)) ((C + D) * (C - D)) ((a - b) * (a + b)) (padd P Q).
Proof.
  intros HP HQ H1 H2. pose proof (ext_add _ _ _ _ _ _ _ _ _ _ HP HQ H1 H2) as H. cbv zeta in *.
  replace ((Z + Z) * 1) with (Z + Z) in H by ring. exact H.
Qed.

Lemma ext_double X Y Z T P : on_curve P -> ext X Y Z T P ->
  let A := X * X in let B := Y * Y in let S := B + A in let D := B - A in
  let E := (X + Y) * (X + Y) - S in let G := Z * Z * 2 - D in
  ext (E * G) (S * D) (D * G) (E * S) (padd P P).
Proof.
  destruct P as [x y]. unfold ext, Edwards.on_curve. cbn [fst snd Edwards.padd]. intros H (Hz & -> & -> & ->). cbv zeta.
  destruct (complete x y x y H H) as [Hp Hm]. set (E := d * x * x * y * y) in *.
  assert (y * y - x * x = 1 + E) as Hc.
  { transitivity (curve x y + (1 + E)); [subst E; unfold Edwards.curve; ring|]. rewrite H. ring. }
  set (W := Z * Z). assert (W <> 0) as HW by (by apply nz_mul).
  assert (Z * y * (Z * y) - Z * x * (Z * x) = W * (1 + E)) as -> by (rewrite <- Hc; subst W; ring).
  replace ((Z * x + Z * y) * (Z * x + Z * y) - (Z * y * (Z * y) + Z * x * (Z * x))) with (W * (x * y + y * x)) by (subst W; ring).
  replace (Z * y * (Z * y) + Z * x * (Z * x)) with (W * (y * y + x * x)) by (subst W; ring).
  replace (W * 2 - W * (1 + E)) with (W * (1 - E)) by ring.
  clearbody W E. split; [by repeat apply nz_mul|]. split; [|split]; field; done.
Qed.

(** A table entry is in the cached form with [Z = 1] when it agrees with a point after
    multiplication by its [Z]. *)
Lemma cached_scaled X Y Z T P Yp Ym T2 : ext X Y Z T P ->
  Yp * Z = Y + X -> Ym * Z = Y - X -> T2 * Z = T * (2 * d) -> cached Yp Ym 1 T2 P.
Proof.
  intros (Hz & -> & -> & ->) H1 H2 H3. split; [apply (one_nz _ _ _ _ _ _ _ _ Fth two_nz)|].
  assert (forall a b, a * Z = b -> a = b / Z) as Hd by (intros a b <-; field; done).
  apply Hd in H1, H2, H3. rewrite H1, H2, H3. split; [|split]; field; done.
Qed.

Lemma ext_is_zero X Y Z T P : ext X Y Z T P -> X = 0 -> Y = Z -> P = pzero.
Proof.
  destruct P as [x y]. unfold Edwards.pzero. intros (Hz & Hx & Hy & _) E1 E2. cbn [fst snd] in *. apply pair_eq. cbn [fst snd].
  split; [transitivity (X / Z); [rewrite Hx|rewrite E1]; field; done|].
  transitivity (Y / Z); [rewrite Hy|rewrite E2]; field; done.
Qed.

(** ** Encodings: y determines x up to its sign *)

Lemma curve_x x y : curve x y = 0 <-> x * x * (1 + d * (y * y)) = y * y - 1.
Proof.
  split; intros H; [apply (sub_zero _ _ _ _ _ _ _ _ Fth); transitivity (- curve x y); [unfold Edwards.curve; ring|]; rewrite H; ring|].
  transitivity (y * y - 1 - x * x * (1 + d * (y * y))); [unfold Edwards.curve; ring|]. rewrite H. ring.
Qed.

Lemma den_nz y : 1 + d * (y * y) <> 0.
Proof. apply (dy_nz _ _ _ _ _ _ _ _ Fth eq_dec _ _ two_nz i_sq d_nonsquare). Qed.

Lemma same_y x x' y : curve x y = 0 -> curve x' y = 0 -> x' = x \/ x' = - x.
Proof.
  rewrite !curve_x. intros H H'.
  destruct (integral _ _ _ _ _ _ _ _ Fth eq_dec ((x' - x) * (x' + x)) (1 + d * (y * y))) as [E|E].
  - transitivity (x' * x' * (1 + d * (y * y)) - x * x * (1 + d * (y * y))); [ring|]. rewrite H, H'. ring.
  - destruct (integral _ _ _ _ _ _ _ _ Fth eq_dec _ _ E) as [E'|E']; [left|right].
    + by apply (sub_zero _ _ _ _ _ _ _ _ Fth).
    + transitivity (x' + x - x); [ring|]. rewrite E'. ring.
  - by apply den_nz in E.
Qed.

(** The root: [r] is an inverse square root of the product of numerator and denominator, or
    that product is 0. *)
Lemma root_on_curve y r : let num := y * y - 1 in let den := y * y * d + 1 in
  num * den = 0 \/ num * den * (r * r) = 1 -> on_curve (num * r, y).
Proof.
  cbv zeta. unfold Edwards.on_curve. cbn [fst snd]. intros H. apply curve_x. pose proof (den_nz y) as Hd.
  replace (y * y * d + 1) with (1 + d * (y * y)) in H by ring. destruct H as [H|H].
  - destruct (integral _ _ _ _ _ _ _ _ Fth eq_dec _ _ H) as [E|E]; [rewrite E; ring|done].
  - transitivity ((y * y - 1) * ((y * y - 1) * (1 + d * (y * y)) * (r * r))); [ring|]. rewrite H. ring.
Qed.

(** On the curve that product is a square. *)
Lemma curve_square x y r : on_curve (x, y) -> let den := y * y * d + 1 in
  (y * y - 1) * den * (r * r) = (x * den * r) * (x * den * r).
Proof. unfold Edwards.on_curve. cbn [fst snd]. intros H%curve_x. cbv zeta. rewrite <- H. ring. Qed.

Lemma same_y_points P Q : on_curve P -> on_curve Q -> P.2 = Q.2 -> Q = P \/ Q = pneg P.
Proof.
  destruct P as [x y], Q as [x' y']. unfold Edwards.on_curve. cbn [fst snd]. intros HP HQ <-.
  destruct (same_y x x' y HP HQ) as [-> | ->]; [left|right]; done.
Qed.

Lemma ext_affine x y : ext x y 1 (x * y) (x, y).
Proof. split; [apply (one_nz _ _ _ _ _ _ _ _ Fth two_nz)|]. cbn [fst snd]. split; [|split]; ring. Qed.

(** Division by [Z]. *)
Lemma ext_normal X Y Z T P w : ext X Y Z T P -> Z * w = 1 -> X * w = P.1 /\ Y * w = P.2.
Proof.
  intros (Hz & -> & -> & _) Hw.
  split; (match goal with |- _ * ?c * _ = _ => transitivity (Z * w * c) end); [ring|rewrite Hw; ring|ring|rewrite Hw; ring].
Qed.

(** A sum, checked by products. *)
Lemma padd_check x1 y1 x2 y2 x3 y3 : on_curve (x1, y1) -> on_curve (x2, y2) ->
  let E := d * (x1 * x2) * (y1 * y2) in
  x3 * (1 + E) = x1 * y2 + y1 * x2 -> y3 * (1 - E) = y1 * y2 + x1 * x2 -> padd (x1, y1) (x2, y2) = (x3, y3).
Proof.
  intros H1 H2 E Hx Hy. destruct (complete x1 y1 x2 y2 H1 H2) as [Hp Hm]. cbn [Edwards.padd].
  replace (d * x1 * x2 * y1 * y2) with E in * by (subst E; ring). rewrite <- Hx, <- Hy. apply pair_eq. cbn [fst snd]. split; field; done.
Qed.

(** ** The coordinate u of X25519 and back *)

Lemma quotient_u (P : F * F) w : (1 - P.2 <> 0 -> (1 - P.2) * w = 1) -> (1 - P.2 = 0 -> w = 0) ->
  (1 + P.2) * w = ucoord zero one add sub div eq_dec P.
Proof.
  intros H1 H0. unfold ucoord. destruct (eq_dec P.2 1) as [E|E]; [rewrite H0; [ring|rewrite E; ring]|].
  assert (1 - P.2 <> 0) as Hn by (intros Hz; apply E; symmetry; by apply (sub_zero _ _ _ _ _ _ _ _ Fth)).
  transitivity ((1 - P.2) * w * ((1 + P.2) / (1 - P.2))); [field; done|]. rewrite H1 by done. ring.
Qed.

Lemma ext_u X Y Z T P w : ext X Y Z T P -> (Z - Y <> 0 -> (Z - Y) * w = 1) -> (Z - Y = 0 -> w = 0) ->
  (Z + Y) * w = ucoord zero one add sub div eq_dec P.
Proof.
  intros (Hz & _ & -> & _) H1 H0. rewrite <- (quotient_u P (Z * w)); [ring|..].
  - intros Hn. transitivity ((Z - Z * P.2) * w); [ring|]. apply H1. replace (Z - Z * P.2) with (Z * (1 - P.2)) by ring. by apply nz_mul.
  - intros Hn. rewrite H0; [ring|]. replace (Z - Z * P.2) with (Z * (1 - P.2)) by ring. rewrite Hn. ring.
Qed.

Lemma u_back y w v : (1 - y) * w = 1 -> ((1 + y) * w + 1 <> 0 -> ((1 + y) * w + 1) * v = 1) ->
  ((1 + y) * w - 1) * v = y.
Proof.
  intros Hw Hv. assert ((1 + y) * w + 1 = 2 * w) as E by (rewrite <- Hw at 2; ring).
  assert (w <> 0) as Wn by (intros ->; apply (one_nz _ _ _ _ _ _ _ _ Fth two_nz); rewrite <- Hw; ring).
  rewrite E in Hv. specialize (Hv (nz_mul _ _ two_nz Wn)).
  transitivity (y * (2 * w * v)); [rewrite <- Hw at 2; ring|]. rewrite Hv. ring.
Qed.

(** ** Multiples by integers *)

Definition zmul (k : Z) (P : F * F) : F * F :=
  match k with Zneg p => pneg (smul (Pos.to_nat p) P) | _ => smul (Z.to_nat k) P end.

#[local] Hint Resolve oc_zero oc_neg oc_add oc_smul : core.

Lemma on_curve_zmul k P : on_curve P -> on_curve (zmul k P).
Proof. intros H. destruct k; cbn [zmul]; auto. Qed.
#[local] Hint Resolve on_curve_zmul : core.

Lemma pneg_add P Q : pneg (padd P Q) = padd (pneg P) (pneg Q).
Proof.
  destruct P as [x1 y1], Q as [x2 y2]. cbn. replace (d * - x1 * - x2 * y1 * y2) with (d * x1 * x2 * y1 * y2) by ring.
  rewrite !(Fdiv_def Fth). unfold Edwards.pneg. cbn [fst snd]. apply pair_eq. split; ring.
Qed.
Lemma pneg_neg P : pneg (pneg P) = P.
Proof. destruct P as [x y]. apply pair_eq. cbn [fst snd Edwards.pneg]. split; ring. Qed.
Lemma pneg_zero : pneg pzero = pzero.
Proof. unfold Edwards.pneg, Edwards.pzero. cbn [fst snd]. apply pair_eq. split; ring. Qed.

Lemma padd_cancel P Q : on_curve P -> on_curve Q -> padd (padd P Q) (pneg Q) = P.
Proof. intros HP HQ. rewrite p_assoc, p_neg, p_comm, p_zero; auto. Qed.

Lemma zmul_nonneg k P : (0 <= k)%Z -> zmul k P = smul (Z.to_nat k) P.
Proof. by destruct k. Qed.
Lemma zmul_opp k P : zmul (- k) P = pneg (zmul k P).
Proof. destruct k; cbn [Z.opp zmul]; [symmetry; apply pneg_zero|done|by rewrite pneg_neg]. Qed.

Lemma smul_S n P : smul (S n) P = padd P (smul n P).
Proof. done. Qed.

Lemma zmul_succ k P : on_curve P -> zmul (k + 1) P = padd (zmul k P) P.
Proof.
  intros H. destruct (Z.le_gt_cases 0 k) as [Hk|Hk].
  - rewrite !zmul_nonneg, Z2Nat.inj_add, Nat.add_1_r, smul_S, p_comm by lia. done.
  - set (m := Z.to_nat (- k - 1)). replace k with (- (Z.of_nat m + 1))%Z by lia.
    replace (- (Z.of_nat m + 1) + 1)%Z with (- Z.of_nat m)%Z by lia. rewrite !zmul_opp, !zmul_nonneg by lia.
    replace (Z.to_nat (Z.of_nat m + 1)) with (S m) by lia. rewrite Nat2Z.id, smul_S, pneg_add, p_comm.
    rewrite <- p_assoc, p_neg, p_zero; auto.
Qed.

Lemma zmul_pred k P : on_curve P -> zmul (k - 1) P = padd (zmul k P) (pneg P).
Proof.
  intros H. replace k with (k - 1 + 1)%Z at 2 by lia. rewrite zmul_succ, padd_cancel; auto.
Qed.

Lemma zmul_add a b P : on_curve P -> zmul (a + b) P = padd (zmul a P) (zmul b P).
Proof.
  intros H. induction b as [|b IH|b IH] using Z.peano_ind.
  - rewrite Z.add_0_r, p_comm. by rewrite p_zero.
  - replace (a + Z.succ b)%Z with (a + b + 1)%Z by lia. unfold Z.succ. rewrite !zmul_succ, IH, p_assoc; auto.
  - replace (a + Z.pred b)%Z with (a + b - 1)%Z by lia. replace (Z.pred b) with (b - 1)%Z by lia.
    rewrite !zmul_pred, IH, p_assoc; auto.
Qed.

Lemma zmul_double k P : on_curve P -> zmul (2 * k)%Z P = padd (zmul k P) (zmul k P).
Proof. intros H. rewrite <- zmul_add by done. f_equal. lia. Qed.

Lemma zmul_mul a b P : on_curve P -> zmul (a * b) P = zmul a (zmul b P).
Proof.
  intros H. induction a as [|a IH|a IH] using Z.peano_ind; [done|..].
  - rewrite Z.mul_succ_l, zmul_add, IH by done. unfold Z.succ. by rewrite zmul_succ by auto.
  - rewrite Z.mul_pred_l. replace (a * b - b)%Z with (a * b + - b)%Z by lia. rewrite zmul_add, zmul_opp, IH by done.
    replace (Z.pred a) with (a - 1)%Z by lia. by rewrite zmul_pred by auto.
Qed.

Lemma zmul_padd k P Q : on_curve P -> on_curve Q -> zmul k (padd P Q) = padd (zmul k P) (zmul k Q).
Proof.
  intros HP HQ. assert (forall A B C D, on_curve A -> on_curve B -> on_curve C -> on_curve D ->
    padd (padd A B) (padd C D) = padd (padd A C) (padd B D)) as Hs.
  { intros A B C D HA HB HC HD. rewrite !p_assoc by auto. f_equal. rewrite <- !p_assoc by auto. by rewrite (p_comm B C). }
  induction k as [|k IH|k IH] using Z.peano_ind; [symmetry; apply p_zero|..].
  - unfold Z.succ. rewrite !zmul_succ, IH by auto. apply Hs; auto.
  - replace (Z.pred k) with (k - 1)%Z by lia. rewrite !zmul_pred, IH, pneg_add by auto. apply Hs; auto.
Qed.

Lemma zmul_1 P : zmul 1 P = P.
Proof. cbn [zmul]. change (Z.to_nat 1) with 1%nat. rewrite smul_S, p_comm. apply p_zero. Qed.

Lemma zmul_of_zero k : zmul k pzero = pzero.
Proof.
  assert (forall n, smul n pzero = pzero) as Hn by (induction n as [|n IH]; [done|by rewrite smul_S, IH, p_zero]).
  destruct k; cbn [zmul]; rewrite Hn; [done..|apply pneg_zero].
Qed.

(** Multiples by numbers that agree modulo the order of the point. *)
Lemma zmul_mod n a b P : on_curve P -> zmul n P = pzero -> a mod n = b mod n -> zmul a P = zmul b P.
Proof.
  intros H Hn E. destruct (decide (n = 0%Z)) as [->|Hz]; [by rewrite !Z.mod_0_r in E; subst|].
  rewrite (Z.div_mod a n), (Z.div_mod b n), E by done. rewrite !zmul_add by done.
  rewrite !(Z.mul_comm n), !zmul_mul, Hn, !zmul_of_zero by done. done.
Qed.
End extended.
