(* ===== verification/Montgomery.v ===== *)
(** * Elligator 2 over a field

    The maps between representatives and u coordinates of the curve v^2 = u^3 + A u^2 + u, over
    a field in which -1 = i^2 and 2, i, -A and A^2 - 4 are not squares, in the form in which
    library/crypto/monocypher.c computes them, with one inverse square root each. *)

From Stdlib Require Import Field Ring.
From S2P Require Import Prelude Edwards Extended.

Section elligator.
Context {F : Type} (zero one : F) (add mul sub : F -> F -> F) (opp : F -> F) (div : F -> F -> F) (inv : F -> F).
Context (Fth : field_theory zero one add mul sub opp div inv (@eq F)).
Context (eq_dec : forall x y : F, {x = y} + {x <> y}).

Declare Scope mont_scope.
#[local] Open Scope mont_scope.
#[local] Notation "0" := zero : mont_scope.
#[local] Notation "1" := one : mont_scope.
#[local] Notation "2" := (add one one) : mont_scope.
#[local] Infix "+" := add : mont_scope.
#[local] Infix "*" := mul : mont_scope.
#[local] Infix "-" := sub : mont_scope.
#[local] Infix "/" := div : mont_scope.
#[local] Notation "- x" := (opp x) : mont_scope.

Add Field Mfield : Fth.

Definition square (x : F) : Prop := exists y, y * y = x.

Context (i A : F).
Hypothesis i_sq : i * i = - (1).
Hypothesis two_nonsquare : ~ square 2.
Hypothesis i_nonsquare : ~ square i.
Hypothesis A_nonsquare : ~ square (- A).
Hypothesis disc_nonsquare : ~ square (A * A - 2 * 2).

#[local] Definition mz := mul_nz _ _ _ _ _ _ _ _ Fth.
#[local] Definition sz := sub_zero _ _ _ _ _ _ _ _ Fth.
#[local] Definition int := integral _ _ _ _ _ _ _ _ Fth eq_dec.

Lemma two_nz : 2 <> 0.
Proof. intros E. apply two_nonsquare. exists 0. rewrite E. ring. Qed.
Lemma A_nz : A <> 0.
Proof. intros E. apply A_nonsquare. exists 0. rewrite E. ring. Qed.
Lemma i_nz' : i <> 0.
Proof. intros E. apply i_nonsquare. exists 0. rewrite E. ring. Qed.
Lemma one_nz' : 1 <> 0.
Proof. intros E. apply two_nz. rewrite E. ring. Qed.

(** The right side of the equation of the curve. *)
Definition mont (u : F) : F := u * (u * (u + A) + 1).

Lemma cubic_factor u : u * (u + A) + 1 <> 0.
Proof.
  intros E. apply disc_nonsquare. exists (2 * u + A).
  transitivity (2 * 2 * (u * (u + A) + 1) + (A * A - 2 * 2)); [ring|]. rewrite E. ring.
Qed.

Lemma r2_nz r : 1 + 2 * (r * r) <> 0.
Proof.
  intros E. assert (r <> 0) as Hr by (intros ->; apply one_nz'; rewrite <- E; ring).
  apply two_nonsquare. exists (i / r). transitivity (i * i / (r * r)); [field; done|]. rewrite i_sq.
  transitivity ((1 + 2 * (r * r) - 1) / (r * r)); [rewrite E|]; field; done.
Qed.

(** The relation between a representative and its point. *)
Definition maps (r u : F) : Prop :=
  exists w, w * (1 + 2 * (r * r)) = - A /\ ((square (mont w) /\ u = w) \/ (~ square (mont w) /\ u = - w - A)).

Lemma maps_unique r u u' : maps r u -> maps r u' -> u = u'.
Proof.
  intros (w & Hw & H) (w' & Hw' & H').
  assert (w' = w) as ->.
  { pose proof (r2_nz r) as Hr. transitivity (w' * (1 + 2 * (r * r)) / (1 + 2 * (r * r))); [field; done|]. rewrite Hw', <- Hw. field. done. }
  destruct H as [[? ->]|[? ->]], H' as [[? ->]|[? ->]]; done.
Qed.

(** ** The direct map *)

(** The argument of the inverse root. *)
Definition map_arg (r : F) : F := let r1 := 2 * (r * r) in let r2 := r1 + 1 in (A * A * r1 - r2 * r2) * A * (r2 * r2 * r2).

Lemma map_arg_nz r : map_arg r <> 0.
Proof.
  unfold map_arg. cbv zeta. pose proof (r2_nz r) as H2. pose proof A_nz as HA.
  assert (2 * (r * r) + 1 <> 0) as H2' by (intros E; apply H2; rewrite <- E; ring).
  apply mz; [apply mz; [|done]|by repeat apply mz].
  intros E. set (s := 2 * (r * r) + 1) in *. apply disc_nonsquare. exists ((2 * s - A * A) / A).
  transitivity ((- (2 * 2) * (A * A * (s - 1) - s * s) + A * A * (A * A) - 2 * 2 * (A * A)) / (A * A)); [field; done|].
  replace (s - 1) with (2 * (r * r)) by (subst s; ring). rewrite E. field. done.
Qed.

Lemma map_arg_steps r : let t := r * r + r * r in let u := t + 1 in
  (A * A * t - u * u) * A * (u * u * u) = map_arg r.
Proof. unfold map_arg. cbv zeta. ring. Qed.

(** The result of the code: [c] is 1 or [-2 i r^2]. *)
Definition map_u (r c isr : F) : F :=
  let r1 := 2 * (r * r) in let r2 := r1 + 1 in
  - (c * A * ((A * A * r1 - r2 * r2) * A) * (r2 * r2) * (isr * isr)).

Lemma map_u_steps r c isr : let t := r * r + r * r in let u := t + 1 in
  - (c * A * ((A * A * t - u * u) * A) * (u * u) * (isr * isr)) = map_u r c isr.
Proof. unfold map_u. cbv zeta. ring. Qed.

Lemma map_square r isr : map_arg r * (isr * isr) = 1 -> let u := map_u r 1 isr in maps r u /\ square (mont u).
Proof.
  intros H. cbv zeta. pose proof (r2_nz r) as H2. set (r2 := 2 * (r * r) + 1). assert (r2 <> 0) as H2' by (intros E; apply H2; rewrite <- E; subst r2; ring).
  assert (isr <> 0) as Hi by (intros ->; apply one_nz'; rewrite <- H; ring).
  assert (map_u r 1 isr = - A / r2) as ->.
  { transitivity (- A * (map_arg r * (isr * isr)) / r2); [|rewrite H; field; done]. unfold map_u, map_arg. cbv zeta. fold r2. field. done. }
  assert (mont (- A / r2) = map_arg r / (r2 * r2 * r2 * (r2 * r2 * r2))) as Em.
  { unfold mont, map_arg. cbv zeta. fold r2. replace (2 * (r * r)) with (r2 - 1) by (subst r2; ring). field. done. }
  assert (square (mont (- A / r2))) as Hs.
  { exists (1 / (isr * (r2 * r2 * r2))). rewrite Em. transitivity (map_arg r * (isr * isr) / (isr * isr * (r2 * r2 * r2 * (r2 * r2 * r2)))); [rewrite H|]; field; done. }
  split; [|done]. exists (- A / r2). split; [|by left]. replace (1 + 2 * (r * r)) with r2 by (subst r2; ring). field. done.
Qed.

Lemma map_nonsquare r isr : map_arg r * (isr * isr) = i -> let u := map_u r (r * r * - (2 * i)) isr in maps r u /\ square (mont u).
Proof.
  intros H. cbv zeta. pose proof (r2_nz r) as H2. set (r2 := 2 * (r * r) + 1). assert (r2 <> 0) as H2' by (intros E; apply H2; rewrite <- E; subst r2; ring).
  assert (isr <> 0) as Hi by (intros ->; apply i_nz'; rewrite <- H; ring).
  set (w := - A / r2).
  assert (map_u r (r * r * - (2 * i)) isr = - w - A) as ->.
  { transitivity (2 * i * (r * r) * A * (map_arg r * (isr * isr)) / r2); [unfold map_u, map_arg; cbv zeta; fold r2; field; done|].
    rewrite H. transitivity (i * i * (2 * (r * r)) * A / r2); [field; done|]. rewrite i_sq. subst w. replace (2 * (r * r)) with (r2 - 1) by (subst r2; ring). field. done. }
  assert (mont w = i / (isr * isr * (r2 * r2 * r2 * (r2 * r2 * r2)))) as Em.
  { transitivity (map_arg r / (r2 * r2 * r2 * (r2 * r2 * r2))).
    - unfold mont, map_arg, w. cbv zeta. fold r2. replace (2 * (r * r)) with (r2 - 1) by (subst r2; ring). field. done.
    - transitivity (map_arg r * (isr * isr) / (isr * isr * (r2 * r2 * r2 * (r2 * r2 * r2)))); [|rewrite H]; field; done. }
  split.
  - exists w. split; [unfold w; replace (1 + 2 * (r * r)) with r2 by (subst r2; ring); field; done|]. right. split; [|done].
    intros [y Hy]. apply i_nonsquare. exists (y * (isr * (r2 * r2 * r2))). transitivity (y * y * (isr * isr * (r2 * r2 * r2 * (r2 * r2 * r2)))); [ring|].
    rewrite Hy, Em. field. done.
  - exists (r * (1 + i) / (isr * (r2 * r2 * r2))).
    assert (mont (- w - A) = 2 * (r * r) * mont w) as ->.
    { unfold mont, w. replace (2 * (r * r)) with (r2 - 1) by (subst r2; ring). field. done. }
    rewrite Em. transitivity (r * r * (1 + 2 * i + i * i) / (isr * isr * (r2 * r2 * r2 * (r2 * r2 * r2)))); [field; done|]. rewrite i_sq. field. done.
Qed.

(** ** The inverse map *)

(** The argument of its root. *)
Definition rev_arg (u : F) : F := u * (u + A) * - (2).

Lemma rev_arg_nz u isr c : c <> 0 -> rev_arg u * (isr * isr) = c -> u <> 0 /\ u + A <> 0 /\ isr <> 0.
Proof.
  intros Hc H. split; [|split]; intros E; apply Hc; rewrite <- H; unfold rev_arg; rewrite E; ring.
Qed.

Lemma A_cancel a b : A * a = A * b -> a = b.
Proof. intros E. pose proof A_nz. transitivity (A * a / A); [field; done|]. rewrite E. field. done. Qed.

Lemma maps_rev u isr (v_negative : bool) : square (mont u) -> rev_arg u * (isr * isr) = 1 ->
  maps ((if v_negative then u + A else u) * isr) u.
Proof.
  intros [b Hb] H. destruct (rev_arg_nz u isr 1 one_nz' H) as (U0 & U1 & Hi).
  assert (2 * (isr * isr) * (u * (u + A)) = - (1)) as H2.
  { transitivity (- (rev_arg u * (isr * isr))); [unfold rev_arg; ring|by rewrite H]. }
  destruct v_negative.
  - exists u. split; [|left; split; [by exists b|done]].
    transitivity (u - (u + A) * - (2 * (isr * isr) * (u * (u + A)))); [ring|]. rewrite H2. ring.
  - exists (- (u + A)). split.
    + transitivity (- (u + A) - u * (2 * (isr * isr) * (u * (u + A)))); [ring|]. rewrite H2. ring.
    + right. split; [|ring]. intros [a Ha]. pose proof (cubic_factor u) as Hq. set (q := u * (u + A) + 1) in *.
      assert (mont (- (u + A)) = - (u + A) * q) as E by (unfold mont, q; ring). rewrite E in Ha. unfold mont in Hb. fold q in Hb.
      assert (- (u + A) <> 0) as U2 by (intros E0; apply U1; transitivity (- - (u + A)); [ring|rewrite E0; ring]).
      assert (a <> 0) as Na by (intros ->; apply (mz (- (u + A)) q); [done|done|rewrite <- Ha; ring]).
      assert (b <> 0) as Nb by (intros ->; apply (mz u q); [done|done|rewrite <- Hb; ring]).
      apply two_nonsquare. exists (q / (isr * (a * b))).
      transitivity (q * q / (isr * isr * (a * a) * (b * b))); [field; done|]. rewrite Ha, Hb.
      transitivity (- (1) / (isr * isr * (u * (u + A)))); [field; done|].
      transitivity (2 * (isr * isr) * (u * (u + A)) / (isr * isr * (u * (u + A)))); [by rewrite H2|field; done].
Qed.

Lemma maps_opp r u : maps r u -> maps (- r) u.
Proof. intros (w & Hw & H). exists w. split; [|done]. rewrite <- Hw. ring. Qed.

(** A point that a representative maps to has representatives. *)
Lemma maps_rev_arg r u isr : maps r u -> rev_arg u * (isr * isr) <> i.
Proof.
  intros (w & Hw & H) E. pose proof (r2_nz r) as H2. set (r2 := 1 + 2 * (r * r)) in *.
  assert (isr <> 0) as Hi by (intros ->; apply i_nz'; rewrite <- E; ring).
  assert (rev_arg u = rev_arg w) as Ew by (destruct H as [[_ ->]|[_ ->]]; [done|unfold rev_arg; ring]).
  apply i_nonsquare. exists (2 * A * r * isr / r2). rewrite <- E, Ew. unfold rev_arg.
  assert (w = - A / r2) as -> by (rewrite <- Hw; field; done).
  transitivity (A * (A * (r2 - 1)) * 2 * (isr * isr) / (r2 * r2)); [replace (r2 - 1) with (2 * (r * r)) by (subst r2; ring)|]; field; done.
Qed.

Lemma rev_arg_zero u : square (mont u) -> rev_arg u = 0 -> u = 0.
Proof.
  intros [b Hb] H. destruct (int (u * (u + A)) (- (2)) H) as [E|E].
  - destruct (int _ _ E) as [?|E']; [done|]. destruct A_nonsquare. exists b. rewrite Hb.
    assert (u = - A) as -> by (transitivity (u + A - A); [ring|]; rewrite E'; ring). unfold mont. ring.
  - destruct two_nz. transitivity (- - (2)); [ring|]. rewrite E. ring.
Qed.

Lemma rev_minus : rev_arg (- A) = 0 /\ mont (- A) = - A.
Proof. unfold rev_arg, mont. split; ring. Qed.

Lemma maps_zero_zero : maps 0 0.
Proof.
  exists (- A). split; [ring|]. right. split; [|ring]. intros [y Hy]. apply A_nonsquare. exists y. rewrite Hy. unfold mont. ring.
Qed.

(** ** Points of the Edwards curve have their u on the curve *)

Context (d s : F).
Hypothesis s_sq : s * s = 1 + d.
Hypothesis A_d : A * (1 + d) = 2 * (1 - d).
Hypothesis d_nz' : 1 + d <> 0.

Lemma mont_ucoord P : on_curve zero one mul sub d P -> square (mont (ucoord zero one add sub div eq_dec P)).
Proof.
  destruct P as [x y]. unfold on_curve, curve, ucoord. cbn [fst snd]. intros H.
  destruct (eq_dec y 1) as [Ey|Ey]; [exists 0; unfold mont; ring|].
  assert (1 - y <> 0) as Hy by (intros E; apply Ey; symmetry; by apply sz).
  assert (s <> 0) as Hs by (intros E; apply d_nz'; rewrite <- s_sq, E; ring).
  assert (x * x * (1 + d * (y * y)) = y * y - 1) as Hc by (apply sz; transitivity (- (y * y - x * x - 1 - d * x * x * y * y)); [ring|]; rewrite H; ring).
  destruct (eq_dec x 0) as [Ex|Ex].
  { exists 0. assert (1 + y = 0) as E; [|unfold mont; transitivity ((1 + y) * ((1 + y) / (1 - y) * ((1 + y) / (1 - y) + A) + 1) / (1 - y)); [rewrite E|]; field; done].
    destruct (int (1 + y) (1 - y)) as [?|?]; [|done|done]. transitivity (- (y * y - 1)); [ring|]. rewrite <- Hc, Ex. ring. }
  exists (2 * i * ((1 + y) / (1 - y)) / (s * x)).
  assert (1 + d * (y * y) = (y * y - 1) / (x * x)) as Hd by (rewrite <- Hc; field; done).
  assert (A = 2 * (1 - d) / (1 + d)) as EA by (rewrite <- A_d; field; done).
  transitivity (- (2 * 2) * ((1 + y) * (1 + y)) / ((1 + d) * (x * x) * ((1 - y) * (1 - y)))).
  - rewrite <- s_sq. transitivity (i * i * (2 * 2) * ((1 + y) * (1 + y)) / (s * s * (x * x) * ((1 - y) * (1 - y)))); [field; done|]. rewrite i_sq. field. done.
  - transitivity (2 * 2 * ((1 + y) / (1 - y)) * (1 + d * (y * y)) / ((1 + d) * ((1 - y) * (1 - y)))).
    + rewrite Hd. field. done.
    + unfold mont. rewrite EA. field. done.
Qed.
End elligator.
