(* ===== verification/Agreement.v ===== *)
(** * Diffie-Hellman agreement

    The function X25519 of RFC 7748, as [crypto_x25519] of library/crypto/monocypher.c
    computes it, multiplies points of the twisted Edwards curve by scalars, so two
    parties that exchange public keys derive the same secret.  The field is
    [Zmod p25519] of the Standard Library, the curve is that of Edwards.v with
    d = -121665/121666, and the base point has coordinate 9. *)

From Stdlib Require Import Zmod.
From S2P Require Import Prelude Prime25519 Field25519 Curve25519 Edwards.

Definition fp : Type := Zmod.Zmod p25519.
Definition e (x : Z) : fp := Zmod.of_Z p25519 x.

(** ** The field *)

Lemma e_mod x : e (x mod p25519) = e x.
Proof. apply Zmod.of_Z_mod. Qed.
Lemma e_add x y : e (x + y) = Zmod.add (e x) (e y).
Proof. apply Zmod.of_Z_add. Qed.
Lemma e_sub x y : e (x - y) = Zmod.sub (e x) (e y).
Proof. apply Zmod.of_Z_sub. Qed.
Lemma e_mul x y : e (x * y) = Zmod.mul (e x) (e y).
Proof. apply Zmod.of_Z_mul. Qed.
Lemma e_opp x : e (- x) = Zmod.opp (e x).
Proof. apply Zmod.of_Z_opp. Qed.
Lemma e_feq x y : e x = e y <-> feq x y.
Proof. rewrite feq_mod. apply Zmod.of_Z_inj. Qed.
Lemma e_surj (f : fp) : e (Zmod.to_Z f) = f.
Proof. apply Zmod.of_Z_to_Z. Qed.

Definition fp_eq_dec (x y : fp) : {x = y} + {x <> y}.
Proof. destruct (Zmod.eqb x y) eqn:E; [left|right]; destruct (Zmod.eqb_spec x y); congruence. Defined.

Definition fp_field := Zmod.field_theory p25519 prime_p25519.

(** ** The curve *)

Definition d25519 : Z := 37095705934669439343138083508754565189542113879843219016388785533085940283555.
Definition base_x : Z := 15112221349535400772501151409588531511454012693041857206046113283949847762202.
Definition base_y : Z := 46316835694926478169428394003475163141307993866256225615783033603165251855960.

(** [d25519] is the product of a nonresidue and a square, and this is the inverse of its root. *)
Definition d_root_inv : Z := 57548456911103920801121157281772144107442954158943260401662230646671734594221.

Ltac fp_compute := apply e_feq, feq_mod; vm_compute; reflexivity.

Lemma fp_two : Zmod.add Zmod.one Zmod.one <> Zmod.zero :> fp.
Proof. intros E. apply (e_feq (1 + 1) 0), feq_mod in E. vm_compute in E. discriminate. Qed.

Lemma fp_i : Zmod.mul (e sqrt_m1) (e sqrt_m1) = Zmod.opp Zmod.one.
Proof. rewrite <- e_mul. change (Zmod.opp Zmod.one) with (Zmod.opp (e 1)). rewrite <- e_opp. apply e_feq, sqrt_m1_sq. Qed.

Lemma fp_d (x : fp) : Zmod.mul x x <> e d25519.
Proof.
  intros E. rewrite <- (e_surj x), <- e_mul in E. apply e_feq in E. set (X := Zmod.to_Z x) in *.
  apply (sqrt_m1_nonresidue (X * d_root_inv)).
  replace (X * d_root_inv * (X * d_root_inv)) with (X * X * (d_root_inv * d_root_inv)) by ring.
  rewrite E. apply feq_mod. vm_compute. reflexivity.
Qed.

Lemma fp_a24 : Zmod.mul (e 121665) (Zmod.add Zmod.one (e d25519)) = Zmod.opp (e d25519).
Proof.
  change (Zmod.add Zmod.one (e d25519)) with (Zmod.add (e 1) (e d25519)).
  rewrite <- e_add, <- e_mul, <- e_opp. fp_compute.
Qed.

(** The group of Edwards.v over this field. *)
Definition point : Type := fp * fp.
Definition on_c (P : point) : Prop := on_curve Zmod.zero Zmod.one Zmod.mul Zmod.sub (e d25519) P.
Definition is_small (P : point) : Prop := small Zmod.one Zmod.mul P.
Definition times (n : nat) (P : point) : point :=
  smul Zmod.zero Zmod.one Zmod.add Zmod.mul Zmod.sub Zmod.mdiv (e d25519) n P.
Definition u_of (P : point) : fp := ucoord Zmod.zero Zmod.one Zmod.add Zmod.sub Zmod.mdiv fp_eq_dec P.
Definition ratio (X Z : Z) (P : point) : Prop :=
  rep_u Zmod.zero Zmod.one Zmod.add Zmod.mul Zmod.sub (e X) (e Z) P.
Definition base : point := (e base_x, e base_y).

Lemma base_on_curve : on_c base.
Proof.
  unfold on_c, on_curve, curve, base. cbn [fst snd]. change Zmod.one with (e 1). change Zmod.zero with (e 0).
  rewrite <- !e_mul, <- !e_sub. fp_compute.
Qed.

Lemma base_not_small : ~ is_small base.
Proof.
  unfold is_small, small, base. cbn [snd]. change Zmod.one with (e 1). rewrite <- e_mul, e_feq, feq_mod.
  vm_compute. discriminate.
Qed.

Lemma base_u : u_of base = e 9.
Proof.
  pose proof (ucoord_ratio _ _ _ _ _ _ _ _ fp_field fp_eq_dec base base_not_small) as E.
  fold (u_of base) in E. apply (Zmod.mul_cancel_r_prime (Zmod.sub Zmod.one base.2)).
  - apply prime_p25519.
  - unfold base. cbn [snd]. change Zmod.one with (e 1). change Zmod.zero with (e 0). rewrite <- e_sub, e_feq, feq_mod.
    vm_compute. discriminate.
  - etransitivity; [exact E|]. unfold base. cbn [snd]. change Zmod.one with (e 1). rewrite <- e_sub, <- e_add, <- e_mul. fp_compute.
Qed.

(** ** The ladder of RFC 7748 *)

Import RFC7748.

(** The two points of a state: [k] times and [k + 1] times the point. *)
Definition pair_at (P : point) (k : nat) (s : st) : Prop :=
  ratio (x_2 s) (z_2 s) (times k P) /\ ratio (x_3 s) (z_3 s) (times (S k) P).

Lemma step_values x_1 s :
  let X2 := e (x_2 s) in let Z2 := e (z_2 s) in let X3 := e (x_3 s) in let Z3 := e (z_3 s) in
  e (x_2 (step x_1 s)) = dbl_X Zmod.add Zmod.mul Zmod.sub X2 Z2 /\
  e (z_2 (step x_1 s)) = dbl_Z Zmod.add Zmod.mul Zmod.sub (e 121665) X2 Z2 /\
  e (x_3 (step x_1 s)) = dif_X Zmod.add Zmod.mul Zmod.sub X2 Z2 X3 Z3 /\
  e (z_3 (step x_1 s)) = dif_Z Zmod.add Zmod.mul Zmod.sub (e x_1) X2 Z2 X3 Z3.
Proof.
  destruct s as [a b c f]. cbn [x_2 z_2 x_3 z_3 step]. rewrite !e_mod. unfold dbl_X, dbl_Z, dif_X, dif_Z.
  rewrite !Z.pow_2_r. cbv zeta. by repeat (rewrite e_mul || rewrite e_add || rewrite e_sub).
Qed.

Lemma pair_step P x_1 k (b : bool) s : on_c P -> ~ is_small P -> e x_1 = u_of P -> pair_at P k s ->
  pair_at P (2 * k + Nat.b2n b) (cswap b (step x_1 (cswap b s))).
Proof.
  intros HP Hs Hx [H2 H3].
  pose proof (ucoord_ratio _ _ _ _ _ _ _ _ fp_field fp_eq_dec P Hs) as Hu. fold (u_of P) in Hu. rewrite <- Hx in Hu.
  unfold pair_at, ratio. destruct (step_values x_1 (cswap b s)) as (E1 & E2 & E3 & E4).
  destruct b; cbn [cswap x_2 z_2 x_3 z_3 Nat.b2n] in *; rewrite E1, E2, E3, E4.
  - apply and_comm. by apply (rep_step_1 _ _ _ _ _ _ _ _ fp_field fp_eq_dec _ _ fp_two fp_i fp_d _ fp_a24 P _ HP Hu Hs).
  - rewrite Nat.add_0_r. replace (S (2 * k)) with (2 * k + 1)%nat by lia.
    by apply (rep_step_0 _ _ _ _ _ _ _ _ fp_field fp_eq_dec _ _ fp_two fp_i fp_d _ fp_a24 P _ HP Hu Hs).
Qed.

Lemma cswap_xor a b s : cswap (xorb a b) s = cswap b (cswap a s).
Proof. by destruct a, b, s. Qed.

Lemma shift_bit k t : 0 <= k ->
  Z.to_nat (k / 2 ^ Z.of_nat t) =
  (2 * Z.to_nat (k / 2 ^ Z.of_nat (S t)) + Nat.b2n (Z.testbit k (Z.of_nat t)))%nat.
Proof.
  intros Hk. rewrite Z.testbit_eqb, Nat2Z.inj_succ, Z.pow_succ_r, Z.mul_comm, <- Z.div_div by lia.
  set (q := k / 2 ^ Z.of_nat t). assert (0 <= q) by (apply Z.div_pos; lia).
  destruct (q mod 2 =? 1) eqn:E; cbn [Nat.b2n]; zlia.
Qed.

Lemma loop_pair P x_1 k n sw s : 0 <= k -> on_c P -> ~ is_small P -> e x_1 = u_of P ->
  pair_at P (Z.to_nat (k / 2 ^ Z.of_nat n)) (cswap sw s) ->
  pair_at P (Z.to_nat k) (cswap (loop k x_1 n sw s).2 (loop k x_1 n sw s).1).
Proof.
  intros Hk HP Hs Hx. revert sw s. induction n as [|t IH]; intros sw s H.
  - change (2 ^ Z.of_nat 0) with 1 in H. by rewrite Z.div_1_r in H.
  - cbn [loop]. apply IH. rewrite shift_bit, cswap_xor by done. by apply pair_step.
Qed.

(** Multiplication by way of the coordinate. *)
Lemma mult_times_bits n P k u : 0 <= k < 2 ^ Z.of_nat n -> 0 <= u < 2 ^ 255 -> on_c P -> ~ is_small P -> e u = u_of P ->
  e (mult k u n) = u_of (times (Z.to_nat k) P).
Proof.
  intros Hk Hu HP Hs Hx. unfold mult. rewrite (Z.mod_small u) by done.
  pose proof (loop_pair P u k n false (mkSt 1 0 u 1) (proj1 Hk) HP Hs Hx) as H.
  destruct (loop k u n false _) as [s sw]. cbn [fst snd cswap] in H. rewrite e_mod, e_mul.
  eapply (rep_result _ _ _ _ _ _ _ _ fp_field fp_eq_dec).
  - apply H. rewrite Z.div_small by done. unfold pair_at, ratio. cbn [x_2 z_2 x_3 z_3].
    rewrite Hx. apply (rep_start _ _ _ _ _ _ _ _ fp_field fp_eq_dec _ fp_two P Hs).
  - intros E. change Zmod.zero with (e 0) in *. apply e_feq in E. apply e_feq. rewrite E, Z.pow_0_l by done. reflexivity.
  - intros E. change Zmod.zero with (e 0) in *. change Zmod.one with (e 1). rewrite e_feq in E. rewrite <- e_mul. apply e_feq.
    rewrite <- Z.pow_succ_r by done. replace (Z.succ (p25519 - 2)) with (p25519 - 1) by lia. by apply field_fermat.
Qed.

Lemma mult_times P k u : 0 <= k < 2 ^ 255 -> 0 <= u < 2 ^ 255 -> on_c P -> ~ is_small P -> e u = u_of P ->
  e (mult k u 255) = u_of (times (Z.to_nat k) P).
Proof. exact (mult_times_bits 255 P k u). Qed.

(** The coordinate 0 gives 0. *)
Definition degenerate (s : st) : Prop := feq (x_2 s * z_2 s) 0 /\ feq (x_3 s * z_3 s) 0.

Lemma degenerate_swap b s : degenerate s -> degenerate (cswap b s).
Proof. destruct b; [|done]. by intros [? ?]. Qed.

Lemma degenerate_step s : degenerate s -> degenerate (step 0 s).
Proof.
  destruct s as [a b c f]. intros [H _]. unfold degenerate. cbn [x_2 z_2 x_3 z_3 step] in *.
  split; rewrite !mod_eqmod; [|by rewrite Z.mul_0_l, Z.mul_0_r].
  replace ((a + b) ^ 2 - (a - b) ^ 2) with (4 * (a * b)) by ring. rewrite H.
  match goal with |- eqmod _ ?x _ => by replace x with 0 by ring end.
Qed.

Lemma degenerate_loop k n sw s : degenerate s -> degenerate (loop k 0 n sw s).1.
Proof.
  revert sw s. induction n as [|t IH]; intros sw s H; [done|]. cbn [loop]. by apply IH, degenerate_step, degenerate_swap.
Qed.

Lemma mult_zero n k : e (mult k 0 n) = e 0.
Proof.
  unfold mult. change (0 mod 2 ^ 255) with 0.
  assert (degenerate (mkSt 1 0 0 1)) as H0 by (split; reflexivity).
  pose proof (degenerate_loop k n false _ H0) as H. destruct (loop k 0 n false _) as [s sw]. cbn [fst] in H.
  apply (degenerate_swap sw) in H. destruct H as [H _]. rewrite e_mod. apply e_feq.
  replace (p25519 - 2) with (Z.succ (p25519 - 3)) by lia. rewrite Z.pow_succ_r, Z.mul_assoc by done.
  by rewrite H, Z.mul_0_l.
Qed.

(** ** Agreement *)

Lemma mult_range k u n : 0 <= mult k u n < p25519.
Proof. unfold mult. destruct (loop _ _ _ _ _) as [s sw]. by apply Z.mod_pos_bound. Qed.

Definition mult_fp (n : nat) (u : fp) : fp := e (mult (Z.of_nat n) (Zmod.to_Z u) 255).

Lemma to_Z_range (u : fp) : 0 <= Zmod.to_Z u < p25519.
Proof. pose proof (Zmod.to_Z_range u) as H. unfold p25519 in *. lia. Qed.

Lemma mult_fp_e n u : 0 <= u < p25519 -> mult_fp n (e u) = e (mult (Z.of_nat n) u 255).
Proof. intros Hu. unfold mult_fp, e at 2. by rewrite Zmod.to_Z_of_Z, Z.mod_small. Qed.

Lemma mult_agree a b : 0 <= a < 2 ^ 255 -> 0 <= b < 2 ^ 255 ->
  mult a (mult b 9 255) 255 = mult b (mult a 9 255) 255.
Proof.
  intros Ha Hb.
  assert (forall k, 0 <= k < 2 ^ 255 -> u_of (times (Z.to_nat k) base) = e (mult k 9 255)) as Hbase.
  { intros k Hk. symmetry. apply mult_times; [done|done|apply base_on_curve|apply base_not_small|by rewrite base_u]. }
  assert (mult_fp (Z.to_nat a) (u_of (times (Z.to_nat b) base)) = mult_fp (Z.to_nat b) (u_of (times (Z.to_nat a) base))) as E.
  { apply (ucoord_agree _ _ _ _ _ _ _ _ fp_field fp_eq_dec _ _ fp_two fp_i fp_d mult_fp (fun n => Z.of_nat n < 2 ^ 255));
      [| |apply base_on_curve|lia..].
    - intros n P Hn HP Hs. cbv beta in Hn. unfold mult_fp. pose proof (to_Z_range (u_of P)) as Hr. rewrite <- (Nat2Z.id n) at 2.
      apply mult_times; [lia|split; [apply Hr|by eapply Z.lt_trans; [apply Hr|]]|done|done|apply e_surj].
    - intros n _. change Zmod.zero with (e 0). rewrite mult_fp_e by done. apply mult_zero. }
  rewrite !Hbase, !mult_fp_e, !Z2Nat.id in E by (assumption || apply mult_range || apply Ha || apply Hb).
  apply e_feq, feq_mod in E. pose proof (mult_range a (mult b 9 255) 255). pose proof (mult_range b (mult a 9 255) 255).
  by rewrite !Z.mod_small in E.
Qed.

Lemma clamp_range k : 0 <= clamp k < 2 ^ 255.
Proof. unfold clamp. zlia. Qed.

Lemma le_val_x25519 k u : le_val (le_bytes 32 (x25519 k u)) = x25519 k u.
Proof.
  rewrite le_val_le_bytes. apply Z.mod_small. pose proof (mult_range (clamp k) u 255) as H.
  unfold x25519, p25519 in *. change (256 ^ Z.of_nat 32) with (2 ^ 256). lia.
Qed.

Lemma secrets_agree a b :
  is_bytes a -> length a = 32%nat -> is_bytes b -> length b = 32%nat ->
  crypto_x25519 a (crypto_x25519 b base_point) = crypto_x25519 b (crypto_x25519 a base_point).
Proof.
  intros Ha La Hb Lb.
  assert (is_bytes base_point) as Hp by (apply (bool_decide_unpack _); vm_compute; exact I).
  rewrite (crypto_x25519_sound a base_point Ha La Hp eq_refl), (crypto_x25519_sound b base_point Hb Lb Hp eq_refl).
  rewrite (crypto_x25519_sound a) by (assumption || apply is_bytes_le_bytes || apply length_le_bytes).
  rewrite (crypto_x25519_sound b) by (assumption || apply is_bytes_le_bytes || apply length_le_bytes).
  rewrite !le_val_x25519. f_equal. apply mult_agree; apply clamp_range.
Qed.

(** C17. Diffie-Hellman agreement of [crypto_x25519]: whatever the two 32-byte secrets,
    each party's secret applied to the public key that [crypto_x25519_public_key] gives
    the other party yields the same 32 bytes.  This is a theorem about the ladder as it is
    written: it computes multiplication by the clamped secret in the group of the
    twisted Edwards curve, also on the points whose coordinate is 0. *)
Theorem crypto_x25519_agreement a b :
  is_bytes a -> length a = 32%nat -> is_bytes b -> length b = 32%nat ->
  crypto_x25519 a (crypto_x25519_public_key b) = crypto_x25519 b (crypto_x25519_public_key a).
Proof. unfold crypto_x25519_public_key. apply secrets_agree. Qed.

(** Two concrete secrets. *)
Lemma crypto_x25519_agreement_witness :
  crypto_x25519 (replicate 32 7) (crypto_x25519_public_key (replicate 32 5)) =
  crypto_x25519 (replicate 32 5) (crypto_x25519_public_key (replicate 32 7)).
Proof.
  apply (crypto_x25519_agreement (replicate 32 7) (replicate 32 5)); try reflexivity;
    apply (bool_decide_unpack _); vm_compute; exact I.
Defined.
