(* ===== verification/Ge.v ===== *)
(** * Group elements (library/crypto/monocypher.c)

    Points of the Edwards curve in extended coordinates: the operations [ge_*] on limbs and
    the points they stand for.  The functions return their result; where the code passes the
    same object as operand and result, it reads each field before it writes it. *)

From Stdlib Require Import Zmod.
From S2P Require Import Prelude Monocypher Prime25519 Field25519 Curve25519 Edwards Extended Agreement.

(** ** The code *)

Definition fe_d : list Z :=
  [-10913610; 13857413; -15372611; 6949391; 114729; -8787816; -6275908; -3247719; -18696448; -12055116].
Definition D2 : list Z :=
  [-21827239; -5839606; -30745221; 13898782; 229458; 15978800; -12551817; -6495438; 29715968; 9444199].

Record ge := mkGe { ge_X : list Z; ge_Y : list Z; ge_Z : list Z; ge_T : list Z }.
Record ge_cached := mkCached { c_Yp : list Z; c_Ym : list Z; c_Z : list Z; c_T2 : list Z }.
Record ge_precomp := mkPrecomp { p_Yp : list Z; p_Ym : list Z; p_T2 : list Z }.

Definition ge_zero : ge := mkGe fe_0 fe_1 fe_1 fe_0.

Definition ge_tobytes (h : ge) : list Z :=
  let recip := fe_invert (ge_Z h) in
  let x := fe_mul (ge_X h) recip in
  let y := fe_mul (ge_Y h) recip in
  let s := fe_tobytes y in
  wr s 31 (Z.lxor (rd s 31) (u8 (Z.shiftl (fe_isodd x) 7))).

(** The result with the return value 0, or [None] for -1. *)
Definition ge_frombytes_neg_vartime (s : list Z) : option ge :=
  let Y := fe_frombytes s in
  let Z := fe_1 in
  let T := fe_sq Y in
  let X := fe_mul T fe_d in
  let T := fe_sub T Z in
  let X := fe_add X Z in
  let X := fe_mul T X in
  let '(X, is_square) := invsqrt X in
  if is_square =? 0 then None
  else
    let X := fe_mul T X in
    let X := if fe_isodd X =? Z.shiftr (rd s 31) 7 then fe_neg X else X in
    let T := fe_mul X Y in
    Some (mkGe X Y Z T).

Definition ge_cache (p : ge) : ge_cached :=
  mkCached (fe_add (ge_Y p) (ge_X p)) (fe_sub (ge_Y p) (ge_X p)) (fe_copy (ge_Z p)) (fe_mul (ge_T p) D2).

Definition ge_add (p : ge) (q : ge_cached) : ge :=
  let a := fe_add (ge_Y p) (ge_X p) in
  let b := fe_sub (ge_Y p) (ge_X p) in
  let a := fe_mul a (c_Yp q) in
  let b := fe_mul b (c_Ym q) in
  let Y := fe_add a b in
  let X := fe_sub a b in
  let Z := fe_add (ge_Z p) (ge_Z p) in
  let Z := fe_mul Z (c_Z q) in
  let T := fe_mul (ge_T p) (c_T2 q) in
  let a := fe_add Z T in
  let b := fe_sub Z T in
  let T := fe_mul X Y in
  let X := fe_mul X b in
  let Y := fe_mul Y a in
  let Z := fe_mul a b in
  mkGe X Y Z T.

Definition ge_sub (p : ge) (q : ge_cached) : ge :=
  let neg := mkCached (fe_copy (c_Ym q)) (fe_copy (c_Yp q)) (fe_copy (c_Z q)) (fe_neg (c_T2 q)) in
  ge_add p neg.

Definition ge_madd (p : ge) (q : ge_precomp) : ge :=
  let a := fe_add (ge_Y p) (ge_X p) in
  let b := fe_sub (ge_Y p) (ge_X p) in
  let a := fe_mul a (p_Yp q) in
  let b := fe_mul b (p_Ym q) in
  let Y := fe_add a b in
  let X := fe_sub a b in
  let Z := fe_add (ge_Z p) (ge_Z p) in
  let T := fe_mul (ge_T p) (p_T2 q) in
  let a := fe_add Z T in
  let b := fe_sub Z T in
  let T := fe_mul X Y in
  let X := fe_mul X b in
  let Y := fe_mul Y a in
  let Z := fe_mul a b in
  mkGe X Y Z T.

Definition ge_msub (p : ge) (q : ge_precomp) : ge :=
  let neg := mkPrecomp (fe_copy (p_Ym q)) (fe_copy (p_Yp q)) (fe_neg (p_T2 q)) in
  ge_madd p neg.

Definition ge_double (p : ge) : ge :=
  let qX := fe_sq (ge_X p) in
  let qY := fe_sq (ge_Y p) in
  let qZ := fe_sq (ge_Z p) in
  let qZ := fe_mul_small qZ 2 in
  let qT := fe_add (ge_X p) (ge_Y p) in
  let sT := fe_sq qT in
  let qT := fe_add qY qX in
  let qY := fe_sub qY qX in
  let qX := fe_sub sT qT in
  let qZ := fe_sub qZ qY in
  mkGe (fe_mul qX qZ) (fe_mul qT qY) (fe_mul qY qZ) (fe_mul qX qT).

(** ** Field elements of the code and of the field

    [frep f v]: the limbs [f] are tight and stand for [v]; [frep2] and [frepl] allow limbs
    twice and three times as large, as sums produce them. *)

Abbreviation twice := (within (alt 73819750 36909874)).
Definition frep (f : list Z) (v : fp) : Prop := tight f /\ e (fe_val f) = v.
Definition frep2 (f : list Z) (v : fp) : Prop := twice f /\ e (fe_val f) = v.
Definition frepl (f : list Z) (v : fp) : Prop := loose f /\ e (fe_val f) = v.

Lemma fe_add_bound a b a' b' e' f' f g :
  within (alt a b) f -> within (alt a' b') g -> a + a' <= e' < 2147483648 -> b + b' <= f' < 2147483648 ->
  (within (alt e' f') (fe_add f g) /\ fe_val (fe_add f g) = fe_val f + fe_val g) /\
  (within (alt e' f') (fe_sub f g) /\ fe_val (fe_sub f g) = fe_val f - fe_val g).
Proof.
  intros Hf Hg Ha Hb. limbs Hf. limbs Hg. unfold fe_add, fe_sub. cbn [zip_with]. rewrite !i32_small by lia.
  split; (split; [within_limbs|]); unfold fe_val, fe_weights; cbn [lval]; ring.
Qed.

Lemma frep_2 f v : frep f v -> frep2 f v.
Proof. intros [H E]. split; [|done]. revert H. apply within_mono. apply (bool_decide_unpack _). vm_compute. exact I. Qed.
Lemma frep2_l f v : frep2 f v -> frepl f v.
Proof. intros [H E]. split; [|done]. revert H. apply within_mono. apply (bool_decide_unpack _). vm_compute. exact I. Qed.
Lemma frep_l f v : frep f v -> frepl f v.
Proof. intros H. by apply frep2_l, frep_2. Qed.

Lemma frep_add f g a b : frep f a -> frep g b -> frep2 (fe_add f g) (Zmod.add a b).
Proof.
  intros [Hf <-] [Hg <-]. destruct (fe_add_bound _ _ _ _ 73819750 36909874 f g Hf Hg) as [[H E] _]; [lia..|].
  split; [done|]. by rewrite E, e_add.
Qed.
Lemma frep_sub f g a b : frep f a -> frep g b -> frep2 (fe_sub f g) (Zmod.sub a b).
Proof.
  intros [Hf <-] [Hg <-]. destruct (fe_add_bound _ _ _ _ 73819750 36909874 f g Hf Hg) as [_ [H E]]; [lia..|].
  split; [done|]. by rewrite E, e_sub.
Qed.
Lemma frep_add21 f g a b : frep2 f a -> frep g b -> frepl (fe_add f g) (Zmod.add a b).
Proof.
  intros [Hf <-] [Hg <-]. destruct (fe_add_bound _ _ _ _ 110729625 55364812 f g Hf Hg) as [[H E] _]; [lia..|].
  split; [done|]. by rewrite E, e_add.
Qed.
Lemma frep_sub21 f g a b : frep2 f a -> frep g b -> frepl (fe_sub f g) (Zmod.sub a b).
Proof.
  intros [Hf <-] [Hg <-]. destruct (fe_add_bound _ _ _ _ 110729625 55364812 f g Hf Hg) as [_ [H E]]; [lia..|].
  split; [done|]. by rewrite E, e_sub.
Qed.
Lemma frep_sub12 f g a b : frep f a -> frep2 g b -> frepl (fe_sub f g) (Zmod.sub a b).
Proof.
  intros [Hf <-] [Hg <-]. destruct (fe_add_bound _ _ _ _ 110729625 55364812 f g Hf Hg) as [_ [H E]]; [lia..|].
  split; [done|]. by rewrite E, e_sub.
Qed.
Lemma frep_mul f g a b : frepl f a -> frepl g b -> frep (fe_mul f g) (Zmod.mul a b).
Proof.
  intros [Hf <-] [Hg <-]. destruct (fe_mul_sound f g Hf Hg) as [H E]. split; [done|]. by rewrite (proj2 (e_feq _ _) E), e_mul.
Qed.
Lemma frep_sq f a : frepl f a -> frep (fe_sq f) (Zmod.mul a a).
Proof.
  intros [Hf <-]. destruct (fe_sq_sound f Hf) as [H E]. split; [done|]. by rewrite (proj2 (e_feq _ _) E), e_mul.
Qed.
Lemma frep_double f a : frepl f a -> frep (fe_mul_small f 2) (Zmod.mul a (Zmod.add Zmod.one Zmod.one)).
Proof.
  intros [Hf <-]. destruct (fe_mul_small_sound f 2 Hf) as [H E]; [lia|]. split; [done|].
  rewrite (proj2 (e_feq _ _) E), e_mul. reflexivity.
Qed.
Lemma frep_neg f a : frep f a -> frep (fe_neg f) (Zmod.opp a).
Proof. intros [Hf <-]. destruct (fe_neg_sound f Hf) as [H E]. split; [done|]. by rewrite E, e_opp. Qed.
Lemma frep_val f a b : frep f a -> a = b -> frep f b.
Proof. by intros H <-. Qed.
Lemma frep_0 : frep fe_0 Zmod.zero. Proof. split; [apply tight_fe_0|reflexivity]. Qed.
Lemma frep_1 : frep fe_1 Zmod.one. Proof. split; [apply tight_fe_1|reflexivity]. Qed.

#[export] Hint Resolve frep_0 frep_1 : wg_field.

(** Follows the expression; sums of sums are loose. *)
Ltac frep_solve :=
  lazymatch goal with
  | |- frep (fe_mul _ _) _ => eapply frep_mul; frep_solve
  | |- frep (fe_sq _) _ => eapply frep_sq; frep_solve
  | |- frep (fe_mul_small _ 2) _ => eapply frep_double; frep_solve
  | |- frep (fe_neg _) _ => eapply frep_neg; frep_solve
  | |- frep2 (fe_add _ _) _ => eapply frep_add; frep_solve
  | |- frep2 (fe_sub _ _) _ => eapply frep_sub; frep_solve
  | |- frepl (fe_add (fe_add _ _) _) _ => eapply frep_add21; frep_solve
  | |- frepl (fe_sub (fe_add _ _) _) _ => eapply frep_sub21; frep_solve
  | |- frepl (fe_sub _ (fe_add _ _)) _ => eapply frep_sub12; frep_solve
  | |- frepl (fe_sub _ (fe_sub _ _)) _ => eapply frep_sub12; frep_solve
  | |- frepl (fe_add _ _) _ => eapply frep2_l; frep_solve
  | |- frepl (fe_sub _ _) _ => eapply frep2_l; frep_solve
  | |- frepl _ _ => first [eapply frep2_l; eassumption|eapply frep_l; frep_solve]
  | |- _ => solve [eauto with wg_field]
  end.

(** ** Points *)

Definition ext25519 (X Y Z T : fp) (P : point) : Prop := ext Zmod.zero Zmod.mul X Y Z T P.
Definition cached25519 (Yp Ym Z T2 : fp) (P : point) : Prop :=
  cached Zmod.zero Zmod.one Zmod.add Zmod.mul Zmod.sub (e d25519) Yp Ym Z T2 P.
Definition p_add (P Q : point) : point := padd Zmod.one Zmod.add Zmod.mul Zmod.sub Zmod.mdiv (e d25519) P Q.
Definition p_opp (P : point) : point := pneg Zmod.opp P.
Definition p_zero : point := pzero Zmod.zero Zmod.one.

Record ge_rep (g : ge) (P : point) : Prop := {
  rep_on : on_c P;
  rep_coords : exists X Y Z T, frep (ge_X g) X /\ frep (ge_Y g) Y /\ frep (ge_Z g) Z /\ frep (ge_T g) T /\ ext25519 X Y Z T P
}.
Record cached_rep (c : ge_cached) (P : point) : Prop := {
  crep_on : on_c P;
  crep_coords : exists Yp Ym Z T2, frep2 (c_Yp c) Yp /\ frep2 (c_Ym c) Ym /\ frep (c_Z c) Z /\ frep (c_T2 c) T2 /\
    cached25519 Yp Ym Z T2 P
}.
Record precomp_rep (c : ge_precomp) (P : point) : Prop := {
  prep_on : on_c P;
  prep_coords : exists Yp Ym T2, frep2 (p_Yp c) Yp /\ frep2 (p_Ym c) Ym /\ frep (p_T2 c) T2 /\
    cached25519 Yp Ym Zmod.one T2 P
}.

Lemma on_c_add P Q : on_c P -> on_c Q -> on_c (p_add P Q).
Proof. apply (on_curve_add _ _ _ _ _ _ _ _ fp_field fp_eq_dec _ _ fp_two fp_i fp_d). Qed.
Lemma on_c_opp P : on_c P -> on_c (p_opp P).
Proof. apply (on_curve_neg _ _ _ _ _ _ _ _ fp_field). Qed.
Lemma on_c_zero : on_c p_zero.
Proof. apply (on_curve_zero _ _ _ _ _ _ _ _ fp_field). Qed.

Lemma D2_frep : frep D2 (Zmod.mul (Zmod.add Zmod.one Zmod.one) (e d25519)).
Proof.
  split; [closed_tight|]. change (Zmod.add Zmod.one Zmod.one) with (e (1 + 1)). rewrite <- e_mul. fp_compute.
Qed.
Lemma fe_d_frep : frep fe_d (e d25519).
Proof. split; [closed_tight|]. fp_compute. Qed.
#[export] Hint Resolve D2_frep fe_d_frep : wg_field.

#[local] Opaque fe_mul fe_sq fe_mul_small fe_add fe_sub fe_neg.

Lemma ge_zero_rep : ge_rep ge_zero p_zero.
Proof.
  split; [apply on_c_zero|]. exists Zmod.zero, Zmod.one, Zmod.one, Zmod.zero.
  do 4 (split; [auto with wg_field|]). apply (ext_zero _ _ _ _ _ _ _ _ fp_field fp_two).
Qed.

Lemma ge_cache_rep p P : ge_rep p P -> cached_rep (ge_cache p) P.
Proof.
  intros [HP (X & Y & Z & T & HX & HY & HZ & HT & HE)]. split; [done|]. unfold ge_cache, fe_copy. cbn [c_Yp c_Ym c_Z c_T2].
  do 4 eexists. split; [frep_solve|]. split; [frep_solve|]. split; [exact HZ|]. split; [frep_solve|].
  apply (ext_cached _ _ _ _ _ _ _ _ fp_field). exact HE.
Qed.

Lemma ge_add_rep p P q Q : ge_rep p P -> cached_rep q Q -> ge_rep (ge_add p q) (p_add P Q).
Proof.
  intros [HP (X & Y & Z & T & HX & HY & HZ & HT & HE)] [HQ (Yp & Ym & Z2 & T2 & HYp & HYm & HZ2 & HT2 & HC)].
  split; [by apply on_c_add|]. unfold ge_add. cbv zeta. cbn [ge_X ge_Y ge_Z ge_T].
  do 4 eexists. do 4 (split; [frep_solve|]).
  exact (ext_add _ _ _ _ _ _ _ _ fp_field fp_eq_dec _ _ fp_two fp_i fp_d _ _ _ _ _ _ _ _ _ _ HP HQ HE HC).
Qed.

Lemma ge_madd_rep p P q Q : ge_rep p P -> precomp_rep q Q -> ge_rep (ge_madd p q) (p_add P Q).
Proof.
  intros [HP (X & Y & Z & T & HX & HY & HZ & HT & HE)] [HQ (Yp & Ym & T2 & HYp & HYm & HT2 & HC)].
  split; [by apply on_c_add|]. unfold ge_madd. cbv zeta. cbn [ge_X ge_Y ge_Z ge_T].
  do 4 eexists. do 4 (split; [frep_solve|]).
  exact (ext_madd _ _ _ _ _ _ _ _ fp_field fp_eq_dec _ _ fp_two fp_i fp_d _ _ _ _ _ _ _ _ _ HP HQ HE HC).
Qed.

Lemma ge_double_rep p P : ge_rep p P -> ge_rep (ge_double p) (p_add P P).
Proof.
  intros [HP (X & Y & Z & T & HX & HY & HZ & HT & HE)].
  split; [by apply on_c_add|]. unfold ge_double. cbv zeta. cbn [ge_X ge_Y ge_Z ge_T].
  do 4 eexists. do 4 (split; [frep_solve|]).
  exact (ext_double _ _ _ _ _ _ _ _ fp_field fp_eq_dec _ _ fp_two fp_i fp_d _ _ _ _ _ HP HE).
Qed.

Lemma cached_opp c P : cached_rep c P ->
  cached_rep (mkCached (c_Ym c) (c_Yp c) (c_Z c) (fe_neg (c_T2 c))) (p_opp P).
Proof.
  intros [HP (Yp & Ym & Z2 & T2 & HYp & HYm & HZ2 & HT2 & HC)]. split; [by apply on_c_opp|]. cbn [c_Yp c_Ym c_Z c_T2].
  do 4 eexists. do 3 (split; [eassumption|]). split; [frep_solve|].
  apply (cached_neg _ _ _ _ _ _ _ _ fp_field). exact HC.
Qed.

Lemma precomp_opp c P : precomp_rep c P -> precomp_rep (mkPrecomp (p_Ym c) (p_Yp c) (fe_neg (p_T2 c))) (p_opp P).
Proof.
  intros [HP (Yp & Ym & T2 & HYp & HYm & HT2 & HC)]. split; [by apply on_c_opp|]. cbn [p_Yp p_Ym p_T2].
  do 3 eexists. do 2 (split; [eassumption|]). split; [frep_solve|].
  apply (cached_neg _ _ _ _ _ _ _ _ fp_field). exact HC.
Qed.

Lemma ge_sub_rep p P q Q : ge_rep p P -> cached_rep q Q -> ge_rep (ge_sub p q) (p_add P (p_opp Q)).
Proof. intros Hp Hq. apply ge_add_rep; [done|]. by apply cached_opp. Qed.

Lemma ge_msub_rep p P q Q : ge_rep p P -> precomp_rep q Q -> ge_rep (ge_msub p q) (p_add P (p_opp Q)).
Proof. intros Hp Hq. apply ge_madd_rep; [done|]. by apply precomp_opp. Qed.

(** ** Encodings *)

Definition parity (v : fp) : Z := Zmod.to_Z v mod 2.
(** The 32 bytes of RFC 8032: y, and the parity of x as the highest bit. *)
Definition encode (P : point) : list Z := le_bytes 32 (Zmod.to_Z P.2 + 2 ^ 255 * parity P.1).
(** The point that 32 bytes stand for, if there is one; y may be out of range. *)
Definition decodes (s : list Z) (P : point) : Prop :=
  on_c P /\ P.2 = e (le_val s mod 2 ^ 255) /\ (P.1 = Zmod.zero \/ parity P.1 = le_val s / 2 ^ 255).

Lemma e_range (v : fp) : 0 <= Zmod.to_Z v < 2 ^ 255.
Proof. pose proof (to_Z_range v) as H. assert (p25519 = 2 ^ 255 - 19) as E by reflexivity. lia. Qed.

Lemma to_Z_e x : Zmod.to_Z (e x) = x mod p25519.
Proof. unfold e. apply Zmod.to_Z_of_Z. Qed.

Lemma to_Z_zero (v : fp) : Zmod.to_Z v = 0 <-> v = Zmod.zero.
Proof. split; [|by intros ->]. intros H. rewrite <- (e_surj v), H. reflexivity. Qed.

Lemma parity_opp v : v <> Zmod.zero -> parity (Zmod.opp v) = 1 - parity v.
Proof.
  intros Hv. unfold parity. pose proof (to_Z_range v) as Hr. assert (Zmod.to_Z v <> 0) as H0 by (by rewrite to_Z_zero).
  rewrite <- (e_surj v) at 1. rewrite <- e_opp, to_Z_e. set (x := Zmod.to_Z v) in *. clearbody x. clear Hv.
  rewrite Z.mod_opp_l_nz by (done || by rewrite Z.mod_small). rewrite (Z.mod_small x) by done. unfold p25519 in *. zlia.
Qed.
Lemma parity_range v : 0 <= parity v <= 1.
Proof. unfold parity. zlia. Qed.

Lemma frep_tobytes f v : frep f v -> fe_tobytes f = le_bytes 32 (Zmod.to_Z v).
Proof. intros [Hf <-]. by rewrite to_Z_e, fe_tobytes_sound. Qed.

Lemma frep_isodd f v : frep f v -> fe_isodd f = parity v.
Proof.
  intros Hf. unfold fe_isodd, parity. rewrite (frep_tobytes f v Hf). change (rd (le_bytes 32 ?x) 0) with (x mod 256).
  change 1 with (Z.ones 1). rewrite Z.land_ones by lia. change (2 ^ 1) with 2. zlia.
Qed.

Lemma set_sign y b : 0 <= y < 2 ^ 255 -> 0 <= b <= 1 ->
  wr (le_bytes 32 y) 31 (Z.lxor (rd (le_bytes 32 y) 31) (u8 (Z.shiftl b 7))) = le_bytes 32 (y + 2 ^ 255 * b).
Proof.
  intros Hy Hb. pose proof (length_le_bytes 32 y) as Hl.
  assert (rd (le_bytes 32 y) 31 = y / 256 ^ 31) as Hr.
  { change (rd (le_bytes 32 y) 31) with ((Nat.iter 31 (fun z => z / 256) y) mod 256). cbn [Nat.iter nat_rect]. zlia. }
  assert (Z.lxor (y / 256 ^ 31) (u8 (Z.shiftl b 7)) = y / 256 ^ 31 + 128 * b) as Hx.
  { assert (b = 0 \/ b = 1) as [-> | ->] by lia; [change (u8 (Z.shiftl 0 7)) with 0; rewrite Z.lxor_0_r; lia|].
    change (u8 (Z.shiftl 1 7)) with (2 ^ 7). change (128 * 1) with (2 ^ 7). rewrite Z.add_nocarry_lxor; [done|]. apply Z.bits_inj'. intros n Hn.
    rewrite Z.land_spec, Z.bits_0, Z.pow2_bits_eqb by lia. destruct (Z.eqb_spec 7 n) as [<-|]; [|by rewrite andb_false_r].
    rewrite andb_true_r, Z.testbit_eqb by lia. apply Z.eqb_neq. zlia. }
  set (s := wr _ _ _). assert (is_bytes s) as Hs.
  { unfold s. rewrite Hr, Hx. apply Forall_wr; [apply is_bytes_le_bytes|]. unfold is_u8. zlia. }
  rewrite <- (le_bytes_le_val s Hs). unfold s at 1. rewrite length_wr, Hl. f_equal. unfold s.
  rewrite le_val_wr by (rewrite Hl; lia). rewrite Hr, Hx, le_val_le_bytes. change (256 ^ Z.of_nat 32) with (2 ^ 256).
  rewrite Z.mod_small by lia. lia.
Qed.

#[local] Opaque fe_invert invsqrt fe_isodd fe_tobytes fe_frombytes.

Lemma feq_zero x : feq x 0 <-> e x = Zmod.zero.
Proof. change Zmod.zero with (e 0). by rewrite e_feq. Qed.

Lemma frepl_invert f v : frepl f v -> exists w, frep (fe_invert f) w /\ (v <> Zmod.zero -> Zmod.mul v w = Zmod.one) /\ (v = Zmod.zero -> w = Zmod.zero).
Proof.
  intros [Hf <-]. destruct (fe_invert_bound f Hf) as [Ht Hv]. exists (e (fe_val (fe_invert f))). split; [done|].
  rewrite (proj2 (e_feq _ _) Hv). split.
  - intros Hn. rewrite <- e_mul, <- Z.pow_succ_r by (vm_compute; discriminate). change Zmod.one with (e 1). apply e_feq.
    replace (Z.succ (p25519 - 2)) with (p25519 - 1) by lia. apply field_fermat. by rewrite feq_zero.
  - rewrite <- !feq_zero. intros ->. by rewrite Z.pow_0_l.
Qed.

Lemma ge_tobytes_rep g P : ge_rep g P -> ge_tobytes g = encode P.
Proof.
  intros [HP (X & Y & Z & T & HX & HY & HZ & HT & HE)]. unfold ge_tobytes, encode.
  destruct (frepl_invert _ _ (frep_l _ _ HZ)) as (w & Hw & Hi & _).
  destruct (ext_normal _ _ _ _ _ _ _ _ fp_field X Y Z T P w HE (Hi (proj1 HE))) as [Ex Ey].
  assert (frep (fe_mul (ge_X g) (fe_invert (ge_Z g))) P.1) as Fx by (eapply frep_val; [frep_solve|exact Ex]).
  assert (frep (fe_mul (ge_Y g) (fe_invert (ge_Z g))) P.2) as Fy by (eapply frep_val; [frep_solve|exact Ey]).
  rewrite (frep_isodd _ _ Fx), (frep_tobytes _ _ Fy). apply set_sign; [apply e_range|apply parity_range].
Qed.

Lemma length_encode P : length (encode P) = 32%nat.
Proof. apply length_le_bytes. Qed.
Lemma is_bytes_encode P : is_bytes (encode P).
Proof. apply is_bytes_le_bytes. Qed.

Lemma encode_val P : le_val (encode P) = Zmod.to_Z P.2 + 2 ^ 255 * parity P.1.
Proof.
  unfold encode. rewrite le_val_le_bytes. apply Z.mod_small. change (256 ^ Z.of_nat 32) with (2 ^ 256).
  pose proof (e_range P.2). pose proof (parity_range P.1). lia.
Qed.

Lemma decodes_encode P : on_c P -> decodes (encode P) P.
Proof.
  intros HP. split; [done|]. rewrite encode_val. pose proof (e_range P.2) as Hy. rewrite (Z.mul_comm (2 ^ 255)). split.
  - rewrite Z.mod_add, Z.mod_small by done. symmetry. apply e_surj.
  - right. rewrite Z.div_add, Z.div_small by done. done.
Qed.

Lemma decodes_unique s P Q : decodes s P -> decodes s Q -> P = Q.
Proof.
  intros (HP & Py & Px) (HQ & Qy & Qx).
  destruct (same_y_points _ _ _ _ _ _ _ _ fp_field fp_eq_dec _ _ fp_two fp_i fp_d P Q HP HQ) as [E|E]; [exact (eq_trans Py (eq_sym Qy))|done|].
  destruct (fp_eq_dec P.1 Zmod.zero) as [E0|E0].
  - rewrite E. unfold Edwards.pneg. destruct P as [x y]. cbn [fst snd] in *. by rewrite E0.
  - exfalso. assert (Q.1 = Zmod.opp P.1) as E1 by (by rewrite E). rewrite E1 in Qx. destruct Px as [Px|Px]; [done|].
    rewrite parity_opp in Qx by done. pose proof (parity_range P.1).
    destruct Qx as [Qx|Qx]; [|lia]. apply E0. rewrite <- (Zmod.opp_opp P.1), Qx. done.
Qed.

Lemma sign_bit s : is_bytes s -> length s = 32%nat -> Z.shiftr (rd s 31) 7 = le_val s / 2 ^ 255.
Proof.
  intros Hs Hl. pose proof (le_val_testbit s 255 Hs ltac:(lia)) as Hb. change (255 / 8) with 31 in Hb. change (255 mod 8) with 7 in Hb.
  pose proof (is_bytes_rd s 31 Hs) as Hr. pose proof (le_val_range s Hs) as Hv. rewrite Hl in Hv. change (256 ^ Z.of_nat 32) with (2 ^ 256) in Hv.
  rewrite !Z.testbit_eqb in Hb by lia. rewrite Z.shiftr_div_pow2 by lia. unfold is_u8 in Hr. change (2 ^ 7) with 128 in *.
  set (q := le_val s / 2 ^ 255) in *. assert (0 <= q <= 1) by (subst q; zlia). clearbody q. zlia.
Qed.

Lemma opp_zero_fp : Zmod.opp Zmod.zero = Zmod.zero :> fp.
Proof. apply Zmod.opp_0. Qed.

(** The last step: the sign is the opposite of the one asked for. *)
Lemma neg_rep s x (y : fp) X Y : is_bytes s -> length s = 32%nat -> on_c (x, y) -> y = e (le_val s mod 2 ^ 255) ->
  frep X x -> frep Y y ->
  let X' := if fe_isodd X =? Z.shiftr (rd s 31) 7 then fe_neg X else X in
  exists P, decodes s P /\ ge_rep (mkGe X' Y fe_1 (fe_mul X' Y)) (p_opp P).
Proof.
  intros Hs Hl Hc Hy HX HY. cbv zeta. rewrite (frep_isodd _ _ HX), sign_bit by done.
  assert (forall X' x', frep X' x' -> on_c (x', y) -> ge_rep (mkGe X' Y fe_1 (fe_mul X' Y)) (x', y)) as Hg.
  { intros X' x' HX' Hc'. split; [done|]. cbn [ge_X ge_Y ge_Z ge_T]. do 4 eexists. do 4 (split; [frep_solve|]).
    apply (ext_affine _ _ _ _ _ _ _ _ fp_field fp_two). }
  destruct (Z.eqb_spec (parity x) (le_val s / 2 ^ 255)) as [E|E].
  - exists (x, y). split; [split; [done|]; split; [done|by right]|].
    apply Hg; [by apply frep_neg|by apply (on_c_opp (x, y))].
  - exists (p_opp (x, y)). split.
    + split; [by apply on_c_opp|]. split; [done|]. cbn [p_opp Edwards.pneg fst].
      destruct (fp_eq_dec x Zmod.zero) as [->|H0]; [left; apply opp_zero_fp|right].
      rewrite parity_opp by done. pose proof (parity_range x). pose proof (le_val_range s Hs) as Hv. rewrite Hl in Hv.
      change (256 ^ Z.of_nat 32) with (2 ^ 256) in Hv. set (q := le_val s / 2 ^ 255) in *.
      assert (0 <= q <= 1) by (subst q; zlia). lia.
    + replace (p_opp (p_opp (x, y))) with (x, y) by (symmetry; apply (pneg_neg _ _ _ _ _ _ _ _ fp_field)). by apply Hg.
Qed.

Lemma root_rep (y : fp) T D isr r :
  frep2 T (Zmod.sub (Zmod.mul y y) Zmod.one) -> frep2 D (Zmod.add (Zmod.mul (Zmod.mul y y) (e d25519)) Zmod.one) ->
  invsqrt (fe_mul T D) = (isr, r) ->
  (r = 1 /\ exists x, frep (fe_mul T isr) x /\ on_c (x, y)) \/ (r = 0 /\ forall x, ~ on_c (x, y)).
Proof.
  intros HT HD Ei. pose proof (frep_mul _ _ _ _ (frep2_l _ _ HT) (frep2_l _ _ HD)) as [HX EX].
  destruct (invsqrt_spec _ _ _ HX Ei) as [Hi Hc]. clear Ei.
  pose proof (frep_mul _ _ _ _ (frep2_l _ _ HT) (frep_l _ _ (conj Hi eq_refl))) as HR.
  rewrite feq_zero, EX in Hc. rewrite <- !e_feq, !e_mul, EX in Hc. set (w := e (fe_val isr)) in *. clearbody w.
  clear HT HD HX EX Hi.
  destruct Hc as [(H0 & _ & ->)|[(_ & H1 & ->)|(_ & H1 & ->)]]; [left; split; [exact eq_refl|]; eexists; (split; [exact HR|])..|right].
  - apply (root_on_curve _ _ _ _ _ _ _ _ fp_field fp_eq_dec _ _ fp_two fp_i fp_d). left. exact H0.
  - apply (root_on_curve _ _ _ _ _ _ _ _ fp_field fp_eq_dec _ _ fp_two fp_i fp_d). right. exact H1.
  - split; [exact eq_refl|]. intros x Hon.
    pose proof (curve_square _ _ _ _ _ _ _ _ fp_field _ _ _ w Hon) as Hq. cbv zeta in Hq.
    pose proof (eq_trans (eq_sym Hq) H1) as Hs. clear Hq H1 Hon HR.
    match type of Hs with Zmod.mul ?a _ = _ => rewrite <- (e_surj a) in Hs end.
    rewrite <- e_mul, e_feq in Hs. exact (sqrt_m1_nonresidue _ Hs).
Qed.

Lemma ge_frombytes_rep s : is_bytes s -> length s = 32%nat ->
  match ge_frombytes_neg_vartime s with
  | Some g => exists P, decodes s P /\ ge_rep g (p_opp P)
  | None => forall P, ~ decodes s P
  end.
Proof.
  intros Hs Hl. unfold ge_frombytes_neg_vartime. destruct (fe_frombytes_sound s Hs Hl) as [Ht Hv]. apply e_feq in Hv.
  pose proof (conj Ht Hv : frep (fe_frombytes s) (e (le_val s mod 2 ^ 255))) as HY. clear Ht Hv.
  remember (e (le_val s mod 2 ^ 255)) as y eqn:Ey. remember (fe_frombytes s) as Y eqn:EY. clear EY.
  assert (frep2 (fe_sub (fe_sq Y) fe_1) (Zmod.sub (Zmod.mul y y) Zmod.one)) as HT by frep_solve.
  assert (frep2 (fe_add (fe_mul (fe_sq Y) fe_d) fe_1) (Zmod.add (Zmod.mul (Zmod.mul y y) (e d25519)) Zmod.one)) as HD by frep_solve.
  set (T := fe_sub (fe_sq Y) fe_1) in *. clearbody T. set (D := fe_add _ _) in *. clearbody D.
  destruct (invsqrt (fe_mul T D)) as [isr r] eqn:Ei.
  destruct (root_rep y T D isr r HT HD Ei) as [[-> (x & HR & Hon)]|[-> Hno]].
  - change (1 =? 0) with false. cbv iota. exact (neg_rep s x y _ Y Hs Hl Hon Ey HR HY).
  - change (0 =? 0) with true. cbv iota. intros [x y'] (Hon & Hy & _). cbn [snd] in Hy. rewrite Hy, <- Ey in Hon. exact (Hno x Hon).
Qed.
