(* ===== verification/BasePoint.v ===== *)
(** * Multiples of the base point (library/crypto/monocypher.c)

    The tables [b_window], [b_comb_low] and [b_comb_high], what they hold, and the order of
    the base point.  All of it is checked by computation on pairs of a number and the extended
    coordinates of that multiple of the base point. *)

From Stdlib Require Import Zmod.
From S2P Require Import Prelude Monocypher Scalar Prime25519 Field25519 Curve25519 Edwards Extended Agreement Ge.

(** ** The code *)

Definition b_window : list ge_precomp :=
  [mkPrecomp [25967493; -14356035; 29566456; 3660896; -12694345; 4014787; 27544626; -11754271; -6079156; 2047605]
             [-12545711; 934262; -2722910; 3049990; -727428; 9406986; 12720692; 5043384; 19500929; -15469378]
             [-8738181; 4489570; 9688441; -14785194; 10184609; -12363380; 29287919; 11864899; -24514362; -4438546];
   mkPrecomp [15636291; -9688557; 24204773; -7912398; 616977; -16685262; 27787600; -14772189; 28944400; -1550024]
             [16568933; 4717097; -11556148; -1102322; 15682896; -11807043; 16354577; -11775962; 7689662; 11199574]
             [30464156; -5976125; -11779434; -15670865; 23220365; 15915852; 7512774; 10017326; -17749093; -9920357];
   mkPrecomp [10861363; 11473154; 27284546; 1981175; -30064349; 12577861; 32867885; 14515107; -15438304; 10819380]
             [4708026; 6336745; 20377586; 9066809; -11272109; 6594696; -25653668; 12483688; -12668491; 5581306]
             [19563160; 16186464; -29386857; 4097519; 10237984; -4348115; 28542350; 13850243; -23678021; -15815942];
   mkPrecomp [5153746; 9909285; 1723747; -2777874; 30523605; 5516873; 19480852; 5230134; -23952439; -15175766]
             [-30269007; -3463509; 7665486; 10083793; 28475525; 1649722; 20654025; 16520125; 30598449; 7715701]
             [28881845; 14381568; 9657904; 3680757; -20181635; 7843316; -31400660; 1370708; 29794553; -1409300];
   mkPrecomp [-22518993; -6692182; 14201702; -8745502; -23510406; 8844726; 18474211; -1361450; -13062696; 13821877]
             [-6455177; -7839871; 3374702; -4740862; -27098617; -10571707; 31655028; -7212327; 18853322; -14220951]
             [4566830; -12963868; -28974889; -12240689; -7602672; -2830569; -8514358; -10431137; 2207753; -3209784];
   mkPrecomp [-25154831; -4185821; 29681144; 7868801; -6854661; -9423865; -12437364; -663000; -31111463; -16132436]
             [25576264; -2703214; 7349804; -11814844; 16472782; 9300885; 3844789; 15725684; 171356; 6466918]
             [23103977; 13316479; 9739013; -16149481; 817875; -15038942; 8965339; -14088058; -30714912; 16193877];
   mkPrecomp [-33521811; 3180713; -2394130; 14003687; -16903474; -16270840; 17238398; 4729455; -18074513; 9256800]
             [-25182317; -4174131; 32336398; 5036987; -21236817; 11360617; 22616405; 9761698; -19827198; 630305]
             [-13720693; 2639453; -24237460; -7406481; 9494427; -5774029; -6554551; -15960994; -2449256; -14291300];
   mkPrecomp [-3151181; -5046075; 9282714; 6866145; -31907062; -863023; -18940575; 15033784; 25105118; -7894876]
             [-24326370; 15950226; -31801215; -14592823; -11662737; -5090925; 1573892; -2625887; 2198790; -15804619]
             [-3099351; 10324967; -2241613; 7453183; -5446979; -2735503; -13812022; -16236442; -32461234; -12290683]].

Definition b_comb_low : list ge_precomp :=
  [mkPrecomp [-6816601; -2324159; -22559413; 124364; 18015490; 8373481; 19993724; 1979872; -18549925; 9085059]
             [10306321; 403248; 14839893; 9633706; 8463310; -8354981; -14305673; 14668847; 26301366; 2818560]
             [-22701500; -3210264; -13831292; -2927732; -16326337; -14016360; 12940910; 177905; 12165515; -2397893];
   mkPrecomp [-12282262; -7022066; 9920413; -3064358; -32147467; 2927790; 22392436; -14852487; 2719975; 16402117]
             [-7236961; -4729776; 2685954; -6525055; -24242706; -15940211; -6238521; 14082855; 10047669; 12228189]
             [-30495588; -12893761; -11161261; 3539405; -11502464; 16491580; -27286798; -15030530; -7272871; -15934455];
   mkPrecomp [17650926; 582297; -860412; -187745; -12072900; -10683391; -20352381; 15557840; -31072141; -5019061]
             [-6283632; -2259834; -4674247; -4598977; -4089240; 12435688; -31278303; 1060251; 6256175; 10480726]
             [-13871026; 2026300; -21928428; -2741605; -2406664; -8034988; 7355518; 15733500; -23379862; 7489131];
   mkPrecomp [6883359; 695140; 23196907; 9644202; -33430614; 11354760; -20134606; 6388313; -8263585; -8491918]
             [-7716174; -13605463; -13646110; 14757414; -19430591; -14967316; 10359532; -11059670; -21935259; 12082603]
             [-11253345; -15943946; 10046784; 5414629; 24840771; 8086951; -6694742; 9868723; 15842692; -16224787];
   mkPrecomp [9639399; 11810955; -24007778; -9320054; 3912937; -9856959; 996125; -8727907; -8919186; -14097242]
             [7248867; 14468564; 25228636; -8795035; 14346339; 8224790; 6388427; -7181107; 6468218; -8720783]
             [15513115; 15439095; 7342322; -10157390; 18005294; -7265713; 2186239; 4884640; 10826567; 7135781];
   mkPrecomp [-14204238; 5297536; -5862318; -6004934; 28095835; 4236101; -14203318; 1958636; -16816875; 3837147]
             [-5511166; -13176782; -29588215; 12339465; 15325758; -15945770; -8813185; 11075932; -19608050; -3776283]
             [11728032; 9603156; -4637821; -5304487; -7827751; 2724948; 31236191; -16760175; -7268616; 14799772];
   mkPrecomp [-28842672; 4840636; -12047946; -9101456; -1445464; 381905; -30977094; -16523389; 1290540; 12798615]
             [27246947; -10320914; 14792098; -14518944; 5302070; -8746152; -3403974; -4149637; -27061213; 10749585]
             [25572375; -6270368; -15353037; 16037944; 1146292; 32198; 23487090; 9585613; 24714571; -1418265];
   mkPrecomp [19844825; 282124; -17583147; 11004019; -32004269; -2716035; 6105106; -1711007; -21010044; 14338445]
             [8027505; 8191102; -18504907; -12335737; 25173494; -5923905; 15446145; 7483684; -30440441; 10009108]
             [-14134701; -4174411; 10246585; -14677495; 33553567; -14012935; 23366126; 15080531; -7969992; 7663473]].

Definition b_comb_high : list ge_precomp :=
  [mkPrecomp [33055887; -4431773; -521787; 6654165; 951411; -6266464; -5158124; 6995613; -5397442; -6985227]
             [4014062; 6967095; -11977872; 3960002; 8001989; 5130302; -2154812; -1899602; -31954493; -16173976]
             [16271757; -9212948; 23792794; 731486; -25808309; -3546396; 6964344; -4767590; 10976593; 10050757];
   mkPrecomp [2533007; -4288439; -24467768; -12387405; -13450051; 14542280; 12876301; 13893535; 15067764; 8594792]
             [20073501; -11623621; 3165391; -13119866; 13188608; -11540496; -10751437; -13482671; 29588810; 2197295]
             [-1084082; 11831693; 6031797; 14062724; 14748428; -8159962; -20721760; 11742548; 31368706; 13161200];
   mkPrecomp [2050412; -6457589; 15321215; 5273360; 25484180; 124590; -18187548; -7097255; -6691621; -14604792]
             [9938196; 2162889; -6158074; -1711248; 4278932; -2598531; -22865792; -7168500; -24323168; 11746309]
             [-22691768; -14268164; 5965485; 9383325; 20443693; 5854192; 28250679; -1381811; -10837134; 13717818];
   mkPrecomp [-8495530; 16382250; 9548884; -4971523; -4491811; -3902147; 6182256; -12832479; 26628081; 10395408]
             [27329048; -15853735; 7715764; 8717446; -9215518; -14633480; 28982250; -5668414; 4227628; 242148]
             [-13279943; -7986904; -7100016; 8764468; -27276630; 3096719; 29678419; -9141299; 3906709; 11265498];
   mkPrecomp [11918285; 15686328; -17757323; -11217300; -27548967; 4853165; -27168827; 6807359; 6871949; -1075745]
             [-29002610; 13984323; -27111812; -2713442; 28107359; -13266203; 6155126; 15104658; 3538727; -7513788]
             [14103158; 11233913; -33165269; 9279850; 31014152; 4335090; -1827936; 4590951; 13960841; 12787712];
   mkPrecomp [1469134; -16738009; 33411928; 13942824; 8092558; -8778224; -11165065; 1437842; 22521552; -2792954]
             [31352705; -4807352; -25327300; 3962447; 12541566; -9399651; -27425693; 7964818; -23829869; 5541287]
             [-25732021; -6864887; 23848984; 3039395; -9147354; 6022816; -27421653; 10590137; 25309915; -1584678];
   mkPrecomp [-22951376; 5048948; 31139401; -190316; -19542447; -626310; -17486305; -16511925; -18851313; -12985140]
             [-9684890; 14681754; 30487568; 7717771; -10829709; 9630497; 30290549; -10531496; -27798994; -13812825]
             [5827835; 16097107; -24501327; 12094619; 7413972; 11447087; 28057551; -1793987; -14056981; 4359312];
   mkPrecomp [26323183; 2342588; -21887793; -1623758; -6062284; 2107090; -28724907; 9036464; -19618351; -13055189]
             [-29697200; 14829398; -4596333; 14220089; -30022969; 2955645; 12094100; -13693652; -5941445; 7047569]
             [-3201977; 14413268; -12058324; -16417589; -9035655; -7224648; 9258160; 1399236; 30397584; -5684634]].

(** ** Multiples of points *)

Definition k_mul (k : Z) (P : point) : point := zmul Zmod.zero Zmod.one Zmod.add Zmod.mul Zmod.sub Zmod.opp Zmod.mdiv (e d25519) k P.

Lemma on_c_mul k P : on_c P -> on_c (k_mul k P).
Proof. apply (on_curve_zmul _ _ _ _ _ _ _ _ fp_field fp_eq_dec _ _ fp_two fp_i fp_d). Qed.
Lemma k_mul_add a b P : on_c P -> k_mul (a + b) P = p_add (k_mul a P) (k_mul b P).
Proof. apply (zmul_add _ _ _ _ _ _ _ _ fp_field fp_eq_dec _ _ fp_two fp_i fp_d). Qed.
Lemma k_mul_opp a P : k_mul (- a) P = p_opp (k_mul a P).
Proof. apply (zmul_opp _ _ _ _ _ _ _ _ fp_field). Qed.
Lemma k_mul_double a P : on_c P -> k_mul (2 * a) P = p_add (k_mul a P) (k_mul a P).
Proof. apply (zmul_double _ _ _ _ _ _ _ _ fp_field fp_eq_dec _ _ fp_two fp_i fp_d). Qed.
Lemma k_mul_mul a b P : on_c P -> k_mul (a * b) P = k_mul a (k_mul b P).
Proof. apply (zmul_mul _ _ _ _ _ _ _ _ fp_field fp_eq_dec _ _ fp_two fp_i fp_d). Qed.
Lemma k_mul_distr k P Q : on_c P -> on_c Q -> k_mul k (p_add P Q) = p_add (k_mul k P) (k_mul k Q).
Proof. apply (zmul_padd _ _ _ _ _ _ _ _ fp_field fp_eq_dec _ _ fp_two fp_i fp_d). Qed.
Lemma k_mul_1 P : k_mul 1 P = P.
Proof. apply (zmul_1 _ _ _ _ _ _ _ _ fp_field _ fp_two). Qed.
Lemma k_mul_0 P : k_mul 0 P = p_zero.
Proof. reflexivity. Qed.
Lemma k_mul_mod n a b P : on_c P -> k_mul n P = p_zero -> a mod n = b mod n -> k_mul a P = k_mul b P.
Proof. apply (zmul_mod _ _ _ _ _ _ _ _ fp_field fp_eq_dec _ _ fp_two fp_i fp_d). Qed.
Lemma k_mul_nonneg k P : 0 <= k -> k_mul k P = times (Z.to_nat k) P.
Proof. apply zmul_nonneg. Qed.

Lemma p_add_comm P Q : p_add P Q = p_add Q P.
Proof. apply (padd_comm _ _ _ _ _ _ _ _ fp_field). Qed.
Lemma p_add_assoc P Q R : on_c P -> on_c Q -> on_c R -> p_add (p_add P Q) R = p_add P (p_add Q R).
Proof. apply (padd_assoc _ _ _ _ _ _ _ _ fp_field fp_eq_dec _ _ fp_two fp_i fp_d). Qed.
Lemma p_add_zero P : p_add P p_zero = P.
Proof. rewrite p_add_comm. apply (padd_zero _ _ _ _ _ _ _ _ fp_field _ fp_two). Qed.
Lemma p_add_opp P : on_c P -> p_add P (p_opp P) = p_zero.
Proof. apply (padd_neg _ _ _ _ _ _ _ _ fp_field fp_eq_dec _ _ fp_two fp_i fp_d). Qed.
Lemma p_add_swap P Q R S : on_c P -> on_c Q -> on_c R -> on_c S -> p_add (p_add P Q) (p_add R S) = p_add (p_add P R) (p_add Q S).
Proof.
  intros HP HQ HR HS. rewrite !p_add_assoc by auto using on_c_add. f_equal.
  rewrite <- !p_add_assoc, (p_add_comm Q R) by auto using on_c_add. done.
Qed.

(** ** Computation

    [known (n, c)]: the coordinates [c] are those of [n] times the base point. *)

Record xyzt := mkX { x_X : Z; x_Y : Z; x_Z : Z; x_T : Z }.
Definition known (m : Z * xyzt) : Prop :=
  ext25519 (e (x_X m.2)) (e (x_Y m.2)) (e (x_Z m.2)) (e (x_T m.2)) (k_mul m.1 base).

Definition mask255 : Z := Eval vm_compute in Z.ones 255.
Definition fold_once (x : Z) : Z := Z.land x mask255 + 19 * Z.shiftr x 255.
Definition red (x : Z) : Z := fold_once (fold_once x).
Definition twice_d : Z := Eval vm_compute in (2 * d25519) mod p25519.

Definition x_dbl (m : Z * xyzt) : Z * xyzt :=
  let '(n, mkX X Y Z _) := m in
  let A := red (X * X) in let B := red (Y * Y) in let S := B + A in let D := B - A in
  let E := red ((X + Y) * (X + Y)) - S in let G := red (Z * Z) * 2 - D in
  (2 * n, mkX (red (E * G)) (red (S * D)) (red (D * G)) (red (E * S))).

Definition x_add (m m' : Z * xyzt) : Z * xyzt :=
  let '(n, mkX X Y Z T) := m in
  let '(n', mkX X2 Y2 Z2 T2) := m' in
  let a := red ((Y + X) * (Y2 + X2)) in let b := red ((Y - X) * (Y2 - X2)) in
  let C := red ((Z + Z) * Z2) in let D := red (T * red (T2 * twice_d)) in
  (n + n', mkX (red ((a - b) * (C - D))) (red ((a + b) * (C + D))) (red ((C + D) * (C - D))) (red ((a - b) * (a + b)))).

Definition x_opp (m : Z * xyzt) : Z * xyzt := let '(n, mkX X Y Z T) := m in (- n, mkX (- X) Y Z (- T)).

Definition x_base : Z * xyzt := (1, mkX base_x base_y 1 (red (base_x * base_y))).
Definition x_zero : Z * xyzt := (0, mkX 0 1 1 0).

Lemma e_fold x : e (fold_once x) = e x.
Proof.
  apply e_feq, feq_mod. unfold fold_once. change mask255 with (Z.ones 255). rewrite Z.land_ones, Z.shiftr_div_pow2 by lia.
  rewrite (Z.div_mod x (2 ^ 255)) at 3 by lia. apply feq_mod. exists (- (x / 2 ^ 255)). unfold p25519. ring.
Qed.
Lemma e_red x : e (red x) = e x.
Proof. unfold red. by rewrite !e_fold. Qed.

Lemma e_twice_d : e twice_d = Zmod.mul (Zmod.add Zmod.one Zmod.one) (e d25519).
Proof. change (Zmod.add Zmod.one Zmod.one) with (e (1 + 1)). rewrite <- e_mul. fp_compute. Qed.

(** Moves [e] to the variables. *)
Ltac e_push := repeat (rewrite e_red || rewrite e_mul || rewrite e_add || rewrite e_sub || rewrite e_opp || rewrite e_twice_d).

Lemma known_dbl m : known m -> known (x_dbl m).
Proof.
  destruct m as [n [X Y Z T]]. unfold known. cbn [x_dbl fst snd x_X x_Y x_Z x_T]. intros H.
  rewrite (k_mul_double n base base_on_curve). e_push. change (e 2) with (Zmod.add Zmod.one Zmod.one : fp).
  exact (ext_double _ _ _ _ _ _ _ _ fp_field fp_eq_dec _ _ fp_two fp_i fp_d _ _ _ _ _ (on_c_mul n base base_on_curve) H).
Qed.

Lemma known_add m m' : known m -> known m' -> known (x_add m m').
Proof.
  destruct m as [n [X Y Z T]], m' as [n' [X2 Y2 Z2 T2]]. unfold known. cbn [x_add fst snd x_X x_Y x_Z x_T]. intros H H'.
  rewrite (k_mul_add n n' base base_on_curve). e_push.
  exact (ext_add _ _ _ _ _ _ _ _ fp_field fp_eq_dec _ _ fp_two fp_i fp_d _ _ _ _ _ _ _ _ _ _
    (on_c_mul n base base_on_curve) (on_c_mul n' base base_on_curve) H (ext_cached _ _ _ _ _ _ _ _ fp_field _ _ _ _ _ _ H')).
Qed.

Lemma known_opp m : known m -> known (x_opp m).
Proof.
  destruct m as [n [X Y Z T]]. unfold known. cbn [x_opp fst snd x_X x_Y x_Z x_T]. rewrite k_mul_opp. e_push.
  apply (ext_opp _ _ _ _ _ _ _ _ fp_field).
Qed.

Lemma known_base : known x_base.
Proof.
  unfold known, x_base. cbn [fst snd x_X x_Y x_Z x_T]. rewrite k_mul_1. e_push.
  apply (ext_affine _ _ _ _ _ _ _ _ fp_field fp_two).
Qed.
Lemma known_zero : known x_zero.
Proof. apply (ext_zero _ _ _ _ _ _ _ _ fp_field fp_two). Qed.
#[local] Hint Resolve known_dbl known_add known_opp known_base known_zero : core.

(** The powers 2^(32 k), by 32 doublings each. *)
Fixpoint x_powers (k : nat) (m : Z * xyzt) : list (Z * xyzt) :=
  match k with O => [] | S k => m :: x_powers k (Nat.iter 32 x_dbl m) end.

Lemma known_iter n m : known m -> known (Nat.iter n x_dbl m).
Proof. intros H. induction n; cbn; auto. Qed.
Lemma known_powers k m : known m -> Forall known (x_powers k m).
Proof. revert m. induction k as [|k IH]; intros m H; constructor; [done|]. by apply IH, known_iter. Qed.

(** The sum of the [ms] whose bit in [k] is set, the others subtracted if [neg]. *)
Fixpoint x_combine (neg : bool) (k : Z) (ms : list (Z * xyzt)) (acc : Z * xyzt) : Z * xyzt :=
  match ms with
  | [] => acc
  | m :: ms =>
      x_combine neg (k / 2) ms (if Z.odd k then x_add acc m else if neg then x_add acc (x_opp m) else acc)
  end.

Lemma known_combine neg k ms acc : Forall known ms -> known acc -> known (x_combine neg k ms acc).
Proof.
  intros H. revert k acc. induction H as [|m ms Hm _ IH]; intros k acc Ha; cbn [x_combine]; [done|].
  apply IH. destruct (Z.odd k), neg; auto.
Qed.

(** A table entry holds the multiple [m]. *)
Definition entry_ok (c : ge_precomp) (m : Z * xyzt) : bool :=
  let '(_, mkX X Y Z T) := m in
  bool_decide (tight (p_Yp c)) && bool_decide (tight (p_Ym c)) && bool_decide (tight (p_T2 c)) &&
  ((fe_val (p_Yp c) * Z - (Y + X)) mod p25519 =? 0) && ((fe_val (p_Ym c) * Z - (Y - X)) mod p25519 =? 0) &&
  ((fe_val (p_T2 c) * Z - T * twice_d) mod p25519 =? 0).

Lemma mod_zero_e a b : ((a - b) mod p25519 =? 0) = true -> e a = e b.
Proof.
  intros H%Z.eqb_eq. apply e_feq. unfold eqmod. by apply Z.mod_divide.
Qed.

Lemma entry_sound c m : known m -> entry_ok c m = true -> precomp_rep c (k_mul m.1 base).
Proof.
  destruct m as [n [X Y Z T]]. unfold known. cbn [fst snd x_X x_Y x_Z x_T]. intros Hm Hc. unfold entry_ok in Hc.
  rewrite !andb_true_iff, !bool_decide_eq_true in Hc. destruct Hc as [[[[[H1 H2] H3] H4] H5] H6].
  apply mod_zero_e in H4, H5, H6. rewrite e_mul, e_add in H4. rewrite e_mul, e_sub in H5. rewrite !e_mul, e_twice_d in H6.
  split; [apply on_c_mul, base_on_curve|]. exists (e (fe_val (p_Yp c))), (e (fe_val (p_Ym c))), (e (fe_val (p_T2 c))).
  split; [exact (frep_2 _ _ (conj H1 eq_refl))|]. split; [exact (frep_2 _ _ (conj H2 eq_refl))|]. split; [exact (conj H3 eq_refl)|].
  exact (cached_scaled _ _ _ _ _ _ _ _ fp_field _ fp_two _ _ _ _ _ _ _ _ Hm H4 H5 H6).
Qed.

(** ** The tables and the order *)

Definition comb_scalar (j : Z) : Z := 2 ^ 96 + (if Z.testbit j 2 then 2 ^ 64 else - 2 ^ 64) + (if Z.testbit j 1 then 2 ^ 32 else - 2 ^ 32) + (if Z.testbit j 0 then 1 else -1).

Definition powers : list (Z * xyzt) := x_powers 8 x_base.

(** One computation for all claims: the entries of the tables, and the multiple [order]. *)
Fixpoint x_horner (n : nat) (k : Z) (ms : list (Z * xyzt)) : Z * xyzt :=
  match n with
  | O => x_zero
  | S n => let acc := x_dbl (x_horner n (k / 2) ms) in
      fold_left (fun acc im => if Z.testbit k (32 * Z.of_nat im.1) then x_add acc im.2 else acc) (imap pair ms) acc
  end.

Definition order_low : Z := 27742317777372353535851937790883648493.

Definition table_entry (t : list ge_precomp) (j : Z) : ge_precomp := nth (Z.to_nat j) t (mkPrecomp [] [] []).
Definition power (ps : list (Z * xyzt)) (k : nat) : Z * xyzt := nth k ps x_zero.
Definition holds_at (c : ge_precomp) (m : Z * xyzt) (n : Z) : bool := entry_ok c m && (m.1 =? n).

Definition check_low (ps : list (Z * xyzt)) (j : Z) : bool :=
  holds_at (table_entry b_comb_low j) (x_combine true j (take 3 ps) (power ps 3)) (comb_scalar j).
Definition check_high (ps : list (Z * xyzt)) (j : Z) : bool :=
  holds_at (table_entry b_comb_high j) (x_combine true j (take 3 (drop 4 ps)) (power ps 7)) (2 ^ 128 * comb_scalar j).
Definition check_window (ps : list (Z * xyzt)) (j : Z) : bool :=
  let b := power ps 0 in
  holds_at (table_entry b_window j) (Nat.iter (Z.to_nat j) (fun m => x_add m (x_dbl b)) b) (2 * j + 1).
Definition check_order (ps : list (Z * xyzt)) : bool :=
  let '(n, mkX X Y Z T) := x_add (Nat.iter 28 x_dbl (power ps 7)) (x_horner 32 order_low (take 4 ps)) in
  (n =? order) && (X mod p25519 =? 0) && ((Y - Z) mod p25519 =? 0).

Definition check_all (ps : list (Z * xyzt)) : bool :=
  forallb (fun j => check_low ps j && check_high ps j && check_window ps j) (seqZ 0 8) && check_order ps.

Lemma check_all_true : check_all powers = true.
Proof. vm_compute. reflexivity. Qed.

Lemma powers_known : Forall known powers.
Proof. apply known_powers, known_base. Qed.

#[local] Opaque powers.

Lemma power_known k : known (power powers k).
Proof.
  unfold power. destruct (nth_in_or_default k powers x_zero) as [H| ->]; [|apply known_zero].
  by apply (proj1 (List.Forall_forall _ _) powers_known).
Qed.

Lemma holds_at_sound c m n : known m -> holds_at c m n = true -> precomp_rep c (k_mul n base).
Proof. unfold holds_at. rewrite andb_true_iff, Z.eqb_eq. intros Hm [Hc <-]. by apply entry_sound. Qed.

Lemma known_horner n k ms : Forall known ms -> known (x_horner n k ms).
Proof.
  intros H. revert k. induction n as [|n IH]; intros k; cbn [x_horner]; [apply known_zero|].
  assert (Forall (fun im : nat * (Z * xyzt) => known im.2) (imap pair ms)) as Hi.
  { apply Forall_lookup. intros i [j m] Hl. rewrite list_lookup_imap in Hl. destruct (ms !! i) as [m'|] eqn:E; [|discriminate Hl].
    cbn in Hl. injection Hl as _ <-. exact (proj1 (Forall_lookup known ms) H _ _ E). }
  generalize (known_dbl _ (IH (k / 2))). generalize (x_dbl (x_horner n (k / 2) ms)).
  induction Hi as [|im ims Him _ IHf]; intros acc Ha; cbn [fold_left]; [done|]. apply IHf. destruct (Z.testbit _ _); auto.
Qed.

Lemma checked j : 0 <= j < 8 -> check_low powers j = true /\ check_high powers j = true /\ check_window powers j = true.
Proof.
  intros Hj. pose proof check_all_true as H. apply andb_true_iff in H as [H _]. rewrite forallb_forall in H.
  specialize (H j). rewrite !andb_true_iff in H. destruct H as [[H1 H2] H3]; [|done].
  apply list_elem_of_In, elem_of_seqZ. lia.
Qed.

Lemma comb_low_entry j : 0 <= j < 8 -> precomp_rep (table_entry b_comb_low j) (k_mul (comb_scalar j) base).
Proof.
  intros Hj. destruct (checked j Hj) as [H _]. eapply holds_at_sound; [|exact H].
  apply known_combine; [apply Forall_take, powers_known|apply power_known].
Qed.

Lemma comb_high_entry j : 0 <= j < 8 -> precomp_rep (table_entry b_comb_high j) (k_mul (2 ^ 128 * comb_scalar j) base).
Proof.
  intros Hj. destruct (checked j Hj) as (_ & H & _). eapply holds_at_sound; [|exact H].
  apply known_combine; [apply Forall_take, Forall_drop, powers_known|apply power_known].
Qed.

Lemma window_entry j : 0 <= j < 8 -> precomp_rep (table_entry b_window j) (k_mul (2 * j + 1) base).
Proof.
  intros Hj. destruct (checked j Hj) as (_ & _ & H). eapply holds_at_sound; [|exact H].
  induction (Z.to_nat j) as [|n IH]; cbn [Nat.iter nat_rect]; [apply power_known|].
  apply known_add; [exact IH|apply known_dbl, power_known].
Qed.

(** The base point has order L. *)
Lemma base_order : k_mul order base = p_zero.
Proof.
  pose proof check_all_true as H. apply andb_true_iff in H as [_ H]. unfold check_order in H.
  assert (known (x_add (Nat.iter 28 x_dbl (power powers 7)) (x_horner 32 order_low (take 4 powers)))) as Hk.
  { apply known_add; [apply known_iter, power_known|apply known_horner, Forall_take, powers_known]. }
  set (m := x_add _ _) in *. clearbody m. destruct m as [n [X Y Z T]]. rewrite !andb_true_iff, !Z.eqb_eq in H. destruct H as [[-> HX] HY].
  unfold known in Hk. cbn [fst snd x_X x_Y x_Z x_T] in Hk. apply (ext_is_zero _ _ _ _ _ _ _ _ fp_field _ _ _ _ _ Hk).
  - change Zmod.zero with (e 0). apply mod_zero_e. rewrite Z.sub_0_r. by apply Z.eqb_eq.
  - apply mod_zero_e. by apply Z.eqb_eq.
Qed.

Lemma base_mod a b : a mod order = b mod order -> k_mul a base = k_mul b base.
Proof. apply k_mul_mod; [apply base_on_curve|apply base_order]. Qed.
