(* ===== verification/Comb.v ===== *)
(** * Multiplication of the base point (library/crypto/monocypher.c)

    [ge_scalarmult_base] with its twin signed combs. *)

From Stdlib Require Import Zmod.
From S2P Require Import Prelude Monocypher Scalar Prime25519 Field25519 Curve25519 Agreement Ge BasePoint.

(** ** The code *)

(** One round of the loop over the table: a copy if [j] is the index. *)
Definition copy_entry (comb : list ge_precomp) (index : Z) (c : ge_precomp) (j : nat) : ge_precomp :=
  let j := Z.of_nat j in
  let select := Z.land 1 (shr64 (sub64 (Z.lxor j index) 1) 8) in
  let q := table_entry comb j in
  mkPrecomp (fe_ccopy (p_Yp c) (p_Yp q) select) (fe_ccopy (p_Ym c) (p_Ym q) select) (fe_ccopy (p_T2 c) (p_T2 q) select).

(** The buffers [tmp_c] are passed from call to call; [tmp_a] and [tmp_b] are written before they are read. *)
Definition lookup_add (p : ge) (tmp_c : ge_precomp) (comb : list ge_precomp) (scalar : list Z) (i : Z) : ge * ge_precomp :=
  let teeth := u8 (scalar_bit scalar i + Z.shiftl (scalar_bit scalar (i + 32)) 1 +
                   Z.shiftl (scalar_bit scalar (i + 64)) 2 + Z.shiftl (scalar_bit scalar (i + 96)) 3) in
  let high := Z.shiftr teeth 3 in
  let index := u8 (Z.land (Z.lxor teeth (high - 1)) 7) in
  let tmp_c := fold_left (copy_entry comb index) (seq 0 8) tmp_c in
  let tmp_a := fe_neg (p_T2 tmp_c) in
  let '(T2, tmp_a) := fe_cswap (p_T2 tmp_c) tmp_a (Z.lxor high 1) in
  let '(Yp, Ym) := fe_cswap (p_Yp tmp_c) (p_Ym tmp_c) (Z.lxor high 1) in
  let tmp_c := mkPrecomp Yp Ym T2 in
  (ge_madd p tmp_c, tmp_c).

Definition half_mod_L : list Z :=
  [247; 233; 122; 46; 141; 49; 9; 44; 107; 206; 123; 81; 239; 124; 111; 10;
   0; 0; 0; 0; 0; 0; 0; 0; 0; 0; 0; 0; 0; 0; 0; 8].
Definition half_ones : list Z :=
  [142; 74; 204; 70; 186; 24; 118; 107; 184; 231; 190; 57; 250; 173; 119; 99;
   255; 255; 255; 255; 255; 255; 255; 255; 255; 255; 255; 255; 255; 255; 255; 7].

(** Two lookups, at [i] and [i + 128]. *)
Definition comb_pair (s_scalar : list Z) (i : Z) (st : ge * ge_precomp) : ge * ge_precomp :=
  let '(p, tmp_c) := st in
  let '(p, tmp_c) := lookup_add p tmp_c b_comb_low s_scalar i in
  lookup_add p tmp_c b_comb_high s_scalar (i + 128).

(** [for (int i = n - 1; i >= 0; i--)] *)
Fixpoint comb_loop (s_scalar : list Z) (n : nat) (st : ge * ge_precomp) : ge * ge_precomp :=
  match n with
  | O => st
  | S i => let '(p, tmp_c) := st in comb_loop s_scalar i (comb_pair s_scalar (Z.of_nat i) (ge_double p, tmp_c))
  end.

Definition ge_scalarmult_base (scalar : list Z) : ge :=
  let s_scalar := crypto_eddsa_mul_add scalar half_mod_L half_ones in
  let tmp_c := mkPrecomp fe_1 fe_1 fe_0 in
  let st := comb_pair s_scalar 31 (ge_zero, tmp_c) in
  (comb_loop s_scalar 31 st).1.

Definition crypto_eddsa_scalarbase (scalar : list Z) : list Z := ge_tobytes (ge_scalarmult_base scalar).

(** ** One lookup *)

#[local] Opaque fe_mul fe_sq fe_mul_small fe_add fe_sub fe_neg fe_ccopy fe_cswap b_comb_low b_comb_high k_mul.

Definition sized (c : ge_precomp) : Prop := length (p_Yp c) = 10%nat /\ length (p_Ym c) = 10%nat /\ length (p_T2 c) = 10%nat.

Lemma precomp_sized c P : precomp_rep c P -> sized c.
Proof. intros [_ (Yp & Ym & T2 & [H1 _] & [H2 _] & [H3 _] & _)]. split; [|split]; [exact (within_length _ _ H1)|exact (within_length _ _ H2)|exact (within_length _ _ H3)]. Qed.

Lemma select_spec j index : 0 <= j < 8 -> 0 <= index < 8 ->
  Z.land 1 (shr64 (sub64 (Z.lxor j index) 1) 8) = if j =? index then 1 else 0.
Proof.
  intros Hj Hi. assert (forallb (fun a => forallb (fun b => Z.land 1 (shr64 (sub64 (Z.lxor a b) 1) 8) =? (if a =? b then 1 else 0))
    (seqZ 0 8)) (seqZ 0 8) = true) as H by (vm_compute; reflexivity).
  rewrite forallb_forall in H. specialize (H j (proj1 (list_elem_of_In _ _) (proj2 (elem_of_seqZ _ _ _) Hj))).
  rewrite forallb_forall in H. specialize (H index (proj1 (list_elem_of_In _ _) (proj2 (elem_of_seqZ _ _ _) Hi))).
  by apply Z.eqb_eq.
Qed.

(** The loop over the table copies the entry [index]. *)
Lemma select_loop comb index n c :
  0 <= index < 8 -> (n <= 8)%nat -> sized c -> (forall j, 0 <= j < 8 -> sized (table_entry comb j)) ->
  fold_left (copy_entry comb index) (seq 0 n) c = if index <? Z.of_nat n then table_entry comb index else c.
Proof.
  intros Hi Hn Hc Ht. induction n as [|n IH].
  { cbn [seq fold_left]. destruct (Z.ltb_spec index (Z.of_nat 0)); [lia|done]. }
  rewrite seq_S, fold_left_app, IH by lia. clear IH. cbn [fold_left Nat.add]. unfold copy_entry. cbv zeta.
  rewrite select_spec by lia. destruct (Ht (Z.of_nat n) ltac:(lia)) as (L1 & L2 & L3).
  destruct (Z.ltb_spec index (Z.of_nat n)) as [H1|H1].
  - destruct (Ht index Hi) as (M1 & M2 & M3). rewrite (proj2 (Z.eqb_neq (Z.of_nat n) index)), (proj2 (Z.ltb_lt index _)) by lia.
    rewrite !fe_ccopy_sound by (congruence || auto). cbn [Z.eqb]. by destruct (table_entry comb index).
  - destruct Hc as (M1 & M2 & M3). rewrite !fe_ccopy_sound by (congruence || (destruct (_ =? _); auto)).
    destruct (Z.eqb_spec (Z.of_nat n) index) as [<-|H2].
    + rewrite (proj2 (Z.ltb_lt _ _)) by lia. change (1 =? 1) with true. cbv iota. by destruct (table_entry comb (Z.of_nat n)).
    + rewrite (proj2 (Z.ltb_ge _ _)) by lia. change (0 =? 1) with false. cbv iota. by destruct c.
Qed.

(** Bit [t] of [S] as a sign, and the four signs of a comb. *)
Definition sgn (S t : Z) : Z := 2 * Z.b2z (Z.testbit S t) - 1.
Definition tooth (S i : Z) : Z := sgn S i + 2 ^ 32 * sgn S (i + 32) + 2 ^ 64 * sgn S (i + 64) + 2 ^ 96 * sgn S (i + 96).

(** The index and the sign of the entry, for the sixteen values of the four bits. *)
Lemma teeth_spec b0 b1 b2 b3 :
  let teeth := u8 (Z.b2z b0 + Z.shiftl (Z.b2z b1) 1 + Z.shiftl (Z.b2z b2) 2 + Z.shiftl (Z.b2z b3) 3) in
  let high := Z.shiftr teeth 3 in
  let index := u8 (Z.land (Z.lxor teeth (high - 1)) 7) in
  0 <= index < 8 /\ Z.lxor high 1 = Z.b2z (negb b3) /\
  (if b3 then comb_scalar index else - comb_scalar index) =
  (2 * Z.b2z b0 - 1) + 2 ^ 32 * (2 * Z.b2z b1 - 1) + 2 ^ 64 * (2 * Z.b2z b2 - 1) + 2 ^ 96 * (2 * Z.b2z b3 - 1).
Proof. destruct b0, b1, b2, b3; vm_compute; repeat split; (reflexivity || discriminate). Qed.

Lemma sized_swap f g b : length f = 10%nat -> length g = 10%nat ->
  fe_cswap f g (Z.b2z b) = if b then (g, f) else (f, g).
Proof. intros Hf Hg. rewrite fe_cswap_sound; [by destruct b|congruence|destruct b; auto]. Qed.

Lemma lookup_add_rep p P tmp_c comb c scalar i :
  is_bytes scalar -> 0 <= i -> ge_rep p P -> sized tmp_c ->
  (forall j, 0 <= j < 8 -> precomp_rep (table_entry comb j) (k_mul (c * comb_scalar j) base)) ->
  ge_rep (lookup_add p tmp_c comb scalar i).1 (p_add P (k_mul (c * tooth (le_val scalar) i) base)) /\
  sized (lookup_add p tmp_c comb scalar i).2.
Proof.
  intros Hs Hi Hp Hc Ht. unfold lookup_add. cbv zeta. rewrite !scalar_bit_sound by (done || lia).
  destruct (teeth_spec (Z.testbit (le_val scalar) i) (Z.testbit (le_val scalar) (i + 32)) (Z.testbit (le_val scalar) (i + 64))
    (Z.testbit (le_val scalar) (i + 96))) as (T1 & T2 & T3). unfold tooth, sgn. rewrite <- T3. clear T3.
  set (high := Z.shiftr _ 3) in *. set (index := u8 (Z.land _ 7)) in *. clearbody high index.
  rewrite (select_loop comb index 8 tmp_c T1 ltac:(lia) Hc) by (intros j Hj; eapply precomp_sized, Ht, Hj).
  rewrite (proj2 (Z.ltb_lt index _)) by lia. cbv iota. pose proof (Ht index T1) as Hq.
  pose proof (precomp_opp _ _ Hq) as Hn. destruct (precomp_sized _ _ Hq) as (L1 & L2 & L3).
  destruct (precomp_sized _ _ Hn) as (_ & _ & L4). cbn [p_T2] in L4. rewrite T2. set (q := table_entry comb index) in *. clearbody q.
  rewrite !sized_swap by done. destruct (Z.testbit (le_val scalar) (i + 96)); cbn [negb].
  - split; [|done]. cbn [fst]. apply ge_madd_rep; [done|]. by destruct q.
  - split; [|done]. cbn [fst]. rewrite Z.mul_opp_r, k_mul_opp. apply ge_madd_rep; [done|]. exact Hn.
Qed.

(** ** The comb *)

(** The bits [32 - m], ..., 31 of each of the eight words of [S], as signs. *)
Definition part (S k : Z) (m : nat) : Z := 2 * ((S / 2 ^ (32 * k + 32 - Z.of_nat m)) mod 2 ^ Z.of_nat m) - (2 ^ Z.of_nat m - 1).
Definition parts (S : Z) (m : nat) : Z :=
  part S 0 m + 2 ^ 32 * part S 1 m + 2 ^ 64 * part S 2 m + 2 ^ 96 * part S 3 m +
  2 ^ 128 * (part S 4 m + 2 ^ 32 * part S 5 m + 2 ^ 64 * part S 6 m + 2 ^ 96 * part S 7 m).

Lemma part_S S k m : (m < 32)%nat -> 0 <= k ->
  part S k (Datatypes.S m) = 2 * part S k m + sgn S (31 - Z.of_nat m + 32 * k).
Proof.
  intros Hm Hk. unfold part, sgn. set (t := 31 - Z.of_nat m + 32 * k).
  replace (32 * k + 32 - Z.of_nat (Datatypes.S m)) with t by lia. replace (32 * k + 32 - Z.of_nat m) with (Z.succ t) by lia.
  assert (0 <= t) as Ht by lia. clearbody t.
  rewrite Z.testbit_eqb, (Z.pow_succ_r 2 t), (Z.mul_comm 2 (2 ^ t)), <- Z.div_div, Nat2Z.inj_succ, Z.pow_succ_r by lia.
  set (q := S / 2 ^ t). rewrite (Z.rem_mul_r q 2) by lia. set (r := (q / 2) mod 2 ^ Z.of_nat m). clearbody r.
  pose proof (Z.mod_pos_bound q 2 ltac:(lia)). destruct (Z.eqb_spec (q mod 2) 1); cbn [Z.b2z]; lia.
Qed.

Lemma parts_S S m : (m < 32)%nat ->
  parts S (Datatypes.S m) = 2 * parts S m + 1 * tooth S (31 - Z.of_nat m) + 2 ^ 128 * tooth S (31 - Z.of_nat m + 128).
Proof.
  intros Hm. unfold parts, tooth. rewrite !part_S by lia.
  replace (31 - Z.of_nat m + 32 * 0) with (31 - Z.of_nat m) by lia. replace (31 - Z.of_nat m + 32 * 1) with (31 - Z.of_nat m + 32) by lia.
  replace (31 - Z.of_nat m + 32 * 2) with (31 - Z.of_nat m + 64) by lia. replace (31 - Z.of_nat m + 32 * 3) with (31 - Z.of_nat m + 96) by lia.
  replace (31 - Z.of_nat m + 32 * 4) with (31 - Z.of_nat m + 128) by lia. replace (31 - Z.of_nat m + 32 * 5) with (31 - Z.of_nat m + 128 + 32) by lia.
  replace (31 - Z.of_nat m + 32 * 6) with (31 - Z.of_nat m + 128 + 64) by lia. replace (31 - Z.of_nat m + 32 * 7) with (31 - Z.of_nat m + 128 + 96) by lia.
  ring.
Qed.

Lemma parts_0 S : parts S 0 = 0.
Proof. unfold parts, part. change (2 ^ Z.of_nat 0) with 1. rewrite !Z.mod_1_r. reflexivity. Qed.

Lemma word_split S k : 0 <= k -> S mod 2 ^ (k + 32) = S mod 2 ^ k + 2 ^ k * ((S / 2 ^ k) mod 2 ^ 32).
Proof. intros Hk. rewrite Z.pow_add_r, Z.rem_mul_r by lia. done. Qed.

Lemma parts_full S : 0 <= S < 2 ^ 256 -> parts S 32 = 2 * S - (2 ^ 256 - 1).
Proof.
  intros HS. unfold parts, part. change (Z.of_nat 32) with 32.
  pose proof (word_split S 0 ltac:(lia) : S mod 2 ^ 32 = _) as H0. change (32 * 0 + 32 - 32) with 0.
  pose proof (word_split S 32 ltac:(lia) : S mod 2 ^ 64 = _) as H1. change (32 * 1 + 32 - 32) with 32.
  pose proof (word_split S 64 ltac:(lia) : S mod 2 ^ 96 = _) as H2. change (32 * 2 + 32 - 32) with 64.
  pose proof (word_split S 96 ltac:(lia) : S mod 2 ^ 128 = _) as H3. change (32 * 3 + 32 - 32) with 96.
  pose proof (word_split S 128 ltac:(lia) : S mod 2 ^ 160 = _) as H4. change (32 * 4 + 32 - 32) with 128.
  pose proof (word_split S 160 ltac:(lia) : S mod 2 ^ 192 = _) as H5. change (32 * 5 + 32 - 32) with 160.
  pose proof (word_split S 192 ltac:(lia) : S mod 2 ^ 224 = _) as H6. change (32 * 6 + 32 - 32) with 192.
  pose proof (word_split S 224 ltac:(lia) : S mod 2 ^ 256 = _) as H7. change (32 * 7 + 32 - 32) with 224.
  change (2 ^ 0) with 1 in *. rewrite Z.mod_1_r in H0. rewrite (Z.mod_small S (2 ^ 256)) in H7 by done.
  set (w0 := (S / 1) mod 2 ^ 32) in *. set (w1 := (S / 2 ^ 32) mod 2 ^ 32) in *. set (w2 := (S / 2 ^ 64) mod 2 ^ 32) in *.
  set (w3 := (S / 2 ^ 96) mod 2 ^ 32) in *. set (w4 := (S / 2 ^ 128) mod 2 ^ 32) in *. set (w5 := (S / 2 ^ 160) mod 2 ^ 32) in *.
  set (w6 := (S / 2 ^ 192) mod 2 ^ 32) in *. set (w7 := (S / 2 ^ 224) mod 2 ^ 32) in *. clearbody w0 w1 w2 w3 w4 w5 w6 w7.
  lia.
Qed.

#[local] Opaque lookup_add ge_double.

Lemma p_add_base a b P : P = k_mul a base -> p_add P (k_mul b base) = k_mul (a + b) base.
Proof. intros ->. by rewrite k_mul_add by apply base_on_curve. Qed.

Lemma comb_pair_rep s i p c A : is_bytes s -> 0 <= i -> ge_rep p (k_mul A base) -> sized c ->
  let S := le_val s in
  ge_rep (comb_pair s i (p, c)).1 (k_mul (A + 1 * tooth S i + 2 ^ 128 * tooth S (i + 128)) base) /\ sized (comb_pair s i (p, c)).2.
Proof.
  intros Hs Hi Hp Hc S. unfold comb_pair.
  destruct (lookup_add_rep p _ c b_comb_low 1 s i Hs Hi Hp Hc) as [H1 C1].
  { intros j Hj. rewrite Z.mul_1_l. by apply comb_low_entry. }
  destruct (lookup_add p c b_comb_low s i) as [p1 c1]. cbn [fst snd] in *. rewrite (p_add_base A) in H1 by done.
  destruct (lookup_add_rep p1 _ c1 b_comb_high (2 ^ 128) s (i + 128) Hs ltac:(lia) H1 C1) as [H2 C2]; [apply comb_high_entry|].
  rewrite (p_add_base (A + 1 * tooth S i)) in H2 by done. done.
Qed.

Lemma comb_loop_rep s n p c : is_bytes s -> (n <= 31)%nat -> sized c ->
  ge_rep p (k_mul (parts (le_val s) (32 - n)) base) ->
  ge_rep (comb_loop s n (p, c)).1 (k_mul (parts (le_val s) 32) base).
Proof.
  intros Hs. revert p c. induction n as [|i IH]; intros p c Hn Hc Hp; [exact Hp|]. cbn [comb_loop].
  pose proof (ge_double_rep _ _ Hp) as Hd. rewrite <- k_mul_double in Hd by apply base_on_curve.
  destruct (comb_pair_rep s (Z.of_nat i) _ c _ Hs ltac:(lia) Hd Hc) as [H1 C1].
  destruct (comb_pair s (Z.of_nat i) (ge_double p, c)) as [p' c']. cbn [fst snd] in *. apply IH; [lia|done|].
  replace (32 - i)%nat with (Datatypes.S (32 - Datatypes.S i)) by lia. rewrite parts_S by lia.
  replace (31 - Z.of_nat (32 - Datatypes.S i)) with (Z.of_nat i) by lia. exact H1.
Qed.

Lemma half_mod_L_val : 2 * le_val half_mod_L = order + 1.
Proof. vm_compute. reflexivity. Qed.
Lemma half_ones_val : 2 * le_val half_ones = 2 ^ 256 - 1 + order * -15.
Proof. vm_compute. reflexivity. Qed.

Lemma comb_scalar_mod s h k : 2 * h = order + 1 -> 2 * k = 2 ^ 256 - 1 + order * -15 ->
  (2 * ((s * h + k) mod order) - (2 ^ 256 - 1)) mod order = s mod order.
Proof.
  intros Hh Hk. rewrite (Z.mod_eq (s * h + k) order) by (vm_compute; discriminate). set (q := (s * h + k) / order). clearbody q.
  replace (2 * (s * h + k - order * q) - (2 ^ 256 - 1)) with (s + (s - 15 - 2 * q) * order).
  - apply Z.mod_add. vm_compute. discriminate.
  - replace (2 * (s * h + k - order * q)) with (s * (2 * h) + 2 * k - 2 * order * q) by ring. rewrite Hh, Hk. ring.
Qed.

(** [ge_scalarmult_base] multiplies the base point, whatever the 32 bytes of the scalar. *)
Lemma ge_scalarmult_base_rep s : is_bytes s -> length s = 32%nat -> ge_rep (ge_scalarmult_base s) (k_mul (le_val s) base).
Proof.
  intros Hs Hl. unfold ge_scalarmult_base.
  assert (is_bytes half_mod_L) as B1 by (apply (bool_decide_unpack _); vm_compute; exact I).
  assert (is_bytes half_ones) as B2 by (apply (bool_decide_unpack _); vm_compute; exact I).
  destruct (eddsa_mul_add_spec s half_mod_L half_ones Hs B1 B2 Hl eq_refl eq_refl) as (S1 & S2 & S3).
  set (t := crypto_eddsa_mul_add s half_mod_L half_ones) in *. clearbody t.
  destruct (comb_pair_rep t 31 ge_zero (mkPrecomp fe_1 fe_1 fe_0) 0 S1 ltac:(lia)) as [H1 C1]; [|done|].
  { rewrite k_mul_0. apply ge_zero_rep. }
  destruct (comb_pair t 31 _) as [p c]. cbn [fst snd] in *.
  replace (k_mul (le_val s) base) with (k_mul (parts (le_val t) 32) base).
  - apply comb_loop_rep; [done|lia|done|]. change (32 - 31)%nat with 1%nat. rewrite parts_S, parts_0 by lia. exact H1.
  - rewrite parts_full by (pose proof (le_val_range t S1) as H; rewrite S2 in H; exact H).
    apply base_mod. rewrite S3. apply comb_scalar_mod; [exact half_mod_L_val|exact half_ones_val].
Qed.

Lemma scalarbase_encode s : is_bytes s -> length s = 32%nat -> crypto_eddsa_scalarbase s = encode (k_mul (le_val s) base).
Proof. intros Hs Hl. apply ge_tobytes_rep. by apply ge_scalarmult_base_rep. Qed.
