(* ===== verification/Dirty.v ===== *)
(** * Dirty ephemeral keys (library/crypto/monocypher.c)

    [crypto_x25519_dirty_small] and [crypto_x25519_dirty_fast]: public keys with a component of
    low order, computed by the ladder from a base point of order 8 L, or by adding a point of
    order 8 to the clean key. *)

From Stdlib Require Import Zmod Field.
From S2P Require Import Prelude Monocypher Scalar Prime25519 Field25519 Curve25519 Edwards Extended Agreement Ge BasePoint Comb.

(** ** The code *)

Definition lop_x : list Z :=
  [21352778; 5345713; 4660180; -8347857; 24143090; 14568123; 30185756; -12247770; -33528939; 8345319].
Definition lop_y : list Z :=
  [-6952922; -1265500; 6862341; -7057498; -4037696; -5447722; 31680899; -15325402; -19365852; 1569102].

(** Each word of [s] is read before it is written. *)
Definition add_xl (s : list Z) (x : Z) : list Z :=
  let mod8 := Z.land x 7 in
  store32_le_buf (carry_loop 0 (fun i => add64 (load32_le s (4 * i)) (mul64 (rd L i) mod8))).1.

Definition dirty_base_point : list Z :=
  [0xd8; 0x86; 0x1a; 0xa2; 0x78; 0x7a; 0xd9; 0x26; 0x8b; 0x74; 0x74; 0xb6; 0x82; 0xe3; 0xbe; 0xc3;
   0xce; 0x36; 0x9a; 0x1e; 0x5e; 0x31; 0x47; 0xa2; 0x6d; 0x37; 0x7c; 0xfd; 0x20; 0xb5; 0xdf; 0x75].

Definition crypto_x25519_dirty_small (secret_key : list Z) : list Z :=
  let scalar := crypto_eddsa_trim_scalar secret_key in
  let scalar := add_xl scalar (rd secret_key 0) in
  scalarmult scalar dirty_base_point 256.

Definition select_lop (x k : list Z) (cofactor : Z) : list Z :=
  let out := fe_0 in
  let out := fe_ccopy out k (Z.land (Z.shiftr cofactor 1) 1) in
  let out := fe_ccopy out x (Z.land (Z.shiftr cofactor 0) 1) in
  let tmp := fe_neg out in
  fe_ccopy out tmp (Z.land (Z.shiftr cofactor 2) 1).

Definition crypto_x25519_dirty_fast (secret_key : list Z) : list Z :=
  let scalar := crypto_eddsa_trim_scalar secret_key in
  let pk := ge_scalarmult_base scalar in
  let t1 := select_lop lop_x sqrtm1 (rd secret_key 0) in
  let t2 := select_lop lop_y fe_1 (u8 (rd secret_key 0 + 2)) in
  let T2 := fe_mul t2 t1 in
  let low_order_point := mkPrecomp (fe_add t2 t1) (fe_sub t2 t1) (fe_mul T2 D2) in
  let pk := ge_madd pk low_order_point in
  let t1 := fe_add (ge_Z pk) (ge_Y pk) in
  let t2 := fe_sub (ge_Z pk) (ge_Y pk) in
  let t2 := fe_invert t2 in
  let t1 := fe_mul t1 t2 in
  fe_tobytes t1.

(** ** The points of low order *)

Definition lop : point := (e (fe_val lop_x), e (fe_val lop_y)).
(** The coordinates of the multiples of [lop], as in the comment of the code. *)
Definition lop_limbs (j : Z) : list Z * list Z := (select_lop lop_x sqrtm1 j, select_lop lop_y fe_1 (j + 2)).
Definition lop_point (j : Z) : point := (e (fe_val (lop_limbs j).1), e (fe_val (lop_limbs j).2)).

(** A sum checked without division. *)
Definition sum_ok (x1 y1 x2 y2 x3 y3 : Z) : bool :=
  let E := (d25519 * (x1 * x2 mod p25519) * (y1 * y2 mod p25519)) mod p25519 in
  ((x3 * (1 + E) - (x1 * y2 + y1 * x2)) mod p25519 =? 0) && ((y3 * (1 - E) - (y1 * y2 + x1 * x2)) mod p25519 =? 0).

Lemma sum_sound x1 y1 x2 y2 x3 y3 : on_c (e x1, e y1) -> on_c (e x2, e y2) -> sum_ok x1 y1 x2 y2 x3 y3 = true ->
  p_add (e x1, e y1) (e x2, e y2) = (e x3, e y3).
Proof.
  intros H1 H2 H. unfold sum_ok in H. apply andb_true_iff in H as [Hx Hy]. apply mod_zero_e in Hx, Hy.
  rewrite e_mul, e_add, e_mod, !e_mul, !e_mod, e_add, !e_mul in Hx. rewrite e_mul, e_sub, e_mod, !e_mul, !e_mod, e_add, !e_mul in Hy.
  exact (padd_check _ _ _ _ _ _ _ _ fp_field fp_eq_dec _ _ fp_two fp_i fp_d _ _ _ _ _ _ H1 H2 Hx Hy).
Qed.

Lemma lop_on_curve : on_c lop.
Proof.
  unfold on_c, on_curve, curve, lop. cbn [fst snd]. change Zmod.one with (e 1). change Zmod.zero with (e 0).
  rewrite <- !e_mul, <- !e_sub. fp_compute.
Qed.

Definition limbs_ok (j : Z) : bool :=
  let '(x, y) := lop_limbs j in
  bool_decide (tight x) && bool_decide (tight y) &&
  sum_ok (fe_val x) (fe_val y) (fe_val lop_x) (fe_val lop_y) (fe_val (lop_limbs (j + 1)).1) (fe_val (lop_limbs (j + 1)).2).

Lemma limbs_checked j : 0 <= j < 8 -> limbs_ok j = true.
Proof.
  intros Hj. assert (forallb limbs_ok (seqZ 0 8) = true) as H by (vm_compute; reflexivity).
  rewrite forallb_forall in H. apply H, list_elem_of_In, elem_of_seqZ. lia.
Qed.

#[local] Opaque lop_limbs k_mul.

Lemma lop_mul n : (n <= 8)%nat -> lop_point (Z.of_nat n) = k_mul (Z.of_nat n) lop.
Proof.
  induction n as [|n IH]; intros Hn; [rewrite k_mul_0; with_strategy transparent [lop_limbs] reflexivity|].
  specialize (IH ltac:(lia)). pose proof (limbs_checked (Z.of_nat n) ltac:(lia)) as H. unfold limbs_ok in H.
  replace (Z.of_nat (S n)) with (Z.of_nat n + 1) by lia.
  rewrite (k_mul_add (Z.of_nat n) 1 lop lop_on_curve), k_mul_1, <- IH. unfold lop_point. destruct (lop_limbs (Z.of_nat n)) as [x y] eqn:E.
  apply andb_true_iff in H as [_ H]. symmetry. cbn [fst snd]. apply (sum_sound _ _ _ _ _ _); [|exact lop_on_curve|exact H].
  unfold lop_point in IH. rewrite E in IH. cbn [fst snd] in IH. rewrite IH. apply on_c_mul, lop_on_curve.
Qed.

Lemma lop_order : k_mul 8 lop = p_zero.
Proof. change 8 with (Z.of_nat 8). rewrite <- (lop_mul 8 (le_n 8)). with_strategy transparent [lop_limbs] reflexivity. Qed.

Lemma lop_mod a b : a mod 8 = b mod 8 -> k_mul a lop = k_mul b lop.
Proof. apply k_mul_mod; [apply lop_on_curve|apply lop_order]. Qed.

Lemma lop_rep j : 0 <= j < 8 ->
  frep (lop_limbs j).1 (lop_point j).1 /\ frep (lop_limbs j).2 (lop_point j).2 /\ lop_point j = k_mul j lop.
Proof.
  intros Hj. pose proof (limbs_checked j Hj) as H. unfold limbs_ok in H. pose proof (lop_mul (Z.to_nat j) ltac:(lia)) as Hm.
  rewrite Z2Nat.id in Hm by lia. unfold lop_point in *. destruct (lop_limbs j) as [x y].
  apply andb_true_iff in H as [[H1 H2]%andb_true_iff _]. apply bool_decide_eq_true in H1, H2. cbn [fst snd] in *.
  split; [exact (conj H1 eq_refl)|]. split; [exact (conj H2 eq_refl)|exact Hm].
Qed.

(** Only three bits of the first byte matter. *)
Lemma select_bits b : is_u8 b ->
  lop_limbs (b mod 8) = (select_lop lop_x sqrtm1 b, select_lop lop_y fe_1 (u8 (b + 2))).
Proof.
  intros Hb. with_strategy transparent [lop_limbs] unfold lop_limbs.
  assert (forall i, 0 <= i < 3 -> Z.land (Z.shiftr (b mod 8) i) 1 = Z.land (Z.shiftr b i) 1 /\
    Z.land (Z.shiftr (b mod 8 + 2) i) 1 = Z.land (Z.shiftr (u8 (b + 2)) i) 1) as H.
  { intros i Hi. pose proof (byte_forall (fun b => forallb (fun i => (Z.land (Z.shiftr (b mod 8) i) 1 =? Z.land (Z.shiftr b i) 1) &&
      (Z.land (Z.shiftr (b mod 8 + 2) i) 1 =? Z.land (Z.shiftr (u8 (b + 2)) i) 1)) (seqZ 0 3)) ltac:(vm_compute; reflexivity) b Hb) as F.
    cbv beta in F. rewrite forallb_forall in F. specialize (F i (proj1 (list_elem_of_In _ _) (proj2 (elem_of_seqZ 0 3 i) ltac:(lia)))).
    rewrite andb_true_iff, !Z.eqb_eq in F. exact F. }
  unfold select_lop. destruct (H 0 ltac:(lia)) as [-> ->]. destruct (H 1 ltac:(lia)) as [-> ->]. destruct (H 2 ltac:(lia)) as [-> ->]. reflexivity.
Qed.

(** ** The fast version *)

#[local] Opaque select_lop fe_mul fe_add fe_sub fe_invert fe_tobytes ge_madd ge_scalarmult_base fe_frombytes.

(** What both versions compute: the clean key and the point of low order given by the low bits. *)
Definition dirty_point (a : Z) : point := p_add (k_mul (RFC7748.clamp a) base) (k_mul (a mod 8) lop).
Definition u_bytes (P : point) : list Z := le_bytes 32 (Zmod.to_Z (u_of P)).

Lemma on_c_dirty a : on_c (dirty_point a).
Proof. apply on_c_add; apply on_c_mul; [apply base_on_curve|apply lop_on_curve]. Qed.

Lemma lop_precomp j t1 t2 : 0 <= j < 8 -> lop_limbs j = (t1, t2) ->
  precomp_rep (mkPrecomp (fe_add t2 t1) (fe_sub t2 t1) (fe_mul (fe_mul t2 t1) D2)) (k_mul j lop).
Proof.
  intros Hj E. destruct (lop_rep j Hj) as (Hx & Hy & Hm). split; [apply on_c_mul, lop_on_curve|]. rewrite <- Hm, E in *. cbn [fst snd] in Hx, Hy.
  cbn [p_Yp p_Ym p_T2]. do 3 eexists. split; [exact (frep_add _ _ _ _ Hy Hx)|]. split; [exact (frep_sub _ _ _ _ Hy Hx)|].
  split; [exact (frep_mul _ _ _ _ (frep_l _ _ (frep_mul _ _ _ _ (frep_l _ _ Hy) (frep_l _ _ Hx))) (frep_l _ _ D2_frep))|].
  destruct (lop_point j) as [x y]. exact (cached_affine _ _ _ _ _ _ _ _ fp_field _ fp_two x y).
Qed.

Lemma ge_u_rep g P : ge_rep g P ->
  fe_tobytes (fe_mul (fe_add (ge_Z g) (ge_Y g)) (fe_invert (fe_sub (ge_Z g) (ge_Y g)))) = u_bytes P.
Proof.
  intros [HP (X & Y & Z & T & HX & HY & HZ & HT & HE)]. pose proof (frep_sub _ _ _ _ HZ HY) as Hs.
  destruct (frepl_invert _ _ (frep2_l _ _ Hs)) as (w & Hw & W1 & W0). apply frep_tobytes. eapply frep_val.
  - exact (frep_mul _ _ _ _ (frep2_l _ _ (frep_add _ _ _ _ HZ HY)) (frep_l _ _ Hw)).
  - exact (ext_u _ _ _ _ _ _ _ _ fp_field fp_eq_dec X Y Z T P w HE W1 W0).
Qed.

Lemma rd_0_mod8 a : is_bytes a -> a <> [] -> rd a 0 mod 8 = le_val a mod 8.
Proof.
  intros Ha Hn. destruct a as [|b a]; [done|]. change (rd (b :: a) 0) with b. cbn [le_val]. zlia.
Qed.

Lemma dirty_fast_spec a : is_bytes a -> length a = 32%nat -> crypto_x25519_dirty_fast a = u_bytes (dirty_point (le_val a)).
Proof.
  intros Ha La. unfold crypto_x25519_dirty_fast. cbv zeta. destruct (trim_scalar_sound a Ha La) as (T1 & T2 & T3).
  pose proof (ge_scalarmult_base_rep _ T1 T2) as Hp. rewrite T3 in Hp. set (p := ge_scalarmult_base _) in *. clearbody p.
  apply ge_u_rep, ge_madd_rep; [exact Hp|].
  rewrite <- (rd_0_mod8 a Ha) by (intros ->; discriminate La).
  apply lop_precomp; [apply Z.mod_pos_bound; lia|]. apply select_bits. by apply is_bytes_rd.
Qed.

(** ** The small version *)

Lemma add_xl_spec s x : is_bytes s -> length s = 32%nat -> le_val s + order * (x mod 8) < 2 ^ 256 ->
  is_bytes (add_xl s x) /\ length (add_xl s x) = 32%nat /\ le_val (add_xl s x) = le_val s + order * (x mod 8).
Proof.
  intros Hs Hl Hv. unfold add_xl. change 7 with (Z.ones 3). rewrite Z.land_ones by lia. change (2 ^ 3) with 8.
  pose proof (Z.mod_pos_bound x 8 ltac:(lia)) as Hm. set (m := x mod 8) in *. clearbody m.
  destruct (wval_load s 8 Hs ltac:(lia)) as (W1 & W2 & W3). rewrite take_ge in W3 by lia.
  assert (forall i, 0 <= i < 8 -> add64 (load32_le s (4 * i)) (mul64 (rd L i) m) = rd (load32_le_buf s 0 8) i + rd L i * m) as Hf.
  { intros i Hi. assert (load32_le s (4 * i) = rd (load32_le_buf s 0 8) i) as ->.
    { unfold load32_le_buf, rd. replace i with (Z.of_nat (Z.to_nat i)) at 1 by lia. set (k := Z.to_nat i). assert (k < 8)%nat by lia. clearbody k.
      do 8 (destruct k as [|k]; [reflexivity|]). lia. }
    pose proof (words32_rd _ i W1) as H1. pose proof (words32_rd _ i words32_L) as H2. unfold is_u32 in *. unfold mul64. rewrite (u64_small (_ * m)) by (unfold is_u64; nia).
    unfold add64. apply u64_small. unfold is_u64. nia. }
  destruct (carry_loop_bound 7 0 (fun i => add64 (load32_le s (4 * i)) (mul64 (rd L i) m))) as (C1 & C2 & C3 & C4); [lia|lia| |].
  { intros i Hi. rewrite Hf by done. pose proof (words32_rd _ i W1). pose proof (words32_rd _ i words32_L). unfold is_u32 in *. nia. }
  set (r := carry_loop _ _) in *. clearbody r.
  rewrite (isum_ext _ (fun i => rd (load32_le_buf s 0 8) i + rd L i * m)) in C4 by (intros; apply Hf; lia).
  rewrite isum_add, isum_scale, !isum_rd, !take_ge, W3, wval_L in C4 by (rewrite ?W2; cbn; lia).
  pose proof (wval_range _ C2) as Hr. rewrite C1 in Hr. change (2 ^ (32 * Z.of_nat 8)) with (2 ^ 256) in Hr.
  rewrite wval_store by done. split; [apply is_bytes_store_buf|]. split; [by rewrite length_store_buf, C1|]. lia.
Qed.

Definition dirty_x : Z := 26222289456106274526776360614461724610067025394274937622548094723977875659714.
Definition dirty_y : Z := 13564023222050176697242799576963668605533369585058227603390195093552855082515.
Definition dirty_base : point := p_add base (k_mul 5 lop).

Lemma dirty_base_coords : dirty_base = (e dirty_x, e dirty_y).
Proof.
  unfold dirty_base. destruct (lop_rep 5 ltac:(lia)) as (_ & _ & Hm). rewrite <- Hm. unfold lop_point.
  apply sum_sound; [exact base_on_curve| |with_strategy transparent [lop_limbs select_lop] vm_compute; reflexivity].
  change (on_c (lop_point 5)). rewrite Hm. apply on_c_mul, lop_on_curve.
Qed.

Lemma on_c_dirty_base : on_c dirty_base.
Proof. apply on_c_add; [apply base_on_curve|apply on_c_mul, lop_on_curve]. Qed.

Lemma dirty_base_not_small : ~ is_small dirty_base.
Proof.
  rewrite dirty_base_coords. unfold is_small, small. cbn [snd]. change Zmod.one with (e 1). rewrite <- e_mul, e_feq, feq_mod.
  vm_compute. discriminate.
Qed.

Lemma dirty_base_u : u_of dirty_base = e (le_val dirty_base_point).
Proof.
  pose proof (ucoord_ratio _ _ _ _ _ _ _ _ fp_field fp_eq_dec dirty_base dirty_base_not_small) as E.
  fold (u_of dirty_base) in E. rewrite dirty_base_coords in E |- *. cbn [snd] in E.
  apply (Zmod.mul_cancel_r_prime (Zmod.sub Zmod.one (e dirty_y))).
  - apply prime_p25519.
  - change Zmod.one with (e 1). change Zmod.zero with (e 0). rewrite <- e_sub, e_feq, feq_mod. vm_compute. discriminate.
  - etransitivity; [exact E|]. change Zmod.one with (e 1). rewrite <- e_sub, <- e_add, <- e_mul. fp_compute.
Qed.

(** The scalar of the small version gives the same point. *)
Lemma dirty_scalar a : k_mul (RFC7748.clamp a + order * (a mod 8)) dirty_base = dirty_point a.
Proof.
  unfold dirty_base, dirty_point. rewrite (k_mul_distr _ _ _ base_on_curve (on_c_mul 5 lop lop_on_curve)).
  rewrite <- k_mul_mul by apply lop_on_curve. f_equal.
  - apply base_mod. rewrite (Z.mul_comm order). apply Z.mod_add. vm_compute. discriminate.
  - apply lop_mod. unfold RFC7748.clamp. set (m := a mod 8). set (q := (a / 8) mod 2 ^ 251).
    assert (order = 8 * 904625697166532776746648320380374280107139544922488450750243867285681781373 + 5) as -> by reflexivity.
    set (c := 904625697166532776746648320380374280107139544922488450750243867285681781373). clearbody q m c.
    replace ((2 ^ 254 + 8 * q + (8 * c + 5) * m) * 5) with (m + (5 * 2 ^ 251 + 5 * q + 5 * c * m + 3 * m) * 8) by ring.
    by rewrite Z.mod_add by lia.
Qed.

Lemma dirty_small_spec a : is_bytes a -> length a = 32%nat -> crypto_x25519_dirty_small a = u_bytes (dirty_point (le_val a)).
Proof.
  intros Ha La. unfold crypto_x25519_dirty_small. destruct (trim_scalar_sound a Ha La) as (T1 & T2 & T3).
  pose proof (clamp_range (le_val a)) as Hc. pose proof (Z.mod_pos_bound (le_val a) 8 ltac:(lia)) as Hm.
  assert (0 < order < 2 ^ 252 + 2 ^ 125) as Ho by (split; reflexivity).
  rewrite <- T3 in Hc. destruct (add_xl_spec _ (rd a 0) T1 T2) as (X1 & X2 & X3).
  { rewrite (rd_0_mod8 a Ha) by (intros ->; discriminate La). nia. }
  rewrite (rd_0_mod8 a Ha) in X3 by (intros ->; discriminate La). rewrite T3 in X3, Hc.
  assert (is_bytes dirty_base_point) as Hd by (apply (bool_decide_unpack _); vm_compute; exact I).
  rewrite (scalarmult_sound _ _ dirty_base_point 256 X1 X3 Hd eq_refl). unfold u_bytes. f_equal. rewrite <- (dirty_scalar (le_val a)).
  set (k := RFC7748.clamp (le_val a) + order * (le_val a mod 8)) in *. assert (0 <= k < 2 ^ 256) as Hk by (subst k; nia). clearbody k.
  rewrite k_mul_nonneg by apply Hk. set (u := le_val dirty_base_point). assert (0 <= u < 2 ^ 255) as Hu by (split; [discriminate|reflexivity]).
  rewrite <- (mult_times_bits 256 dirty_base k u Hk Hu on_c_dirty_base dirty_base_not_small (eq_sym dirty_base_u)), to_Z_e.
  symmetry. apply Z.mod_small, mult_range.
Qed.

(** ** Compatibility with X25519 *)

Lemma u_of_small P : is_small P -> u_of P = Zmod.zero.
Proof. apply (ucoord_small _ _ _ _ _ _ _ _ fp_field fp_eq_dec). Qed.

Lemma le_val_u P : le_val (u_bytes P) = Zmod.to_Z (u_of P).
Proof.
  unfold u_bytes. rewrite le_val_le_bytes. apply Z.mod_small. pose proof (e_range (u_of P)). change (256 ^ Z.of_nat 32) with (2 ^ 256). lia.
Qed.

(** [crypto_x25519] multiplies any point by the clamped secret. *)
Lemma x25519_point b P : is_bytes b -> length b = 32%nat -> on_c P ->
  crypto_x25519 b (u_bytes P) = u_bytes (k_mul (RFC7748.clamp (le_val b)) P).
Proof.
  intros Hb Lb HP. rewrite (crypto_x25519_sound b (u_bytes P) Hb Lb (is_bytes_le_bytes _ _) (length_le_bytes _ _)), le_val_u.
  unfold RFC7748.x25519. unfold u_bytes. f_equal. pose proof (clamp_range (le_val b)) as Hk. set (k := RFC7748.clamp (le_val b)) in *. clearbody k.
  pose proof (e_range (u_of P)) as Hu. rewrite k_mul_nonneg by apply Hk.
  assert (e (RFC7748.mult k (Zmod.to_Z (u_of P)) 255) = u_of (times (Z.to_nat k) P)) as E.
  { destruct (fp_eq_dec (Zmod.mul P.2 P.2) Zmod.one) as [Hs|Hs].
    - rewrite (u_of_small P Hs). change (Zmod.to_Z Zmod.zero) with 0. rewrite mult_zero. symmetry. apply u_of_small.
      exact (small_smul _ _ _ _ _ _ _ _ fp_field fp_eq_dec _ _ fp_two fp_i fp_d _ P HP Hs).
    - exact (mult_times P k _ Hk Hu HP Hs (e_surj _)). }
  rewrite <- E, to_Z_e. symmetry. apply Z.mod_small, mult_range.
Qed.

Lemma public_key_point a : is_bytes a -> length a = 32%nat ->
  crypto_x25519_public_key a = u_bytes (k_mul (RFC7748.clamp (le_val a)) base).
Proof.
  intros Ha La. rewrite <- (x25519_point a base Ha La base_on_curve). unfold crypto_x25519_public_key. f_equal.
Qed.

Lemma clamp_8 b : RFC7748.clamp b mod 8 = 0.
Proof. unfold RFC7748.clamp. zlia. Qed.

Lemma dirty_cleared b a : k_mul (RFC7748.clamp b) (dirty_point a) = k_mul (RFC7748.clamp b) (k_mul (RFC7748.clamp a) base).
Proof.
  unfold dirty_point. pose proof base_on_curve as HB. pose proof lop_on_curve as HL.
  rewrite (k_mul_distr _ _ _ (on_c_mul _ base HB) (on_c_mul _ lop HL)). rewrite <- (k_mul_mul _ _ lop HL).
  rewrite (lop_mod _ 0), k_mul_0; [apply p_add_zero|]. pose proof (clamp_8 b) as H8. set (k := RFC7748.clamp b) in *. clearbody k.
  rewrite Z.mul_mod, H8 by lia. reflexivity.
Qed.

(** ** The contract *)

(** C24. Both versions of the dirty key are the same function, and the X25519 secret derived
    from a dirty public key is the one derived from the clean key, for all 32-byte secrets:
    the low-order component is there and X25519 removes it. *)
Theorem dirty_keys_compatible a b : is_bytes a -> length a = 32%nat -> is_bytes b -> length b = 32%nat ->
  crypto_x25519_dirty_small a = crypto_x25519_dirty_fast a /\
  crypto_x25519 b (crypto_x25519_dirty_fast a) = crypto_x25519 b (crypto_x25519_public_key a).
Proof.
  intros Ha La Hb Lb. rewrite (dirty_small_spec a Ha La), (dirty_fast_spec a Ha La). split; [exact eq_refl|].
  rewrite (public_key_point a Ha La). rewrite (x25519_point b _ Hb Lb (on_c_dirty _)), (x25519_point b _ Hb Lb (on_c_mul _ base base_on_curve)).
  by rewrite dirty_cleared.
Qed.

(** Two secrets. *)
Lemma dirty_keys_compatible_witness :
  let a := replicate 32 5 in let b := replicate 32 6 in
  crypto_x25519_dirty_small a = crypto_x25519_dirty_fast a /\
  crypto_x25519 b (crypto_x25519_dirty_fast a) = crypto_x25519 b (crypto_x25519_public_key a).
Proof.
  intros a b. apply (dirty_keys_compatible a b); try reflexivity; apply (bool_decide_unpack _); vm_compute; exact I.
Defined.
