(* ===== verification/Window.v ===== *)
(** * Sliding windows and the verification equation (library/crypto/monocypher.c)

    [slide_init] and [slide_step], which cut a scalar into odd signed digits from left to
    right, and [crypto_eddsa_check_equation], which uses two of them at once. *)

From Stdlib Require Import Zmod.
From S2P Require Import Prelude Monocypher Scalar Prime25519 Field25519 Curve25519 Edwards Extended Agreement Ge BasePoint.

(** ** The code *)

Record slide_ctx := mkSlide { next_index : Z; next_digit : Z; next_check : Z }.

Definition i8 (x : Z) : Z := (x + 128) mod 256 - 128.
Definition i16 (x : Z) : Z := (x + 32768) mod 65536 - 32768.

(** [while (i > 0 && scalar_bit(scalar, i) == 0) { i--; }] *)
Fixpoint slide_top (scalar : list Z) (i : nat) : Z :=
  match i with
  | O => 0
  | S j => if scalar_bit scalar (Z.of_nat i) =? 0 then slide_top scalar j else Z.of_nat i
  end.

Definition slide_init (scalar : list Z) : slide_ctx :=
  let i := slide_top scalar 252 in
  mkSlide (-1) (-1) (u8 (i + 1)).

(** The digit of the window of [w] bits below and including [i], and the log of its smallest bit. *)
Definition window_value (scalar : list Z) (i w : Z) : Z :=
  let v := - Z.shiftl (scalar_bit scalar i) (w - 1) in
  let v := fold_left (fun v j => v + Z.shiftl (scalar_bit scalar (i - (w - 1) + Z.of_nat j)) (Z.of_nat j)) (seq 0 (Z.to_nat (w - 1))) v in
  v + scalar_bit scalar (i - w).

Definition window_shift (v : Z) : Z :=
  let lsb := Z.land v (Z.lnot v + 1) in
  Z.lor (Z.lor (Z.shiftl (Z.b2z (negb (Z.land lsb 0xAA =? 0))) 0) (Z.shiftl (Z.b2z (negb (Z.land lsb 0xCC =? 0))) 1))
    (Z.shiftl (Z.b2z (negb (Z.land lsb 0xF0 =? 0))) 2).

Definition slide_step (ctx : slide_ctx) (width i : Z) (scalar : list Z) : slide_ctx * Z :=
  let ctx :=
    if i =? next_check ctx then
      if scalar_bit scalar i =? scalar_bit scalar (i - 1) then
        mkSlide (next_index ctx) (next_digit ctx) (u8 (next_check ctx - 1))
      else
        let w := Z.min width (i + 1) in
        let v := window_value scalar i w in
        let s := window_shift v in
        mkSlide (i16 (i - (w - 1) + s)) (i8 (Z.shiftr v s)) (u8 (next_check ctx - u8 w))
    else ctx in
  (ctx, if i =? next_index ctx then next_digit ctx else 0).

Definition P_W_WIDTH : Z := 3.
Definition B_W_WIDTH : Z := 5.
Definition P_W_SIZE : Z := Z.shiftl 1 (P_W_WIDTH - 2).

(** The table of odd multiples of a point. *)
Definition odd_multiples (minus_A : ge) : list ge_cached :=
  let minus_A2 := ge_double minus_A in
  fold_left (fun lutA i =>
    let tmp := ge_add minus_A2 (nth (i - 1) lutA (mkCached [] [] [] [])) in
    lutA ++ [ge_cache tmp]) (seq 1 (Z.to_nat P_W_SIZE - 1)) [ge_cache minus_A].

Definition cached_entry (lut : list ge_cached) (j : Z) : ge_cached := nth (Z.to_nat j) lut (mkCached [] [] [] []).

(** [while (i >= 0)] with [i = n - 1] *)
Fixpoint equation_loop (lutA : list ge_cached) (h s : list Z) (n : nat) (h_slide s_slide : slide_ctx) (sum : ge) : ge :=
  match n with
  | O => sum
  | S n' =>
      let i := Z.of_nat n' in
      let sum := ge_double sum in
      let '(h_slide, h_digit) := slide_step h_slide P_W_WIDTH i h in
      let '(s_slide, s_digit) := slide_step s_slide B_W_WIDTH i s in
      let sum := if 0 <? h_digit then ge_add sum (cached_entry lutA (Z.quot h_digit 2)) else sum in
      let sum := if h_digit <? 0 then ge_sub sum (cached_entry lutA (Z.quot (- h_digit) 2)) else sum in
      let sum := if 0 <? s_digit then ge_madd sum (table_entry b_window (Z.quot s_digit 2)) else sum in
      let sum := if s_digit <? 0 then ge_msub sum (table_entry b_window (Z.quot (- s_digit) 2)) else sum in
      equation_loop lutA h s n' h_slide s_slide sum
  end.

Definition zero_point : list Z := 1 :: replicate 31 0.

Definition crypto_eddsa_check_equation (signature public_key h : list Z) : Z :=
  let s := take 32 (drop 32 signature) in
  let s32 := load32_le_buf s 0 8 in
  match ge_frombytes_neg_vartime public_key with
  | None => -1
  | Some minus_A =>
      match ge_frombytes_neg_vartime (take 32 signature) with
      | None => -1
      | Some minus_R =>
          if negb (is_above_l s32 =? 0) then -1
          else
            let lutA := odd_multiples minus_A in
            let h_slide := slide_init h in
            let s_slide := slide_init s in
            let i := Z.max (next_check h_slide) (next_check s_slide) in
            let sum := ge_zero in
            let sum := equation_loop lutA h s (Z.to_nat (i + 1)) h_slide s_slide sum in
            let cached := ge_cache minus_R in
            let sum := ge_add sum cached in
            let sum := ge_double sum in
            let sum := ge_double sum in
            let sum := ge_double sum in
            let check := ge_tobytes sum in
            crypto_verify32 check zero_point
      end
  end.

(** ** Recoding

    [bitz S t] is bit [t] of [S], 0 for a negative [t]; [hi S i] is what the digits at
    positions [i] and above add up to, in units of 2^i. *)

Definition bitz (S t : Z) : Z := if t <? 0 then 0 else Z.b2z (Z.testbit S t).
Definition hi (S i : Z) : Z := S / 2 ^ i + bitz S (i - 1).

Lemma scalar_bitz s t : is_bytes s -> scalar_bit s t = bitz (le_val s) t.
Proof.
  intros Hs. unfold bitz. destruct (Z.ltb_spec t 0) as [H|H]; [|by apply scalar_bit_sound].
  unfold scalar_bit. by rewrite (proj2 (Z.ltb_lt t 0) H).
Qed.

Lemma bitz_01 S t : bitz S t = 0 \/ bitz S t = 1.
Proof. unfold bitz. destruct (_ <? _); [auto|]. destruct (Z.testbit S t); auto. Qed.

Lemma div_bit S t : 0 <= t -> S / 2 ^ t = 2 * (S / 2 ^ (t + 1)) + bitz S t.
Proof.
  intros Ht. unfold bitz. rewrite (proj2 (Z.ltb_ge t 0)) by lia. rewrite Z.testbit_eqb, Z.pow_add_r by lia. change (2 ^ 1) with 2.
  rewrite <- Z.div_div by lia. set (q := S / 2 ^ t). destruct (Z.eqb_spec (q mod 2) 1); cbn [Z.b2z]; zlia.
Qed.

Lemma hi_step S i : 0 <= i -> hi S i = 2 * hi S (i + 1) + bitz S (i - 1) - bitz S i.
Proof. intros Hi. unfold hi. rewrite (div_bit S i) by done. replace (i + 1 - 1) with i by lia. lia. Qed.

Lemma hi_0 S : hi S 0 = S.
Proof. unfold hi, bitz. change (2 ^ 0) with 1. change (0 - 1 <? 0) with true. rewrite Z.div_1_r. lia. Qed.

Lemma mod_bit S a n : 0 <= a -> 0 <= n -> (S / 2 ^ a) mod 2 ^ (n + 1) = (S / 2 ^ a) mod 2 ^ n + 2 ^ n * bitz S (a + n).
Proof.
  intros Ha Hn. rewrite Z.pow_add_r, Z.rem_mul_r by lia. change (2 ^ 1) with 2.
  rewrite Z.div_div, <- Z.pow_add_r by lia. rewrite (div_bit S (a + n)) by lia.
  assert ((2 * (S / 2 ^ (a + n + 1)) + bitz S (a + n)) mod 2 = bitz S (a + n)) as ->; [|done].
  destruct (bitz_01 S (a + n)) as [-> | ->]; zlia.
Qed.

(** The bits below the sign. *)
Lemma window_sum S a n v : 0 <= a ->
  fold_left (fun v j => v + Z.shiftl (bitz S (a + Z.of_nat j)) (Z.of_nat j)) (seq 0 n) v =
  v + (S / 2 ^ a) mod 2 ^ Z.of_nat n.
Proof.
  intros Ha. induction n as [|n IH]; [cbn [seq fold_left]; change (2 ^ Z.of_nat 0) with 1; rewrite Z.mod_1_r; lia|].
  rewrite seq_S, fold_left_app, IH. cbn [fold_left Nat.add]. rewrite Z.shiftl_mul_pow2 by lia.
  replace (Z.of_nat (Datatypes.S n)) with (Z.of_nat n + 1) by lia. rewrite mod_bit by lia. ring.
Qed.

Lemma window_value_sum s i w : is_bytes s -> 1 <= w <= i + 1 ->
  let S := le_val s in window_value s i w = (S / 2 ^ (i - w + 1)) mod 2 ^ (w - 1) - 2 ^ (w - 1) * bitz S i + bitz S (i - w).
Proof.
  intros Hs Hw S. unfold window_value. rewrite !scalar_bitz by done. fold S.
  rewrite (fold_left_ext (fun _ => True) _ (fun v j => v + Z.shiftl (bitz S (i - w + 1 + Z.of_nat j)) (Z.of_nat j))); [| |by apply Forall_true].
  - rewrite window_sum by lia. rewrite Z.shiftl_mul_pow2, Z2Nat.id by lia. ring.
  - intros v j _. rewrite scalar_bitz by done. fold S. do 2 f_equal. f_equal. lia.
Qed.

Lemma window_value_hi s i w : is_bytes s -> 1 <= w <= i + 1 ->
  window_value s i w = hi (le_val s) (i - w + 1) - 2 ^ w * hi (le_val s) (i + 1).
Proof.
  intros Hs Hw. rewrite window_value_sum by done. set (S := le_val s). unfold hi.
  replace (i + 1 - 1) with i by lia. replace (i - w + 1 - 1) with (i - w) by lia.
  set (q := S / 2 ^ (i - w + 1)). rewrite (Z.div_mod q (2 ^ (w - 1))) at 2 by lia.
  assert (q / 2 ^ (w - 1) = S / 2 ^ i) as -> by (unfold q; rewrite Z.div_div, <- Z.pow_add_r by lia; do 2 f_equal; lia).
  rewrite (div_bit S i) by lia. replace (2 ^ w) with (2 * 2 ^ (w - 1)) by (rewrite <- Z.pow_succ_r by lia; f_equal; lia). ring.
Qed.

(** Where the two highest bits differ the value is not 0. *)
Lemma window_value_bound s i w : is_bytes s -> 1 <= w <= i + 1 -> bitz (le_val s) i <> bitz (le_val s) (i - 1) ->
  window_value s i w <> 0 /\ Z.abs (window_value s i w) <= 2 ^ (w - 1).
Proof.
  intros Hs Hw. rewrite window_value_sum by done. set (S := le_val s). intros Hb.
  pose proof (bitz_01 S i) as Bi. pose proof (bitz_01 S (i - 1)) as Bj. pose proof (bitz_01 S (i - w)) as Bw.
  destruct (decide (w = 1)) as [->|Hw1].
  - change (2 ^ (1 - 1)) with 1. rewrite Z.mod_1_r. lia.
  - replace (w - 1) with (w - 2 + 1) by lia. rewrite mod_bit by lia. replace (i - w + 1 + (w - 2)) with (i - 1) by lia.
    rewrite (Z.pow_add_r 2 (w - 2) 1) by lia. change (2 ^ 1) with 2. pose proof (Z.mod_pos_bound (S / 2 ^ (i - w + 1)) (2 ^ (w - 2)) ltac:(lia)) as Hr.
    set (r := _ mod _) in *. set (T := 2 ^ (w - 2)) in *. clearbody r T.
    destruct Bi as [E1|E1], Bj as [E2|E2], Bw as [E3|E3]; rewrite E1, E2 in Hb; rewrite E1, E2, E3; lia.
Qed.

(** The digit is odd and small, and its position is within the window. *)
Lemma window_digit v : v <> 0 -> -16 <= v <= 16 -> let s := window_shift v in
  v = Z.shiftr v s * 2 ^ s /\ Z.odd (Z.shiftr v s) = true /\ 0 <= s /\ i8 (Z.shiftr v s) = Z.shiftr v s /\
  2 ^ s <= Z.abs v /\ Z.abs (Z.shiftr v s) <= Z.abs v.
Proof.
  intros H0 Hv. cbv zeta.
  assert (forallb (fun v => (v =? 0) || ((v =? Z.shiftr v (window_shift v) * 2 ^ window_shift v) && Z.odd (Z.shiftr v (window_shift v)) &&
    (0 <=? window_shift v) && (i8 (Z.shiftr v (window_shift v)) =? Z.shiftr v (window_shift v)) && (2 ^ window_shift v <=? Z.abs v) &&
    (Z.abs (Z.shiftr v (window_shift v)) <=? Z.abs v))) (seqZ (-16) 33) = true) as H by (vm_compute; reflexivity).
  rewrite forallb_forall in H. specialize (H v). rewrite orb_true_iff, !andb_true_iff, !Z.eqb_eq, !Z.leb_le in H.
  destruct H as [?|H]; [apply list_elem_of_In, elem_of_seqZ; lia|done|tauto].
Qed.

(** ** The state of the recoding

    Before step [i] the digits given so far are worth [acc], in units of 2^(i+1); the bits
    above [c] are accounted for, by those digits and by the digit that waits. *)
Inductive slides (width S i : Z) (ctx : slide_ctx) (acc : Z) : Prop :=
| slides_idle c : next_check ctx = u8 c -> -1 <= c <= i -> next_index ctx = -1 \/ i < next_index ctx ->
    acc * 2 ^ (i + 1) = hi S (c + 1) * 2 ^ (c + 1) -> slides width S i ctx acc
| slides_pending c : next_check ctx = u8 c -> -1 <= c -> c < next_index ctx <= i ->
    Z.odd (next_digit ctx) = true -> Z.abs (next_digit ctx) <= 2 ^ (width - 1) ->
    acc * 2 ^ (i + 1) + next_digit ctx * 2 ^ next_index ctx = hi S (c + 1) * 2 ^ (c + 1) -> slides width S i ctx acc.

Definition digit_ok (width d : Z) : Prop := d = 0 \/ (Z.odd d = true /\ Z.abs d <= 2 ^ (width - 1)).

Lemma u8_eq a b : -1 <= a <= 253 -> 0 <= b <= 253 -> (b =? u8 a) = (b =? a).
Proof. intros Ha Hb. unfold u8. destruct (Z.eqb_spec b a), (Z.eqb_spec b (a mod 256)); zlia || done. Qed.

(** A step between two windows. *)
Lemma slide_step_wait width S i ctx acc s : 0 <= i <= 253 -> is_bytes s -> next_check ctx <> i ->
  slides width S i ctx acc ->
  let r := slide_step ctx width i s in slides width S (i - 1) r.1 (2 * acc + r.2) /\ digit_ok width r.2.
Proof.
  intros Hi Hs Hn H. unfold slide_step. rewrite (proj2 (Z.eqb_neq i (next_check ctx))) by lia. cbv zeta. cbn [fst snd].
  assert (2 ^ (i + 1) = 2 * 2 ^ i) as E2 by (rewrite Z.pow_add_r by lia; lia).
  destruct H as [c H1 H2 H3 H4|c H1 H2 H3 H4 H5 H6].
  - assert (c <> i) as Hc by (intros ->; apply Hn; rewrite H1; unfold u8; rewrite Z.mod_small; lia).
    rewrite (proj2 (Z.eqb_neq i (next_index ctx))) by lia. split; [|by left]. apply (slides_idle _ _ _ _ _ c); [done|lia|lia|].
    replace (i - 1 + 1) with i by lia. rewrite <- H4, E2. ring.
  - destruct (Z.eqb_spec i (next_index ctx)) as [E|E].
    + split; [|right; done]. apply (slides_idle _ _ _ _ _ c); [done|lia|lia|]. replace (i - 1 + 1) with i by lia. rewrite <- H6, E2, <- E. ring.
    + split; [|by left]. apply (slides_pending _ _ _ _ _ c); [done|lia|lia|done|done|]. replace (i - 1 + 1) with i by lia. rewrite <- H6, E2. ring.
Qed.

(** A step at which a window may start. *)
Lemma slide_step_check width i ctx acc s : 0 <= i <= 253 -> 1 <= width <= 5 -> is_bytes s -> next_check ctx = i ->
  slides width (le_val s) i ctx acc ->
  let r := slide_step ctx width i s in slides width (le_val s) (i - 1) r.1 (2 * acc + r.2) /\ digit_ok width r.2.
Proof.
  intros Hi Hwd Hs Hn H. set (S := le_val s) in *.
  assert (acc = hi S (i + 1) /\ (next_index ctx = -1 \/ i < next_index ctx)) as [-> Hx].
  { destruct H as [c H1 H2 H3 H4|c H1 H2 H3 H4 H5 H6]; rewrite Hn in H1.
    - assert (c = i) as -> by (unfold u8 in H1; zlia). split; [|done]. apply (Z.mul_cancel_r _ _ (2 ^ (i + 1))); [|done]. apply Z.pow_nonzero; lia.
    - exfalso. unfold u8 in H1. zlia. }
  unfold slide_step. rewrite Hn, Z.eqb_refl, !scalar_bitz by done. fold S. cbv zeta.
  assert (forall c, -1 <= c <= 253 -> u8 (i - (i - c)) = u8 c) as Hu by (intros; f_equal; lia).
  destruct (Z.eqb_spec (bitz S i) (bitz S (i - 1))) as [Eb|Eb]; cbn [fst snd next_index next_digit next_check].
  - rewrite (proj2 (Z.eqb_neq i (next_index ctx))) by lia. split; [|by left].
    apply (slides_idle _ _ _ _ _ (i - 1)); cbn [next_check next_index]; [done|lia|lia|].
    replace (i - 1 + 1) with i by lia. rewrite (hi_step S i) by lia. rewrite Eb. ring.
  - set (w := Z.min width (i + 1)). assert (1 <= w <= i + 1 /\ w <= width) as [Hw Hw'] by lia.
    destruct (window_value_bound s i w Hs Hw Eb) as [V0 V1]. pose proof (window_value_hi s i w Hs Hw) as V2. fold S in V2.
    set (v := window_value s i w) in *. clearbody v.
    assert (2 ^ (w - 1) <= 2 ^ (width - 1)) as P1 by (apply Z.pow_le_mono_r; lia).
    assert (2 ^ (width - 1) <= 2 ^ 4) as P2 by (apply Z.pow_le_mono_r; lia). change (2 ^ 4) with 16 in P2.
    destruct (window_digit v V0 ltac:(lia)) as (D1 & D2 & D3 & D4 & D5 & D6). set (t := window_shift v) in *. clearbody t.
    assert (t <= w - 1) as D7 by (apply (Z.pow_le_mono_r_iff 2); lia).
    assert (i16 (i - (w - 1) + t) = i - (w - 1) + t) as -> by (unfold i16; rewrite Z.mod_small; lia). rewrite D4.
    set (g := Z.shiftr v t) in *. clearbody g.
    assert (u8 (i - u8 w) = u8 (i - w)) as -> by (unfold u8; rewrite Zminus_mod_idemp_r; done).
    assert (g * 2 ^ (i - (w - 1) + t) = v * 2 ^ (i - w + 1)) as Hv.
    { rewrite D1. rewrite <- Z.mul_assoc, <- Z.pow_add_r by lia. do 2 f_equal. lia. }
    assert (2 ^ w * 2 ^ (i - w + 1) = 2 * 2 ^ i) as Hp.
    { rewrite <- Z.pow_add_r by lia. replace (w + (i - w + 1)) with (Z.succ i) by lia. by rewrite Z.pow_succ_r by lia. }
    assert (2 * hi S (i + 1) * 2 ^ i + v * 2 ^ (i - w + 1) = hi S (i - w + 1) * 2 ^ (i - w + 1)) as Hh.
    { rewrite V2, Z.mul_sub_distr_r. replace (2 ^ w * hi S (i + 1) * 2 ^ (i - w + 1)) with (hi S (i + 1) * (2 ^ w * 2 ^ (i - w + 1))) by ring.
      rewrite Hp. ring. }
    rewrite <- Hv in Hh. destruct (Z.eqb_spec i (i - (w - 1) + t)) as [E|E].
    + split; [|right; split; [done|lia]]. apply (slides_idle _ _ _ _ _ (i - w)); cbn [next_check next_index]; [done|lia|lia|].
      replace (i - 1 + 1) with i by lia. rewrite <- Hh, <- E. ring.
    + split; [|by left]. apply (slides_pending _ _ _ _ _ (i - w)); cbn [next_check next_index next_digit]; [done|lia|lia|done|lia|].
      replace (i - 1 + 1) with i by lia. rewrite <- Hh. ring.
Qed.

Lemma slide_step_sound width i ctx acc s : 0 <= i <= 253 -> 1 <= width <= 5 -> is_bytes s ->
  slides width (le_val s) i ctx acc ->
  let r := slide_step ctx width i s in slides width (le_val s) (i - 1) r.1 (2 * acc + r.2) /\ digit_ok width r.2.
Proof.
  intros Hi Hw Hs H. destruct (decide (next_check ctx = i)); [by apply slide_step_check|by apply slide_step_wait].
Qed.

Lemma slide_top_spec s n : is_bytes s -> le_val s < 2 ^ (Z.of_nat n + 1) ->
  let t := slide_top s n in 0 <= t <= Z.of_nat n /\ le_val s < 2 ^ (t + 1).
Proof.
  intros Hs. induction n as [|n IH]; intros Hv; [split; [done|exact Hv]|]. cbn [slide_top].
  rewrite scalar_bitz by done. destruct (Z.eqb_spec (bitz (le_val s) (Z.of_nat (S n))) 0) as [E|E]; [|split; [lia|exact Hv]].
  destruct IH as [H1 H2]; [|split; [lia|done]]. pose proof (le_val_range s Hs) as [H0 _].
  pose proof (div_bit (le_val s) (Z.of_nat (S n)) ltac:(lia)) as Hd. rewrite E in Hd.
  rewrite (Z.div_small _ (2 ^ (Z.of_nat (S n) + 1))) in Hd by done.
  apply Z.div_small_iff in Hd; [|lia]. replace (Z.of_nat n + 1) with (Z.of_nat (S n)) by lia. lia.
Qed.

Lemma slide_init_sound width s i : is_bytes s -> le_val s < 2 ^ 253 ->
  0 <= next_check (slide_init s) <= 253 /\
  (next_check (slide_init s) <= i -> slides width (le_val s) i (slide_init s) 0).
Proof.
  intros Hs Hv. destruct (slide_top_spec s 252 Hs Hv) as [H1 H2]. unfold slide_init. cbv zeta. set (t := slide_top s 252) in *.
  change (Z.of_nat 252) with 252 in H1. clearbody t. cbn [next_check]. assert (u8 (t + 1) = t + 1) as E by (unfold u8; rewrite Z.mod_small; lia).
  split; [lia|]. intros Hi. apply (slides_idle _ _ _ _ _ (t + 1)); cbn [next_check next_index]; [done|lia|lia|].
  pose proof (le_val_range s Hs) as [H0 _]. pose proof (Z.pow_lt_mono_r 2 (t + 1) (t + 1 + 1) ltac:(lia) ltac:(lia) ltac:(lia)) as Hm.
  unfold hi. rewrite Z.div_small by lia. replace (t + 1 + 1 - 1) with (t + 1) by lia.
  pose proof (div_bit (le_val s) (t + 1) ltac:(lia)) as Hd. rewrite !Z.div_small in Hd by lia. lia.
Qed.

Lemma slides_end width S ctx acc : slides width S (-1) ctx acc -> acc = S.
Proof.
  intros [c H1 H2 H3 H4|c H1 H2 H3 H4 H5 H6]; [|lia]. assert (c = -1) as -> by lia.
  change (-1 + 1) with 0 in H4. rewrite hi_0 in H4. change (2 ^ 0) with 1 in H4. lia.
Qed.

(** An odd digit [d] is entry [d / 2] of a table of odd multiples. *)
Lemma digit_index width d : digit_ok width d -> 0 < d -> 0 <= Z.quot d 2 /\ 2 * (2 * Z.quot d 2 + 1) <= 2 * 2 ^ (width - 1) /\ 2 * Z.quot d 2 + 1 = d.
Proof.
  intros [->|[Ho Hd]] Hp; [lia|]. rewrite Z.quot_div_nonneg by lia. apply Zodd_bool_iff, Zodd_ex_iff in Ho as [m ->]. zlia.
Qed.
Lemma digit_neg width d : digit_ok width d -> digit_ok width (- d).
Proof. intros [->|[Ho Hd]]; [by left|right]. by rewrite Z.odd_opp, Z.abs_opp. Qed.

(** ** The loop *)

#[local] Opaque ge_double ge_add ge_sub ge_madd ge_msub k_mul slide_step b_window.

(** [a] times [M] plus [b] times the base point. *)
Definition lin (M : point) (a b : Z) : point := p_add (k_mul a M) (k_mul b base).

Lemma on_c_lin M a b : on_c M -> on_c (lin M a b).
Proof. intros H. apply on_c_add; apply on_c_mul; [done|apply base_on_curve]. Qed.
Lemma lin_add M a b a' b' : on_c M -> p_add (lin M a b) (lin M a' b') = lin M (a + a') (b + b').
Proof.
  intros H. unfold lin. pose proof base_on_curve. rewrite p_add_swap, <- !k_mul_add by auto using on_c_mul. done.
Qed.
Lemma lin_double M a b : on_c M -> p_add (lin M a b) (lin M a b) = lin M (2 * a) (2 * b).
Proof. intros H. rewrite lin_add by done. f_equal; lia. Qed.
Lemma lin_left M a b d : on_c M -> p_add (lin M a b) (k_mul d M) = lin M (a + d) b.
Proof.
  intros H. replace (k_mul d M) with (lin M d 0) by (unfold lin; rewrite k_mul_0; apply p_add_zero).
  rewrite lin_add by done. f_equal. lia.
Qed.
Lemma lin_right M a b d : on_c M -> p_add (lin M a b) (k_mul d base) = lin M a (b + d).
Proof.
  intros H. replace (k_mul d base) with (lin M 0 d) by (unfold lin; rewrite k_mul_0, p_add_comm; apply p_add_zero).
  rewrite lin_add by done. f_equal. lia.
Qed.

Section loop.
Context (M : point) (HM : on_c M) (lutA : list ge_cached).
Hypothesis lut_ok : forall j, 0 <= j < 2 -> cached_rep (cached_entry lutA j) (k_mul (2 * j + 1) M).

Lemma add_h_digit sum a b d : digit_ok P_W_WIDTH d -> ge_rep sum (lin M a b) ->
  let sum := if 0 <? d then ge_add sum (cached_entry lutA (Z.quot d 2)) else sum in
  let sum := if d <? 0 then ge_sub sum (cached_entry lutA (Z.quot (- d) 2)) else sum in
  ge_rep sum (lin M (a + d) b).
Proof.
  intros Hd Hs. cbv zeta. change (2 ^ (P_W_WIDTH - 1)) with 4. destruct (Z.ltb_spec 0 d) as [H|H].
  - rewrite (proj2 (Z.ltb_ge d 0)) by lia. destruct (digit_index _ _ Hd H) as (D1 & D2 & D3). change (2 ^ (P_W_WIDTH - 1)) with 4 in D2.
    rewrite <- lin_left by done. apply ge_add_rep; [done|]. rewrite <- D3 at 2. apply lut_ok. lia.
  - destruct (Z.ltb_spec d 0) as [H'|H'].
    + destruct (digit_index _ _ (digit_neg _ _ Hd) ltac:(lia)) as (D1 & D2 & D3). change (2 ^ (P_W_WIDTH - 1)) with 4 in D2.
      rewrite <- lin_left by done. replace d with (- (2 * Z.quot (- d) 2 + 1)) at 2 by lia. rewrite k_mul_opp.
      apply ge_sub_rep; [done|]. apply lut_ok. lia.
    + replace d with 0 by lia. by rewrite Z.add_0_r.
Qed.

Lemma add_s_digit sum a b d : digit_ok B_W_WIDTH d -> ge_rep sum (lin M a b) ->
  let sum := if 0 <? d then ge_madd sum (table_entry b_window (Z.quot d 2)) else sum in
  let sum := if d <? 0 then ge_msub sum (table_entry b_window (Z.quot (- d) 2)) else sum in
  ge_rep sum (lin M a (b + d)).
Proof.
  intros Hd Hs. cbv zeta. destruct (Z.ltb_spec 0 d) as [H|H].
  - rewrite (proj2 (Z.ltb_ge d 0)) by lia. destruct (digit_index _ _ Hd H) as (D1 & D2 & D3). change (2 ^ (B_W_WIDTH - 1)) with 16 in D2.
    rewrite <- lin_right by done. apply ge_madd_rep; [done|]. rewrite <- D3 at 2. apply window_entry. lia.
  - destruct (Z.ltb_spec d 0) as [H'|H'].
    + destruct (digit_index _ _ (digit_neg _ _ Hd) ltac:(lia)) as (D1 & D2 & D3). change (2 ^ (B_W_WIDTH - 1)) with 16 in D2.
      rewrite <- lin_right by done. replace d with (- (2 * Z.quot (- d) 2 + 1)) at 2 by lia. rewrite k_mul_opp.
      apply ge_msub_rep; [done|]. apply window_entry. lia.
    + replace d with 0 by lia. by rewrite Z.add_0_r.
Qed.

Lemma equation_loop_rep h s n h_slide s_slide sum a b : is_bytes h -> is_bytes s -> (n <= 254)%nat ->
  slides P_W_WIDTH (le_val h) (Z.of_nat n - 1) h_slide a -> slides B_W_WIDTH (le_val s) (Z.of_nat n - 1) s_slide b ->
  ge_rep sum (lin M a b) -> ge_rep (equation_loop lutA h s n h_slide s_slide sum) (lin M (le_val h) (le_val s)).
Proof.
  intros Hh Hs. revert h_slide s_slide sum a b. induction n as [|n IH]; intros h_slide s_slide sum a b Hn Sh Ss Hr.
  - change (Z.of_nat 0 - 1) with (-1) in *. by rewrite <- (slides_end _ _ _ _ Sh), <- (slides_end _ _ _ _ Ss).
  - cbn [equation_loop]. replace (Z.of_nat (S n) - 1) with (Z.of_nat n) in * by lia.
    pose proof (ge_double_rep _ _ Hr) as Hd. rewrite lin_double in Hd by done.
    destruct (slide_step_sound P_W_WIDTH (Z.of_nat n) h_slide a h ltac:(lia) ltac:(unfold P_W_WIDTH; lia) Hh Sh) as [Sh' Dh].
    destruct (slide_step_sound B_W_WIDTH (Z.of_nat n) s_slide b s ltac:(lia) ltac:(unfold B_W_WIDTH; lia) Hs Ss) as [Ss' Ds].
    destruct (slide_step h_slide P_W_WIDTH (Z.of_nat n) h) as [h_slide' dh]. destruct (slide_step s_slide B_W_WIDTH (Z.of_nat n) s) as [s_slide' ds].
    cbn [fst snd] in *. eapply IH; [lia|exact Sh'|exact Ss'|]. apply add_s_digit; [done|]. by apply add_h_digit.
Qed.
End loop.

Lemma odd_multiples_rep g M : ge_rep g M -> forall j, 0 <= j < 2 -> cached_rep (cached_entry (odd_multiples g) j) (k_mul (2 * j + 1) M).
Proof.
  intros Hg j Hj. pose proof (rep_on _ _ Hg) as HM. unfold odd_multiples. change (seq 1 (Z.to_nat P_W_SIZE - 1)) with [1%nat]. cbn [fold_left].
  assert (j = 0 \/ j = 1) as [-> | ->] by lia.
  - change (2 * 0 + 1) with 1. rewrite k_mul_1. by apply ge_cache_rep.
  - change (2 * 1 + 1) with (2 * 1 + 1). rewrite k_mul_add, k_mul_double, k_mul_1 by done.
    apply ge_cache_rep, ge_add_rep; [by apply ge_double_rep|by apply ge_cache_rep].
Qed.

(** ** The equation *)

Lemma encode_zero P : on_c P -> encode P = zero_point <-> P = p_zero.
Proof.
  intros HP. assert (encode p_zero = zero_point) as E0.
  { unfold encode, p_zero, pzero. cbn [fst snd]. unfold parity. change (Zmod.to_Z Zmod.one) with 1. change (Zmod.to_Z Zmod.zero) with 0. reflexivity. }
  split; [|by intros ->]. intros E. apply (decodes_unique zero_point); [rewrite <- E|rewrite <- E0]; apply decodes_encode; [done|apply on_c_zero].
Qed.

Lemma times8 P : on_c P -> p_add (p_add (p_add P P) (p_add P P)) (p_add (p_add P P) (p_add P P)) = k_mul 8 P.
Proof.
  intros H. change 8 with (2 * (2 * (2 * 1))). by rewrite !k_mul_double, k_mul_1 by done.
Qed.

Lemma opp_mul h A : on_c A -> k_mul h (p_opp A) = p_opp (k_mul h A).
Proof. intros H. rewrite <- (k_mul_1 (p_opp A)). rewrite <- (k_mul_1 A) at 1. rewrite <- k_mul_opp, k_mul_1. rewrite <- !k_mul_mul, <- k_mul_opp by done. f_equal. lia. Qed.

(** What the signature stands for: the equation multiplied by the cofactor. *)
Definition equation (s h : Z) (A R : point) : Prop :=
  k_mul 8 (p_add (p_add (k_mul s base) (p_opp (k_mul h A))) (p_opp R)) = p_zero.

Lemma check_equation_value g A gr R h s : is_bytes h -> is_bytes s -> le_val h < 2 ^ 253 -> le_val s < 2 ^ 253 ->
  on_c A -> ge_rep g (p_opp A) -> ge_rep gr (p_opp R) ->
  let i := Z.max (next_check (slide_init h)) (next_check (slide_init s)) in
  let sum := equation_loop (odd_multiples g) h s (Z.to_nat (i + 1)) (slide_init h) (slide_init s) ge_zero in
  let sum := ge_add sum (ge_cache gr) in
  ge_tobytes (ge_double (ge_double (ge_double sum))) = encode (k_mul 8 (p_add (p_add (k_mul (le_val s) base) (p_opp (k_mul (le_val h) A))) (p_opp R))).
Proof.
  intros Hh Hs Lh Ls HA Hg Hr i sum0. pose proof (rep_on _ _ Hg) as HM. pose proof (rep_on _ _ Hr) as HR.
  destruct (slide_init_sound P_W_WIDTH h i Hh Lh) as [I1 I2]. destruct (slide_init_sound B_W_WIDTH s i Hs Ls) as [J1 J2].
  assert (ge_rep sum0 (lin (p_opp A) (le_val h) (le_val s))) as H0.
  { eapply (equation_loop_rep _ HM _ (odd_multiples_rep _ _ Hg)); [done|done|lia| | |].
    - replace (Z.of_nat (Z.to_nat (i + 1)) - 1) with i by lia. apply I2. lia.
    - replace (Z.of_nat (Z.to_nat (i + 1)) - 1) with i by lia. apply J2. lia.
    - unfold lin. rewrite !k_mul_0, p_add_zero. apply ge_zero_rep. }
  clearbody sum0. pose proof (ge_add_rep _ _ _ _ H0 (ge_cache_rep _ _ Hr)) as H1. cbv zeta.
  rewrite (ge_tobytes_rep _ _ (ge_double_rep _ _ (ge_double_rep _ _ (ge_double_rep _ _ H1)))). f_equal.
  rewrite times8 by (apply on_c_add; [by apply on_c_lin|done]). unfold lin. do 2 f_equal. rewrite p_add_comm, opp_mul by done. done.
Qed.

(** [crypto_eddsa_check_equation] accepts exactly when S is below the order, both points can be decoded, and the
    equation holds. *)
Lemma check_equation_spec sig pk h :
  is_bytes sig -> length sig = 64%nat -> is_bytes pk -> length pk = 32%nat -> is_bytes h -> le_val h < 2 ^ 253 ->
  let r := crypto_eddsa_check_equation sig pk h in let s := le_val (drop 32 sig) in
  (r = 0 \/ r = -1) /\
  (r = 0 <-> s < order /\ exists A R, decodes pk A /\ decodes (take 32 sig) R /\ equation s (le_val h) A R).
Proof.
  intros Hsig Lsig Hpk Lpk Hh Lh. cbv zeta. unfold crypto_eddsa_check_equation.
  assert (is_bytes (drop 32 sig)) as Hs by (by apply is_bytes_drop). assert (length (drop 32 sig) = 32%nat) as Ls by (rewrite length_drop; lia).
  rewrite (take_ge (drop 32 sig)) by lia. set (s := drop 32 sig) in *. clearbody s.
  assert (is_bytes (take 32 sig)) as Hr by (by apply is_bytes_take). assert (length (take 32 sig) = 32%nat) as Lr by (rewrite length_take; lia).
  set (rb := take 32 sig) in *. clearbody rb. clear sig Hsig Lsig.
  destruct (wval_load s 8 Hs ltac:(lia)) as (W1 & W2 & W3). rewrite take_ge in W3 by lia. rewrite is_above_l_spec, W3 by done.
  pose proof (ge_frombytes_rep pk Hpk Lpk) as DA. destruct (ge_frombytes_neg_vartime pk) as [g|].
  2: { split; [by right|]. split; [discriminate|]. intros (_ & A & R & H & _). by apply DA in H. }
  pose proof (ge_frombytes_rep rb Hr Lr) as DR. destruct (ge_frombytes_neg_vartime rb) as [gr|].
  2: { split; [by right|]. split; [discriminate|]. intros (_ & A & R & _ & H & _). by apply DR in H. }
  destruct DA as (A & DA & RA). destruct DR as (R & DR & RR). destruct (Z.leb_spec order (le_val s)) as [Ho|Ho].
  { change (negb (1 =? 0)) with true. cbv iota. split; [by right|]. split; [discriminate|]. lia. }
  change (negb (0 =? 0)) with false. cbv iota zeta.
  assert (order < 2 ^ 253) as Ho2 by reflexivity.
  rewrite (check_equation_value g A gr R h s Hh Hs Lh ltac:(lia) (proj1 DA) RA RR).
  rewrite crypto_verify32_spec; [|apply is_bytes_encode|apply (bool_decide_unpack _); vm_compute; exact I|apply length_encode|reflexivity].
  set (E := k_mul 8 _). assert (on_c E) as HE.
  { apply on_c_mul, on_c_add; [apply on_c_add; [apply on_c_mul, base_on_curve|apply on_c_opp, on_c_mul, DA]|apply on_c_opp, DR]. }
  pose proof (encode_zero E HE) as HZ. destruct (decide (encode E = zero_point)) as [Ez|Ez].
  - split; [by left|]. split; [|done]. intros _. split; [done|]. exists A, R. split; [done|]. split; [done|]. by apply HZ.
  - split; [by right|]. split; [discriminate|]. intros (_ & A' & R' & DA' & DR' & HEq). destruct Ez. apply HZ.
    unfold equation in HEq. rewrite <- (decodes_unique _ _ _ DA DA'), <- (decodes_unique _ _ _ DR DR') in HEq. exact HEq.
Qed.
