(* ===== verification/Eddsa.v ===== *)
(** * Signatures (library/crypto/monocypher.c)

    EdDSA over the Edwards curve with BLAKE2b, and the conversion of keys between EdDSA and
    X25519. *)

From Stdlib Require Import Zmod Field.
From S2P Require Import Prelude Monocypher Blake2b Scalar Prime25519 Field25519 Curve25519 Edwards Extended Agreement Ge BasePoint Comb Window.

(** ** The code *)

(** Returns the secret key, the public key and the wiped seed.  The first 32 bytes of the
    hash are trimmed in place. *)
Definition crypto_eddsa_key_pair (seed : list Z) : list Z * list Z * list Z :=
  let a := take 32 seed in
  let seed := replicate 32 0 in
  let secret_key := a in
  let a := crypto_blake2b 64 a in
  let a := crypto_eddsa_trim_scalar (take 32 a) ++ drop 32 a in
  let secret_key := secret_key ++ crypto_eddsa_scalarbase (take 32 a) in
  let public_key := drop 32 secret_key in
  (secret_key, public_key, seed).

Definition hash_reduce (a b c : list Z) : list Z :=
  let ctx := crypto_blake2b_init 64 in
  let ctx := crypto_blake2b_update ctx a in
  let ctx := crypto_blake2b_update ctx b in
  let ctx := crypto_blake2b_update ctx c in
  let hash := crypto_blake2b_final ctx in
  crypto_eddsa_reduce hash.

Definition crypto_eddsa_sign (secret_key message : list Z) : list Z :=
  let a := crypto_blake2b 64 (take 32 secret_key) in
  let a := crypto_eddsa_trim_scalar (take 32 a) ++ drop 32 a in
  let r := hash_reduce (drop 32 a) message [] in
  let R := crypto_eddsa_scalarbase r in
  let h := hash_reduce R (take 32 (drop 32 secret_key)) message in
  R ++ crypto_eddsa_mul_add h (take 32 a) r.

Definition crypto_eddsa_check (signature public_key message : list Z) : Z :=
  let h := hash_reduce (take 32 signature) public_key message in
  crypto_eddsa_check_equation signature public_key h.

Definition crypto_eddsa_to_x25519 (eddsa : list Z) : list Z :=
  let t2 := fe_frombytes eddsa in
  let t1 := fe_add fe_1 t2 in
  let t2 := fe_sub fe_1 t2 in
  let t2 := fe_invert t2 in
  let t1 := fe_mul t1 t2 in
  fe_tobytes t1.

Definition crypto_x25519_to_eddsa (x25519 : list Z) : list Z :=
  let t2 := fe_frombytes x25519 in
  let t1 := fe_sub t2 fe_1 in
  let t2 := fe_add t2 fe_1 in
  let t2 := fe_invert t2 in
  let t1 := fe_mul t1 t2 in
  fe_tobytes t1.

(** ** The scheme

    RFC 8032 with BLAKE2b as the hash function. *)

Definition H (m : list Z) : list Z := blake2b_rfc 64 m [].
Definition secret_scalar (seed : list Z) : Z := RFC7748.clamp (le_val (take 32 (H seed))).
Definition nonce (seed message : list Z) : Z := le_val (H (drop 32 (H seed) ++ message)) mod order.
Definition challenge (R A message : list Z) : Z := le_val (H (R ++ A ++ message)) mod order.
Definition public (seed : list Z) : list Z := encode (k_mul (secret_scalar seed) base).
Definition sign_rfc (seed message : list Z) : list Z :=
  let R := encode (k_mul (nonce seed message) base) in
  let k := challenge R (public seed) message in
  R ++ le_bytes 32 ((k * secret_scalar seed + nonce seed message) mod order).

Lemma H_bytes m : is_bytes (H m) /\ length (H m) = 64%nat.
Proof.
  unfold H, blake2b_rfc, digest_b. cbv zeta. set (h := F_b _ _ _ _). assert (length h = 8%nat) as Hh by apply length_F_b. clearbody h. split.
  - apply is_bytes_take, is_bytes_concat, Forall_fmap, Forall_true. intros. apply is_bytes_le_bytes.
  - rewrite length_take, (length_concat8 h Hh), Hh. done.
Qed.

#[local] Opaque blake2b_rfc crypto_blake2b_final crypto_blake2b_update crypto_blake2b_keyed_init k_mul ge_tobytes ge_scalarmult_base.

Lemma blake2b_H m : is_bytes m -> crypto_blake2b 64 m = H m.
Proof.
  intros Hm. pose proof (blake2b_pieces 64 [] [m]) as E. cbn [fold_left concat] in E. rewrite app_nil_r in E.
  apply E; [lia|constructor|cbn; lia|by repeat constructor].
Qed.

Lemma hash_reduce_spec a b c : is_bytes a -> is_bytes b -> is_bytes c ->
  let h := hash_reduce a b c in
  is_bytes h /\ length h = 32%nat /\ le_val h = le_val (H (a ++ b ++ c)) mod order.
Proof.
  intros Ha Hb Hc. cbv zeta. unfold hash_reduce, crypto_blake2b_init. pose proof (blake2b_pieces 64 [] [a; b; c]) as E. cbn [fold_left concat] in E.
  rewrite app_nil_r in E. rewrite (E ltac:(lia) (Forall_nil_2 _) ltac:(cbn; lia) ltac:(by repeat constructor)). fold (H (a ++ b ++ c)).
  destruct (H_bytes (a ++ b ++ c)) as [B L]. by apply eddsa_reduce_spec.
Qed.

#[local] Opaque hash_reduce H.

(** The expanded secret key of the code. *)
Lemma expand_spec seed : is_bytes seed -> length seed = 32%nat ->
  let a := crypto_blake2b 64 seed in
  let a := crypto_eddsa_trim_scalar (take 32 a) ++ drop 32 a in
  is_bytes (take 32 a) /\ length (take 32 a) = 32%nat /\ le_val (take 32 a) = secret_scalar seed /\ drop 32 a = drop 32 (H seed).
Proof.
  intros Hs Hl. cbv zeta. rewrite blake2b_H by done. destruct (H_bytes seed) as [B L].
  destruct (trim_scalar_sound (take 32 (H seed))) as (T1 & T2 & T3); [by apply is_bytes_take|rewrite length_take; lia|].
  rewrite take_app_le, take_ge, drop_app_ge, T2, Nat.sub_diag, drop_0 by lia. done.
Qed.

Lemma key_pair_spec seed : is_bytes seed -> length seed = 32%nat ->
  crypto_eddsa_key_pair seed = (seed ++ public seed, public seed, replicate 32 0).
Proof.
  intros Hs Hl. unfold crypto_eddsa_key_pair. rewrite (take_ge seed) by lia. destruct (expand_spec seed Hs Hl) as (E1 & E2 & E3 & _).
  cbv zeta in *. set (a := take 32 (_ ++ _)) in *. clearbody a. rewrite scalarbase_encode, E3 by done. fold (public seed).
  rewrite drop_app_ge, Hl, Nat.sub_diag, drop_0 by lia. done.
Qed.

Lemma public_bytes seed : is_bytes (public seed) /\ length (public seed) = 32%nat.
Proof. split; [apply is_bytes_encode|apply length_encode]. Qed.

Lemma sign_spec seed message : is_bytes seed -> length seed = 32%nat -> is_bytes message ->
  crypto_eddsa_sign (seed ++ public seed) message = sign_rfc seed message.
Proof.
  intros Hs Hl Hm. unfold crypto_eddsa_sign.
  assert (take 32 (seed ++ public seed) = seed) as -> by (by rewrite <- Hl, take_app_length).
  assert (drop 32 (seed ++ public seed) = public seed) as -> by (by rewrite <- Hl, drop_app_length).
  destruct (public_bytes seed) as [P1 P2]. rewrite (take_ge (public seed)) by lia.
  destruct (expand_spec seed Hs Hl) as (E1 & E2 & E3 & E4). cbv zeta in *. set (a := crypto_eddsa_trim_scalar _ ++ _) in *. clearbody a.
  rewrite E4. set (t := take 32 a) in *. clearbody t. destruct (H_bytes seed) as [B L].
  destruct (hash_reduce_spec (drop 32 (H seed)) message [] (is_bytes_drop _ _ B) Hm (Forall_nil_2 _)) as (R1 & R2 & R3). cbv zeta in *.
  set (r := hash_reduce (drop 32 (H seed)) message []) in *. clearbody r. rewrite app_nil_r in R3. fold (nonce seed message) in R3.
  rewrite (scalarbase_encode r R1 R2), R3. set (R := encode _). assert (is_bytes R) as HR by apply is_bytes_encode.
  destruct (hash_reduce_spec R (public seed) message HR P1 Hm) as (K1 & K2 & K3). cbv zeta in *. set (h := hash_reduce R (public seed) message) in *. clearbody h.
  fold (challenge R (public seed) message) in K3. unfold sign_rfc. cbv zeta. fold R. f_equal.
  destruct (eddsa_mul_add_spec h t r K1 E1 R1 K2 E2 R2) as (M1 & M2 & M3). rewrite K3, E3, R3 in M3.
  rewrite <- M3, <- M2. symmetry. exact (le_bytes_le_val _ M1).
Qed.

Lemma check_spec sig pk message : is_bytes sig -> length sig = 64%nat -> is_bytes pk -> length pk = 32%nat -> is_bytes message ->
  let r := crypto_eddsa_check sig pk message in
  let k := challenge (take 32 sig) pk message in let s := le_val (drop 32 sig) in
  (r = 0 \/ r = -1) /\
  (r = 0 <-> s < order /\ exists A R, decodes pk A /\ decodes (take 32 sig) R /\ equation s k A R).
Proof.
  intros Hs Ls Hp Lp Hm. cbv zeta. unfold crypto_eddsa_check.
  destruct (hash_reduce_spec (take 32 sig) pk message (is_bytes_take _ _ Hs) Hp Hm) as (K1 & K2 & K3). cbv zeta in K1, K2, K3.
  set (h := hash_reduce (take 32 sig) pk message) in *. clearbody h. fold (challenge (take 32 sig) pk message) in K3. rewrite <- K3.
  apply check_equation_spec; [exact Hs|exact Ls|exact Hp|exact Lp|exact K1|]. rewrite K3.
  assert (0 < order < 2 ^ 253) as [O1 O2] by (split; reflexivity). pose proof (Z.mod_pos_bound (le_val (H (take 32 sig ++ pk ++ message))) order O1).
  unfold challenge. lia.
Qed.

Lemma sign_length seed message : is_bytes (sign_rfc seed message) /\ length (sign_rfc seed message) = 64%nat /\
  take 32 (sign_rfc seed message) = encode (k_mul (nonce seed message) base).
Proof.
  unfold sign_rfc. cbv zeta. set (R := encode (k_mul (nonce seed message) base)). assert (length R = 32%nat) as LR by apply length_encode.
  split; [apply is_bytes_app; [apply is_bytes_encode|apply is_bytes_le_bytes]|].
  split; [rewrite length_app, LR, length_le_bytes; done|]. rewrite <- LR. apply take_app_length.
Qed.

(** The equation of a signature that was made with the key. *)
Lemma equation_holds a r k : equation ((k * a + r) mod order) k (k_mul a base) (k_mul r base).
Proof.
  unfold equation. pose proof base_on_curve as HB. rewrite (base_mod _ (k * a + r)) by (apply Z.mod_mod; vm_compute; discriminate).
  rewrite <- k_mul_mul, <- !k_mul_opp, <- !k_mul_add by exact HB. replace (k * a + r + - (k * a) + - r) with 0 by lia.
  rewrite k_mul_0. rewrite <- (k_mul_0 base), <- k_mul_mul by exact HB. by rewrite Z.mul_0_r.
Qed.

Lemma sign_check seed message : is_bytes seed -> length seed = 32%nat -> is_bytes message ->
  crypto_eddsa_check (sign_rfc seed message) (public seed) message = 0.
Proof.
  intros Hs Hl Hm. destruct (sign_length seed message) as (S1 & S2 & S3). destruct (public_bytes seed) as [P1 P2].
  apply (check_spec _ _ _ S1 S2 P1 P2 Hm). rewrite S3.
  assert (drop 32 (sign_rfc seed message) = le_bytes 32 ((challenge (encode (k_mul (nonce seed message) base)) (public seed) message * secret_scalar seed + nonce seed message) mod order)) as ->.
  { unfold sign_rfc. cbv zeta. rewrite <- (length_encode (k_mul (nonce seed message) base)) at 1. apply drop_app_length. }
  set (k := challenge _ _ _). set (a := secret_scalar seed). set (r := nonce seed message). clearbody k.
  assert (0 < order < 2 ^ 253) as [O1 O2] by (split; reflexivity). pose proof (Z.mod_pos_bound (k * a + r) order O1) as Hr.
  rewrite le_val_le_bytes. rewrite (Z.mod_small ((k * a + r) mod order)) by (change (256 ^ Z.of_nat 32) with (2 ^ 256); lia).
  split; [apply Hr|]. exists (k_mul a base), (k_mul r base). pose proof base_on_curve as HB.
  split; [apply decodes_encode, on_c_mul, HB|]. split; [apply decodes_encode, on_c_mul, HB|]. apply equation_holds.
Qed.

(** ** Keys for X25519 *)

#[local] Opaque fe_mul fe_sq fe_add fe_sub fe_invert fe_tobytes fe_frombytes.

Lemma frombytes_frep s : is_bytes s -> length s = 32%nat -> frep (fe_frombytes s) (e (le_val s mod 2 ^ 255)).
Proof. intros Hs Hl. destruct (fe_frombytes_sound s Hs Hl) as [Ht Hv]. split; [exact Ht|]. by apply e_feq. Qed.

Lemma to_x25519_spec s P : is_bytes s -> length s = 32%nat -> P.2 = e (le_val s mod 2 ^ 255) ->
  crypto_eddsa_to_x25519 s = le_bytes 32 (Zmod.to_Z (u_of P)).
Proof.
  intros Hs Hl Hy. pose proof (frombytes_frep s Hs Hl) as HY. rewrite <- Hy in HY. unfold crypto_eddsa_to_x25519. cbv zeta.
  set (t := fe_frombytes s) in *. clearbody t.
  assert (frep2 (fe_sub fe_1 t) (Zmod.sub Zmod.one P.2)) as H2 by frep_solve.
  destruct (frepl_invert _ _ (frep2_l _ _ H2)) as (w & Hw & W1 & W0).
  assert (frep2 (fe_add fe_1 t) (Zmod.add Zmod.one P.2)) as H1 by frep_solve.
  apply frep_tobytes. eapply frep_val; [exact (frep_mul _ _ _ _ (frep2_l _ _ H1) (frep_l _ _ Hw))|].
  exact (quotient_u _ _ _ _ _ _ _ _ fp_field fp_eq_dec P w W1 W0).
Qed.

Lemma encode_y P : P.2 = e (le_val (encode P) mod 2 ^ 255).
Proof.
  rewrite encode_val, (Z.mul_comm (2 ^ 255)), Z.mod_add, Z.mod_small by (apply e_range || lia). symmetry. apply e_surj.
Qed.

Lemma public_key_u k : 0 <= k < 2 ^ 255 -> Zmod.to_Z (u_of (k_mul k base)) = RFC7748.mult k 9 255.
Proof.
  intros Hk. rewrite k_mul_nonneg by apply Hk.
  rewrite <- (mult_times base k 9 Hk ltac:(lia) base_on_curve base_not_small (eq_sym base_u)), to_Z_e.
  apply Z.mod_small, mult_range.
Qed.

Lemma base_point_bytes : is_bytes base_point.
Proof. apply (bool_decide_unpack _). vm_compute. exact I. Qed.

Lemma eddsa_x25519_keys a : is_bytes a -> length a = 32%nat ->
  crypto_eddsa_to_x25519 (crypto_eddsa_scalarbase (crypto_eddsa_trim_scalar a)) = crypto_x25519_public_key a.
Proof.
  intros Ha La. destruct (trim_scalar_sound a Ha La) as (T1 & T2 & T3). rewrite scalarbase_encode, T3 by assumption.
  set (P := k_mul _ base). rewrite (to_x25519_spec _ P (is_bytes_encode P) (length_encode P) (encode_y P)). unfold P.
  rewrite public_key_u by apply clamp_range. unfold crypto_x25519_public_key.
  rewrite (crypto_x25519_sound a base_point Ha La base_point_bytes eq_refl). change (le_val base_point) with 9. unfold RFC7748.x25519. reflexivity.
Qed.

Lemma to_eddsa_spec P : P.2 <> Zmod.one ->
  crypto_x25519_to_eddsa (crypto_eddsa_to_x25519 (encode P)) = le_bytes 32 (Zmod.to_Z P.2).
Proof.
  intros Hn. rewrite (to_x25519_spec _ P (is_bytes_encode P) (length_encode P) (encode_y P)). set (s := le_bytes 32 _).
  pose proof (e_range (u_of P)) as Hu.
  assert (le_val s = Zmod.to_Z (u_of P)) as Es.
  { unfold s. rewrite le_val_le_bytes. apply Z.mod_small. change (256 ^ Z.of_nat 32) with (2 ^ 256). lia. }
  pose proof (frombytes_frep s (is_bytes_le_bytes _ _) (length_le_bytes _ _)) as HU.
  rewrite Es, Z.mod_small, e_surj in HU by exact Hu. unfold crypto_x25519_to_eddsa. cbv zeta. set (t := fe_frombytes s) in *. clearbody t s. clear Es.
  assert (Zmod.sub Zmod.one P.2 <> Zmod.zero) as Hz.
  { intros E. apply Hn. symmetry. apply (sub_zero _ _ _ _ _ _ _ _ fp_field). exact E. }
  destruct (frepl_invert (fe_add t fe_1) _ (frep2_l _ _ (frep_add _ _ _ _ HU frep_1))) as (v & Hv & V1 & _).
  assert (exists w, Zmod.mul (Zmod.sub Zmod.one P.2) w = Zmod.one /\ Zmod.mul (Zmod.add Zmod.one P.2) w = u_of P) as (w & W1 & W2).
  { exists (Zmod.inv (Zmod.sub Zmod.one P.2)). assert (Zmod.mul (Zmod.sub Zmod.one P.2) (Zmod.inv (Zmod.sub Zmod.one P.2)) = Zmod.one) as E.
    { pose proof (Finv_l fp_field _ Hz) as E. rewrite Zmod.mul_comm. exact E. }
    split; [exact E|]. exact (quotient_u _ _ _ _ _ _ _ _ fp_field fp_eq_dec P _ (fun _ => E) (fun E0 => match Hz E0 with end)). }
  rewrite <- W2 in HU, V1.
  apply frep_tobytes. eapply frep_val; [exact (frep_mul _ _ _ _ (frep2_l _ _ (frep_sub _ _ _ _ HU frep_1)) (frep_l _ _ Hv))|].
  exact (u_back _ _ _ _ _ _ _ _ fp_field fp_two _ _ _ W1 V1).
Qed.

(** ** The contract *)

(** C18. Signatures are complete: for every 32-byte seed and every message,
    [crypto_eddsa_check] accepts with the public key of [crypto_eddsa_key_pair] what
    [crypto_eddsa_sign] returns for its secret key; the seed is wiped. *)
Theorem eddsa_sign_then_check seed message : is_bytes seed -> length seed = 32%nat -> is_bytes message ->
  let '(secret_key, public_key, wiped) := crypto_eddsa_key_pair seed in
  wiped = replicate 32 0 /\ crypto_eddsa_check (crypto_eddsa_sign secret_key message) public_key message = 0.
Proof.
  intros Hs Hl Hm. rewrite (key_pair_spec seed Hs Hl), (sign_spec seed message Hs Hl Hm).
  split; [exact eq_refl|]. exact (sign_check seed message Hs Hl Hm).
Qed.

(** A seed and a message. *)
Lemma eddsa_sign_then_check_witness :
  let '(secret_key, public_key, wiped) := crypto_eddsa_key_pair (replicate 32 7) in
  wiped = replicate 32 0 /\ crypto_eddsa_check (crypto_eddsa_sign secret_key [1; 2; 3]) public_key [1; 2; 3] = 0.
Proof.
  apply (eddsa_sign_then_check (replicate 32 7) [1; 2; 3]); [|reflexivity|]; apply (bool_decide_unpack _); vm_compute; exact I.
Defined.

(** C19. [crypto_eddsa_check] returns 0 or -1, and 0 exactly when S is below the order L, the
    public key and the first half of the signature encode points A and R of the curve, and
    8 (S B - k A - R) = 0, where k is the BLAKE2b hash of R, A and the message modulo L. *)
Theorem eddsa_check_exact sig pk message : is_bytes sig -> length sig = 64%nat -> is_bytes pk -> length pk = 32%nat -> is_bytes message ->
  let r := crypto_eddsa_check sig pk message in
  let k := challenge (take 32 sig) pk message in let S := le_val (drop 32 sig) in
  (r = 0 \/ r = -1) /\
  (r = 0 <-> S < order /\ exists A R, decodes pk A /\ decodes (take 32 sig) R /\ equation S k A R).
Proof. apply check_spec. Qed.

(** A forgery of zeros. *)
Lemma eddsa_check_exact_witness :
  let sig := replicate 64 0 in let pk := replicate 32 0 in
  let r := crypto_eddsa_check sig pk [9] in
  (r = 0 \/ r = -1) /\
  (r = 0 <-> le_val (drop 32 sig) < order /\
     exists A R, decodes pk A /\ decodes (take 32 sig) R /\ equation (le_val (drop 32 sig)) (challenge (take 32 sig) pk [9]) A R).
Proof.
  intros sig pk. apply (eddsa_check_exact sig pk [9]); [|reflexivity| |reflexivity|]; apply (bool_decide_unpack _); vm_compute; exact I.
Defined.

(** C20. Key generation and signing are those of RFC 8032 with BLAKE2b: the public key is the
    encoding of the clamped hash of the seed times the base point, the signature that of the
    nonce times the base point followed by k a + r modulo L.  The combs, the tables of
    points and the Barrett reduction compute exactly that. *)
Theorem eddsa_sign_correct seed message : is_bytes seed -> length seed = 32%nat -> is_bytes message ->
  let '(secret_key, public_key, _) := crypto_eddsa_key_pair seed in
  secret_key = seed ++ public seed /\ public_key = public seed /\ crypto_eddsa_sign secret_key message = sign_rfc seed message.
Proof.
  intros Hs Hl Hm. rewrite (key_pair_spec seed Hs Hl). split; [exact eq_refl|]. split; [exact eq_refl|]. exact (sign_spec seed message Hs Hl Hm).
Qed.

(** The empty message. *)
Lemma eddsa_sign_correct_witness :
  let '(secret_key, public_key, _) := crypto_eddsa_key_pair (replicate 32 255) in
  secret_key = replicate 32 255 ++ public (replicate 32 255) /\ public_key = public (replicate 32 255) /\
  crypto_eddsa_sign secret_key [] = sign_rfc (replicate 32 255) [].
Proof.
  apply (eddsa_sign_correct (replicate 32 255) []); [|reflexivity|]; apply (bool_decide_unpack _); vm_compute; exact I.
Defined.

(** C21. Keys can be shared with X25519: for every 32-byte secret [crypto_eddsa_to_x25519] of
    the point that [crypto_eddsa_scalarbase] computes from the trimmed secret is its X25519
    public key; and [crypto_x25519_to_eddsa] gives back the coordinate y of every point that is
    not the neutral element. *)
Theorem eddsa_x25519_consistent a P : is_bytes a -> length a = 32%nat -> P.2 <> Zmod.one ->
  crypto_eddsa_to_x25519 (crypto_eddsa_scalarbase (crypto_eddsa_trim_scalar a)) = crypto_x25519_public_key a /\
  crypto_x25519_to_eddsa (crypto_eddsa_to_x25519 (encode P)) = le_bytes 32 (Zmod.to_Z P.2).
Proof. intros Ha La HP. split; [exact (eddsa_x25519_keys a Ha La)|exact (to_eddsa_spec P HP)]. Qed.

(** A secret and the base point. *)
Lemma eddsa_x25519_consistent_witness :
  crypto_eddsa_to_x25519 (crypto_eddsa_scalarbase (crypto_eddsa_trim_scalar (replicate 32 3))) = crypto_x25519_public_key (replicate 32 3) /\
  crypto_x25519_to_eddsa (crypto_eddsa_to_x25519 (encode base)) = le_bytes 32 (Zmod.to_Z base.2).
Proof.
  apply (eddsa_x25519_consistent (replicate 32 3) base); [apply (bool_decide_unpack _); vm_compute; exact I|reflexivity|].
  intros E. change Zmod.one with (e 1) in E. apply e_feq, feq_mod in E. vm_compute in E. discriminate E.
Defined.
