(* ===== verification/Aead.v ===== *)
(** * Authenticated encryption (src/wg_chacha20_neon.c, src/wg_crypto.c)

    [wg_aead_encrypt] and [wg_aead_decrypt] take the vector path where the build
    has one and Monocypher otherwise; both are compared with the construction of
    RFC 8439, section 2.8. *)

From S2P Require Import Prelude Neon ChaCha20 Poly1305 Monocypher.

(** What the 16-byte buffers of stack-allocated contexts hold before they are
    initialised. *)
Class Scratch := { scratch : list Z; scratch_length : length scratch = 16%nat }.

#[export] Instance zero_scratch : Scratch | 100 := {| scratch := replicate 16 0; scratch_length := eq_refl |}.

Definition WG_AEAD_TAG_LEN : Z := 16.

Definition build_nonce (counter : Z) : list Z :=
  [0; 0; 0; 0; u8 counter; u8 (shr64 counter 8); u8 (shr64 counter 16); u8 (shr64 counter 24);
   u8 (shr64 counter 32); u8 (shr64 counter 40); u8 (shr64 counter 48); u8 (shr64 counter 56)].

Section aead.
Context `{NeonBuild} `{Scratch}.

(** The updates and the final step both directions perform on the ciphertext. *)
Definition neon_tag (poly_key ad ct : list Z) : list Z :=
  let ad_len := Z.of_nat (length ad) in
  let ct_len := Z.of_nat (length ct) in
  let ad_pad := (16 - ad_len mod 16) mod 16 in
  let ct_pad := (16 - ct_len mod 16) mod 16 in
  let pad := replicate 16 0 in
  let sizes := store64_le ad_len ++ store64_le ct_len in
  let ctx := wg_poly1305_init scratch (take 32 poly_key) in
  let ctx :=
    if 0 <? ad_len then
      let ctx := wg_poly1305_update ctx ad in
      if 0 <? ad_pad then wg_poly1305_update ctx (take (Z.to_nat ad_pad) pad) else ctx
    else ctx in
  let ctx := wg_poly1305_update ctx ct in
  let ctx := if 0 <? ct_pad then wg_poly1305_update ctx (take (Z.to_nat ct_pad) pad) else ctx in
  let ctx := wg_poly1305_update ctx sizes in
  wg_poly1305_final ctx.

(** The result and what was written to [out], if anything. *)
Definition wg_aead_neon_encrypt (key : list Z) (counter : Z) (plaintext ad : list Z) : Z * option (list Z) :=
  if HAS_NEON then
    let nonce := build_nonce counter in
    let poly_key := wg_chacha20_block_neon key nonce 0 in
    let ct := wg_chacha20_neon plaintext key nonce 1 in
    (0, Some (ct ++ neon_tag poly_key ad ct))
  else (-1, None).

Definition wg_aead_neon_decrypt (key : list Z) (counter : Z) (ciphertext ad : list Z) : Z * option (list Z) :=
  if HAS_NEON then
    if Z.of_nat (length ciphertext) <? 16 then (-1, None)
    else
      let plaintext_len := (length ciphertext - 16)%nat in
      let mac := drop plaintext_len ciphertext in
      let ct := take plaintext_len ciphertext in
      let nonce := build_nonce counter in
      let poly_key := wg_chacha20_block_neon key nonce 0 in
      let computed_mac := neon_tag poly_key ad ct in
      let result := crypto_verify16 computed_mac mac in
      if result =? 0 then (result, Some (wg_chacha20_neon ct key nonce 1)) else (result, None)
  else (-1, None).

Definition wg_aead_encrypt (key : list Z) (counter : Z) (plaintext ad : list Z) : Z * option (list Z) :=
  if wg_chacha20_neon_available then wg_aead_neon_encrypt key counter plaintext ad
  else
    let nonce := build_nonce counter in
    let ctx := crypto_aead_init_ietf key nonce in
    let '(_, cipher_text, mac) := crypto_aead_write scratch ctx ad plaintext in
    (0, Some (cipher_text ++ mac)).

Definition wg_aead_decrypt (key : list Z) (counter : Z) (ciphertext ad : list Z) : Z * option (list Z) :=
  if Z.of_nat (length ciphertext) <? WG_AEAD_TAG_LEN then (-1, None)
  else if wg_chacha20_neon_available then wg_aead_neon_decrypt key counter ciphertext ad
  else
    let nonce := build_nonce counter in
    let plaintext_len := (length ciphertext - 16)%nat in
    let mac := drop plaintext_len ciphertext in
    let ctx := crypto_aead_init_ietf key nonce in
    let '(_, result, out) := crypto_aead_read scratch ctx mac ad (take plaintext_len ciphertext) in
    (result, out).
End aead.

(** ** RFC 8439, section 2.8 *)

Definition pad16 (x : list Z) : list Z := replicate ((16 - length x mod 16) mod 16) 0.

Definition mac_data (ad ct : list Z) : list Z :=
  ad ++ pad16 ad ++ ct ++ pad16 ct ++ le_bytes 8 (Z.of_nat (length ad)) ++ le_bytes 8 (Z.of_nat (length ct)).

Definition aead_tag_rfc (key nonce ad ct : list Z) : list Z :=
  poly1305_rfc (mac_data ad ct) (take 32 (chacha20_block_rfc key nonce 0)).

Definition aead_encrypt_rfc (key nonce ad plaintext : list Z) : list Z :=
  let ct := chacha20_rfc plaintext key nonce 1 in ct ++ aead_tag_rfc key nonce ad ct.

(** The WireGuard nonce: 32 zero bits and the 64-bit little-endian counter. *)
Definition wg_nonce (counter : Z) : list Z := replicate 4 0 ++ le_bytes 8 counter.

Definition wg_seal (key : list Z) (counter : Z) (ad plaintext : list Z) : list Z :=
  aead_encrypt_rfc key (wg_nonce counter) ad plaintext.

(** Lengths of one message: the block counter does not wrap. *)
Definition text_ok (p : list Z) : Prop := is_bytes p /\ Z.of_nat (length p) < 2 ^ 37.
Definition key_ok (k : list Z) : Prop := is_bytes k /\ length k = 32%nat.

#[global] Instance text_ok_dec p : Decision (text_ok p).
Proof. unfold text_ok; apply _. Defined.
#[global] Instance key_ok_dec k : Decision (key_ok k).
Proof. unfold key_ok; apply _. Defined.

Lemma build_nonce_le counter : build_nonce counter = wg_nonce counter.
Proof. unfold wg_nonce. rewrite <- store64_le_bytes. reflexivity. Qed.

Lemma is_bytes_wg_nonce counter : is_bytes (wg_nonce counter).
Proof. unfold wg_nonce. auto with wg_range. Qed.
Lemma length_wg_nonce counter : length (wg_nonce counter) = 12%nat.
Proof. unfold wg_nonce. rewrite length_app, length_le_bytes. done. Qed.

Lemma is_bytes_block_rfc key nonce c : is_bytes (chacha20_block_rfc key nonce c).
Proof. unfold chacha20_block_rfc. apply is_bytes_concat_le4. Qed.

Lemma otk_ok key nonce c : key_ok (take 32 (chacha20_block_rfc key nonce c)).
Proof.
  split; [apply is_bytes_take, is_bytes_block_rfc|]. rewrite length_take, length_block_rfc. done.
Qed.

#[local] Opaque chacha20_block_rfc chacha20_rfc poly1305_rfc wg_poly1305_init wg_poly1305_update
  wg_poly1305_final crypto_poly1305_init crypto_poly1305_update crypto_poly1305_final.

Lemma pad_length n : Z.to_nat ((16 - Z.of_nat n mod 16) mod 16) = ((16 - n mod 16) mod 16)%nat.
Proof.
  pose proof (Nat.mod_upper_bound n 16). change 16 with (Z.of_nat 16). rewrite <- (Nat2Z.inj_mod n 16).
  replace (Z.of_nat 16 - Z.of_nat (n mod 16)) with (Z.of_nat (16 - n mod 16)) by lia.
  rewrite <- (Nat2Z.inj_mod _ 16). apply Nat2Z.id.
Qed.

(** The optional padding piece. *)
Definition opt_piece (x : list Z) : list (list Z) := if (0 <? length x)%nat then [x] else [].

Lemma concat_opt_piece x : concat (opt_piece x) = x.
Proof. destruct x; [done|]. simpl. by rewrite app_nil_r. Qed.

Lemma pad_piece n :
  let p := (16 - Z.of_nat n mod 16) mod 16 in
  (0 <? p) = (0 <? (16 - n mod 16) mod 16)%nat /\
  take (Z.to_nat p) (replicate 16 0) = replicate ((16 - n mod 16) mod 16) (0 : Z).
Proof.
  cbv zeta. pose proof (Nat.mod_upper_bound (16 - n mod 16) 16). pose proof (pad_length n) as E.
  split; [|rewrite E, take_replicate; f_equal; lia].
  destruct (Z.ltb_spec 0 ((16 - Z.of_nat n mod 16) mod 16)), (Nat.ltb_spec 0 ((16 - n mod 16) mod 16)); try done; lia.
Qed.

Section correct.
Context `{NeonBuild} `{Scratch}.

Lemma mac_pieces (ad ct : list Z) :
  concat (opt_piece ad ++ opt_piece (pad16 ad) ++ [ct] ++ opt_piece (pad16 ct) ++
    [store64_le (Z.of_nat (length ad)) ++ store64_le (Z.of_nat (length ct))]) = mac_data ad ct.
Proof.
  rewrite !concat_app, !concat_opt_piece. cbn [concat]. rewrite !app_nil_r, !store64_le_bytes. done.
Qed.

Lemma pad16_bytes x : is_bytes (pad16 x).
Proof. apply is_bytes_replicate, is_u8_0. Qed.

Lemma opt_piece_bytes x : is_bytes x -> Forall is_bytes (opt_piece x).
Proof. unfold opt_piece. destruct (0 <? length x)%nat; repeat constructor; done. Qed.

Lemma mac_pieces_bytes ad ct :
  is_bytes ad -> is_bytes ct ->
  Forall is_bytes (opt_piece ad ++ opt_piece (pad16 ad) ++ [ct] ++ opt_piece (pad16 ct) ++
    [store64_le (Z.of_nat (length ad)) ++ store64_le (Z.of_nat (length ct))]).
Proof.
  intros. rewrite !Forall_app, !Forall_singleton. split_and!;
    auto using opt_piece_bytes, pad16_bytes with wg_range.
Qed.

Lemma neon_tag_rfc poly_key ad ct :
  is_bytes ad -> is_bytes ct -> key_ok (take 32 poly_key) ->
  neon_tag poly_key ad ct = poly1305_rfc (mac_data ad ct) (take 32 poly_key).
Proof.
  intros Ha Hc [Hk Hl].
  rewrite <- mac_pieces, <- (poly1305_pieces scratch) by (done || apply scratch_length || by apply mac_pieces_bytes).
  unfold neon_tag. destruct (pad_piece (length ad)) as [-> ->]. destruct (pad_piece (length ct)) as [-> ->].
  rewrite !fold_left_app. cbn [fold_left]. cbv zeta. unfold opt_piece, pad16. rewrite !length_replicate.
  destruct (0 <? (16 - length ct mod 16) mod 16)%nat; (destruct ad as [|b ad];
    [change ((16 - length [] mod 16) mod 16)%nat with 0%nat; reflexivity
    |assert ((0 <? Z.of_nat (length (b :: ad))) = true) as -> by (cbn [length]; apply Z.ltb_lt; lia);
     change (0 <? length (b :: ad))%nat with true;
     destruct (0 <? (16 - length (b :: ad) mod 16) mod 16)%nat; reflexivity]).
Qed.

Lemma gap_pad x : Z.of_nat (length x) < 2 ^ 64 -> replicate (Z.to_nat (gap (Z.of_nat (length x)) 16)) 0 = pad16 x.
Proof. intros. rewrite gap_16 by lia. rewrite pad_length. done. Qed.

Lemma fold_opt_piece x ctx : fold_left crypto_poly1305_update (opt_piece x) ctx = crypto_poly1305_update ctx x.
Proof. destruct x; [|done]. with_strategy transparent [crypto_poly1305_update] done. Qed.

Lemma lock_auth_rfc auth_key ad ct :
  is_bytes ad -> is_bytes ct -> Z.of_nat (length ad) < 2 ^ 64 -> Z.of_nat (length ct) < 2 ^ 64 -> key_ok auth_key ->
  lock_auth scratch auth_key ad ct = poly1305_rfc (mac_data ad ct) auth_key.
Proof.
  intros Ha Hc La Lc [Hk Hl].
  rewrite <- mac_pieces, <- (mono_poly1305_pieces scratch) by (done || apply scratch_length || by apply mac_pieces_bytes).
  unfold lock_auth. rewrite !gap_pad by done. rewrite !fold_left_app, !fold_opt_piece. reflexivity.
Qed.

Lemma ietf_counter counter : shl64 (load32_le (wg_nonce counter) 0) 32 = 0.
Proof.
  unfold wg_nonce. rewrite load32_le_app by (simpl; lia). reflexivity.
Qed.

Lemma nonce_word counter : load32_le (wg_nonce counter) 0 = 0.
Proof. unfold wg_nonce. rewrite load32_le_app by (simpl; lia). reflexivity. Qed.

(** The key stream of the fallback under a WireGuard nonce. *)
Lemma ietf_block key counter :
  key_ok key ->
  (crypto_chacha20_djb None 64 (take 32 key) (take 8 (drop 4 (wg_nonce counter))) 0).1
  = chacha20_block_rfc key (wg_nonce counter) 0.
Proof.
  intros [Hk Hl]. rewrite take_ge by lia.
  rewrite <- chacha20_djb_block by (done || lia || apply is_bytes_wg_nonce || apply length_wg_nonce).
  rewrite nonce_word. reflexivity.
Qed.

Lemma ietf_text key counter text :
  key_ok key -> text_ok text ->
  (crypto_chacha20_djb (Some text) (length text) (take 32 key) (take 8 (drop 4 (wg_nonce counter))) 1).1
  = chacha20_rfc text key (wg_nonce counter) 1.
Proof.
  intros [Hk Hl] [Ht Htl]. rewrite take_ge by lia.
  assert (Z.of_nat (length text / 64) < 2 ^ 31).
  { pose proof (Nat.div_mod_eq (length text) 64). lia. }
  rewrite <- chacha20_djb_rfc by (done || lia || apply is_bytes_wg_nonce || apply length_wg_nonce).
  rewrite nonce_word. reflexivity.
Qed.

Lemma text_ok_chacha key nonce c p : text_ok p -> text_ok (chacha20_rfc p key nonce c).
Proof. intros [Hp Hl]. split; [by apply is_bytes_chacha20_rfc|]. by rewrite length_chacha20_rfc. Qed.

(** Encryption is that of RFC 8439, in both builds. *)
Lemma encrypt_seal key counter p ad :
  key_ok key -> text_ok p -> text_ok ad ->
  wg_aead_encrypt key counter p ad = (0, Some (wg_seal key counter ad p)).
Proof.
  intros Hk Hp [Ha Hal]. pose proof (text_ok_chacha key (wg_nonce counter) 1 p Hp) as [Hc Hcl].
  unfold wg_aead_encrypt, wg_aead_neon_encrypt, wg_chacha20_neon_available.
  unfold wg_seal, aead_encrypt_rfc, aead_tag_rfc. rewrite build_nonce_le. destruct HAS_NEON.
  - rewrite chacha20_block_neon_rfc, wg_chacha20_neon_eq_rfc by (apply Hp || (unfold is_u32; lia)).
    rewrite neon_tag_rfc by (done || apply otk_ok). cbv zeta. match goal with |- ?a = ?b => constr_eq a b end. reflexivity.
  - unfold crypto_aead_init_ietf, crypto_aead_write. cbn [ae_key ae_nonce ae_counter]. rewrite ietf_counter.
    rewrite ietf_block by done. change (add64 0 1) with 1. rewrite ietf_text by done.
    rewrite lock_auth_rfc by (done || lia || apply otk_ok). reflexivity.
Qed.

(** Decryption recomputes the RFC tag and writes only when it matches. *)
Lemma decrypt_open key counter c ad :
  key_ok key -> text_ok c -> text_ok ad -> (16 <= length c)%nat ->
  let ct := take (length c - 16) c in
  wg_aead_decrypt key counter c ad =
  if decide (drop (length c - 16) c = aead_tag_rfc key (wg_nonce counter) ad ct)
  then (0, Some (chacha20_rfc ct key (wg_nonce counter) 1)) else (-1, None).
Proof.
  intros Hk [Hc Hcl] [Ha Hal] H16 ct.
  assert (text_ok ct) as [Ht Htl] by (split; [unfold ct; auto with wg_range|unfold ct; rewrite length_take; lia]).
  set (mac := drop (length c - 16) c).
  assert (is_bytes mac) as Hm by (unfold mac; auto with wg_range).
  assert (length mac = 16%nat) as Hml by (unfold mac; rewrite length_drop; lia).
  unfold wg_aead_decrypt, wg_aead_neon_decrypt, wg_chacha20_neon_available, WG_AEAD_TAG_LEN.
  destruct (Z.ltb_spec (Z.of_nat (length c)) 16); [lia|]. rewrite build_nonce_le. fold ct mac.
  unfold aead_tag_rfc. destruct HAS_NEON.
  - rewrite chacha20_block_neon_rfc, neon_tag_rfc by (done || apply otk_ok).
    rewrite crypto_verify16_spec by (done || apply is_bytes_poly1305_rfc || apply length_poly1305_rfc).
    rewrite wg_chacha20_neon_eq_rfc by (done || (unfold is_u32; lia)).
    destruct (decide _) as [E|E], (decide _) as [E'|E']; (done || congruence).
  - unfold crypto_aead_init_ietf, crypto_aead_read. cbn [ae_key ae_nonce ae_counter]. rewrite ietf_counter.
    rewrite ietf_block by done. change (add64 0 1) with 1. rewrite ietf_text by done.
    rewrite lock_auth_rfc by (done || lia || apply otk_ok).
    rewrite crypto_verify16_spec by (done || apply is_bytes_poly1305_rfc || apply length_poly1305_rfc).
    destruct (decide _); done.
Qed.

Lemma length_seal key counter ad p : length (wg_seal key counter ad p) = (length p + 16)%nat.
Proof.
  unfold wg_seal, aead_encrypt_rfc. rewrite length_app, length_chacha20_rfc.
  unfold aead_tag_rfc. rewrite length_poly1305_rfc. done.
Qed.
Lemma is_bytes_seal key counter ad p : is_bytes p -> is_bytes (wg_seal key counter ad p).
Proof.
  intros. unfold wg_seal, aead_encrypt_rfc. apply is_bytes_app; [by apply is_bytes_chacha20_rfc|].
  apply is_bytes_poly1305_rfc.
Qed.

(** The messages that decrypt to [p] are exactly its encryption. *)
Lemma decrypt_iff key counter c ad p :
  key_ok key -> text_ok c -> text_ok ad ->
  wg_aead_decrypt key counter c ad = (0, Some p) <-> c = wg_seal key counter ad p.
Proof.
  intros Hk Hc Ha. split.
  - intros E. destruct (decide (16 <= length c)%nat) as [H16|H16].
    + rewrite decrypt_open in E by done. destruct (decide _) as [Et|]; [|done].
      injection E as <-. unfold wg_seal, aead_encrypt_rfc. rewrite chacha20_rfc_involutive, <- Et, take_drop. done.
    + unfold wg_aead_decrypt, WG_AEAD_TAG_LEN in E. destruct (Z.ltb_spec (Z.of_nat (length c)) 16); [done|lia].
  - intros ->. rewrite decrypt_open by (done || rewrite length_seal; lia). cbv zeta.
    rewrite length_seal, Nat.add_sub. unfold wg_seal, aead_encrypt_rfc.
    rewrite take_app_length', drop_app_length' by (by rewrite length_chacha20_rfc).
    rewrite decide_True by done. rewrite chacha20_rfc_involutive. done.
Qed.

(** Every other message is rejected without output. *)
Lemma decrypt_total key counter c ad :
  key_ok key -> text_ok c -> text_ok ad ->
  (exists p, wg_aead_decrypt key counter c ad = (0, Some p) /\ c = wg_seal key counter ad p) \/
  (wg_aead_decrypt key counter c ad = (-1, None) /\ forall p, c <> wg_seal key counter ad p).
Proof.
  intros Hk Hc Ha. destruct (wg_aead_decrypt key counter c ad) as [r o] eqn:E.
  assert ((exists p, (r, o) = (0, Some p)) \/ (r, o) = (-1, None)) as Hr.
  { destruct (decide (16 <= length c)%nat) as [H16|H16].
    - rewrite decrypt_open in E by done. destruct (decide _); rewrite <- E; eauto.
    - unfold wg_aead_decrypt, WG_AEAD_TAG_LEN in E. destruct (Z.ltb_spec (Z.of_nat (length c)) 16); [auto|lia]. }
  destruct Hr as [[p Hp]|Hp]; rewrite Hp in *.
  - left. exists p. split; [done|]. by apply decrypt_iff.
  - right. split; [done|]. intros p Hs. apply (decrypt_iff key counter c ad p) in Hs; [|done..]. congruence.
Qed.

(** C4. In both builds [wg_aead_encrypt] succeeds and writes the RFC 8439
    ciphertext and tag under the nonce of four zero bytes and the counter. *)
Theorem aead_encrypt_correct key counter p ad :
  key_ok key -> text_ok p -> text_ok ad ->
  wg_aead_encrypt key counter p ad = (0, Some (wg_seal key counter ad p)).
Proof. apply encrypt_seal. Qed.

(** C5. [wg_aead_decrypt] accepts exactly the outputs of the RFC 8439 encryption
    under the same key, counter and associated data, and then returns the
    plaintext; every other message, a truncated one included, is answered with
    -1 and nothing is written. *)
Theorem aead_decrypt_exact key counter c ad :
  key_ok key -> text_ok c -> text_ok ad ->
  (exists p, wg_aead_decrypt key counter c ad = (0, Some p) /\ c = wg_seal key counter ad p) \/
  (wg_aead_decrypt key counter c ad = (-1, None) /\ forall p, c <> wg_seal key counter ad p).
Proof. apply decrypt_total. Qed.
End correct.

(** A message encrypted by a build with or without vector units is 16 bytes
    longer than the plaintext and decrypts to it in a build with or without
    them, whatever the stack held. *)
Theorem aead_roundtrip_builds (b1 b2 : NeonBuild) (s1 s2 : Scratch) key counter p ad :
  key_ok key -> text_ok p -> text_ok ad -> Z.of_nat (length p) < 2 ^ 36 ->
  exists c, @wg_aead_encrypt b1 s1 key counter p ad = (0, Some c) /\ length c = (length p + 16)%nat /\
    @wg_aead_decrypt b2 s2 key counter c ad = (0, Some p).
Proof.
  intros Hk Hp Ha Hl. exists (wg_seal key counter ad p). split_and!.
  - by apply encrypt_seal.
  - apply length_seal.
  - apply decrypt_iff; [done| |done|done]. split; [apply is_bytes_seal, Hp|]. rewrite length_seal. lia.
Qed.

Lemma aead_encrypt_correct_witness :
  @wg_aead_encrypt false zero_scratch (seqZ 0 32) 258 (seqZ 10 40) [] =
  (0, Some (wg_seal (seqZ 0 32) 258 [] (seqZ 10 40))).
Proof.
  apply (@aead_encrypt_correct false zero_scratch (seqZ 0 32) 258 (seqZ 10 40) []);
    apply (bool_decide_unpack _); vm_compute; exact I.
Defined.

Lemma aead_decrypt_exact_witness :
  (exists p, @wg_aead_decrypt true zero_scratch (seqZ 0 32) 7 (seqZ 1 20) [1; 2] = (0, Some p) /\
     seqZ 1 20 = wg_seal (seqZ 0 32) 7 [1; 2] p) \/
  (@wg_aead_decrypt true zero_scratch (seqZ 0 32) 7 (seqZ 1 20) [1; 2] = (-1, None) /\
   forall p, seqZ 1 20 <> wg_seal (seqZ 0 32) 7 [1; 2] p).
Proof.
  apply (@aead_decrypt_exact true zero_scratch (seqZ 0 32) 7 (seqZ 1 20) [1; 2]);
    apply (bool_decide_unpack _); vm_compute; exact I.
Defined.

Lemma aead_roundtrip_builds_witness :
  exists c, @wg_aead_encrypt true zero_scratch (seqZ 0 32) 7 (seqZ 1 33) [] = (0, Some c) /\ length c = 49%nat /\
    @wg_aead_decrypt false zero_scratch (seqZ 0 32) 7 c [] = (0, Some (seqZ 1 33)).
Proof.
  apply (aead_roundtrip_builds true false zero_scratch zero_scratch (seqZ 0 32) 7 (seqZ 1 33) []);
    [apply (bool_decide_unpack _); vm_compute; exact I..|vm_compute; reflexivity].
Defined.
