(* ===== verification/Elligator.v ===== *)
(** * Elligator (library/crypto/monocypher.c)

    The maps between u coordinates and random-looking representatives, and the generation of
    hidden key pairs. *)

From Stdlib Require Import Zmod Field.
From S2P Require Import Prelude ChaCha20 Monocypher Aead Scalar Prime25519 Field25519 Curve25519 Edwards Extended Montgomery Agreement Ge BasePoint Comb Dirty.

(** ** The code *)

Definition fe_A : list Z := 486662 :: replicate 9 0.
Definition A2 : list Z := 12721188 :: 3529 :: replicate 8 0.
Definition ufactor : list Z :=
  [-1917299; 15887451; -18755900; -7000830; -24778944; 544946; -16816446; 4011309; -653372; 10741468].

Definition crypto_elligator_map (hidden : list Z) : list Z :=
  let r := fe_frombytes_mask hidden 2 in
  let r := fe_sq r in
  let t1 := fe_add r r in
  let u := fe_add t1 fe_1 in
  let t2 := fe_sq u in
  let t3 := fe_mul A2 t1 in
  let t3 := fe_sub t3 t2 in
  let t3 := fe_mul t3 fe_A in
  let t1 := fe_mul t2 u in
  let t1 := fe_mul t3 t1 in
  let '(t1, is_square) := invsqrt t1 in
  let u := fe_mul r ufactor in
  let u := fe_ccopy u fe_1 is_square in
  let t1 := fe_sq t1 in
  let u := fe_mul u fe_A in
  let u := fe_mul u t3 in
  let u := fe_mul u t2 in
  let u := fe_mul u t1 in
  let u := fe_neg u in
  fe_tobytes u.

(** Returns the buffer [hidden], written only on success, and the return value. *)
Definition crypto_elligator_rev (hidden public_key : list Z) (tweak : Z) : list Z * Z :=
  let t1 := fe_frombytes public_key in
  let t2 := fe_add t1 fe_A in
  let t3 := fe_mul t1 t2 in
  let t3 := fe_mul_small t3 (-2) in
  let '(t3, is_square) := invsqrt t3 in
  let hidden :=
    if negb (is_square =? 0) then
      let t1 := fe_ccopy t1 t2 (Z.land tweak 1) in
      let t3 := fe_mul t1 t3 in
      let t1 := fe_mul_small t3 2 in
      let t2 := fe_neg t3 in
      let t3 := fe_ccopy t3 t2 (fe_isodd t1) in
      let hidden := fe_tobytes t3 in
      wr hidden 31 (Z.lor (rd hidden 31) (Z.land tweak 0xc0))
    else hidden in
  (hidden, is_square - 1).

(** The loop of [crypto_elligator_key_pair] on [buf], with at most [fuel] rounds. *)
Fixpoint key_pair_loop (fuel : nat) (buf : list Z) : option (list Z) :=
  match fuel with
  | O => None
  | S fuel =>
      let '(buf, _) := crypto_chacha20_djb None 64 (drop 32 buf) (replicate 8 0) 0 in
      let pk := crypto_x25519_dirty_fast (take 32 buf) in
      let '(hidden, r) := crypto_elligator_rev (drop 32 buf) pk (rd buf 32) in
      let buf := take 32 buf ++ hidden in
      if negb (r =? 0) then key_pair_loop fuel buf else Some buf
  end.

(** Returns the representative, the secret key and the wiped seed. *)
Definition crypto_elligator_key_pair (fuel : nat) (seed : list Z) : option (list Z * list Z * list Z) :=
  let buf := replicate 32 0 ++ seed in
  match key_pair_loop fuel buf with
  | None => None
  | Some buf => Some (drop 32 buf, take 32 buf, replicate 32 0)
  end.

(** A buffer of 32 bytes and its last byte. *)
Lemma last_byte (s : list Z) : length s = 32%nat -> exists (l : list Z) b, s = l ++ [b] /\ length l = 31%nat.
Proof.
  intros Hl. destruct s as [|b l _] using rev_ind; [discriminate Hl|]. exists l, b. rewrite length_app in Hl. cbn in Hl. split; [done|lia].
Qed.

Lemma last_val (l : list Z) b : length l = 31%nat -> le_val (l ++ [b]) = le_val l + 2 ^ 248 * b.
Proof. intros Hl. rewrite le_val_app, Hl. change (256 ^ Z.of_nat 31) with (2 ^ 248). cbn [le_val]. lia. Qed.
Lemma last_rd (l : list Z) b : length l = 31%nat -> rd (l ++ [b]) 31 = b.
Proof. intros Hl. unfold rd. change (Z.to_nat 31) with 31%nat. rewrite app_nth2 by lia. by rewrite Hl. Qed.
Lemma last_wr (l : list Z) b v : length l = 31%nat -> wr (l ++ [b]) 31 v = l ++ [v].
Proof. intros Hl. unfold wr. change (Z.to_nat 31) with 31%nat. rewrite insert_app_r_alt by lia. by rewrite Hl. Qed.

(** The two highest bits are ignored. *)
Definition frombytes_limbs (s : list Z) (m : Z) : list Z :=
  [load32_le s 0; shl32 (load24_le s 4) 6; shl32 (load24_le s 7) 5; shl32 (load24_le s 10) 3;
   shl32 (load24_le s 13) 2; load32_le s 16; shl32 (load24_le s 20) 7; shl32 (load24_le s 23) 5;
   shl32 (load24_le s 26) 4; shl32 m 2].

Lemma frombytes_low s s' m : (forall i, 0 <= i < 29 -> rd s i = rd s' i) -> frombytes_limbs s m = frombytes_limbs s' m.
Proof. intros H. unfold frombytes_limbs, load32_le, load24_le. rewrite !(H _) by lia. reflexivity. Qed.

Lemma frombytes_top l b : is_bytes l -> is_u8 b -> length l = 31%nat ->
  Z.land (load24_le (l ++ [b]) 29) (Z.ones 22) = Z.land (load24_le (l ++ [b mod 64]) 29) (Z.ones 23).
Proof.
  intros Bl Bb Ll. assert (forall c, is_u8 c -> is_bytes (l ++ [c])) as Hs by (intros c Hc; apply Forall_app; split; [exact Bl|constructor; [exact Hc|constructor]]).
  assert (is_u8 (b mod 64)) as Bm by (unfold is_u8 in *; zlia). rewrite !Z.land_ones by lia.
  rewrite (proj1 (load24_le_val _ 29 (Hs _ Bb))), (proj1 (load24_le_val _ 29 (Hs _ Bm))).
  change (29 + 2) with 31. rewrite !last_rd by exact Ll. rewrite !rd_app_l by (rewrite Ll; lia).
  pose proof (is_bytes_rd l 29 Bl). pose proof (is_bytes_rd l (29 + 1) Bl). unfold is_u8 in *. zlia.
Qed.

Lemma frombytes_mask_eq l b : is_bytes l -> is_u8 b -> length l = 31%nat ->
  fe_frombytes_mask (l ++ [b]) 2 = fe_frombytes (l ++ [b mod 64]).
Proof.
  intros Bl Bb Ll. unfold fe_frombytes, fe_frombytes_mask. cbv zeta.
  change (shr32 16777215 2) with (Z.ones 22). change (shr32 16777215 1) with (Z.ones 23). rewrite (frombytes_top l b Bl Bb Ll).
  generalize (Z.land (load24_le (l ++ [b mod 64]) 29) (Z.ones 23)). intros m.
  apply (f_equal FE_CARRY (frombytes_low (l ++ [b]) (l ++ [b mod 64]) m ltac:(intros i Hi; rewrite !rd_app_l by (rewrite Ll; lia); reflexivity))).
Qed.

(** ** The field *)

#[local] Abbreviation zero := (Zmod.zero : fp).
#[local] Abbreviation one := (Zmod.one : fp).
#[local] Abbreviation two := (Zmod.add one one).
Definition fp_square (x : fp) : Prop := square Zmod.mul x.
Definition fp_maps (r u : fp) : Prop := maps one Zmod.add Zmod.mul Zmod.sub Zmod.opp (e 486662) r u.
Definition fp_mont (u : fp) : fp := mont one Zmod.add Zmod.mul (e 486662) u.

Definition two_root_inv : Z := 38788602997682801834296285904666247971040529424372086091236406538540197302351.
Definition A_root_inv : Z := 40239949395898700937428015451716646243858157248967653685460186948798374409773.
Definition disc_root_inv : Z := 45002378852369529242520464718030887218796521480150832515541701312379704533260.

(** A nonsquare is [sqrt_m1] times a square. *)
Lemma nonsquare_cert n c : n * (c * c) mod p25519 = sqrt_m1 mod p25519 -> ~ fp_square (e n).
Proof.
  intros Hc [x Hx]. rewrite <- (e_surj x), <- e_mul, e_feq in Hx. apply (sqrt_m1_nonresidue (Zmod.to_Z x * c)).
  replace (Zmod.to_Z x * c * (Zmod.to_Z x * c)) with (Zmod.to_Z x * Zmod.to_Z x * (c * c)) by ring. rewrite Hx. by apply feq_mod.
Qed.

Lemma fp_two_ns : ~ fp_square two.
Proof. change two with (e (1 + 1)). apply (nonsquare_cert _ two_root_inv). vm_compute. reflexivity. Qed.
Lemma fp_i_ns : ~ fp_square (e sqrt_m1).
Proof. apply (nonsquare_cert _ 1). vm_compute. reflexivity. Qed.
Lemma fp_A_ns : ~ fp_square (Zmod.opp (e 486662)).
Proof. rewrite <- e_opp. apply (nonsquare_cert _ A_root_inv). vm_compute. reflexivity. Qed.
Lemma fp_disc_ns : ~ fp_square (Zmod.sub (Zmod.mul (e 486662) (e 486662)) (Zmod.mul two two)).
Proof. change two with (e (1 + 1)). rewrite <- !e_mul, <- e_sub. apply (nonsquare_cert _ disc_root_inv). vm_compute. reflexivity. Qed.

Lemma fe_A_frep : frep fe_A (e 486662).
Proof. split; [closed_tight|]. fp_compute. Qed.
Lemma A2_frep : frep A2 (Zmod.mul (e 486662) (e 486662)).
Proof. split; [closed_tight|]. rewrite <- e_mul. fp_compute. Qed.
Lemma ufactor_frep : frep ufactor (Zmod.opp (Zmod.mul two (e sqrt_m1))).
Proof. split; [closed_tight|]. change two with (e (1 + 1)). rewrite <- e_mul, <- e_opp. fp_compute. Qed.
#[local] Hint Resolve fe_A_frep A2_frep ufactor_frep : wg_field.

#[local] Opaque fe_mul fe_sq fe_mul_small fe_add fe_sub fe_neg fe_ccopy fe_tobytes fe_frombytes_mask fe_frombytes invsqrt fe_isodd.

(** [invsqrt] on the field, for an argument that is not 0. *)
Lemma frep_invsqrt f v isr r : frep f v -> invsqrt f = (isr, r) -> exists w, frep isr w /\
  ((v = zero /\ w = zero /\ r = 1) \/ (v <> zero /\ Zmod.mul v (Zmod.mul w w) = one /\ r = 1) \/
   (v <> zero /\ Zmod.mul v (Zmod.mul w w) = e sqrt_m1 /\ r = 0)).
Proof.
  intros [Hf <-] Ei. destruct (invsqrt_spec _ _ _ Hf Ei) as [Hi Hc]. exists (e (fe_val isr)). split; [exact (conj Hi eq_refl)|].
  rewrite !feq_zero in Hc. rewrite <- !e_feq, !e_mul in Hc. exact Hc.
Qed.

Lemma frep_pick f g a b (c : bool) : frepl f a -> frepl g b -> fe_ccopy f g (Z.b2z c) = if c then g else f.
Proof.
  intros [Hf _] [Hg _]. rewrite fe_ccopy_sound; [by destruct c|by rewrite (within_length _ _ Hf), (within_length _ _ Hg)|destruct c; auto].
Qed.

Lemma frombytes_mask2 s : is_bytes s -> length s = 32%nat -> frep (fe_frombytes_mask s 2) (e (le_val s mod 2 ^ 254)).
Proof.
  intros Hs Hl. destruct (last_byte s Hl) as (l & b & -> & Ll). apply Forall_app in Hs as [Bl Bb]. apply Forall_cons in Bb as [Bb _].
  rewrite (frombytes_mask_eq l b Bl Bb Ll).
  assert (is_bytes (l ++ [b mod 64])) as Hs' by (apply Forall_app; split; [exact Bl|constructor; [unfold is_u8 in *; zlia|constructor]]).
  assert (length (l ++ [b mod 64]) = 32%nat) as Hl' by (rewrite length_app, Ll; reflexivity).
  destruct (fe_frombytes_sound _ Hs' Hl') as [Ht Hv]. split; [exact Ht|]. transitivity (e (le_val (l ++ [b mod 64]) mod 2 ^ 255)); [exact (proj2 (e_feq _ _) Hv)|]. f_equal.
  rewrite !last_val by exact Ll. pose proof (le_val_range l Bl) as Hr. rewrite Ll in Hr. change (256 ^ Z.of_nat 31) with (2 ^ 248) in Hr.
  unfold is_u8 in Bb. zlia.
Qed.

(** ** The direct map *)

#[local] Abbreviation fA := (e 486662).
#[local] Abbreviation fp_map_arg := (map_arg (Zmod.one : fp) Zmod.add Zmod.mul Zmod.sub fA).
#[local] Abbreviation fp_map_u := (map_u (Zmod.one : fp) Zmod.add Zmod.mul Zmod.sub Zmod.opp fA).

(** What the two outcomes of the inverse root give. *)
Lemma map_result (r v w : fp) :
  (fp_map_arg r <> zero /\ Zmod.mul (fp_map_arg r) (Zmod.mul w w) = one /\ v = one) \/
  (fp_map_arg r <> zero /\ Zmod.mul (fp_map_arg r) (Zmod.mul w w) = e sqrt_m1 /\ v = Zmod.mul (Zmod.mul r r) (Zmod.opp (Zmod.mul two (e sqrt_m1)))) ->
  fp_maps r (fp_map_u r v w) /\ fp_square (fp_mont (fp_map_u r v w)).
Proof.
  intros [(_ & E & ->)|(_ & E & ->)].
  - exact (map_square _ _ _ _ _ _ _ _ fp_field _ _ fp_i fp_two_ns r w E).
  - exact (map_nonsquare _ _ _ _ _ _ _ _ fp_field _ _ fp_i fp_two_ns fp_i_ns r w E).
Qed.

Lemma map_arg_ne (r : fp) : fp_map_arg r <> zero.
Proof. exact (map_arg_nz _ _ _ _ _ _ _ _ fp_field _ _ fp_i fp_two_ns fp_A_ns fp_disc_ns r). Qed.

Lemma map_spec h : is_bytes h -> length h = 32%nat -> exists u,
  crypto_elligator_map h = le_bytes 32 (Zmod.to_Z u) /\ fp_maps (e (le_val h mod 2 ^ 254)) u /\ fp_square (fp_mont u).
Proof.
  intros Hh Lh. pose proof (frombytes_mask2 h Hh Lh) as Fr0. unfold crypto_elligator_map. cbv zeta.
  set (r0 := fe_frombytes_mask h 2) in *. clearbody r0. set (r := e (le_val h mod 2 ^ 254)) in *. clearbody r.
  pose proof (frep_sq _ _ (frep_l _ _ Fr0)) as Fr. set (fr := fe_sq r0) in *. clearbody fr.
  pose proof (frep_add _ _ _ _ Fr Fr) as F1. set (t1 := fe_add fr fr) in *. clearbody t1.
  pose proof (frep_add21 _ _ _ _ F1 frep_1) as Fu. set (fu := fe_add t1 fe_1) in *. clearbody fu.
  pose proof (frep_sq _ _ Fu) as F2. set (t2 := fe_sq fu) in *. clearbody t2.
  pose proof (frep_mul _ _ _ _ (frep2_l _ _ (frep_sub _ _ _ _ (frep_mul _ _ _ _ (frep_l _ _ A2_frep) (frep2_l _ _ F1)) F2)) (frep_l _ _ fe_A_frep)) as F3.
  set (t3 := fe_mul (fe_sub (fe_mul A2 t1) t2) fe_A) in *. clearbody t3.
  pose proof (frep_mul _ _ _ _ (frep_l _ _ F3) (frep_l _ _ (frep_mul _ _ _ _ (frep_l _ _ F2) Fu))) as Fv.
  set (fv := fe_mul t3 (fe_mul t2 fu)) in *. clearbody fv.
  assert (frep fv (fp_map_arg r)) as Fv' by (refine (frep_val _ _ _ Fv _); exact (map_arg_steps _ _ _ _ _ _ _ _ fp_field fA r)).
  destruct (invsqrt fv) as [isr sq] eqn:Ei. destruct (frep_invsqrt _ _ _ _ Fv' Ei) as (w & Fw & Hc).
  pose proof (frep_mul _ _ _ _ (frep_l _ _ Fr) (frep_l _ _ ufactor_frep)) as Fc. set (fc := fe_mul fr ufactor) in *. clearbody fc.
  assert (exists v, frep (fe_ccopy fc fe_1 sq) v /\ ((fp_map_arg r <> zero /\ Zmod.mul (fp_map_arg r) (Zmod.mul w w) = one /\ v = one) \/
    (fp_map_arg r <> zero /\ Zmod.mul (fp_map_arg r) (Zmod.mul w w) = e sqrt_m1 /\ v = Zmod.mul (Zmod.mul r r) (Zmod.opp (Zmod.mul two (e sqrt_m1)))))) as (v & Fv2 & Hv).
  { destruct Hc as [(E & _)|[(N & E & ->)|(N & E & ->)]]; [destruct (map_arg_ne r E)|..].
    - exists one. split; [|left; split; [exact N|split; [exact E|reflexivity]]]. change 1 with (Z.b2z true). rewrite (frep_pick _ _ _ _ true (frep_l _ _ Fc) (frep_l _ _ frep_1)). exact frep_1.
    - eexists. split; [|right; split; [exact N|split; [exact E|reflexivity]]]. change 0 with (Z.b2z false). rewrite (frep_pick _ _ _ _ false (frep_l _ _ Fc) (frep_l _ _ frep_1)). exact Fc. }
  set (fcc := fe_ccopy fc fe_1 sq) in *. clearbody fcc.
  pose proof (frep_neg _ _ (frep_mul _ _ _ _ (frep_l _ _ (frep_mul _ _ _ _ (frep_l _ _ (frep_mul _ _ _ _ (frep_l _ _ (frep_mul _ _ _ _ (frep_l _ _ Fv2) (frep_l _ _ fe_A_frep))) (frep_l _ _ F3))) (frep_l _ _ F2))) (frep_l _ _ (frep_sq _ _ (frep_l _ _ Fw))))) as Fin.
  exists (fp_map_u r v w). split; [|exact (map_result r v w Hv)].
  apply frep_tobytes. refine (frep_val _ _ _ Fin _). exact (map_u_steps _ _ _ _ _ _ _ _ fp_field fA r v w).
Qed.

(** ** The inverse map *)

#[local] Abbreviation fp_rev_arg := (rev_arg (Zmod.one : fp) Zmod.add Zmod.mul Zmod.opp fA).

Lemma frep_minus2 f a : frepl f a -> frep (fe_mul_small f (-2)) (Zmod.mul a (Zmod.opp two)).
Proof.
  intros [Hf <-]. destruct (fe_mul_small_sound f (-2) Hf) as [H E]; [lia|]. split; [exact H|].
  change two with (e (1 + 1)). rewrite <- e_opp, <- e_mul. exact (proj2 (e_feq _ _) E).
Qed.

(** The root of the two opposite ones whose double is even. *)
Definition positive (y : fp) : fp := if parity (Zmod.mul y two) =? 1 then Zmod.opp y else y.

Lemma positive_or y : positive y = y \/ positive y = Zmod.opp y.
Proof. unfold positive. case_match; [by right|by left]. Qed.

Lemma positive_range y : 0 <= Zmod.to_Z (positive y) < 2 ^ 254.
Proof.
  unfold positive, parity. pose proof (to_Z_range y) as Hr. assert (p25519 = 2 ^ 255 - 19) as Hp by reflexivity.
  rewrite <- (e_surj y). change two with (e (1 + 1)). rewrite <- e_mul, !to_Z_e. set (x := Zmod.to_Z y) in *. clearbody x.
  assert ((x * (1 + 1)) mod p25519 = 2 * x \/ (x * (1 + 1)) mod p25519 = 2 * x - p25519) as Hd.
  { destruct (Z.lt_ge_cases (2 * x) p25519); [left; rewrite Z.mod_small; lia|right]. symmetry. apply (Z.mod_unique _ _ 1); lia. }
  pose proof (Z.mod_pos_bound (x * (1 + 1)) p25519 ltac:(lia)) as Hb.
  destruct (Z.eqb_spec (((x * (1 + 1)) mod p25519) mod 2) 1) as [E|E].
  - rewrite <- e_opp, to_Z_e. destruct Hd as [Hd|Hd]; rewrite Hd in *; [exfalso; zlia|]. rewrite Z.mod_opp_l_nz, Z.mod_small by (rewrite ?Z.mod_small; lia). lia.
  - rewrite to_Z_e, Z.mod_small by lia. destruct Hd as [Hd|Hd]; rewrite Hd in *; [lia|exfalso; rewrite Hp in *; zlia].
Qed.

(** Padding the two highest bits. *)
Lemma pad_byte b t : 0 <= b < 64 -> is_u8 t -> Z.lor b (Z.land t 0xc0) = b + 64 * (t / 64).
Proof.
  intros Hb Ht.
  pose proof (byte_forall (fun b => forallb (fun t => (64 <=? b) || (Z.lor b (Z.land t 0xc0) =? b + 64 * (t / 64))) (seqZ 0 256))
    ltac:(vm_compute; reflexivity) b ltac:(unfold is_u8; lia)) as F.
  cbv beta in F. rewrite forallb_forall in F. specialize (F t (proj1 (list_elem_of_In _ _) (proj2 (elem_of_seqZ 0 256 t) ltac:(unfold is_u8 in Ht; lia)))).
  apply orb_true_iff in F as [F|F]; lia.
Qed.

Lemma pad_spec (x t : Z) : 0 <= x < 2 ^ 254 -> is_u8 t -> let s := le_bytes 32 x in
  let h := wr s 31 (Z.lor (rd s 31) (Z.land t 0xc0)) in
  is_bytes h /\ length h = 32%nat /\ le_val h = x + 2 ^ 254 * (t / 64).
Proof.
  intros Hx Ht. cbv zeta. pose proof (is_bytes_le_bytes 32 x) as Hs. pose proof (length_le_bytes 32 x) as Ls.
  assert (le_val (le_bytes 32 x) = x) as Hv by (rewrite le_val_le_bytes; apply Z.mod_small; change (256 ^ Z.of_nat 32) with (2 ^ 256); lia).
  set (s := le_bytes 32 x) in *. clearbody s. destruct (last_byte s Ls) as (l & b & -> & Ll).
  apply Forall_app in Hs as [Bl Bb]. apply Forall_cons in Bb as [Bb _]. rewrite last_rd, last_wr by exact Ll. rewrite last_val in * by exact Ll.
  pose proof (le_val_range l Bl) as Hl. rewrite Ll in Hl. change (256 ^ Z.of_nat 31) with (2 ^ 248) in Hl.
  assert (0 <= b < 64) as Hb by (unfold is_u8 in Bb; lia). rewrite (pad_byte b t Hb Ht).
  split; [apply Forall_app; split; [exact Bl|constructor; [unfold is_u8 in *; zlia|constructor]]|]. split; [rewrite length_app, Ll; reflexivity|]. lia.
Qed.

(** The normalised and padded representative. *)
Lemma rev_bytes fy (y : fp) t : frep fy y -> is_u8 t ->
  let s := fe_tobytes (fe_ccopy fy (fe_neg fy) (fe_isodd (fe_mul_small fy 2))) in
  let h := wr s 31 (Z.lor (rd s 31) (Z.land t 0xc0)) in
  is_bytes h /\ length h = 32%nat /\ le_val h / 2 ^ 254 = t / 64 /\ e (le_val h mod 2 ^ 254) = positive y.
Proof.
  intros Fy Ht. cbv zeta. rewrite (frep_isodd _ _ (frep_double _ _ (frep_l _ _ Fy))).
  assert (frep (fe_ccopy fy (fe_neg fy) (parity (Zmod.mul y two))) (positive y)) as Fz.
  { assert (parity (Zmod.mul y two) = Z.b2z (parity (Zmod.mul y two) =? 1)) as -> by (pose proof (parity_range (Zmod.mul y two)); destruct (Z.eqb_spec (parity (Zmod.mul y two)) 1); cbn [Z.b2z]; lia).
    rewrite (frep_pick _ _ _ _ _ (frep_l _ _ Fy) (frep_l _ _ (frep_neg _ _ Fy))). unfold positive.
    destruct (parity (Zmod.mul y two) =? 1); cbn [Z.b2z Z.eqb]; [exact (frep_neg _ _ Fy)|exact Fy]. }
  rewrite (frep_tobytes _ _ Fz). pose proof (positive_range y) as Hr. destruct (pad_spec _ t Hr Ht) as (Bh & Lh & Vh).
  split; [exact Bh|]. split; [exact Lh|]. rewrite Vh. unfold is_u8 in Ht. split; [zlia|].
  rewrite <- (e_surj (positive y)) at 2. f_equal. set (x := Zmod.to_Z (positive y)) in *. clearbody x. zlia.
Qed.

(** The result: the two outcomes of the root, and the bytes on success. *)
Lemma rev_spec hidden pk t h r : is_bytes pk -> length pk = 32%nat -> is_u8 t -> crypto_elligator_rev hidden pk t = (h, r) ->
  let u := e (le_val pk mod 2 ^ 255) in exists w,
  (r = 0 /\ ((fp_rev_arg u = zero /\ w = zero) \/ Zmod.mul (fp_rev_arg u) (Zmod.mul w w) = one) /\
    is_bytes h /\ length h = 32%nat /\ le_val h / 2 ^ 254 = t / 64 /\
    e (le_val h mod 2 ^ 254) = positive (Zmod.mul (if Z.odd t then Zmod.add u fA else u) w)) \/
  (r = -1 /\ h = hidden /\ Zmod.mul (fp_rev_arg u) (Zmod.mul w w) = e sqrt_m1).
Proof.
  intros Hp Lp Ht. unfold crypto_elligator_rev. cbv zeta. destruct (fe_frombytes_sound pk Hp Lp) as [Tu Eu].
  pose proof (conj Tu (proj2 (e_feq _ _) Eu) : frep _ _) as Fu. set (fu := fe_frombytes pk) in *. clearbody fu. set (u := e (le_val pk mod 2 ^ 255)) in *. clearbody u.
  pose proof (frep_add _ _ _ _ Fu fe_A_frep) as F2. set (t2 := fe_add fu fe_A) in *. clearbody t2.
  pose proof (frep_minus2 _ _ (frep_l _ _ (frep_mul _ _ _ _ (frep_l _ _ Fu) (frep2_l _ _ F2)))) as F3. set (t3 := fe_mul_small (fe_mul fu t2) (-2)) in *. clearbody t3.
  destruct (invsqrt t3) as [isr sq] eqn:Ei. destruct (frep_invsqrt _ _ _ _ F3 Ei) as (w & Fw & Hc). intros Er. exists w.
  assert (sq = 0 \/ sq = 1 /\ ((fp_rev_arg u = zero /\ w = zero) \/ Zmod.mul (fp_rev_arg u) (Zmod.mul w w) = one)) as [E1|[E1 Hw]].
  { destruct Hc as [(E & E' & ->)|[(_ & E & ->)|(_ & _ & ->)]]; [right; split; [reflexivity|left; exact (conj E E')]|right; split; [reflexivity|right; exact E]|left; reflexivity]. }
  { subst sq. right. destruct Hc as [(_ & _ & H)|[(_ & _ & H)|(_ & E & _)]]; [discriminate H|discriminate H|].
    injection Er as <- <-. split; [reflexivity|]. split; [reflexivity|exact E]. }
  subst sq. left. cbn [Z.eqb negb] in Er. apply pair_equal_spec in Er as [Eh <-]. split; [reflexivity|]. split; [exact Hw|]. clear Hc Hw Ei.
  assert (Z.land t 1 = Z.b2z (Z.odd t)) as Eo by (rewrite <- Z.bit0_odd; change 1 with (Z.ones 1) at 1; rewrite Z.land_ones by lia; symmetry; apply Z.bit0_mod).
  rewrite Eo in Eh. rewrite (frep_pick _ _ _ _ _ (frep_l _ _ Fu) (frep2_l _ _ F2)) in Eh.
  assert (frepl (if Z.odd t then t2 else fu) (if Z.odd t then Zmod.add u fA else u)) as F1 by (destruct (Z.odd t); [exact (frep2_l _ _ F2)|exact (frep_l _ _ Fu)]).
  subst h. exact (rev_bytes _ _ t (frep_mul _ _ _ _ F1 (frep_l _ _ Fw)) Ht).
Qed.

(** ** The contract *)

(** The u coordinate that 32 bytes stand for, its canonical bytes, and whether it is the
    coordinate of a point of the curve. *)
Definition u_coord (pk : list Z) : fp := e (le_val pk mod 2 ^ 255).
Definition canonical (pk : list Z) : list Z := le_bytes 32 (Zmod.to_Z (u_coord pk)).
Definition on_curve25519 (pk : list Z) : Prop := fp_square (fp_mont (u_coord pk)).
Definition representable (pk : list Z) : Prop :=
  exists h, is_bytes h /\ length h = 32%nat /\ crypto_elligator_map h = canonical pk.

#[local] Opaque crypto_elligator_map crypto_elligator_rev.

Lemma le_val_fp (u : fp) : le_val (le_bytes 32 (Zmod.to_Z u)) = Zmod.to_Z u.
Proof. rewrite le_val_le_bytes. apply Z.mod_small. pose proof (e_range u). change (256 ^ Z.of_nat 32) with (2 ^ 256). lia. Qed.

Lemma u_coord_fp (u : fp) : u_coord (le_bytes 32 (Zmod.to_Z u)) = u.
Proof. unfold u_coord. rewrite le_val_fp, Z.mod_small by apply e_range. apply e_surj. Qed.

Lemma rev_maps (u w : fp) (b : bool) : fp_square (fp_mont u) ->
  (fp_rev_arg u = zero /\ w = zero) \/ Zmod.mul (fp_rev_arg u) (Zmod.mul w w) = one ->
  fp_maps (positive (Zmod.mul (if b then Zmod.add u fA else u) w)) u.
Proof.
  intros Hu H.
  assert (fp_maps (Zmod.mul (if b then Zmod.add u fA else u) w) u) as Hm.
  { destruct H as [[H ->]|H].
    - rewrite Zmod.mul_0_r, (rev_arg_zero _ _ _ _ _ _ _ _ fp_field fp_eq_dec _ fp_two_ns fp_A_ns u Hu H).
      exact (maps_zero_zero _ _ _ _ _ _ _ _ fp_field _ fp_A_ns).
    - exact (maps_rev _ _ _ _ _ _ _ _ fp_field _ fp_two_ns fp_disc_ns u w b Hu H). }
  destruct (positive_or (Zmod.mul (if b then Zmod.add u fA else u) w)) as [-> | ->]; [exact Hm|].
  exact (maps_opp _ _ _ _ _ _ _ _ fp_field _ _ _ Hm).
Qed.

Lemma rev_cases hidden pk t : is_bytes pk -> length pk = 32%nat -> is_u8 t -> on_curve25519 pk ->
  let '(h, r) := crypto_elligator_rev hidden pk t in
  (r = 0 /\ is_bytes h /\ length h = 32%nat /\ le_val h / 2 ^ 254 = t / 64 /\ crypto_elligator_map h = canonical pk) \/
  (r = -1 /\ h = hidden /\ ~ representable pk).
Proof.
  intros Hp Lp Ht Hu. destruct (crypto_elligator_rev hidden pk t) as [h r] eqn:Er.
  destruct (rev_spec hidden pk t h r Hp Lp Ht Er) as (w & [(-> & Hw & Bh & Lh & Vh & Eh)|(-> & -> & Hw)]).
  - left. split; [reflexivity|]. split; [exact Bh|]. split; [exact Lh|]. split; [exact Vh|].
    destruct (map_spec h Bh Lh) as (u & -> & Hm & _). unfold canonical. do 2 f_equal. rewrite Eh in Hm.
    exact (maps_unique _ _ _ _ _ _ _ _ fp_field _ _ fp_i fp_two_ns _ _ _ Hm (rev_maps _ w (Z.odd t) Hu Hw)).
  - right. split; [reflexivity|]. split; [reflexivity|]. intros (h & Bh & Lh & Eh). destruct (map_spec h Bh Lh) as (u & E & Hm & _).
    rewrite E in Eh. apply (f_equal u_coord) in Eh. unfold canonical in Eh. rewrite !u_coord_fp in Eh. subst u.
    exact (maps_rev_arg _ _ _ _ _ _ _ _ fp_field _ _ fp_i fp_two_ns fp_i_ns _ _ w Hm Hw).
Qed.

Lemma map_cases h : is_bytes h -> length h = 32%nat ->
  let pk := crypto_elligator_map h in
  is_bytes pk /\ length pk = 32%nat /\ canonical pk = pk /\ on_curve25519 pk.
Proof.
  intros Bh Lh. cbv zeta. destruct (map_spec h Bh Lh) as (u & -> & _ & Hu).
  split; [apply is_bytes_le_bytes|]. split; [apply length_le_bytes|]. unfold canonical, on_curve25519. rewrite u_coord_fp. split; [reflexivity|exact Hu].
Qed.

(** C25. The inverse map is exact: for every u coordinate of the curve and every tweak, it returns
    0 and a representative that the direct map takes back to the canonical form of that key,
    padded with the two high bits of the tweak, or it returns -1, writes nothing, and the key
    has no representative at all. *)
Theorem elligator_rev_exact hidden pk tweak :
  is_bytes pk -> length pk = 32%nat -> is_u8 tweak -> on_curve25519 pk ->
  let '(h, r) := crypto_elligator_rev hidden pk tweak in
  (r = 0 /\ is_bytes h /\ length h = 32%nat /\ le_val h / 2 ^ 254 = tweak / 64 /\
   crypto_elligator_map h = canonical pk) \/
  (r = -1 /\ h = hidden /\ ~ representable pk).
Proof. exact (rev_cases hidden pk tweak). Qed.

(** Every 32 bytes stand for a key that the inverse map finds again: the direct map gives
    canonical bytes, the inverse map succeeds on them with any tweak, and what it returns maps
    to the same key. *)
Theorem elligator_map_then_rev hidden h tweak : is_bytes h -> length h = 32%nat -> is_u8 tweak ->
  let pk := crypto_elligator_map h in
  exists h', crypto_elligator_rev hidden pk tweak = (h', 0) /\ length h' = 32%nat /\ crypto_elligator_map h' = pk.
Proof.
  intros Bh Lh Ht pk. destruct (map_cases h Bh Lh) as (Bp & Lp & Cp & Hc). fold pk in Bp, Lp, Cp, Hc.
  pose proof (rev_cases hidden pk tweak Bp Lp Ht Hc) as H. destruct (crypto_elligator_rev hidden pk tweak) as [h' r].
  destruct H as [(-> & _ & L & _ & E)|(_ & _ & N)].
  - exists h'. rewrite Cp in E. split; [reflexivity|exact (conj L E)].
  - destruct N. exists h. rewrite Cp. exact (conj Bh (conj Lh eq_refl)).
Qed.

(** ** Hidden key pairs *)

(** Successive 64-byte blocks: a secret key and the next seed or the tweak. *)
Definition seed_block (seed : list Z) : list Z := chacha20_block_rfc seed (replicate 12 0) 0.
Section stream.
Context (block : list Z -> list Z).
Fixpoint nth_seed (n : nat) (seed : list Z) : list Z :=
  match n with O => seed | S n => nth_seed n (drop 32 (block seed)) end.
Definition secret_at (seed : list Z) (n : nat) : list Z := take 32 (block (nth_seed n seed)).
Lemma secret_at_0 s : secret_at s 0 = take 32 (block s).
Proof. reflexivity. Qed.
Lemma secret_at_S s n : secret_at s (S n) = secret_at (drop 32 (block s)) n.
Proof. reflexivity. Qed.
Lemma secret_at_block s n : exists t, secret_at s n = take 32 (block t).
Proof. exists (nth_seed n s). reflexivity. Qed.
End stream.
Definition candidate (seed : list Z) (n : nat) : list Z := secret_at seed_block seed n.

Lemma candidate_0 s : candidate s 0 = take 32 (seed_block s).
Proof. exact (secret_at_0 seed_block s). Qed.
Lemma candidate_S s n : candidate s (S n) = candidate (drop 32 (seed_block s)) n.
Proof. unfold candidate. exact (secret_at_S seed_block s n). Qed.
Lemma candidate_block s n : exists t, candidate s n = take 32 (seed_block t).
Proof. exact (secret_at_block seed_block s n). Qed.

Definition sqrt_1d : Z := 28684908821141429758912547916212233914183938327803420948194326298794999701186.

Lemma point_on_curve P : on_c P -> on_curve25519 (u_bytes P).
Proof.
  intros HP. unfold on_curve25519. unfold u_bytes. rewrite u_coord_fp.
  refine (mont_ucoord _ _ _ _ _ _ _ _ fp_field fp_eq_dec _ fA fp_i (e d25519) (e sqrt_1d) _ _ _ P HP).
  - change Zmod.one with (e 1). rewrite <- e_add, <- e_mul. fp_compute.
  - change Zmod.one with (e 1). rewrite <- !e_add, <- e_sub, <- !e_mul. fp_compute.
  - change Zmod.one with (e 1). change Zmod.zero with (e 0). rewrite <- e_add, e_feq, feq_mod. vm_compute. discriminate.
Qed.

Lemma canonical_u P : canonical (u_bytes P) = u_bytes P.
Proof. unfold canonical, u_bytes. by rewrite u_coord_fp. Qed.

Lemma seed_block_ok s : is_bytes (seed_block s) /\ length (seed_block s) = 64%nat.
Proof. unfold seed_block. split; [apply is_bytes_block_rfc|apply length_block_rfc]. Qed.

Lemma seed_block_djb s : is_bytes s -> exists c, crypto_chacha20_djb None 64 s (replicate 8 0) 0 = (seed_block s, c).
Proof.
  intros Hs. pose proof (chacha20_djb_block s (replicate 12 0) 0 Hs ltac:(apply (bool_decide_unpack _); vm_compute; exact I) eq_refl ltac:(lia) ltac:(lia)) as E.
  change (0 + load32_le (replicate 12 0) 0 * 2 ^ 32) with 0 in E. change (take 8 (drop 4 (replicate 12 0))) with (replicate 8 0) in E.
  destruct (crypto_chacha20_djb None 64 s (replicate 8 0) 0) as [o c]. exists c. unfold seed_block. rewrite <- E. reflexivity.
Qed.

Lemma dirty_key_ok s : is_bytes s -> length s = 32%nat -> let pk := crypto_x25519_dirty_fast s in
  is_bytes pk /\ length pk = 32%nat /\ canonical pk = pk /\ on_curve25519 pk.
Proof.
  intros Hs Ls. cbv zeta. rewrite (dirty_fast_spec s Hs Ls). split; [apply is_bytes_le_bytes|]. split; [apply length_le_bytes|].
  split; [apply canonical_u|apply point_on_curve, on_c_dirty].
Qed.

#[local] Opaque crypto_chacha20_djb crypto_x25519_dirty_fast seed_block candidate.

Definition hidden_key (buf : list Z) : Prop :=
  is_bytes (drop 32 buf) /\ length (drop 32 buf) = 32%nat /\
  crypto_elligator_map (drop 32 buf) = crypto_x25519_dirty_fast (take 32 buf).

(** One round on the seed in the second half. *)
Lemma key_pair_round s : is_bytes s -> 
  let b := seed_block s in
  let '(h, r) := crypto_elligator_rev (drop 32 b) (crypto_x25519_dirty_fast (take 32 b)) (rd b 32) in
  (r = 0 /\ hidden_key (take 32 b ++ h)) \/
  (r = -1 /\ take 32 b ++ h = b /\ ~ representable (crypto_x25519_dirty_fast (take 32 b))).
Proof.
  intros Hs b. destruct (seed_block_ok s) as [Hb Lb]. fold b in Hb, Lb. clearbody b.
  assert (length (take 32 b) = 32%nat) as Lk by (rewrite length_take, Lb; reflexivity).
  destruct (dirty_key_ok (take 32 b) (is_bytes_take _ _ Hb) Lk) as (Bp & Lp & Cp & Hc).
  pose proof (rev_cases (drop 32 b) _ (rd b 32) Bp Lp (is_bytes_rd _ _ Hb) Hc) as H. set (pk := crypto_x25519_dirty_fast (take 32 b)) in *. 
  destruct (crypto_elligator_rev (drop 32 b) pk (rd b 32)) as [h r]. destruct H as [(-> & Bh & Lh & _ & E)|(-> & -> & N)].
  - left. split; [reflexivity|]. unfold hidden_key. rewrite take_app_le, drop_app_ge, Lk, (take_ge _ _ (Nat.eq_le_incl _ _ Lk)) by (rewrite Lk; apply le_n).
    rewrite Cp in E. change (drop (32 - 32) h) with h. exact (conj Bh (conj Lh E)).
  - right. split; [reflexivity|]. split; [apply take_drop|exact N].
Qed.

Lemma key_pair_loop_spec fuel : forall buf, is_bytes (drop 32 buf) ->
  let secret := candidate (drop 32 buf) in
  match key_pair_loop fuel buf with
  | Some out => exists n, (n < fuel)%nat /\ take 32 out = secret n /\ hidden_key out /\
      forall m, (m < n)%nat -> ~ representable (crypto_x25519_dirty_fast (secret m))
  | None => forall m, (m < fuel)%nat -> ~ representable (crypto_x25519_dirty_fast (secret m))
  end.
Proof.
  induction fuel as [|fuel IH]; intros buf Hb; cbv zeta; cbn [key_pair_loop]; [intros m Hm; lia|].
  destruct (seed_block_djb (drop 32 buf) Hb) as [c ->]. pose proof (key_pair_round (drop 32 buf) Hb) as R.
  destruct (seed_block_ok (drop 32 buf)) as [Bb Lb]. cbv zeta in R.
  pose proof (candidate_S (drop 32 buf)) as Es. pose proof (candidate_0 (drop 32 buf)) as E0.
  set (b := seed_block (drop 32 buf)) in *. clearbody b.
  assert (length (take 32 b) = 32%nat) as Lk by (rewrite length_take, Lb; reflexivity).
  destruct (crypto_elligator_rev (drop 32 b) (crypto_x25519_dirty_fast (take 32 b)) (rd b 32)) as [h r].
  destruct R as [(-> & Hk)|(-> & -> & N)]; cbn [Z.eqb negb].
  - exists 0%nat. split; [lia|]. rewrite E0. split; [|split; [exact Hk|intros m Hm; lia]].
    rewrite take_app_le by (rewrite Lk; apply le_n). apply take_ge. by rewrite Lk.
  - specialize (IH b (is_bytes_drop _ _ Bb)). cbv zeta in IH.
    assert (forall k, (forall m, (m < k)%nat -> ~ representable (crypto_x25519_dirty_fast (candidate (drop 32 b) m))) ->
      forall m, (m < S k)%nat -> ~ representable (crypto_x25519_dirty_fast (candidate (drop 32 buf) m))) as Hall.
    { intros k Hk [|m] Hm; [rewrite E0; exact N|rewrite Es; apply Hk; lia]. }
    destruct (key_pair_loop fuel b) as [out|]; [|exact (Hall fuel IH)].
    destruct IH as (n & Hn & Ht & Hk & Hm). exists (S n). rewrite Es. split; [lia|]. split; [exact Ht|]. split; [exact Hk|exact (Hall n Hm)].
Qed.

(** C26. Hidden key pairs: the loop stops at the first secret of the stream of the seed whose
    dirty public key has a representative, and not before (with enough rounds it does stop
    there), the representative maps to that public key, X25519 with it agrees with the clean
    public key, and the seed is wiped. *)
Theorem elligator_key_pair_exact fuel seed b : is_bytes seed -> length seed = 32%nat -> is_bytes b -> length b = 32%nat ->
  match crypto_elligator_key_pair fuel seed with
  | Some (hidden, secret_key, seed') => exists n, (n < fuel)%nat /\ secret_key = candidate seed n /\
      (forall m, (m < n)%nat -> ~ representable (crypto_x25519_dirty_fast (candidate seed m))) /\
      crypto_elligator_map hidden = crypto_x25519_dirty_fast secret_key /\
      crypto_x25519 b (crypto_elligator_map hidden) = crypto_x25519 b (crypto_x25519_public_key secret_key) /\
      seed' = replicate 32 0
  | None => forall m, (m < fuel)%nat -> ~ representable (crypto_x25519_dirty_fast (candidate seed m))
  end.
Proof.
  intros Hs Ls Hb Lb. unfold crypto_elligator_key_pair. cbv zeta. pose proof (key_pair_loop_spec fuel (replicate 32 0 ++ seed)) as H.
  change (drop 32 (replicate 32 0 ++ seed)) with seed in H. specialize (H Hs). cbv zeta in H.
  destruct (key_pair_loop fuel (replicate 32 0 ++ seed)) as [out|]; [|exact H]. destruct H as (n & Hn & Ht & (_ & _ & Hk) & Hm).
  exists n. split; [exact Hn|]. split; [exact Ht|]. split; [exact Hm|]. split; [exact Hk|]. split; [|reflexivity].
  rewrite Hk, Ht. destruct (candidate_block seed n) as [t Et]. destruct (seed_block_ok t) as [Bb Lbb].
  assert (length (candidate seed n) = 32%nat) as Lc by (rewrite Et, length_take, Lbb; reflexivity).
  pose proof (is_bytes_take 32 _ Bb) as Bc. rewrite <- Et in Bc. clear Et. set (a := candidate seed n) in *. clearbody a.
  rewrite (dirty_fast_spec a Bc Lc), (public_key_point a Bc Lc), (x25519_point b _ Hb Lb (on_c_dirty _)), (x25519_point b _ Hb Lb (on_c_mul _ base base_on_curve)).
  by rewrite dirty_cleared.
Qed.

(** The coordinate -A, which is not on the curve: the comment says that it has no mapping, the
    code reports success. *)
Definition minus_A : list Z := le_bytes 32 (Zmod.to_Z (Zmod.opp fA)).

Lemma rev_minus_A hidden t : is_u8 t -> ~ on_curve25519 minus_A /\ (crypto_elligator_rev hidden minus_A t).2 = 0.
Proof.
  intros Ht. destruct (rev_minus _ _ _ _ _ _ _ _ fp_field fA) as [E1 E2]. split.
  - unfold on_curve25519, minus_A. rewrite u_coord_fp. intros [y Hy]. apply fp_A_ns. exists y. rewrite Hy. exact E2.
  - destruct (crypto_elligator_rev hidden minus_A t) as [h r] eqn:Er.
    destruct (rev_spec hidden minus_A t h r (is_bytes_le_bytes _ _) (length_le_bytes _ _) Ht Er) as (w & [(-> & _)|(_ & _ & Hw)]); [reflexivity|].
    exfalso. fold (u_coord minus_A) in Hw. unfold minus_A in Hw. rewrite u_coord_fp in Hw. apply fp_i_ns. exists zero.
    refine (eq_trans _ (eq_trans (f_equal (fun x => Zmod.mul x (Zmod.mul w w)) (eq_sym E1)) Hw)). by rewrite !Zmod.mul_0_l.
Qed.

(** The base point. *)
Definition base_v : Z := 14781619447589544791020593568409986887264606134616475288964881837755586237401.

Lemma elligator_rev_exact_witness :
  let hidden := replicate 32 0 in let pk := 9 :: replicate 31 0 in let tweak := 0xc1 in
  let '(h, r) := crypto_elligator_rev hidden pk tweak in
  (r = 0 /\ is_bytes h /\ length h = 32%nat /\ le_val h / 2 ^ 254 = tweak / 64 /\
   crypto_elligator_map h = canonical pk) \/
  (r = -1 /\ h = hidden /\ ~ representable pk).
Proof.
  intros hidden pk tweak. apply (elligator_rev_exact hidden pk tweak).
  - apply (bool_decide_unpack _). vm_compute. exact I.
  - reflexivity.
  - unfold is_u8, tweak. lia.
  - exists (e base_v). unfold fp_mont, mont, u_coord. change Zmod.one with (e 1). rewrite <- !e_add, <- !e_mul, <- e_add, <- e_mul. fp_compute.
Defined.

Lemma elligator_map_then_rev_witness :
  let h := replicate 32 5 in let pk := crypto_elligator_map h in
  exists h', crypto_elligator_rev (replicate 32 0) pk 7 = (h', 0) /\ length h' = 32%nat /\ crypto_elligator_map h' = pk.
Proof.
  intros h. apply (elligator_map_then_rev (replicate 32 0) h 7); [apply (bool_decide_unpack _); vm_compute; exact I|reflexivity|unfold is_u8; lia].
Defined.

Lemma elligator_key_pair_exact_witness :
  let seed := replicate 32 7 in let b := replicate 32 6 in
  match crypto_elligator_key_pair 8 seed with
  | Some (hidden, secret_key, seed') => exists n, (n < 8)%nat /\ secret_key = candidate seed n /\
      (forall m, (m < n)%nat -> ~ representable (crypto_x25519_dirty_fast (candidate seed m))) /\
      crypto_elligator_map hidden = crypto_x25519_dirty_fast secret_key /\
      crypto_x25519 b (crypto_elligator_map hidden) = crypto_x25519 b (crypto_x25519_public_key secret_key) /\
      seed' = replicate 32 0
  | None => forall m, (m < 8)%nat -> ~ representable (crypto_x25519_dirty_fast (candidate seed m))
  end.
Proof.
  intros seed b. apply (elligator_key_pair_exact 8 seed b); try reflexivity; apply (bool_decide_unpack _); vm_compute; exact I.
Defined.
