(* ===== verification/Inverse.v ===== *)
(** * Division by a secret scalar (library/crypto/monocypher.c)

    [redc], Montgomery's reduction modulo the order of the base point, and
    [crypto_x25519_inverse], which multiplies a point by the inverse of a secret.  The order is
    prime, by a chain of Pocklington certificates. *)

From Stdlib Require Import Zmod Field.
From Stdlib Require ZmodInv.
From S2P Require Import Prelude Monocypher Scalar Prime25519 Field25519 Curve25519 Edwards Extended Agreement Ge BasePoint Dirty.

(** ** The code *)

Definition redc_k : list Z :=
  [0x12547e1b; 0xd2b51da3; 0xfdba84ff; 0xb1a206f2; 0xffa36bea; 0x14e75438; 0x6fe91836; 0x9db6c6f2].

(** [s = x * k] modulo 2^256. *)
Definition redc_low (x : list Z) : list Z :=
  fold_left (fun s i => (mul_row (rd x (Z.of_nat i)) redc_k s (Z.of_nat i) (8 - i)).1) (seq 0 8) (replicate 8 0).

(** [t = t + x] on 16 words. *)
Definition add_words (t x : list Z) : list Z :=
  (fold_left (fun '(t, carry) i =>
    let carry := add64 carry (add64 (rd t (Z.of_nat i)) (rd x (Z.of_nat i))) in
    (wr t (Z.of_nat i) (u32 carry), shr64 carry 32)) (seq 0 16) (t, 0)).1.

Definition redc (x : list Z) : list Z :=
  let s := redc_low x in
  let t := multiply (replicate 16 0) s L in
  let t := add_words t x in
  remove_l (drop 8 t).

Definition Lm2 : list Z :=
  [0xeb; 0xd3; 0xf5; 0x5c; 0x1a; 0x63; 0x12; 0x58; 0xd6; 0x9c; 0xf7; 0xa2; 0xde; 0xf9; 0xde; 0x14] ++
  replicate 15 0 ++ [0x10].

(** [for (int i = n - 1; i >= 0; i--)] *)
Fixpoint inverse_loop (n : nat) (m_scl m_inv : list Z) : list Z :=
  match n with
  | O => m_inv
  | S i =>
      let product := multiply (replicate 16 0) m_inv m_inv in
      let m_inv := redc product in
      let m_inv :=
        if negb (scalar_bit Lm2 (Z.of_nat i) =? 0) then
          let product := multiply (replicate 16 0) m_inv m_scl in
          redc product
        else m_inv in
      inverse_loop i m_scl m_inv
  end.

Definition mont_one : list Z :=
  [0x8d98951d; 0xd6ec3174; 0x737dcf70; 0xc6ef5bf4; 0xfffffffe; 0xffffffff; 0xffffffff; 0x0fffffff].

Definition crypto_x25519_inverse (private_key curve_point : list Z) : list Z :=
  let m_inv := mont_one in
  let scalar := crypto_eddsa_trim_scalar private_key in
  let tmp := replicate 8 0 ++ load32_le_buf scalar 0 8 in
  let scalar := mod_l tmp in
  let m_scl := load32_le_buf scalar 0 8 in
  let m_inv := inverse_loop 253 m_scl m_inv in
  let product := m_inv ++ replicate 8 0 in
  let m_inv := redc product in
  let scalar := store32_le_buf m_inv in
  let scalar := add_xl scalar (u8 (rd scalar 0 * 3)) in
  scalarmult scalar curve_point 256.

(** ** The order is prime *)

Lemma prime_1224481 : Z.prime 1224481. Proof. prime_small 1107. Qed.
Lemma prime_531581 : Z.prime 531581. Proof. prime_small 730. Qed.
#[local] Hint Resolve prime_1224481 prime_531581 : core.
Lemma order_chain1 : Z.prime 1257559732178653. Proof. prime_cert [1224481; 531581]. Qed.
#[local] Hint Resolve order_chain1 : core.
Lemma order_chain2 : Z.prime 4434155615661930479. Proof. prime_cert [1257559732178653]. Qed.
#[local] Hint Resolve order_chain2 : core.
Lemma order_chain3 : Z.prime 172054593956031949258510691. Proof. prime_cert [4434155615661930479]. Qed.
#[local] Hint Resolve order_chain3 : core.
Lemma order_chain4 : Z.prime 19757330305831588566944191468367130476339. Proof. prime_cert [172054593956031949258510691]. Qed.
#[local] Hint Resolve order_chain4 : core.
Lemma order_chain5 : Z.prime 276602624281642239937218680557139826668747. Proof. prime_cert [19757330305831588566944191468367130476339]. Qed.
#[local] Hint Resolve order_chain5 : core.
Lemma prime_order : Z.prime order.
Proof. unfold order. prime_cert [276602624281642239937218680557139826668747]. Qed.

Lemma order_range : 0 < order < 2 ^ 252 + 2 ^ 125.
Proof. split; reflexivity. Qed.

Lemma inverse_mod a : a mod order <> 0 -> (a * a ^ (order - 2)) mod order = 1.
Proof.
  intros Ha. rewrite <- Z.pow_succ_r by (vm_compute; discriminate). replace (Z.succ (order - 2)) with (order - 1) by lia.
  rewrite ZmodInv.Z.fermat_nz; [reflexivity|exact prime_order|exact Ha].
Qed.

(** ** Montgomery's reduction *)

Lemma words32_zeros n : words32 (replicate n 0).
Proof. apply Forall_replicate. unfold is_u32. lia. Qed.

(** A product cut at 256 bits. *)
Lemma low_rows x b n :
  words32 x -> words32 b -> length b = 8%nat -> (n <= length x)%nat -> (n <= 8)%nat ->
  let q := fold_left (fun s i => (mul_row (rd x (Z.of_nat i)) b s (Z.of_nat i) (8 - i)).1) (seq 0 n) (replicate 8 0) in
  length q = 8%nat /\ words32 q /\ (wval q) mod 2 ^ 256 = (wval (take n x) * wval b) mod 2 ^ 256.
Proof.
  intros Hx Hb Lb Ln Hn. cbv zeta. induction n as [|n IH]; [cbn [seq fold_left]; rewrite take_0; split_and!; [done|apply words32_zeros|done]|].
  specialize (IH ltac:(lia) ltac:(lia)). rewrite seq_S, fold_left_app. cbn [Nat.add fold_left]. set (q := fold_left _ (seq 0 n) _) in *.
  destruct IH as (I1 & I2 & I3).
  pose proof (mul_row_spec (rd x (Z.of_nat n)) b q (Z.of_nat n) (8 - n) (words32_rd _ _ Hx) Hb I2
    ltac:(lia) ltac:(lia) ltac:(lia)) as [R1 R2 R3 R4 _].
  set (w := rd x (Z.of_nat n)) in *. set (q' := mul_row _ _ _ _ _) in *. split_and!; [congruence|done|].
  replace (32 * (Z.of_nat n + Z.of_nat (8 - n))) with 256 in R4 by lia.
  rewrite wval_take_S by lia. fold w.
  pose proof (wval_split (8 - n) b) as HL. rewrite length_take, Nat.min_l in HL by lia.
  assert (2 ^ (32 * Z.of_nat (8 - n)) * 2 ^ (32 * Z.of_nat n) = 2 ^ 256) as Ep by (rewrite <- Z.pow_add_r by lia; f_equal; lia).
  set (A := 2 ^ (32 * Z.of_nat n)) in *. set (T := wval (take (8 - n) b)) in *. set (D := wval (drop (8 - n) b)) in *.
  assert (wval q'.1 = wval q + w * wval b * A + (- (w * D) - q'.2) * 2 ^ 256) as E.
  { transitivity (wval q + w * T * A - q'.2 * 2 ^ 256); [rewrite <- R4; ring|]. rewrite HL, <- Ep. ring. }
  rewrite E, Z.mod_add by lia. rewrite Z.mul_add_distr_r, <- Zplus_mod_idemp_l, I3, Zplus_mod_idemp_l. f_equal. ring.
Qed.

Lemma add_words_spec t x : words32 t -> words32 x -> length t = 16%nat -> length x = 16%nat -> wval t + wval x < 2 ^ 512 ->
  length (add_words t x) = 16%nat /\ words32 (add_words t x) /\ wval (add_words t x) = wval t + wval x.
Proof.
  intros Ht Hx Lt Lx Hs. unfold add_words.
  assert (forall n, (n <= 16)%nat ->
    let r := fold_left (fun '(t, carry) i => let carry := add64 carry (add64 (rd t (Z.of_nat i)) (rd x (Z.of_nat i))) in
               (wr t (Z.of_nat i) (u32 carry), shr64 carry 32)) (seq 0 n) (t, 0) in
    length r.1 = 16%nat /\ words32 r.1 /\ 0 <= r.2 <= 1 /\ wval r.1 + r.2 * 2 ^ (32 * Z.of_nat n) = wval t + wval (take n x)) as H.
  { induction n as [|n IH]; intros Hn; [cbn [seq fold_left fst snd]; rewrite take_0; cbn [wval]; split_and!; try done; lia|].
    specialize (IH ltac:(lia)). rewrite seq_S, fold_left_app. cbn [Nat.add fold_left].
    destruct (fold_left _ (seq 0 n) _) as [r c]. cbn [fst snd] in *. destruct IH as (I1 & I2 & I3 & I4).
    pose proof (words32_rd r (Z.of_nat n) I2) as H1. pose proof (words32_rd x (Z.of_nat n) Hx) as H2. unfold is_u32 in H1, H2.
    assert (add64 c (add64 (rd r (Z.of_nat n)) (rd x (Z.of_nat n))) = c + (rd r (Z.of_nat n) + rd x (Z.of_nat n))) as ->
      by (unfold add64; rewrite (u64_small (rd r _ + _)); [apply u64_small|]; unfold is_u64; lia).
    set (s := c + (rd r (Z.of_nat n) + rd x (Z.of_nat n))) in *. rewrite shr64_div by lia. split_and!.
    - by rewrite length_wr.
    - apply Forall_wr; [exact I2|apply u32_range].
    - subst s. zlia.
    - subst s. zlia.
    - rewrite wval_wr by lia. rewrite wval_take_S by lia. replace (32 * Z.of_nat (S n)) with (32 * Z.of_nat n + 32) by lia.
      rewrite Z.pow_add_r by lia. set (B := 2 ^ (32 * Z.of_nat n)) in *. assert (u32 s + 2 ^ 32 * (s / 2 ^ 32) = s) as Es by (unfold u32; zlia).
      transitivity (wval r + (u32 s + 2 ^ 32 * (s / 2 ^ 32) - rd r (Z.of_nat n)) * B); [ring|]. rewrite Es. unfold s.
      transitivity (wval r + c * B + rd x (Z.of_nat n) * B); [ring|]. rewrite I4. ring. }
  destruct (H 16%nat ltac:(lia)) as (H1 & H2 & H3 & H4). set (r := fold_left _ _ _) in *. clearbody r.
  split_and!; [done|done|]. change (2 ^ (32 * Z.of_nat 16)) with (2 ^ 512) in H4. rewrite take_ge in H4 by lia.
  pose proof (wval_range _ H2) as Hr. rewrite H1 in Hr. change (2 ^ (32 * Z.of_nat 16)) with (2 ^ 512) in Hr. nia.
Qed.

(** The inverse of 2^256. *)
Definition r_inv : Z := 4458503529701987551646482192314240623644693141688353256590997718326214331684.

Lemma r_inv_mod : (2 ^ 256 * r_inv) mod order = 1.
Proof. vm_compute. reflexivity. Qed.
Lemma redc_k_mod : (wval redc_k * order + 1) mod 2 ^ 256 = 0.
Proof. vm_compute. reflexivity. Qed.
Lemma words32_redc_k : words32 redc_k.
Proof. repeat constructor; unfold is_u32; lia. Qed.

Lemma multiply_zeros a b : words32 a -> words32 b -> length a = 8%nat -> length b = 8%nat ->
  length (multiply (replicate 16 0) a b) = 16%nat /\ words32 (multiply (replicate 16 0) a b) /\
  wval (multiply (replicate 16 0) a b) = wval a * wval b.
Proof.
  intros Ha Hb La Lb. destruct (multiply_spec a b (replicate 8 0) Ha Hb (words32_zeros 8) La Lb eq_refl) as (H1 & H2 & H3).
  rewrite wval_replicate0, Z.add_0_r in H3. exact (conj H1 (conj H2 H3)).
Qed.

#[local] Opaque multiply remove_l.

Lemma redc_low_spec x : words32 x -> (8 <= length x)%nat ->
  length (redc_low x) = 8%nat /\ words32 (redc_low x) /\ wval (redc_low x) mod 2 ^ 256 = (wval (take 8 x) * wval redc_k) mod 2 ^ 256.
Proof. intros Hx Lx. exact (low_rows x redc_k 8 Hx words32_redc_k eq_refl Lx (le_n 8)). Qed.

(** The multiple of L that makes the sum a multiple of 2^256. *)
Lemma redc_exact X K O : (K * O + 1) mod 2 ^ 256 = 0 -> ((X * K) mod 2 ^ 256 * O + X) mod 2 ^ 256 = 0.
Proof.
  intros HK. rewrite <- Z.add_mod_idemp_l, Z.mul_mod_idemp_l, Z.add_mod_idemp_l by lia.
  replace (X * K * O + X) with (X * (K * O + 1)) by ring. rewrite <- Z.mul_mod_idemp_r, HK by lia. rewrite Z.mul_0_r. reflexivity.
Qed.

Lemma redc_quotient X s d R O : 0 < O -> (2 ^ 256 * R) mod O = 1 -> 2 ^ 256 * d = s * O + X -> d mod O = (X * R) mod O.
Proof.
  intros HO HR He. transitivity ((2 ^ 256 * d * R) mod O).
  - replace (2 ^ 256 * d * R) with (d * (2 ^ 256 * R)) by ring. rewrite <- Z.mul_mod_idemp_r, HR, Z.mul_1_r by lia. reflexivity.
  - rewrite He. replace ((s * O + X) * R) with (X * R + s * R * O) by ring. apply Z.mod_add. lia.
Qed.

Lemma redc_spec x : words32 x -> length x = 16%nat -> wval x < order * 2 ^ 256 ->
  words32 (redc x) /\ length (redc x) = 8%nat /\ wval (redc x) = (wval x * r_inv) mod order.
Proof.
  intros Hx Lx Hv. unfold redc. pose proof order_range as Ho. destruct (redc_low_spec x Hx ltac:(lia)) as (S1 & S2 & S3).
  set (s := redc_low x) in *. clearbody s. pose proof (wval_range s S2) as Hs. rewrite S1 in Hs. change (2 ^ (32 * Z.of_nat 8)) with (2 ^ 256) in Hs.
  rewrite <- (wval_mod_take 8 x Hx ltac:(lia)) in S3. change (2 ^ (32 * Z.of_nat 8)) with (2 ^ 256) in S3. rewrite Z.mul_mod_idemp_l, (Z.mod_small (wval s)) in S3 by lia.
  destruct (multiply_zeros s L S2 words32_L S1 eq_refl) as (T1 & T2 & T3). rewrite wval_L in T3.
  cbv zeta. set (t := multiply (replicate 16 0) s L) in *. clearbody t. pose proof (wval_range x Hx) as Hxr.
  destruct (add_words_spec t x T2 Hx T1 Lx) as (A1 & A2 & A3); [rewrite T3; nia|]. set (t2 := add_words t x) in *. clearbody t2.
  assert (wval t2 mod 2 ^ 256 = 0) as H0 by (rewrite A3, T3, S3; exact (redc_exact (wval x) _ _ redc_k_mod)).
  pose proof (wval_div_drop 8 t2 A2 ltac:(lia)) as Hd. change (2 ^ (32 * Z.of_nat 8)) with (2 ^ 256) in Hd.
  set (d := drop 8 t2) in *. assert (words32 d) as Hd1 by (by apply Forall_drop). assert (length d = 8%nat) as Hd2 by (unfold d; rewrite length_drop; lia). clearbody d.
  assert (2 ^ 256 * wval d = wval s * order + wval x) as He by (rewrite <- Hd; zlia).
  destruct (remove_l_spec d Hd1 Hd2) as (R1 & R2 & R3); [nia|]. split; [exact R2|]. split; [exact R1|]. rewrite R3.
  exact (redc_quotient _ _ _ _ _ (proj1 Ho) r_inv_mod He).
Qed.

(** ** The power *)

(** A reduced number of eight words, and what it stands for. *)
Definition reduced (m : list Z) : Prop := words32 m /\ length m = 8%nat /\ wval m < order.
Definition out_of (m : list Z) : Z := (wval m * r_inv) mod order.

#[local] Opaque redc.

Lemma reduced_nonneg m : reduced m -> 0 <= wval m < order.
Proof. intros (H & _ & Hl). pose proof (wval_range m H). lia. Qed.

Lemma mont_mul a b : reduced a -> reduced b -> let r := redc (multiply (replicate 16 0) a b) in
  reduced r /\ out_of r = (out_of a * out_of b) mod order.
Proof.
  intros Ha Hb. cbv zeta. pose proof (reduced_nonneg a Ha) as Va. pose proof (reduced_nonneg b Hb) as Vb. pose proof order_range as Ho.
  destruct Ha as (A1 & A2 & _), Hb as (B1 & B2 & _).
  destruct (multiply_zeros a b A1 B1 A2 B2) as (P1 & P2 & P3).
  set (p := multiply (replicate 16 0) a b) in *. clearbody p. destruct (redc_spec p P2 P1 ltac:(nia)) as (R1 & R2 & R3).
  split; [split; [exact R1|split; [exact R2|rewrite R3; apply Z.mod_pos_bound; lia]]|].
  unfold out_of. rewrite R3, P3, Z.mul_mod_idemp_l, <- Z.mul_mod by lia. f_equal. ring.
Qed.

Lemma Lm2_val : le_val Lm2 = order - 2.
Proof. vm_compute. reflexivity. Qed.
Lemma Lm2_bytes : is_bytes Lm2.
Proof. apply (bool_decide_unpack _). vm_compute. exact I. Qed.

Lemma low_bits_S k n : k mod 2 ^ Z.of_nat (S n) = k mod 2 ^ Z.of_nat n + Z.b2z (Z.testbit k (Z.of_nat n)) * 2 ^ Z.of_nat n.
Proof.
  rewrite Nat2Z.inj_succ, Z.pow_succ_r, (Z.mul_comm 2) by lia. pose proof (Z.pow_pos_nonneg 2 (Z.of_nat n) ltac:(lia) ltac:(lia)).
  rewrite Z.rem_mul_r, Z.testbit_spec' by lia. ring.
Qed.

Lemma inverse_loop_spec n scl : reduced scl -> forall m e, reduced m -> 0 <= e -> out_of m = out_of scl ^ e mod order ->
  let r := inverse_loop n scl m in reduced r /\ out_of r = out_of scl ^ (e * 2 ^ Z.of_nat n + (order - 2) mod 2 ^ Z.of_nat n) mod order.
Proof.
  intros Hs. induction n as [|n IH]; intros m e Hm He Em; cbv zeta; cbn [inverse_loop].
  { change (2 ^ Z.of_nat 0) with 1. rewrite Z.mul_1_r, Z.mod_1_r, Z.add_0_r. exact (conj Hm Em). }
  rewrite scalar_bit_sound, Lm2_val by (exact Lm2_bytes || lia). destruct (mont_mul m m Hm Hm) as [Q1 Q2]. set (q := redc (multiply (replicate 16 0) m m)) in *.
  pose proof order_range as Ho. clearbody q. rewrite Em, <- Z.mul_mod, <- Z.pow_add_r in Q2 by lia.
  rewrite low_bits_S, Nat2Z.inj_succ, Z.pow_succ_r by lia.
  destruct (Z.testbit (order - 2) (Z.of_nat n)); cbn [Z.b2z Z.eqb negb].
  - destruct (mont_mul q scl Q1 Hs) as [P1 P2]. set (p := redc (multiply (replicate 16 0) q scl)) in *. clearbody p.
    rewrite Q2, Z.mul_mod_idemp_l, Z.mul_comm, <- Z.pow_succ_r in P2 by lia.
    destruct (IH p (Z.succ (e + e)) P1 ltac:(lia) P2) as [I1 I2]. split; [exact I1|]. rewrite I2. do 2 f_equal. ring.
  - destruct (IH q (e + e) Q1 ltac:(lia) Q2) as [I1 I2]. split; [exact I1|]. rewrite I2. do 2 f_equal. ring.
Qed.

(** ** The scalar *)

#[local] Opaque mod_l inverse_loop add_xl.

(** The inverse modulo L, then cleared of its cofactor. *)
Definition scalar_inv (k : Z) : Z := (k mod order) ^ (order - 2) mod order.
Definition cleared_inv (k : Z) : Z := let i := scalar_inv k in i + order * ((3 * i) mod 8).

Lemma scalar_inv_range k : 0 <= scalar_inv k < order.
Proof. apply Z.mod_pos_bound, order_range. Qed.

#[local] Opaque scalar_inv.

Lemma cleared_inv_range k : 0 <= cleared_inv k < 2 ^ 256.
Proof.
  unfold cleared_inv. cbv zeta. pose proof (scalar_inv_range k) as H. pose proof (Z.mod_pos_bound (3 * scalar_inv k) 8 ltac:(lia)). pose proof order_range. nia.
Qed.

Lemma cleared_inv_8 k : cleared_inv k mod 8 = 0.
Proof.
  unfold cleared_inv. cbv zeta. set (i := scalar_inv k). clearbody i. assert (order = 8 * (order / 8) + 5) as E by reflexivity.
  set (q := order / 8) in *. clearbody q. rewrite E. zlia.
Qed.

Lemma clamp_unit b : RFC7748.clamp b mod order <> 0.
Proof.
  intros H. pose proof (clamp_range b) as Hr. pose proof (clamp_8 b) as H8. pose proof prime_order as Hp.
  apply Z.mod_divide in H; [|discriminate]. apply Z.mod_divide in H8; [|discriminate]. destruct H as [q Hq].
  assert ((8 | q)) as [r Hr8].
  { rewrite Hq in H8. apply (Z.gauss 8 order q); [rewrite Z.mul_comm; exact H8|]. vm_compute. reflexivity. }
  assert (2 ^ 254 <= RFC7748.clamp b) as Hlo by (unfold RFC7748.clamp; zlia). subst q. rewrite Hq in Hlo, Hr.
  assert (2 ^ 252 < order) as Ho by reflexivity. clear - Hlo Hr Ho. destruct (Z.le_gt_cases r 0); nia.
Qed.

Lemma cleared_inv_spec b c : (RFC7748.clamp b * (cleared_inv (RFC7748.clamp b) * c)) mod order = c mod order.
Proof.
  pose proof (clamp_unit b) as Hu. set (k := RFC7748.clamp b) in *. clearbody k. pose proof order_range as Ho.
  assert ((k * cleared_inv k) mod order = 1) as E.
  { unfold cleared_inv. cbv zeta. replace (k * (scalar_inv k + order * ((3 * scalar_inv k) mod 8))) with (k * scalar_inv k + k * ((3 * scalar_inv k) mod 8) * order) by ring.
    rewrite Z.mod_add by lia. with_strategy transparent [scalar_inv] unfold scalar_inv. rewrite Z.mul_mod_idemp_r, <- Z.mul_mod_idemp_l by lia.
    apply inverse_mod. rewrite Z.mod_mod by lia. exact Hu. }
  rewrite Z.mul_assoc, <- Z.mul_mod_idemp_l, E, Z.mul_1_l by lia. reflexivity.
Qed.

Lemma mont_one_reduced : reduced mont_one.
Proof. split; [repeat constructor; unfold is_u32; lia|]. split; reflexivity. Qed.

(** The words that enter the loop. *)
Lemma to_mont s : is_bytes s -> length s = 32%nat ->
  let m := load32_le_buf (mod_l (replicate 8 0 ++ load32_le_buf s 0 8)) 0 8 in reduced m /\ out_of m = le_val s mod order.
Proof.
  intros Hs Ls. cbv zeta. destruct (wval_load s 8 Hs ltac:(lia)) as (W1 & W2 & W3). rewrite take_ge in W3 by lia.
  destruct (mod_l_spec (replicate 8 0 ++ load32_le_buf s 0 8)) as (M1 & M2 & M3).
  { apply Forall_app. split; [apply words32_zeros|exact W1]. }
  { rewrite length_app, W2. reflexivity. }
  rewrite wval_app, wval_replicate0, W3 in M3. change (2 ^ (32 * Z.of_nat (length (replicate 8 0)))) with (2 ^ 256) in M3.
  set (t := mod_l _) in *. clearbody t. destruct (wval_load t 8 M1 ltac:(lia)) as (V1 & V2 & V3). rewrite take_ge in V3 by lia. pose proof order_range as Ho.
  split; [split; [exact V1|split; [exact V2|rewrite V3, M3; apply Z.mod_pos_bound; lia]]|].
  unfold out_of. rewrite V3, M3, Z.mul_mod_idemp_l by lia.
  replace ((0 + 2 ^ 256 * le_val s) * r_inv) with (le_val s * (2 ^ 256 * r_inv)) by ring. rewrite <- Z.mul_mod_idemp_r, r_inv_mod, Z.mul_1_r by lia. reflexivity.
Qed.

Lemma from_mont m : reduced m -> let s := store32_le_buf (redc (m ++ replicate 8 0)) in
  is_bytes s /\ length s = 32%nat /\ le_val s = out_of m.
Proof.
  intros Hm. cbv zeta. pose proof (reduced_nonneg m Hm) as Vm. destruct Hm as (M1 & M2 & _). pose proof order_range as Ho.
  assert (words32 (m ++ replicate 8 0)) as Hw by (apply Forall_app; split; [exact M1|apply words32_zeros]).
  assert (wval (m ++ replicate 8 0) = wval m) as Hv by (rewrite wval_app, wval_replicate0; lia).
  destruct (redc_spec (m ++ replicate 8 0) Hw) as (R1 & R2 & R3); [rewrite length_app, M2; reflexivity|rewrite Hv; nia|].
  set (r := redc _) in *. clearbody r. split; [apply is_bytes_store_buf|]. split; [rewrite length_store_buf, R2; reflexivity|]. rewrite (wval_store r R1), R3, Hv. reflexivity.
Qed.

(** ** Points *)

Lemma scalarmult_point s P k : is_bytes s -> le_val s = k -> 0 <= k < 2 ^ 256 -> on_c P -> scalarmult s (u_bytes P) 256 = u_bytes (k_mul k P).
Proof.
  intros Hs Es Hk HP. rewrite (scalarmult_sound s k (u_bytes P) 256 Hs Es (is_bytes_le_bytes _ _) (length_le_bytes _ _)), le_val_u.
  unfold u_bytes. f_equal. pose proof (e_range (u_of P)) as Hu. rewrite k_mul_nonneg by apply Hk.
  assert (e (RFC7748.mult k (Zmod.to_Z (u_of P)) 256) = u_of (times (Z.to_nat k) P)) as E.
  { destruct (fp_eq_dec (Zmod.mul P.2 P.2) Zmod.one) as [Hd|Hd].
    - rewrite (u_of_small P Hd). change (Zmod.to_Z Zmod.zero) with 0. rewrite mult_zero. symmetry. apply u_of_small.
      exact (small_smul _ _ _ _ _ _ _ _ fp_field fp_eq_dec _ _ fp_two fp_i fp_d _ P HP Hd).
    - exact (mult_times_bits 256 P k _ Hk Hu HP Hd (e_surj _)). }
  rewrite <- E, to_Z_e. symmetry. apply Z.mod_small, mult_range.
Qed.

#[local] Opaque scalarmult crypto_eddsa_trim_scalar RFC7748.clamp cleared_inv redc k_mul.

(** The whole function multiplies by the cleared inverse. *)
Lemma inverse_point a P : is_bytes a -> length a = 32%nat -> on_c P ->
  crypto_x25519_inverse a (u_bytes P) = u_bytes (k_mul (cleared_inv (RFC7748.clamp (le_val a))) P).
Proof.
  intros Ha La HP. unfold crypto_x25519_inverse. cbv zeta. destruct (trim_scalar_sound a Ha La) as (T1 & T2 & T3).
  destruct (to_mont _ T1 T2) as [M1 M2]. set (scl := load32_le_buf (mod_l _) 0 8) in *. clearbody scl. rewrite T3 in M2.
  set (k := RFC7748.clamp (le_val a)) in *. clearbody k.
  destruct (inverse_loop_spec 253 scl M1 mont_one 0 mont_one_reduced ltac:(lia) eq_refl) as [I1 I2].
  set (m := inverse_loop 253 scl mont_one) in *. clearbody m.
  assert (out_of m = scalar_inv k) as Em.
  { with_strategy transparent [scalar_inv] unfold scalar_inv. rewrite <- M2, I2. change (0 * 2 ^ Z.of_nat 253) with 0. rewrite Z.add_0_l. reflexivity. }
  destruct (from_mont m I1) as (F1 & F2 & F3). set (s := store32_le_buf (redc (m ++ replicate 8 0))) in *. clearbody s. rewrite Em in F3.
  assert (u8 (rd s 0 * 3) mod 8 = (3 * scalar_inv k) mod 8) as E8.
  { rewrite <- F3. pose proof (rd_0_mod8 s F1 ltac:(intros ->; discriminate F2)) as H. unfold u8. clear - H. zlia. }
  pose proof (cleared_inv_range k) as Hr. with_strategy transparent [cleared_inv] unfold cleared_inv in Hr |- *. cbv zeta in Hr |- *. rewrite <- E8, <- F3 in Hr |- *.
  destruct (add_xl_spec s (u8 (rd s 0 * 3)) F1 F2 ltac:(lia)) as (X1 & X2 & X3).
  exact (scalarmult_point _ P _ X1 X3 Hr HP).
Qed.

Lemma u_bytes_ok P : is_bytes (u_bytes P) /\ length (u_bytes P) = 32%nat.
Proof. split; [apply is_bytes_le_bytes|apply length_le_bytes]. Qed.

(** Multiplying by a secret and dividing by it, on the multiples of the base point. *)
Lemma inverse_left a b : k_mul (RFC7748.clamp a) (k_mul (cleared_inv (RFC7748.clamp a)) (k_mul b base)) = k_mul b base.
Proof.
  pose proof base_on_curve as HB. rewrite <- (k_mul_mul _ _ base HB), <- (k_mul_mul _ _ base HB). apply base_mod, cleared_inv_spec.
Qed.

Lemma inverse_right a b : k_mul (cleared_inv (RFC7748.clamp a)) (k_mul (RFC7748.clamp a) (k_mul b base)) = k_mul b base.
Proof.
  pose proof base_on_curve as HB. rewrite <- (inverse_left a b) at 2. rewrite <- !(k_mul_mul _ _ _ (on_c_mul b base HB)). by rewrite Z.mul_comm.
Qed.

(** On the dirty multiples of the base point. *)
Lemma inverse_dirty a b : k_mul (RFC7748.clamp a) (k_mul (cleared_inv (RFC7748.clamp a)) (dirty_point b)) = k_mul (RFC7748.clamp b) base.
Proof.
  pose proof base_on_curve as HB. pose proof lop_on_curve as HL. pose proof (on_c_dirty b) as HD.
  rewrite <- (k_mul_mul _ _ _ HD). set (k := RFC7748.clamp a * cleared_inv (RFC7748.clamp a)).
  assert (k mod 8 = 0) as K8 by (unfold k; rewrite Z.mul_mod, clamp_8 by lia; reflexivity).
  assert ((k * RFC7748.clamp b) mod order = RFC7748.clamp b mod order) as Kb by (unfold k; rewrite <- Z.mul_assoc; apply cleared_inv_spec).
  clearbody k. unfold dirty_point. rewrite (k_mul_distr _ _ _ (on_c_mul _ base HB) (on_c_mul _ lop HL)), <- (k_mul_mul _ _ base HB), <- (k_mul_mul _ _ lop HL).
  rewrite (base_mod _ _ Kb), (lop_mod (k * (b mod 8)) 0), k_mul_0; [apply p_add_zero|]. rewrite Z.mul_mod, K8 by lia. reflexivity.
Qed.

Lemma inverse_then_x25519 a P : is_bytes a -> length a = 32%nat -> on_c P ->
  crypto_x25519 a (crypto_x25519_inverse a (u_bytes P)) =
  u_bytes (k_mul (RFC7748.clamp (le_val a)) (k_mul (cleared_inv (RFC7748.clamp (le_val a))) P)).
Proof.
  intros Ha La HP. exact (eq_trans (f_equal (crypto_x25519 a) (inverse_point a P Ha La HP)) (x25519_point a _ Ha La (on_c_mul _ _ HP))).
Qed.

(** ** The contract *)

(** C27. [crypto_x25519_inverse] undoes [crypto_x25519] with the same secret, in either order, on
    every public key, and takes the component of low order out of a dirty one: dividing a dirty
    key and multiplying again gives the clean key. *)
Theorem x25519_inverse_correct a b : is_bytes a -> length a = 32%nat -> is_bytes b -> length b = 32%nat ->
  let pk := crypto_x25519_public_key b in
  crypto_x25519 a (crypto_x25519_inverse a pk) = pk /\
  crypto_x25519_inverse a (crypto_x25519 a pk) = pk /\
  crypto_x25519 a (crypto_x25519_inverse a (crypto_x25519_dirty_fast b)) = pk.
Proof.
  intros Ha La Hb Lb. cbv zeta. rewrite (public_key_point b Hb Lb), (dirty_fast_spec b Hb Lb).
  pose proof (on_c_mul (RFC7748.clamp (le_val b)) base base_on_curve) as HP. pose proof (on_c_dirty (le_val b)) as HD.
  split; [|split].
  - exact (eq_trans (inverse_then_x25519 a _ Ha La HP) (f_equal u_bytes (inverse_left _ _))).
  - exact (eq_trans (eq_trans (f_equal (crypto_x25519_inverse a) (x25519_point a _ Ha La HP)) (inverse_point a _ Ha La (on_c_mul _ _ HP))) (f_equal u_bytes (inverse_right _ _))).
  - exact (eq_trans (inverse_then_x25519 a _ Ha La HD) (f_equal u_bytes (inverse_dirty _ _))).
Qed.

(** Two secrets. *)
Lemma x25519_inverse_correct_witness :
  let a := replicate 32 5 in let b := replicate 32 6 in let pk := crypto_x25519_public_key b in
  crypto_x25519 a (crypto_x25519_inverse a pk) = pk /\
  crypto_x25519_inverse a (crypto_x25519 a pk) = pk /\
  crypto_x25519 a (crypto_x25519_inverse a (crypto_x25519_dirty_fast b)) = pk.
Proof.
  intros a b. apply (x25519_inverse_correct a b); try reflexivity; apply (bool_decide_unpack _); vm_compute; exact I.
Defined.
