(* ===== verification/Crypto.v ===== *)
(** * Hashing and key derivation (src/wg_crypto.c)

    The hash, MAC, HMAC and KDF functions of the handshake, over [Blake2s.v],
    and the TAI64N timestamp. *)

From S2P Require Import Prelude Neon Blake2s Aead.

Definition WG_HASH_LEN : Z := 32.
Definition WG_KEY_LEN : Z := 32.
Definition WG_MAC_LEN : Z := 16.
Definition WG_TIMESTAMP_LEN : Z := 12.

(** The chaining state of a handshake. *)
Record WgHandshakeState := mkHs { hs_hash : list Z; chaining_key : list Z; ephemeral_private : list Z }.

Section crypto.
Context `{NeonBuild}.

Definition wg_hash (data : list Z) : list Z := blake2s WG_HASH_LEN data [].

Definition wg_hash2 (a b : list Z) : list Z :=
  let state := blake2s_init WG_HASH_LEN in
  let state := blake2s_update state a in
  let state := blake2s_update state b in
  blake2s_final state.

Definition wg_mac (key data : list Z) : list Z := blake2s WG_MAC_LEN data key.

(** [for (i = 0; i < key_len && i < BLAKE2S_BLOCK_SIZE; i++) pad[i] ^= key[i];] *)
Definition xor_pad (pad key : list Z) : list Z :=
  fold_left (fun p i => wr p (Z.of_nat i) (Z.lxor (rd p (Z.of_nat i)) (rd key (Z.of_nat i))))
    (seq 0 (Nat.min (length key) (Z.to_nat BLAKE2S_BLOCK_SIZE))) pad.

Definition wg_hmac (out_len : Z) (key data : list Z) : list Z :=
  let ipad := xor_pad (replicate (Z.to_nat BLAKE2S_BLOCK_SIZE) 0x36) key in
  let opad := xor_pad (replicate (Z.to_nat BLAKE2S_BLOCK_SIZE) 0x5c) key in
  let state := blake2s_init WG_HASH_LEN in
  let state := blake2s_update state ipad in
  let state := blake2s_update state data in
  let inner := blake2s_final state in
  let state := blake2s_init out_len in
  let state := blake2s_update state opad in
  let state := blake2s_update state inner in
  blake2s_final state.

Definition wg_kdf1 (key input : list Z) : list Z :=
  let temp := wg_hmac WG_HASH_LEN key input in
  wg_hmac WG_HASH_LEN temp [1].

Definition wg_kdf2 (key input : list Z) : list Z * list Z :=
  let temp := wg_hmac WG_HASH_LEN key input in
  let out1 := wg_hmac WG_HASH_LEN temp [1] in
  let t1 := out1 ++ [2] in
  let out2 := wg_hmac WG_HASH_LEN temp t1 in
  (out1, out2).

Definition wg_kdf3 (key input : list Z) : list Z * list Z * list Z :=
  let temp := wg_hmac WG_HASH_LEN key input in
  let out1 := wg_hmac WG_HASH_LEN temp [1] in
  let t1 := out1 ++ [2] in
  let out2 := wg_hmac WG_HASH_LEN temp t1 in
  let t2 := out2 ++ [3] in
  let out3 := wg_hmac WG_HASH_LEN temp t2 in
  (out1, out2, out3).

Definition wg_mix_hash (state : WgHandshakeState) (data : list Z) : WgHandshakeState :=
  mkHs (wg_hash2 (hs_hash state) data) (chaining_key state) (ephemeral_private state).

(** Both outputs and the key of the call are the chaining key: the first output
    is written to it, then the second one over the first. *)
Definition wg_mix_key (state : WgHandshakeState) (input : list Z) : WgHandshakeState :=
  let '(out1, out2) := wg_kdf2 (chaining_key state) input in
  let ck := out1 in
  let ck := out2 in
  mkHs (hs_hash state) ck (ephemeral_private state).

(** The two words of [clock_gettime] are arguments. *)
Definition wg_timestamp (tv_sec tv_nsec : Z) : list Z :=
  let secs := add64 (u64 tv_sec) 0x400000000000000a in
  let nsecs := u32 tv_nsec in
  [u8 (shr64 secs 56); u8 (shr64 secs 48); u8 (shr64 secs 40); u8 (shr64 secs 32);
   u8 (shr64 secs 24); u8 (shr64 secs 16); u8 (shr64 secs 8); u8 secs;
   u8 (shr32 nsecs 24); u8 (shr32 nsecs 16); u8 (shr32 nsecs 8); u8 nsecs].
End crypto.

(** ** Reference definitions *)

(** BLAKE2s-256, and RFC 2104's HMAC over it for keys of at most one block. *)
Definition HASH (m : list Z) : list Z := blake2s_rfc 32 m [].
Definition HMAC (key m : list Z) : list Z :=
  let k := key ++ replicate (64 - length key) 0 in
  HASH (map (Z.lxor 0x5c) k ++ HASH (map (Z.lxor 0x36) k ++ m)).

(** RFC 5869: output block [i] of the expansion of [input] under [key]. *)
Fixpoint HKDF (key input : list Z) (i : nat) : list Z :=
  let prk := HMAC key input in
  match i with
  | O => []
  | S j => HMAC prk (HKDF key input j ++ [Z.of_nat i])
  end.

(** The big-endian value of a byte string, in which TAI64N labels are compared. *)
Definition be_val (l : list Z) : Z := fold_left (fun a b => 256 * a + b) l 0.

(** ** The functions compute them *)

Section correct.
Context `{NeonBuild}.

#[local] Opaque blake2s_rfc blake2s_init blake2s_update blake2s_final.

Lemma wg_hash_eq m : wg_hash m = HASH m.
Proof. unfold wg_hash, WG_HASH_LEN. apply blake2s_eq_rfc; simpl; lia. Qed.

Lemma wg_hash2_eq a b : wg_hash2 a b = HASH (a ++ b).
Proof.
  unfold wg_hash2, WG_HASH_LEN, HASH. pose proof (blake2s_pieces 32 [a; b]) as E.
  cbn [fold_left concat] in E. rewrite app_nil_r in E. apply E. lia.
Qed.

Lemma wg_mac_eq key m : (length key <= 32)%nat -> wg_mac key m = blake2s_rfc 16 m key.
Proof. intros. unfold wg_mac, WG_MAC_LEN. apply blake2s_eq_rfc; [lia|done]. Qed.

Lemma xor_pad_spec c key n :
  (n <= length key)%nat -> (n <= 64)%nat ->
  fold_left (fun p i => wr p (Z.of_nat i) (Z.lxor (rd p (Z.of_nat i)) (rd key (Z.of_nat i)))) (seq 0 n) (replicate 64 c)
  = map (Z.lxor c) (take n key) ++ replicate (64 - n) c.
Proof.
  induction n as [|n IH]; intros Hn H64; [done|]. rewrite seq_S, fold_left_app, IH by lia. cbn [Nat.add fold_left].
  destruct (lookup_lt_is_Some_2 key n ltac:(lia)) as [x Hx].
  rewrite (take_S_r key n x Hx), map_app. cbn [map]. rewrite <- app_assoc.
  assert (length (map (Z.lxor c) (take n key)) = n) as Hl by (rewrite length_map, length_take; lia).
  unfold wr, rd. rewrite !Nat2Z.id. rewrite insert_app_r_alt, Hl, Nat.sub_diag by lia.
  rewrite app_nth2, Hl, Nat.sub_diag by lia.
  replace (64 - n)%nat with (S (64 - S n)) by lia. cbn [replicate nth].
  rewrite (nth_lookup_Some key n 0 x Hx). reflexivity.
Qed.

Lemma xor_pad_eq c key : (length key <= 64)%nat -> 
  xor_pad (replicate (Z.to_nat BLAKE2S_BLOCK_SIZE) c) key = map (Z.lxor c) (key ++ replicate (64 - length key) 0).
Proof.
  intros Hk. unfold xor_pad. change (Z.to_nat BLAKE2S_BLOCK_SIZE) with 64%nat. rewrite Nat.min_l by lia.
  rewrite xor_pad_spec, firstn_all, map_app by lia. f_equal.
  change (map (Z.lxor c) (replicate (64 - length key) 0)) with (Z.lxor c <$> replicate (64 - length key) 0).
  rewrite fmap_replicate, Z.lxor_0_r. done.
Qed.

Lemma wg_hmac_eq key m : (length key <= 64)%nat -> wg_hmac 32 key m = HMAC key m.
Proof.
  intros Hk. transitivity (wg_hash2 (xor_pad (replicate (Z.to_nat BLAKE2S_BLOCK_SIZE) 0x5c) key)
    (wg_hash2 (xor_pad (replicate (Z.to_nat BLAKE2S_BLOCK_SIZE) 0x36) key) m)); [reflexivity|].
  rewrite !xor_pad_eq, !wg_hash2_eq by done. reflexivity.
Qed.

#[local] Transparent blake2s_rfc.

Lemma digest_ok h m n : (n <= 32)%nat -> length (digest h m (Z.of_nat n)) = n /\ is_bytes (digest h m (Z.of_nat n)).
Proof.
  intros Hn. unfold digest. rewrite Nat2Z.id.
  assert (forall l : list Z, length (concat (map (le_bytes 4) l)) = (4 * length l)%nat /\ is_bytes (concat (map (le_bytes 4) l))) as Hc.
  { induction l as [|x l [IH1 IH2]]; [split; [done|constructor]|]. cbn [map concat length].
    rewrite length_app, IH1, length_le_bytes. split; [lia|]. apply is_bytes_app; [apply is_bytes_le_bytes|done]. }
  destruct (Hc (F (chain h m (full_blocks (length m))) (pad_block (drop (64 * full_blocks (length m)) m)) (Z.of_nat (length m)) true))
    as [H1 H2].
  split; [|by apply is_bytes_take]. rewrite length_take, H1, length_F. lia.
Qed.

Lemma HASH_ok m : key_ok (HASH m).
Proof. unfold HASH, blake2s_rfc. destruct (digest_ok (param_h0 32 (Z.of_nat (length (@nil Z))))
  ((if (length (@nil Z) =? 0)%nat then [] else pad_block []) ++ m) 32) as [H1 H2]; [lia|]. by split. Qed.

Lemma HMAC_ok key m : key_ok (HMAC key m).
Proof. apply HASH_ok. Qed.

Lemma HKDF_ok key input i : key_ok (HKDF key input (S i)).
Proof. apply HMAC_ok. Qed.

#[local] Opaque HMAC.

Lemma wg_kdf1_eq key input : (length key <= 64)%nat -> wg_kdf1 key input = HKDF key input 1.
Proof.
  intros Hk. unfold wg_kdf1, WG_HASH_LEN. rewrite (wg_hmac_eq key) by done.
  rewrite wg_hmac_eq by (rewrite (proj2 (HMAC_ok key input)); lia). reflexivity.
Qed.

Lemma wg_kdf3_eq key input :
  (length key <= 64)%nat -> wg_kdf3 key input = (HKDF key input 1, HKDF key input 2, HKDF key input 3).
Proof.
  intros Hk. unfold wg_kdf3, WG_HASH_LEN. rewrite (wg_hmac_eq key) by done.
  rewrite !wg_hmac_eq by (rewrite (proj2 (HMAC_ok key input)); lia). reflexivity.
Qed.

Lemma wg_kdf2_eq key input : (length key <= 64)%nat -> wg_kdf2 key input = (HKDF key input 1, HKDF key input 2).
Proof.
  intros Hk. unfold wg_kdf2, WG_HASH_LEN. rewrite (wg_hmac_eq key) by done.
  rewrite !wg_hmac_eq by (rewrite (proj2 (HMAC_ok key input)); lia). reflexivity.
Qed.

(** C31. [wg_kdf1], [wg_kdf2] and [wg_kdf3] return the first one, two and three
    output blocks of HKDF (RFC 5869) over HMAC-BLAKE2s (RFC 2104) for every key
    of at most one block, in the scalar and the vector build. *)
Theorem kdf_is_hkdf key input :
  (length key <= 64)%nat ->
  wg_kdf1 key input = HKDF key input 1 /\
  wg_kdf2 key input = (HKDF key input 1, HKDF key input 2) /\
  wg_kdf3 key input = (HKDF key input 1, HKDF key input 2, HKDF key input 3).
Proof. intros Hk. split_and!; [by apply wg_kdf1_eq|by apply wg_kdf2_eq|by apply wg_kdf3_eq]. Qed.

(** [wg_mix_key] leaves the second KDF output in the chaining key, not the
    first one that the Noise MixKey step keeps: the three aliased arguments make
    the last write win. *)
Theorem mix_key_keeps_second_output state input :
  (length (chaining_key state) <= 64)%nat ->
  chaining_key (wg_mix_key state input) = HKDF (chaining_key state) input 2.
Proof. intros Hk. unfold wg_mix_key. rewrite wg_kdf2_eq by done. reflexivity. Qed.
End correct.

Lemma kdf_is_hkdf_witness :
  @wg_kdf1 true (replicate 32 1) [7] = HKDF (replicate 32 1) [7] 1 /\
  @wg_kdf2 true (replicate 32 1) [7] = (HKDF (replicate 32 1) [7] 1, HKDF (replicate 32 1) [7] 2) /\
  @wg_kdf3 true (replicate 32 1) [7] =
    (HKDF (replicate 32 1) [7] 1, HKDF (replicate 32 1) [7] 2, HKDF (replicate 32 1) [7] 3).
Proof. apply (@kdf_is_hkdf true (replicate 32 1) [7]). simpl. lia. Defined.

Lemma mix_key_keeps_second_output_witness :
  chaining_key (@wg_mix_key false (mkHs [] (replicate 32 2) []) [1; 2]) = HKDF (replicate 32 2) [1; 2] 2.
Proof. apply (@mix_key_keeps_second_output false (mkHs [] (replicate 32 2) []) [1; 2]). simpl. lia. Defined.

(** ** Timestamps *)

Lemma timestamp_val s n :
  0 <= s < 2 ^ 62 -> is_u32 n -> be_val (wg_timestamp s n) = (s + 0x400000000000000a) * 2 ^ 32 + n.
Proof.
  intros Hs Hn. unfold is_u32 in Hn. unfold wg_timestamp, add64. rewrite (u64_small s) by (unfold is_u64; lia).
  rewrite u64_small by (unfold is_u64; lia). rewrite (u32_small n) by (unfold is_u32; lia).
  set (x := s + _). assert (0 <= x < 2 ^ 64) by lia. clearbody x.
  pose proof (le_val_le_bytes 8 x) as E1. pose proof (le_val_le_bytes 4 n) as E2.
  rewrite <- store64_le_bytes in E1. rewrite <- store32_le_bytes in E2. unfold store64_le, store32_le in E1, E2.
  change (256 ^ Z.of_nat 8) with (2 ^ 64) in E1. change (256 ^ Z.of_nat 4) with (2 ^ 32) in E2.
  rewrite Z.mod_small in E1, E2 by lia. unfold be_val. cbn [fold_left]. cbn [le_val] in E1, E2. lia.
Qed.

(** Later clock readings give greater TAI64N labels: the twelve bytes of
    [wg_timestamp], compared as a big-endian number, are ordered as the pairs of
    seconds and nanoseconds. *)
Theorem timestamp_monotone s1 n1 s2 n2 :
  0 <= s1 < 2 ^ 62 -> 0 <= s2 < 2 ^ 62 -> 0 <= n1 < 10 ^ 9 -> 0 <= n2 < 10 ^ 9 ->
  be_val (wg_timestamp s1 n1) < be_val (wg_timestamp s2 n2) <-> s1 < s2 \/ (s1 = s2 /\ n1 < n2).
Proof. intros. rewrite !timestamp_val by (unfold is_u32; lia). lia. Qed.

Lemma timestamp_monotone_witness :
  be_val (wg_timestamp 1700000000 999999999) < be_val (wg_timestamp 1700000001 0) <->
  1700000000 < 1700000001 \/ (1700000000 = 1700000001 /\ 999999999 < 0).
Proof. apply (timestamp_monotone 1700000000 999999999 1700000001 0); lia. Defined.
