(* ===== verification/RecvPool.v ===== *)
(** * The pool of receive slots (src/wireguard.c, src/wg_internal.h)

    256 slots linked through their [next] pointers into a free list.  A slot
    pointer is the index of the slot; a null pointer is [None]. *)

From stdpp Require Import relations sets.
From S2P Require Import Prelude.

Definition WG_RECV_SLOT_CAP : Z := 2048.
Definition WG_RECV_POOL_SIZE : nat := 256.

Record WgRecvSlot := mkSlot { slot_next : option nat; slot_data : list Z }.
Record WgRecvPool := mkPool {
  slots : option (list WgRecvSlot);
  free_head : option nat;
  initialized : bool
}.

(** The pool as [calloc] leaves it inside a new tunnel. *)
Definition zero_pool : WgRecvPool := mkPool None None false.

Definition set_next (ss : list WgRecvSlot) (i : nat) (n : option nat) : list WgRecvSlot :=
  match ss !! i with Some s => <[i := mkSlot n (slot_data s)]> ss | None => ss end.

(** The loop that pushes the slots onto the free list, one after the other. *)
Definition link_slots (n : nat) (ss : list WgRecvSlot) : list WgRecvSlot * option nat :=
  fold_left (fun '(ss, head) i => (set_next ss i head, Some i)) (seq 0 n) (ss, None).

(** [calloc_ok] and [mutex_ok] are the outcomes of the two allocations. *)
Definition wg_recv_pool_init (calloc_ok mutex_ok : bool) (pool : WgRecvPool) : Z * WgRecvPool :=
  if calloc_ok then
    let ss := replicate WG_RECV_POOL_SIZE (mkSlot None (replicate (Z.to_nat WG_RECV_SLOT_CAP) 0)) in
    if mutex_ok then
      let '(ss, head) := link_slots WG_RECV_POOL_SIZE ss in
      (0, mkPool (Some ss) head true)
    else (-1, mkPool None (free_head pool) (initialized pool))
  else (-1, mkPool None (free_head pool) (initialized pool)).

Definition wg_recv_pool_destroy (pool : WgRecvPool) : WgRecvPool :=
  if initialized pool then mkPool None None false else pool.

Definition wg_recv_pool_acquire (pool : WgRecvPool) : option nat * WgRecvPool :=
  if initialized pool then
    match free_head pool, slots pool with
    | Some i, Some ss =>
        let head := match ss !! i with Some s => slot_next s | None => None end in
        (Some i, mkPool (Some (set_next ss i None)) head true)
    | _, _ => (None, pool)
    end
  else (None, pool).

Definition wg_recv_pool_release (pool : WgRecvPool) (slot : option nat) : WgRecvPool :=
  if initialized pool then
    match slot, slots pool with
    | Some i, Some ss => mkPool (Some (set_next ss i (free_head pool))) (Some i) true
    | _, _ => pool
    end
  else pool.

(** The buffer of a slot, and a write to it. *)
Definition slot_write (pool : WgRecvPool) (i : nat) (d : list Z) : WgRecvPool :=
  match slots pool with
  | Some ss =>
      match ss !! i with
      | Some s => mkPool (Some (<[i := mkSlot (slot_next s) d]> ss)) (free_head pool) (initialized pool)
      | None => pool
      end
  | None => pool
  end.

#[local] Opaque WG_RECV_POOL_SIZE.

(** ** The free list *)

(** The slots reached from [h] through the [next] pointers. *)
Inductive chain (ss : list WgRecvSlot) : option nat -> list nat -> Prop :=
| chain_nil : chain ss None []
| chain_cons i s l : ss !! i = Some s -> chain ss (slot_next s) l -> chain ss (Some i) (i :: l).

Lemma length_set_next ss i n : length (set_next ss i n) = length ss.
Proof. unfold set_next. destruct (ss !! i); [apply length_insert|done]. Qed.

Lemma lookup_set_next ss i n s : ss !! i = Some s -> set_next ss i n !! i = Some (mkSlot n (slot_data s)).
Proof.
  intros H. unfold set_next. rewrite H. apply list_lookup_insert_eq. by eapply lookup_lt_Some.
Qed.
Lemma lookup_set_next_ne ss i j n : i <> j -> set_next ss i n !! j = ss !! j.
Proof. intros. unfold set_next. destruct (ss !! i); [by apply list_lookup_insert_ne|done]. Qed.

(** Changing a slot off the chain does not change the chain. *)
Lemma chain_frame ss h l i n : chain ss h l -> i ∉ l -> chain (set_next ss i n) h l.
Proof.
  induction 1 as [|j s l Hj Hc IH]; intros Hi; [constructor|]. apply not_elem_of_cons in Hi as [Hij Hi].
  econstructor; [by rewrite lookup_set_next_ne|by apply IH].
Qed.

Lemma chain_push ss h l i s :
  chain ss h l -> i ∉ l -> ss !! i = Some s -> chain (set_next ss i h) (Some i) (i :: l).
Proof. intros Hc Hi Hs. econstructor; [by apply lookup_set_next|]. by apply chain_frame. Qed.

Lemma chain_bound ss h l i : chain ss h l -> i ∈ l -> (i < length ss)%nat.
Proof.
  induction 1 as [|j s l Hj Hc IH]; intros Hi; [by apply elem_of_nil in Hi|].
  apply elem_of_cons in Hi as [->|Hi]; [by eapply lookup_lt_Some|auto].
Qed.

(** ** Reachable pools

    The pool with the slots its users hold: acquiring hands a slot out,
    releasing one gives a held slot back, and a user may write to a slot it
    holds. *)
Inductive pool_step : WgRecvPool * list nat -> WgRecvPool * list nat -> Prop :=
| step_acquire pool held i pool' :
    wg_recv_pool_acquire pool = (Some i, pool') -> pool_step (pool, held) (pool', i :: held)
| step_acquire_fail pool held pool' :
    wg_recv_pool_acquire pool = (None, pool') -> pool_step (pool, held) (pool', held)
| step_release pool l1 i l2 :
    pool_step (pool, l1 ++ i :: l2) (wg_recv_pool_release pool (Some i), l1 ++ l2)
| step_write pool held i d :
    i ∈ held -> pool_step (pool, held) (slot_write pool i d, held).

Definition pool_start (s : WgRecvPool * list nat) : Prop :=
  exists pool0, wg_recv_pool_init true true pool0 = (0, s.1) /\ s.2 = [].

Definition pool_inv (s : WgRecvPool * list nat) : Prop :=
  exists ss free, slots s.1 = Some ss /\ initialized s.1 = true /\ length ss = WG_RECV_POOL_SIZE /\
    chain ss (free_head s.1) free /\ free ++ s.2 ≡ₚ seq 0 WG_RECV_POOL_SIZE.

Lemma init_chain n ss :
  (n <= length ss)%nat ->
  let '(ss', h) := link_slots n ss in
  length ss' = length ss /\ chain ss' h (rev (seq 0 n)).
Proof.
  unfold link_slots. induction n as [|n IH]; intros Hn; [split; [done|constructor]|].
  rewrite seq_S, fold_left_app. specialize (IH ltac:(lia)).
  destruct (fold_left _ (seq 0 n) (ss, None)) as [ss' h] eqn:E. destruct IH as [Hl Hc].
  cbn [fold_left Nat.add]. rewrite length_set_next, rev_app_distr. split; [done|]. cbn [rev app].
  destruct (lookup_lt_is_Some_2 ss' n ltac:(lia)) as [s Hs]. apply (chain_push _ _ _ _ s); [done| |done].
  rewrite list_elem_of_In, <- in_rev, in_seq. lia.
Qed.

Lemma pool_inv_start s : pool_start s -> pool_inv s.
Proof.
  intros (pool0 & Hi & He). destruct s as [pool held]. cbn [fst snd] in *. subst held.
  unfold wg_recv_pool_init in Hi.
  set (ss0 := replicate WG_RECV_POOL_SIZE _) in Hi. assert (length ss0 = WG_RECV_POOL_SIZE) as H0 by apply length_replicate.
  pose proof (init_chain WG_RECV_POOL_SIZE ss0) as Hc. destruct (link_slots WG_RECV_POOL_SIZE ss0) as [ss h].
  injection Hi as <-. destruct Hc as [Hl Hc]; [lia|].
  exists ss, (rev (seq 0 WG_RECV_POOL_SIZE)). cbn [slots free_head initialized fst snd].
  split_and!; [done|done|congruence|done|]. rewrite app_nil_r. symmetry. apply Permutation_rev.
Qed.

Lemma perm_nodup (l : list nat) n : l ≡ₚ seq 0 n -> NoDup l.
Proof. intros ->. apply NoDup_seq. Qed.

Lemma chain_write ss h l i s d :
  ss !! i = Some s -> chain ss h l -> chain (<[i := mkSlot (slot_next s) d]> ss) h l.
Proof.
  intros Hi. induction 1 as [|j s' l Hj Hc IH]; [constructor|].
  destruct (decide (i = j)) as [->|Hne].
  - rewrite Hi in Hj. injection Hj as <-. econstructor; [apply list_lookup_insert_eq; by eapply lookup_lt_Some|done].
  - econstructor; [by rewrite list_lookup_insert_ne|done].
Qed.

Lemma pool_inv_step s s' : pool_step s s' -> pool_inv s -> pool_inv s'.
Proof.
  intros Hstep (ss & free & Hs & Hi & Hl & Hc & Hp). pose proof (perm_nodup _ _ Hp) as Hnd.
  destruct Hstep as [pool held i pool' Ha|pool held pool' Ha|pool l1 i l2|pool held i d Hheld]; simpl in *.
  - unfold wg_recv_pool_acquire in Ha. rewrite Hi, Hs in Ha.
    inversion Hc as [Hh|j s l Hj Hc' Hh Hf]; rewrite <- Hh in Ha; [done|]. subst free.
    rewrite Hj in Ha. injection Ha as <- <-. exists (set_next ss j None), l. cbn [slots free_head initialized].
    rewrite length_set_next. apply NoDup_cons in Hnd as [Hnotin _].
    split_and!; try done; [apply chain_frame; [done|set_solver]|]. rewrite <- Hp. symmetry. apply Permutation_middle.
  - unfold wg_recv_pool_acquire in Ha. rewrite Hi, Hs in Ha.
    assert (pool' = pool) as -> by (destruct (free_head pool); congruence). exists ss, free. done.
  - unfold wg_recv_pool_release. rewrite Hi, Hs. cbn [slots free_head initialized].
    assert (i ∉ free) as Hni.
    { intros Hin. apply NoDup_app in Hnd as (_ & Hd & _). apply (Hd i Hin). set_solver. }
    assert (i < length ss)%nat as Hlt.
    { assert (i ∈ seq 0 WG_RECV_POOL_SIZE) as Hin by (rewrite <- Hp; set_solver). apply elem_of_seq in Hin. lia. }
    destruct (lookup_lt_is_Some_2 ss i Hlt) as [s Hsi].
    exists (set_next ss i (free_head pool)), (i :: free). rewrite length_set_next. split_and!; try done.
    + by eapply chain_push.
    + rewrite <- Hp. cbn [app snd]. rewrite !app_assoc. apply Permutation_middle.
  - unfold slot_write. rewrite Hs. destruct (ss !! i) as [s|] eqn:Ei; [|by exists ss, free].
    exists (<[i := mkSlot (slot_next s) d]> ss), free. cbn [slots free_head initialized].
    rewrite length_insert. split_and!; try done. by apply chain_write.
Qed.

(** Every state reached from a successful initialisation. *)
Definition pool_reachable (s : WgRecvPool * list nat) : Prop := exists s0, pool_start s0 /\ rtc pool_step s0 s.

Lemma pool_reachable_inv s : pool_reachable s -> pool_inv s.
Proof.
  intros (s0 & H0 & Hr). apply pool_inv_start in H0.
  induction Hr as [|x y z Hxy Hyz IH]; [done|]. apply IH. by eapply pool_inv_step.
Qed.

(** C34. However slots are acquired, written and released, [wg_recv_pool_acquire]
    hands out a slot of the pool that nobody holds, and it fails exactly when all
    256 slots are held. *)
Theorem pool_acquire_fresh pool held :
  pool_reachable (pool, held) ->
  match wg_recv_pool_acquire pool with
  | (Some i, _) => (i < WG_RECV_POOL_SIZE)%nat /\ (i ∉ held) /\ (length held < WG_RECV_POOL_SIZE)%nat
  | (None, pool') => length held = WG_RECV_POOL_SIZE /\ pool' = pool
  end.
Proof.
  intros (ss & free & Hs & Hi & Hl & Hc & Hp)%pool_reachable_inv. simpl in *.
  pose proof (perm_nodup _ _ Hp) as Hnd. pose proof (Permutation_length Hp) as Hlen.
  rewrite length_app, length_seq in Hlen.
  unfold wg_recv_pool_acquire. rewrite Hi, Hs.
  inversion Hc as [Hh Hf|j s l Hj Hc' Hh Hf]; subst free; cbn [length] in Hlen.
  - split; [lia|done].
  - apply NoDup_cons in Hnd as [Hn _]. split_and!; [|set_solver|lia].
    rewrite <- Hl. by eapply lookup_lt_Some.
Qed.

(** The pool is a stack: a released slot is the next one acquired, and
    acquiring it restores the free list to what it was. *)
Theorem pool_release_acquire pool l1 i l2 :
  pool_reachable (pool, l1 ++ i :: l2) ->
  exists pool', wg_recv_pool_acquire (wg_recv_pool_release pool (Some i)) = (Some i, pool') /\
    free_head pool' = free_head pool /\ initialized pool' = true.
Proof.
  intros (ss & free & Hs & Hi & Hl & Hc & Hp)%pool_reachable_inv. simpl in *.
  unfold wg_recv_pool_release. rewrite Hi, Hs. unfold wg_recv_pool_acquire. cbn [slots free_head initialized].
  assert (i < length ss)%nat as Hlt.
  { assert (i ∈ seq 0 WG_RECV_POOL_SIZE) as Hin by (rewrite <- Hp; set_solver). apply elem_of_seq in Hin. lia. }
  destruct (lookup_lt_is_Some_2 ss i Hlt) as [s Hsi]. rewrite (lookup_set_next _ _ _ _ Hsi).
  eexists. split; [done|]. done.
Qed.

#[local] Transparent WG_RECV_POOL_SIZE.

Definition example_pool : WgRecvPool := (wg_recv_pool_init true true zero_pool).2.

Lemma example_reachable : pool_reachable ((wg_recv_pool_acquire example_pool).2, [255%nat]).
Proof.
  exists (example_pool, []). split.
  - exists zero_pool. split; [|done]. vm_compute. reflexivity.
  - eapply rtc_once, step_acquire. vm_compute. reflexivity.
Qed.

Lemma pool_acquire_fresh_witness :
  match wg_recv_pool_acquire (wg_recv_pool_acquire example_pool).2 with
  | (Some i, _) => (i < WG_RECV_POOL_SIZE)%nat /\ (i ∉ [255%nat]) /\ (length [255%nat] < WG_RECV_POOL_SIZE)%nat
  | (None, pool') => length [255%nat] = WG_RECV_POOL_SIZE /\ pool' = (wg_recv_pool_acquire example_pool).2
  end.
Proof. exact (pool_acquire_fresh _ _ example_reachable). Defined.

Lemma pool_release_acquire_witness :
  exists pool', wg_recv_pool_acquire (wg_recv_pool_release (wg_recv_pool_acquire example_pool).2 (Some 255%nat))
                = (Some 255%nat, pool') /\
    free_head pool' = free_head (wg_recv_pool_acquire example_pool).2 /\ initialized pool' = true.
Proof. exact (pool_release_acquire _ [] 255%nat [] example_reachable). Defined.
