(* ===== verification/Base64.v ===== *)
(** * Keys in base64 (src/wireguard.c)

    [wg_key_from_base64] and [wg_key_to_base64].  A C string is the list of its
    character codes without the final NUL; a read at its end gives 0. *)

From S2P Require Import Prelude.

(** "ABCDEFGHIJKLMNOPQRSTUVWXYZabcdefghijklmnopqrstuvwxyz0123456789+/" *)
Definition b64_table : list Z := seqZ 65 26 ++ seqZ 97 26 ++ seqZ 48 10 ++ [43; 47].

Definition b64_decode_char (c : Z) : Z :=
  if (65 <=? c) && (c <=? 90) then c - 65
  else if (97 <=? c) && (c <=? 122) then c - 97 + 26
  else if (48 <=? c) && (c <=? 57) then c - 48 + 52
  else if c =? 43 then 62
  else if c =? 47 then 63
  else -1.

Definition EQ : Z := 61.

(** One iteration of the loop at index [i]; the bytes stored so far are
    [key[0 .. out_idx)].  [None] is the early [return -1]. *)
Definition from_base64_step (base64 : list Z) (key : list Z) (i : Z) : option (list Z) :=
  if (length key <? 32)%nat then
    let a := b64_decode_char (rd base64 i) in
    let b := b64_decode_char (rd base64 (i + 1)) in
    let c := if i + 2 <? 43 then b64_decode_char (rd base64 (i + 2)) else 0 in
    let d := if i + 3 <? 43 then b64_decode_char (rd base64 (i + 3)) else 0 in
    if (a <? 0) || (b <? 0) then None
    else
      let key := if (length key <? 32)%nat then key ++ [u8 (Z.lor (Z.shiftl a 2) (Z.shiftr b 4))] else key in
      let key := if (length key <? 32)%nat && negb (rd base64 (i + 2) =? EQ)
                 then key ++ [u8 (Z.lor (Z.shiftl b 4) (Z.shiftr c 2))] else key in
      let key := if (length key <? 32)%nat && negb (rd base64 (i + 3) =? EQ)
                 then key ++ [u8 (Z.lor (Z.shiftl c 6) d)] else key in
      Some key
  else Some key.

(** The result and the bytes of [key] that were stored. *)
Definition wg_key_from_base64 (base64 : list Z) : Z * list Z :=
  if (length base64 <? 43)%nat then (-1, [])
  else
    match foldl (fun o i => key ← o; from_base64_step base64 key i) (Some []) [0; 4; 8; 12; 16; 20; 24; 28; 32; 36; 40] with
    | None => (-1, [])
    | Some key => if (length key =? 32)%nat then (0, key) else (-1, key)
    end.

(** The four characters of the group at [i]. *)
Definition to_base64_step (key : list Z) (i : Z) : list Z :=
  let n := shl32 (rd key i) 16 in
  let n := if i + 1 <? 32 then Z.lor n (shl32 (rd key (i + 1)) 8) else n in
  let n := if i + 2 <? 32 then Z.lor n (rd key (i + 2)) else n in
  [rd b64_table (Z.land (shr32 n 18) 0x3F);
   rd b64_table (Z.land (shr32 n 12) 0x3F);
   if i + 1 <? 32 then rd b64_table (Z.land (shr32 n 6) 0x3F) else EQ;
   if i + 2 <? 32 then rd b64_table (Z.land n 0x3F) else EQ].

(** The result and the characters written, the final NUL included. *)
Definition wg_key_to_base64 (len : Z) (key : list Z) : Z * list Z :=
  if len <? 45 then (-1, [])
  else (0, concat (map (to_base64_step key) [0; 3; 6; 9; 12; 15; 18; 21; 24; 27; 30]) ++ [0]).

Lemma decode_table v : 0 <= v < 64 -> b64_decode_char (rd b64_table v) = v /\ rd b64_table v <> EQ /\ rd b64_table v <> 0.
Proof.
  intros Hv. assert (forallb (fun v => (b64_decode_char (rd b64_table v) =? v) && negb (rd b64_table v =? EQ) &&
    negb (rd b64_table v =? 0)) (seqZ 0 64) = true) as H by reflexivity.
  rewrite forallb_forall in H. specialize (H v). rewrite <- list_elem_of_In, elem_of_seqZ in H.
  specialize (H ltac:(lia)). rewrite !andb_true_iff, !negb_true_iff, Z.eqb_eq, !Z.eqb_neq in H. tauto.
Qed.

Lemma land63 x : 0 <= Z.land x 63 < 64.
Proof. change 63 with (Z.ones 6). rewrite Z.land_ones by lia. apply Z.mod_pos_bound. lia. Qed.

(** The three bytes of a group from its four characters. *)
Lemma group_bits x y z :
  is_u8 x -> is_u8 y -> is_u8 z ->
  let n := Z.lor (Z.lor (shl32 x 16) (shl32 y 8)) z in
  let a := Z.land (shr32 n 18) 63 in let b := Z.land (shr32 n 12) 63 in
  let c := Z.land (shr32 n 6) 63 in let d := Z.land n 63 in
  u8 (Z.lor (Z.shiftl a 2) (Z.shiftr b 4)) = x /\ u8 (Z.lor (Z.shiftl b 4) (Z.shiftr c 2)) = y /\
  u8 (Z.lor (Z.shiftl c 6) d) = z.
Proof.
  intros Hx Hy Hz. cbv zeta. unfold is_u8 in *. rewrite !shl32_byte by (unfold is_u8; lia).
  assert (Z.lor (Z.lor (Z.shiftl x 16) (Z.shiftl y 8)) z = x * 65536 + y * 256 + z) as ->.
  { rewrite (Z.lor_comm (Z.shiftl x 16)), Z.lor_comm.
    rewrite (Z.shiftl_mul_pow2 y) by lia. rewrite (lor_shiftl_add (y * 2 ^ 8) x) by lia.
    replace (y * 2 ^ 8 + x * 2 ^ 16) with ((y + x * 256) * 2 ^ 8) by lia.
    rewrite <- (Z.shiftl_mul_pow2 _ 8) by lia. rewrite lor_shiftl_add by lia. lia. }
  assert (forall v, Z.land v 63 = v mod 64) as El by (intros; apply (Z.land_ones _ 6); lia).
  rewrite !El, !shr32_div by lia. set (n := x * 65536 + y * 256 + z).
  assert (forall p q k, 0 <= q < 2 ^ k -> 0 <= k -> Z.lor (Z.shiftl p k) q = q + p * 2 ^ k) as Ej
    by (intros; rewrite Z.lor_comm, lor_shiftl_add by lia; done).
  unfold u8.
  rewrite !Ej by (try (split; [apply Z.div_pos; [apply Z.mod_pos_bound|]; lia|];
     apply Z.div_lt_upper_bound; [lia|]; pose proof (Z.mod_pos_bound (n / 2 ^ 12) 64);
     pose proof (Z.mod_pos_bound (n / 2 ^ 6) 64); lia); try apply Z.mod_pos_bound; lia).
  subst n. split_and!; zlia.
Qed.

(** A whole group appended to fewer than 30 bytes. *)
Lemma from_step_group base64 key i x y z :
  is_u8 x -> is_u8 y -> is_u8 z -> (length key + 3 <= 32)%nat -> i + 3 < 43 ->
  (let n := Z.lor (Z.lor (shl32 x 16) (shl32 y 8)) z in
   rd base64 i = rd b64_table (Z.land (shr32 n 18) 63) /\ rd base64 (i + 1) = rd b64_table (Z.land (shr32 n 12) 63) /\
   rd base64 (i + 2) = rd b64_table (Z.land (shr32 n 6) 63) /\ rd base64 (i + 3) = rd b64_table (Z.land n 63)) ->
  from_base64_step base64 key i = Some (key ++ [x; y; z]).
Proof.
  intros Hx Hy Hz Hl Hi. cbv zeta. destruct (group_bits x y z Hx Hy Hz) as (E1 & E2 & E3).
  set (n := Z.lor _ z) in *. intros (R0 & R1 & R2 & R3). unfold from_base64_step. rewrite R0, R1, R2, R3.
  destruct (decode_table _ (land63 (shr32 n 18))) as [-> _]. destruct (decode_table _ (land63 (shr32 n 12))) as [-> _].
  destruct (decode_table _ (land63 (shr32 n 6))) as (-> & N2 & _). destruct (decode_table _ (land63 n)) as (-> & N3 & _).
  pose proof (land63 (shr32 n 18)). pose proof (land63 (shr32 n 12)).
  rewrite (proj2 (Z.ltb_lt (i + 2) 43)), (proj2 (Z.ltb_lt (i + 3) 43)) by lia.
  rewrite (proj2 (Z.ltb_ge (Z.land (shr32 n 18) 63) 0)), (proj2 (Z.ltb_ge (Z.land (shr32 n 12) 63) 0)) by lia.
  rewrite (proj2 (Z.eqb_neq _ _) N2), (proj2 (Z.eqb_neq _ _) N3). cbn [orb negb]. rewrite !andb_true_r.
  rewrite E1, E2, E3. rewrite (proj2 (Nat.ltb_lt (length key) 32)) by lia. 
  rewrite (proj2 (Nat.ltb_lt (length (key ++ [x])) 32)) by (rewrite length_app; simpl; lia).
  rewrite <- app_assoc. rewrite (proj2 (Nat.ltb_lt (length (key ++ [x] ++ [y])) 32)) by (rewrite !length_app; simpl; lia).
  rewrite <- app_assoc. done.
Qed.

(** The last group holds two bytes. *)
Lemma from_step_last base64 key x y :
  is_u8 x -> is_u8 y -> length key = 30%nat ->
  (let n := Z.lor (shl32 x 16) (shl32 y 8) in
   rd base64 40 = rd b64_table (Z.land (shr32 n 18) 63) /\ rd base64 41 = rd b64_table (Z.land (shr32 n 12) 63) /\
   rd base64 42 = rd b64_table (Z.land (shr32 n 6) 63)) ->
  from_base64_step base64 key 40 = Some (key ++ [x; y]).
Proof.
  intros Hx Hy Hl. cbv zeta. destruct (group_bits x y 0 Hx Hy is_u8_0) as (E1 & E2 & _).
  rewrite Z.lor_0_r in E1, E2. set (n := Z.lor (shl32 x 16) (shl32 y 8)) in *. intros (R0 & R1 & R2). unfold from_base64_step.
  change (40 + 1) with 41. change (40 + 2) with 42. change (40 + 3) with 43. rewrite R0, R1, R2.
  destruct (decode_table _ (land63 (shr32 n 18))) as [-> _]. destruct (decode_table _ (land63 (shr32 n 12))) as [-> _].
  destruct (decode_table _ (land63 (shr32 n 6))) as (-> & N2 & _).
  pose proof (land63 (shr32 n 18)). pose proof (land63 (shr32 n 12)).
  rewrite (proj2 (Z.ltb_ge (Z.land (shr32 n 18) 63) 0)), (proj2 (Z.ltb_ge (Z.land (shr32 n 12) 63) 0)) by lia.
  rewrite (proj2 (Z.eqb_neq _ _) N2). change (42 <? 43) with true. change (43 <? 43) with false. cbn [orb negb].
  rewrite E1, E2. rewrite (proj2 (Nat.ltb_lt (length key) 32)) by lia. rewrite !andb_true_r.
  rewrite (proj2 (Nat.ltb_lt (length (key ++ [x])) 32)) by (rewrite length_app; simpl; lia).
  rewrite <- app_assoc. rewrite (proj2 (Nat.ltb_ge (length (key ++ [x] ++ [y])) 32)) by (rewrite !length_app; simpl; lia).
  done.
Qed.

(** One group of the decoding loop, with the characters read off the encoding. *)
Ltac group_step s k i x y z :=
  rewrite (from_step_group s k i x y z); [|assumption..|simpl; lia|lia|cbv zeta; split_and!; reflexivity];
  cbn [mbind option_bind app].

(** The first group with arbitrary third and fourth characters. *)
Lemma first_group_unchecked c d t :
  c <> EQ -> d <> EQ -> exists y z, from_base64_step (65 :: 65 :: c :: d :: t) [] 0 = Some [0; y; z].
Proof.
  intros Hc Hd. unfold from_base64_step. change (rd (65 :: 65 :: c :: d :: t) 0) with 65.
  change (rd (65 :: 65 :: c :: d :: t) (0 + 1)) with 65. change (rd (65 :: 65 :: c :: d :: t) (0 + 2)) with c.
  change (rd (65 :: 65 :: c :: d :: t) (0 + 3)) with d.
  rewrite (proj2 (Z.eqb_neq _ _) Hc), (proj2 (Z.eqb_neq _ _) Hd). do 2 eexists. reflexivity.
Qed.

(** [wg_key_from_base64] does not check the third and fourth character of a
    group: any two characters other than the padding sign there, of the base64
    alphabet or not, are accepted as part of a key. *)
Theorem base64_accepts_invalid c d :
  c <> EQ -> d <> EQ -> exists key, wg_key_from_base64 (65 :: 65 :: c :: d :: replicate 40 65) = (0, key).
Proof.
  intros Hc Hd. destruct (first_group_unchecked c d (replicate 40 65) Hc Hd) as (y & z & E).
  exists (0 :: y :: z :: replicate 29 0). unfold wg_key_from_base64.
  set (s := 65 :: _) in *. change (length s <? 43)%nat with false. cbn [foldl mbind option_bind]. rewrite E. cbn [mbind option_bind].
  pose proof is_u8_0.
  repeat lazymatch goal with
  | |- context [from_base64_step s ?k 4] => group_step s k 4 0 0 0
  | |- context [from_base64_step s ?k 8] => group_step s k 8 0 0 0
  | |- context [from_base64_step s ?k 12] => group_step s k 12 0 0 0
  | |- context [from_base64_step s ?k 16] => group_step s k 16 0 0 0
  | |- context [from_base64_step s ?k 20] => group_step s k 20 0 0 0
  | |- context [from_base64_step s ?k 24] => group_step s k 24 0 0 0
  | |- context [from_base64_step s ?k 28] => group_step s k 28 0 0 0
  | |- context [from_base64_step s ?k 32] => group_step s k 32 0 0 0
  | |- context [from_base64_step s ?k 36] => group_step s k 36 0 0 0
  end.
  rewrite (from_step_last s _ 0 0); [|assumption..|done|cbv zeta; split_and!; reflexivity]. done.
Qed.

Lemma base64_accepts_invalid_witness :
  exists key, wg_key_from_base64 (65 :: 65 :: 33 :: 32 :: replicate 40 65) = (0, key).
Proof. apply (base64_accepts_invalid 33 32); discriminate. Defined.

#[local] Opaque b64_table Z.land Z.lor shl32 shr32.

Lemma base64_roundtrip_lemma len key :
  is_bytes key -> length key = 32%nat -> 45 <= len ->
  wg_key_from_base64 (take 44 (wg_key_to_base64 len key).2) = (0, key).
Proof.
  intros Hb Hl Hlen. unfold wg_key_to_base64. rewrite (proj2 (Z.ltb_ge len 45)) by lia. cbn [snd].
  do 32 (destruct key as [|?x key]; [discriminate|]). destruct key; [|discriminate].
  unfold is_bytes in Hb. rewrite !Forall_cons in Hb. destruct_and! Hb.
  set (s := take 44 _).
  unfold wg_key_from_base64. change (length s) with 44%nat. change (44 <? 43)%nat with false. cbn [foldl mbind option_bind].
  repeat lazymatch goal with
  | |- context [from_base64_step s ?k 0] => group_step s k 0 x x0 x1
  | |- context [from_base64_step s ?k 4] => group_step s k 4 x2 x3 x4
  | |- context [from_base64_step s ?k 8] => group_step s k 8 x5 x6 x7
  | |- context [from_base64_step s ?k 12] => group_step s k 12 x8 x9 x10
  | |- context [from_base64_step s ?k 16] => group_step s k 16 x11 x12 x13
  | |- context [from_base64_step s ?k 20] => group_step s k 20 x14 x15 x16
  | |- context [from_base64_step s ?k 24] => group_step s k 24 x17 x18 x19
  | |- context [from_base64_step s ?k 28] => group_step s k 28 x20 x21 x22
  | |- context [from_base64_step s ?k 32] => group_step s k 32 x23 x24 x25
  | |- context [from_base64_step s ?k 36] => group_step s k 36 x26 x27 x28
  end.
  rewrite (from_step_last s _ x29 x30); [|assumption..|done|cbv zeta; split_and!; reflexivity]. done.
Qed.

(** C37. Encoding a 32-byte key in base64 and decoding the 44 characters gives the
    key back. *)
Theorem base64_roundtrip len key :
  is_bytes key -> length key = 32%nat -> 45 <= len ->
  (wg_key_to_base64 len key).1 = 0 /\ wg_key_from_base64 (take 44 (wg_key_to_base64 len key).2) = (0, key).
Proof.
  intros Hb Hl Hn. split; [|by apply base64_roundtrip_lemma].
  unfold wg_key_to_base64. rewrite (proj2 (Z.ltb_ge len 45)) by lia. done.
Qed.

Lemma base64_roundtrip_witness :
  (wg_key_to_base64 45 (seqZ 200 32)).1 = 0 /\
  wg_key_from_base64 (take 44 (wg_key_to_base64 45 (seqZ 200 32)).2) = (0, seqZ 200 32).
Proof.
  apply (base64_roundtrip 45 (seqZ 200 32)); [|reflexivity|lia].
  apply (bool_decide_unpack _). vm_compute. exact I.
Defined.

Lemma base64_chars len key :
  45 <= len -> let out := (wg_key_to_base64 len key).2 in
  length out = 45%nat /\ rd out 44 = 0 /\ Forall (fun c => c <> 0) (take 44 out).
Proof.
  intros Hl. unfold wg_key_to_base64. rewrite (proj2 (Z.ltb_ge len 45)) by lia. cbn [snd].
  split; [done|]. split; [done|].
  repeat (apply Forall_cons_2; [first [apply decode_table, land63 | discriminate]|]). apply Forall_nil_2.
Qed.

(** [wg_key_to_base64] never writes past its buffer: it writes nothing when
    the buffer is shorter than 45 bytes and otherwise 44 characters, none of them
    NUL, and the final NUL. *)
Theorem base64_output_bounds len key :
  let out := (wg_key_to_base64 len key).2 in
  Z.of_nat (length out) <= Z.max 0 len /\
  (45 <= len -> length out = 45%nat /\ rd out 44 = 0 /\ Forall (fun c => c <> 0) (take 44 out)).
Proof.
  split; [|apply base64_chars]. unfold wg_key_to_base64. destruct (Z.ltb_spec len 45); cbn [snd]; [simpl; lia|].
  rewrite length_app; simpl; lia.
Qed.

Lemma base64_output_bounds_witness :
  let out := (wg_key_to_base64 50 (replicate 32 255)).2 in
  Z.of_nat (length out) <= Z.max 0 50 /\
  (45 <= 50 -> length out = 45%nat /\ rd out 44 = 0 /\ Forall (fun c => c <> 0) (take 44 out)).
Proof. apply (base64_output_bounds 50 (replicate 32 255)). Defined.
