(* ===== verification/Ring.v ===== *)
(** * The relay receive ring (src/platform_switch.c)

    Packets from the relay connection are written by one thread
    ([wg_relay_input], [wg_relay_commit]) and read by the receive thread (the
    relay branch of [wg_socket_recv]).  Sequence numbers are [uint32_t]; the slot
    of a packet is its sequence number modulo 256. *)

From S2P Require Import Prelude.

Definition RING_SLOTS : Z := 256.
Definition RING_DATA_MAX : Z := 2044.
Definition WG_ERR_TIMEOUT : Z := -4.

Record ring_slot := mkRSlot { rs_len : Z; rs_data : list Z }.

(** The file-level variables; [rseq] is the static variable of the consumer. *)
Record ring := mkRing { g_ring : list ring_slot; g_wseq_local : Z; g_wseq : Z; rseq : Z }.

Definition ring_init : ring := mkRing (replicate (Z.to_nat RING_SLOTS) (mkRSlot 0 (replicate (Z.to_nat RING_DATA_MAX) 0))) 0 0 0.

(** The condition of the waiting loop of the producer. *)
Definition ring_full (r : ring) : bool := RING_SLOTS - 4 <=? sub32 (g_wseq_local r) (g_wseq r).

(** [None]: the producer waits, the state is unchanged. *)
Definition wg_relay_input (r : ring) (data : list Z) : option ring :=
  if RING_DATA_MAX <? Z.of_nat (length data) then Some r
  else if ring_full r then None
  else
    let seq := g_wseq_local r in
    let idx := Z.to_nat (Z.land seq (RING_SLOTS - 1)) in
    match g_ring r !! idx with
    | None => Some r
    | Some s =>
        Some (mkRing (<[idx := mkRSlot (u16 (Z.of_nat (length data))) (copy_at (rs_data s) 0 data)]> (g_ring r))
                (add32 seq 1) (g_wseq r) (rseq r))
    end.

Definition wg_relay_commit (r : ring) : ring := mkRing (g_ring r) (g_wseq_local r) (g_wseq_local r) (rseq r).

(** One iteration of the consumer's loop: nothing to read, an empty slot, or a
    packet of at most [len] bytes. *)
Inductive poll_result := Idle | Skipped | Packet (d : list Z).

Definition relay_poll (r : ring) (len : Z) : poll_result * ring :=
  let w := g_wseq r in
  if w <=? rseq r then (Idle, r)
  else
    let q := if RING_SLOTS <? sub32 w (rseq r) then add32 (sub32 w RING_SLOTS) 1 else rseq r in
    let idx := Z.to_nat (Z.land q (RING_SLOTS - 1)) in
    let s := default (mkRSlot 0 []) (g_ring r !! idx) in
    let r' := mkRing (g_ring r) (g_wseq_local r) (g_wseq r) (add32 q 1) in
    if rs_len s =? 0 then (Skipped, r')
    else
      let n := if rs_len s <? len then rs_len s else len in
      (Packet (take (Z.to_nat n) (rs_data s)), r').

(** What the producer does between two iterations of the consumer. *)
Inductive producer_op := Input (d : list Z) | Commit.

Definition produce (r : ring) (op : producer_op) : ring :=
  match op with
  | Input d => default r (wg_relay_input r d)
  | Commit => wg_relay_commit r
  end.

(** The loop up to the deadline: one list of producer operations per iteration. *)
Fixpoint wg_socket_recv_relay (sched : list (list producer_op)) (r : ring) (len : Z) : Z * list Z * ring :=
  match sched with
  | [] => (WG_ERR_TIMEOUT, [], r)
  | ops :: sched =>
      let r := fold_left produce ops r in
      match relay_poll r len with
      | (Packet d, r) => (Z.of_nat (length d), d, r)
      | (_, r) => wg_socket_recv_relay sched r len
      end
  end.

(** ** The queue the ring implements *)

(** [L] lists the packets accepted since the start. *)
Record ring_inv (r : ring) (L : list (list Z)) : Prop := {
  ri_len : length (g_ring r) = 256%nat;
  ri_cap : Forall (fun s => length (rs_data s) = Z.to_nat RING_DATA_MAX) (g_ring r);
  ri_local : g_wseq_local r = Z.of_nat (length L);
  ri_small : Z.of_nat (length L) < 2 ^ 32;
  ri_order : 0 <= rseq r <= g_wseq r /\ g_wseq r <= g_wseq_local r;
  ri_slots : forall j d, L !! j = Some d -> (length L <= j + 256)%nat ->
    exists s, g_ring r !! (j mod 256)%nat = Some s /\ rs_len s = Z.of_nat (length d) /\
      take (length d) (rs_data s) = d;
  ri_sizes : Forall (fun d => 0 < Z.of_nat (length d) <= RING_DATA_MAX) L
}.

Lemma land_255 x : 0 <= x -> Z.to_nat (Z.land x (RING_SLOTS - 1)) = (Z.to_nat x mod 256)%nat.
Proof.
  intros. change (RING_SLOTS - 1) with (Z.ones 8). rewrite Z.land_ones by lia. change (2 ^ 8) with (Z.of_nat 256).
  rewrite <- (Z2Nat.id x) at 1 by lia. rewrite <- Nat2Z.inj_mod. apply Nat2Z.id.
Qed.

Lemma ring_inv_init : ring_inv ring_init [].
Proof.
  split; try done. apply Forall_replicate. apply length_replicate.
Qed.

Lemma mod_256_inj i j : (i mod 256 = j mod 256)%nat -> (i < j + 256)%nat -> (j < i + 256)%nat -> i = j.
Proof.
  intros. pose proof (Nat.div_mod_eq i 256). pose proof (Nat.div_mod_eq j 256).
  pose proof (Nat.mod_upper_bound i 256). lia.
Qed.

Lemma ring_inv_input r L d r' :
  ring_inv r L -> 0 < Z.of_nat (length d) <= RING_DATA_MAX -> Z.of_nat (length L) + 1 < 2 ^ 32 ->
  wg_relay_input r d = Some r' -> ring_inv r' (L ++ [d]) /\ g_wseq r' = g_wseq r /\ rseq r' = rseq r.
Proof.
  intros [Hlen Hcap Hloc Hsm Hord Hsl Hsz] Hd Hb. unfold wg_relay_input. unfold RING_DATA_MAX in Hd.
  rewrite (proj2 (Z.ltb_ge RING_DATA_MAX _)) by (unfold RING_DATA_MAX; lia).
  destruct (ring_full r); [done|]. rewrite Hloc, land_255, Nat2Z.id by lia.
  pose proof (Nat.mod_upper_bound (length L) 256 ltac:(lia)) as Hm.
  destruct (lookup_lt_is_Some_2 (g_ring r) (length L mod 256) ltac:(lia)) as [s Hs]. rewrite Hs.
  intros E. injection E as <-. cbn [g_ring g_wseq_local g_wseq rseq].
  assert (length (rs_data s) = 2044%nat) as Hc by exact (proj1 (Forall_lookup _ _) Hcap _ _ Hs).
  split; [|done]. split; cbn [g_ring g_wseq_local g_wseq rseq]; rewrite ?length_app; try (simpl length; lia).
  - by rewrite length_insert.
  - apply Forall_insert; [done|]. cbn [rs_data]. rewrite length_copy_at by lia. done.
  - unfold add32. rewrite u32_small by (unfold is_u32; lia). simpl. lia.
  - rewrite Hloc in Hord. unfold add32. rewrite u32_small by (unfold is_u32; lia). lia.
  - intros j d' Hj Hge. simpl length in Hge. apply lookup_app_Some in Hj as [Hj|[Hj1 Hj2]].
    + assert (j < length L)%nat by (by eapply lookup_lt_Some).
      destruct (Hsl j d' Hj ltac:(lia)) as (s' & Hs' & Hl' & Ht'). exists s'. split; [|done].
      rewrite list_lookup_insert_ne; [done|]. intros Heq. apply mod_256_inj in Heq; lia.
    + apply list_lookup_singleton_Some in Hj2 as [Hj2 <-]. assert (j = length L) as -> by lia.
      eexists. split; [apply list_lookup_insert_eq; lia|]. cbn [rs_len rs_data]. split.
      * apply Z.mod_small. lia.
      * change (length d) with (Z.to_nat 0 + length d)%nat at 1. rewrite take_copy_at by (simpl; lia). done.
  - apply Forall_app. split; [done|]. by constructor.
Qed.

Lemma ring_inv_commit r L : ring_inv r L -> ring_inv (wg_relay_commit r) L.
Proof. intros [Hlen Hcap Hloc Hsm Hord Hsl Hsz]. split; cbn; try done. lia. Qed.

Lemma ring_poll_fifo r L len d :
  ring_inv r L -> rseq r < g_wseq r -> g_wseq_local r - rseq r <= RING_SLOTS -> L !! Z.to_nat (rseq r) = Some d ->
  exists r', relay_poll r len = (Packet (take (Z.to_nat len) d), r') /\ ring_inv r' L /\
    rseq r' = rseq r + 1 /\ g_wseq r' = g_wseq r.
Proof.
  intros [Hlen Hcap Hloc Hsm Hord Hsl Hsz] Hlt Hout Hd. unfold relay_poll, RING_SLOTS in *.
  rewrite (proj2 (Z.leb_gt _ _)) by lia. unfold sub32. rewrite u32_small by (unfold is_u32; lia).
  rewrite (proj2 (Z.ltb_ge 256 _)) by lia. change 256 with RING_SLOTS. rewrite land_255 by lia.
  destruct (Hsl _ _ Hd ltac:(lia)) as (s & Hs & Hl & Ht). rewrite Hs. change (default (mkRSlot 0 []) (Some s)) with s.
  assert (0 < Z.of_nat (length d) <= RING_DATA_MAX) as Hdl by exact (proj1 (Forall_lookup _ _) Hsz _ _ Hd).
  rewrite Hl. destruct (Z.eqb_spec (Z.of_nat (length d)) 0); [lia|].
  unfold add32. rewrite u32_small by (unfold is_u32; lia).
  exists (mkRing (g_ring r) (g_wseq_local r) (g_wseq r) (rseq r + 1)). split; [|split; [|done]].
  - f_equal. f_equal. destruct (Z.ltb_spec (Z.of_nat (length d)) len).
    + rewrite Nat2Z.id, Ht. rewrite take_ge by lia. done.
    + rewrite <- Ht, take_take. f_equal. lia.
  - split; cbn; try done. lia.
Qed.

(** Packets put into the ring in batches, each followed by a commit. *)
Definition put_batches (r : ring) (batches : list (list (list Z))) : ring :=
  fold_left (fun r b => wg_relay_commit (fold_left produce (map Input b) r)) batches r.

(** A batch of at most 252 packets is accepted whole after a commit. *)
Lemma put_batch_inv r L b :
  ring_inv r L -> g_wseq r = g_wseq_local r -> (length b <= 252)%nat ->
  Forall (fun d => 0 < Z.of_nat (length d) <= RING_DATA_MAX) b -> Z.of_nat (length L + length b) < 2 ^ 32 ->
  ring_inv (fold_left produce (map Input b) r) (L ++ b) /\
  rseq (fold_left produce (map Input b) r) = rseq r.
Proof.
  intros Hi Hw Hl Hb Hsm.
  assert (forall r L c, ring_inv r L -> (Z.to_nat (g_wseq_local r - g_wseq r) + length c <= 252)%nat ->
    Forall (fun d => 0 < Z.of_nat (length d) <= RING_DATA_MAX) c -> Z.of_nat (length L + length c) < 2 ^ 32 ->
    ring_inv (fold_left produce (map Input c) r) (L ++ c) /\ rseq (fold_left produce (map Input c) r) = rseq r) as Hg.
  { clear. intros r L c. revert r L. induction c as [|d c IH]; intros r L Hi Hl Hb Hsm; cbn [map fold_left].
    { by rewrite app_nil_r. }
    apply Forall_cons in Hb as [Hd Hb]. cbn [length] in *. unfold produce at 2 4.
    pose proof (ri_order _ _ Hi). pose proof (ri_local _ _ Hi).
    destruct (wg_relay_input r d) as [r'|] eqn:E.
    - change (default r (Some r')) with r'. pose proof (ring_inv_input r L d r' Hi Hd ltac:(lia) E) as (Hi' & Ew & Er).
      pose proof (ri_local _ _ Hi') as El. rewrite length_app in El. simpl in El.
      replace (L ++ d :: c) with ((L ++ [d]) ++ c) by (rewrite <- app_assoc; done). rewrite <- Er.
      apply IH; [done|lia|done|rewrite length_app; simpl; lia].
    - exfalso. unfold wg_relay_input in E. rewrite (proj2 (Z.ltb_ge RING_DATA_MAX _)) in E by lia.
      unfold ring_full, RING_SLOTS, sub32 in E. rewrite u32_small in E by (unfold is_u32; lia).
      destruct (Z.leb_spec (256 - 4) (g_wseq_local r - g_wseq r)); [lia|]. destruct (g_ring r !! _); done. }
  apply Hg; [done|lia|done|done].
Qed.

(** The ring after [k] iterations of the consumer. *)
Fixpoint polled (k : nat) (len : Z) (r : ring) : ring :=
  match k with O => r | S k => (relay_poll (polled k len r) len).2 end.

(** C33. Packets are delivered in order and none is lost while the consumer keeps
    up: when the ring is empty and a burst of at most 252 packets of 1 to 2044
    bytes is written and committed, the [k]-th iteration of the consumer returns
    the [k]-th packet, cut to the caller's buffer. *)
Theorem ring_fifo r L batch len k d :
  ring_inv r L -> g_wseq r = g_wseq_local r -> rseq r = g_wseq r -> (length batch <= 252)%nat ->
  Forall (fun d => 0 < Z.of_nat (length d) <= RING_DATA_MAX) batch -> Z.of_nat (length L + length batch) < 2 ^ 32 ->
  batch !! k = Some d ->
  (relay_poll (polled k len (wg_relay_commit (fold_left produce (map Input batch) r))) len).1
  = Packet (take (Z.to_nat len) d).
Proof.
  intros Hi Hw Hr Hl Hb Hsm Hk.
  destruct (put_batch_inv r L batch Hi Hw Hl Hb Hsm) as [Hi1 Hr1]. apply ring_inv_commit in Hi1.
  set (r1 := wg_relay_commit _) in *.
  assert (g_wseq r1 = g_wseq_local r1) as Hw1 by done. assert (rseq r1 = rseq r) as Hr1' by exact Hr1.
  pose proof (ri_local _ _ Hi) as Hloc. pose proof (ri_local _ _ Hi1) as Hloc1. rewrite length_app in Hloc1.
  assert (forall m, (m <= k)%nat -> let rm := polled m len r1 in
    ring_inv rm (L ++ batch) /\ rseq rm = rseq r + Z.of_nat m /\ g_wseq rm = g_wseq r1) as Hm.
  { intros m. induction m as [|m IH]; intros Hmk; [split_and!; [done|simpl; lia|done]|].
    destruct (IH ltac:(lia)) as (Him & Hrm & Hwm). cbn [polled]. set (rm := polled m len r1) in *.
    destruct (lookup_lt_is_Some_2 batch m) as [dm Hdm].
    { assert (k < length batch)%nat by (by eapply lookup_lt_Some). lia. }
    pose proof (ri_local _ _ Him) as Hlm. rewrite length_app in Hlm. pose proof (lookup_lt_Some _ _ _ Hdm).
    destruct (ring_poll_fifo rm (L ++ batch) len dm) as (r' & E & Hi' & Hr' & Hw'); try done.
    - lia.
    - unfold RING_SLOTS. lia.
    - rewrite lookup_app_r by lia. rewrite Hrm, Hr, Hw, Hloc.
      replace (Z.to_nat (Z.of_nat (length L) + Z.of_nat m) - length L)%nat with m by lia. done.
    - rewrite E. cbn [snd]. split_and!; [done|lia|congruence]. }
  destruct (Hm k ltac:(lia)) as (Hik & Hrk & Hwk). set (rk := polled k len r1) in *.
  pose proof (ri_local _ _ Hik) as Hlk. rewrite length_app in Hlk. pose proof (lookup_lt_Some _ _ _ Hk).
  destruct (ring_poll_fifo rk (L ++ batch) len d) as (r' & -> & _); try done.
  - lia.
  - unfold RING_SLOTS. lia.
  - rewrite lookup_app_r by lia. rewrite Hrk, Hr, Hw, Hloc.
    replace (Z.to_nat (Z.of_nat (length L) + Z.of_nat k) - length L)%nat with k by lia. done.
Qed.

Lemma ring_fifo_witness :
  (relay_poll (polled 2 100 (wg_relay_commit (fold_left produce (map Input [[1]; [2; 3]; [4; 5; 6]]) ring_init))) 100).1
  = Packet (take (Z.to_nat 100) [4; 5; 6]).
Proof.
  apply (ring_fifo ring_init [] [[1]; [2; 3]; [4; 5; 6]] 100 2 [4; 5; 6]); try reflexivity; try (simpl; lia).
  - apply ring_inv_init.
  - repeat constructor; unfold RING_DATA_MAX; simpl; lia.
Defined.

(** ** Where the ring loses or withholds packets *)

Lemma polled_frame k len r :
  g_wseq (polled k len r) = g_wseq r /\ g_wseq_local (polled k len r) = g_wseq_local r /\ g_ring (polled k len r) = g_ring r.
Proof.
  induction k as [|k (IH1 & IH2 & IH3)]; [done|]. cbn [polled]. unfold relay_poll.
  destruct (_ <=? _); [done|]. destruct (rs_len _ =? 0); done.
Qed.

(** The producer does not wait for the consumer: when more than 256 committed
    packets are unread it accepts the next one all the same, and the consumer then
    resumes at the packet 255 places before the newest, so that all packets from
    its own position up to there are lost. *)
Theorem ring_overrun_loses_packets r L len d :
  ring_inv r L -> g_wseq r = g_wseq_local r -> rseq r + RING_SLOTS < g_wseq r ->
  L !! (length L - 255)%nat = Some d ->
  (forall p, Z.of_nat (length p) <= RING_DATA_MAX -> is_Some (wg_relay_input r p)) /\
  exists r', relay_poll r len = (Packet (take (Z.to_nat len) d), r') /\ rseq r' = g_wseq r - 254.
Proof.
  intros [Hlen Hcap Hloc Hsm Hord Hsl Hsz] Hw Hlag Hd. unfold RING_SLOTS in Hlag. split.
  - intros p Hp. unfold wg_relay_input, ring_full. rewrite (proj2 (Z.ltb_ge RING_DATA_MAX _)) by lia.
    rewrite Hw. unfold sub32. rewrite Z.sub_diag. change (RING_SLOTS - 4 <=? u32 0) with false. cbv iota.
    rewrite Hloc, land_255, Nat2Z.id by lia.
    destruct (lookup_lt_is_Some_2 (g_ring r) (length L mod 256)) as [s Hs];
      [pose proof (Nat.mod_upper_bound (length L) 256); lia|]. rewrite Hs. eauto.
  - assert (RING_SLOTS = 256) as HR by reflexivity.
    unfold relay_poll. rewrite (proj2 (Z.leb_gt _ _)) by lia. unfold sub32.
    rewrite !u32_small by (unfold is_u32; lia). rewrite (proj2 (Z.ltb_lt RING_SLOTS _)) by lia.
    unfold add32. rewrite (u32_small (g_wseq r - RING_SLOTS + 1)) by (unfold is_u32; lia).
    rewrite land_255 by lia. replace (Z.to_nat (g_wseq r - RING_SLOTS + 1)) with (length L - 255)%nat by lia.
    destruct (Hsl _ _ Hd ltac:(lia)) as (s & Hs & Hl & Ht). rewrite Hs. change (default (mkRSlot 0 []) (Some s)) with s.
    assert (0 < Z.of_nat (length d) <= RING_DATA_MAX) as Hdl by exact (proj1 (Forall_lookup _ _) Hsz _ _ Hd).
    rewrite Hl. destruct (Z.eqb_spec (Z.of_nat (length d)) 0); [lia|].
    rewrite u32_small by (unfold is_u32; lia).
    exists (mkRing (g_ring r) (g_wseq_local r) (g_wseq r) (g_wseq r - 254)). split; [|done].
    replace (g_wseq r - RING_SLOTS + 1 + 1) with (g_wseq r - 254) by lia. f_equal. f_equal.
    destruct (Z.ltb_spec (Z.of_nat (length d)) len).
    + rewrite Nat2Z.id, Ht. rewrite take_ge by lia. done.
    + rewrite <- Ht, take_take. f_equal. lia.
Qed.

(** One-byte packets, each committed, with a consumer that never reads. *)
Lemma singles_inv l : forall r L,
  rseq r = 0 -> g_wseq r = g_wseq_local r -> ring_inv r L -> Z.of_nat (length L + length l) < 2 ^ 32 ->
  ring_inv (put_batches r (map (fun i => [[i]]) l)) (L ++ map (fun i => [i]) l) /\
  rseq (put_batches r (map (fun i => [[i]]) l)) = 0.
Proof.
  induction l as [|i l IH]; intros r L H0 Hw Hi Hb; [by rewrite app_nil_r|].
  cbn [map put_batches fold_left]. replace (L ++ [i] :: map (fun i => [i]) l) with ((L ++ [[i]]) ++ map (fun i => [i]) l)
    by (rewrite <- app_assoc; done).
  destruct (put_batch_inv r L [[i]] Hi Hw) as [H1 H2]; [simpl; lia|repeat constructor; simpl; unfold RING_DATA_MAX; lia|simpl in *; lia|].
  apply (IH (wg_relay_commit (fold_left produce (map Input [[i]]) r))).
  - transitivity (rseq r); done.
  - done.
  - by apply ring_inv_commit.
  - rewrite length_app. cbn [length] in *. lia.
Qed.

Definition lagging : ring := put_batches ring_init (map (fun i => [[i]]) (seqZ 0 300)).

Lemma lagging_inv : ring_inv lagging (map (fun i => [i]) (seqZ 0 300)) /\ rseq lagging = 0.
Proof. apply (singles_inv (seqZ 0 300) ring_init []); [done|done|apply ring_inv_init|vm_compute; done]. Qed.

Lemma ring_overrun_loses_packets_witness :
  (forall p, Z.of_nat (length p) <= RING_DATA_MAX -> is_Some (wg_relay_input lagging p)) /\
  exists r', relay_poll lagging 2048 = (Packet (take (Z.to_nat 2048) [45]), r') /\ rseq r' = g_wseq lagging - 254.
Proof.
  destruct lagging_inv as [Hi Hr].
  apply (ring_overrun_loses_packets lagging (map (fun i => [i]) (seqZ 0 300)) 2048 [45]).
  - exact Hi.
  - vm_compute. reflexivity.
  - rewrite Hr. vm_compute. reflexivity.
  - reflexivity.
Defined.

(** A burst of 252 packets without a commit stops the producer for good:
    the wait in [wg_relay_input] depends on the commit counter only, so no number
    of consumer iterations ends it. *)
Theorem ring_burst_blocks r p k len :
  RING_SLOTS - 4 <= sub32 (g_wseq_local r) (g_wseq r) -> Z.of_nat (length p) <= RING_DATA_MAX ->
  wg_relay_input (polled k len r) p = None.
Proof.
  intros Hf Hp. destruct (polled_frame k len r) as (E1 & E2 & _). unfold wg_relay_input, ring_full.
  rewrite (proj2 (Z.ltb_ge RING_DATA_MAX _)) by lia. rewrite E1, E2, (proj2 (Z.leb_le _ _)) by lia. done.
Qed.

Definition full_burst : ring := fold_left produce (map (fun i => Input [i]) (seqZ 0 252)) ring_init.

Lemma ring_burst_blocks_witness : wg_relay_input (polled 3 2048 full_burst) [1; 2] = None.
Proof. apply (ring_burst_blocks full_burst [1; 2] 3 2048); vm_compute; discriminate. Defined.

(** The consumer compares sequence numbers without regard to their wrap: after
    [2^32 - 1] packets the next one is committed with sequence number 0 and the
    consumer stays idle. *)
Theorem ring_stalls_at_wrap r p len r' :
  rseq r = 2 ^ 32 - 1 -> g_wseq r = 2 ^ 32 - 1 -> g_wseq_local r = 2 ^ 32 - 1 -> length (g_ring r) = 256%nat ->
  Z.of_nat (length p) <= RING_DATA_MAX -> wg_relay_input r p = Some r' ->
  relay_poll (wg_relay_commit r') len = (Idle, wg_relay_commit r').
Proof.
  intros Hr Hw Hl Hlen Hp. unfold wg_relay_input. rewrite (proj2 (Z.ltb_ge RING_DATA_MAX _)) by lia.
  destruct (ring_full r); [done|]. rewrite Hl.
  change (Z.to_nat (Z.land (2 ^ 32 - 1) (RING_SLOTS - 1))) with 255%nat.
  destruct (lookup_lt_is_Some_2 (g_ring r) 255 ltac:(lia)) as [s Hs]. rewrite Hs. intros E. injection E as <-.
  unfold relay_poll, wg_relay_commit. cbn [g_wseq rseq g_wseq_local].
  rewrite Hr. reflexivity.
Qed.

Definition at_wrap : ring := mkRing (g_ring ring_init) (2 ^ 32 - 1) (2 ^ 32 - 1) (2 ^ 32 - 1).

Lemma ring_stalls_at_wrap_witness :
  relay_poll (wg_relay_commit (default at_wrap (wg_relay_input at_wrap [9]))) 2048
  = (Idle, wg_relay_commit (default at_wrap (wg_relay_input at_wrap [9]))).
Proof.
  apply (ring_stalls_at_wrap at_wrap [9] 2048 (default at_wrap (wg_relay_input at_wrap [9]))); try reflexivity.
  vm_compute. discriminate.
Defined.
