(* ===== verification/Thread.v ===== *)
(** * Threads, locks and the stop condition (src/wg_thread.c)

    What the kernel and pthread calls return are arguments; the code around them
    is modelled: error mapping, the deadline of a timed wait, and the loop that
    waits for the stop predicate. *)

From S2P Require Import Prelude.

(** The results of pthread calls that the code tells apart. *)
Inductive errno := E_OK | ETIMEDOUT | EBUSY | E_OTHER.

Definition wg_get_thread_limit (thread_lim thread_cur : Z) : Z := thread_lim - thread_cur.

Definition wg_thread_create (limit : Z) (pthread_create : Z) : Z :=
  if limit <=? 1 then -1 else if pthread_create =? 0 then 0 else -1.

Definition wg_thread_join (pthread_join : Z) : Z := if pthread_join =? 0 then 0 else -1.

(** [attr] and [mutex] are the results of the two initialisations. *)
Definition wg_mutex_init (attr mutex : Z) : Z :=
  if negb (attr =? 0) then -1 else if mutex =? 0 then 0 else -1.

Definition wg_mutex_trylock (r : errno) : Z := match r with EBUSY => 1 | E_OK => 0 | _ => -1 end.

Definition wg_cond_init (attr setclock cond : Z) : Z :=
  if negb (attr =? 0) then -1 else if negb (setclock =? 0) then -1 else if cond =? 0 then 0 else -1.

Record timespec := mkTs { tv_sec : Z; tv_nsec : Z }.

(** The absolute time handed to [pthread_cond_timedwait]. *)
Definition timedwait_deadline (now : timespec) (timeout_ms : Z) : timespec :=
  let sec := tv_sec now + timeout_ms / 1000 in
  let nsec := tv_nsec now + (timeout_ms mod 1000) * 1000000 in
  if 1000000000 <=? nsec then mkTs (sec + nsec / 1000000000) (nsec mod 1000000000) else mkTs sec nsec.

Definition wg_cond_timedwait (r : errno) : Z := match r with ETIMEDOUT => 1 | E_OK => 0 | _ => -1 end.

Definition wg_stop_cond_init (attr mutex cattr setclock cond : Z) : Z * bool :=
  if negb (wg_mutex_init attr mutex =? 0) then (-1, false)
  else if negb (wg_cond_init cattr setclock cond =? 0) then (-1, false) else (0, false).

(** One return of [pthread_cond_timedwait]: the clock before the call, its result
    and the predicate after it. *)
Record wake := mkWake { w_clock : timespec; w_result : errno; w_pred : bool }.

(** The loop, given what the waits return: the result, and the deadlines used.
    [None] when the list of returns ends while the loop still waits. *)
Fixpoint stop_wait (pred : bool) (timeout_ms : Z) (wakes : list wake) : option Z * list timespec :=
  if pred then (Some 0, [])
  else
    match wakes with
    | [] => (None, [])
    | k :: wakes =>
        let ts := timedwait_deadline (w_clock k) timeout_ms in
        let r := wg_cond_timedwait (w_result k) in
        if r =? 1 then (Some 1, [ts])
        else if negb (r =? 0) then (Some (-1), [ts])
        else let '(res, dl) := stop_wait (w_pred k) timeout_ms wakes in (res, ts :: dl)
    end.

Definition wg_stop_cond_timedwait (pred : bool) (timeout_ms : Z) (wakes : list wake) : option Z :=
  (stop_wait pred timeout_ms wakes).1.

Definition wg_stop_cond_signal (pred : bool) : bool := true.
Definition wg_stop_cond_check (pred : bool) : bool := pred.

(** ** Deadlines *)

Definition ns_of (t : timespec) : Z := tv_sec t * 10 ^ 9 + tv_nsec t.

Lemma deadline_ns now ms :
  0 <= tv_nsec now < 10 ^ 9 -> 0 <= ms ->
  ns_of (timedwait_deadline now ms) = ns_of now + ms * 10 ^ 6 /\ 0 <= tv_nsec (timedwait_deadline now ms) < 10 ^ 9.
Proof.
  intros Hn Hm. unfold timedwait_deadline, ns_of.
  destruct (Z.leb_spec 1000000000 (tv_nsec now + (ms mod 1000) * 1000000)); cbn [tv_sec tv_nsec]; zlia.
Qed.

(** The predicate after the last of the waits that returned normally. *)
Definition signalled (pred : bool) (wakes : list wake) : Prop :=
  pred = true \/ exists k, k ∈ wakes /\ w_result k = E_OK /\ w_pred k = true.

Lemma stop_wait_sound pred ms wakes :
  Forall (fun k => 0 <= tv_nsec (w_clock k) < 10 ^ 9) wakes -> 0 <= ms ->
  let '(res, dl) := stop_wait pred ms wakes in
  (res = Some 0 -> signalled pred wakes) /\
  (res = Some 1 -> exists k, k ∈ wakes /\ w_result k = ETIMEDOUT /\ last dl = Some (timedwait_deadline (w_clock k) ms)) /\
  Forall (fun t => exists k, k ∈ wakes /\ ns_of t = ns_of (w_clock k) + ms * 10 ^ 6 /\ 0 <= tv_nsec t < 10 ^ 9) dl /\
  (pred = true -> res = Some 0 /\ dl = []).
Proof.
  intros Hw Hm. revert pred. induction wakes as [|k wakes IH]; intros pred.
  { destruct pred; cbn; split_and!; try done. by left. }
  destruct pred; [cbn; split_and!; try done; by left|].
  inversion Hw as [|? ? Hk Hw']; subst. specialize (IH Hw'). cbn [stop_wait].
  destruct (deadline_ns (w_clock k) ms Hk Hm) as [E1 E2]. unfold wg_cond_timedwait.
  assert (forall dl, Forall (fun t => exists k0, k0 ∈ wakes /\ ns_of t = ns_of (w_clock k0) + ms * 10 ^ 6 /\ 0 <= tv_nsec t < 10 ^ 9) dl ->
    Forall (fun t => exists k0, k0 ∈ k :: wakes /\ ns_of t = ns_of (w_clock k0) + ms * 10 ^ 6 /\ 0 <= tv_nsec t < 10 ^ 9)
      (timedwait_deadline (w_clock k) ms :: dl)) as Hd.
  { intros dl Hdl. constructor; [exists k; split; [left|done]|]. eapply Forall_impl; [done|].
    intros t (k0 & Hk0 & Ht). exists k0. split; [by right|done]. }
  destruct (w_result k) eqn:Er; [| |cbn; split_and!; try done; by apply Hd..].
  2: { cbn. split_and!; try done; [|by apply Hd]. intros _. exists k. split; [left|done]. }
  cbn [Z.eqb negb]. specialize (IH (w_pred k)). destruct (stop_wait (w_pred k) ms wakes) as [res dl]. destruct IH as (I1 & I2 & I3 & _).
  split_and!; [| |by apply Hd|done].
  - intros Hr. right. destruct (I1 Hr) as [Hp|(k0 & Hin & Hk0)]; [exists k; split; [left|done]|exists k0; split; [by right|done]].
  - intros Hr. destruct (I2 Hr) as (k0 & Hin & Ht & Hl). exists k0. split; [by right|]. split; [done|].
    destruct dl; [done|]. by rewrite last_cons_cons.
Qed.

(** C39. The timed wait on the stop condition: it returns 0 only when the predicate
    was seen set, 1 only when a wait timed out, and every deadline it passes to
    the kernel is the clock read for that wait plus the timeout, with the
    nanoseconds in range.  A predicate that is already set is reported without
    waiting. *)
Theorem stop_timedwait_correct pred ms wakes :
  Forall (fun k => 0 <= tv_nsec (w_clock k) < 10 ^ 9) wakes -> 0 <= ms ->
  let '(res, dl) := stop_wait pred ms wakes in
  (res = Some 0 -> signalled pred wakes) /\
  (res = Some 1 -> exists k, k ∈ wakes /\ w_result k = ETIMEDOUT /\ last dl = Some (timedwait_deadline (w_clock k) ms)) /\
  Forall (fun t => exists k, k ∈ wakes /\ ns_of t = ns_of (w_clock k) + ms * 10 ^ 6 /\ 0 <= tv_nsec t < 10 ^ 9) dl /\
  (pred = true -> res = Some 0 /\ dl = []).
Proof. apply stop_wait_sound. Qed.

Lemma stop_timedwait_correct_witness :
  let wakes := [mkWake (mkTs 5 999999999) E_OK false; mkWake (mkTs 6 1) ETIMEDOUT false] in
  let '(res, dl) := stop_wait false 1500 wakes in
  (res = Some 0 -> signalled false wakes) /\
  (res = Some 1 -> exists k, k ∈ wakes /\ w_result k = ETIMEDOUT /\ last dl = Some (timedwait_deadline (w_clock k) 1500)) /\
  Forall (fun t => exists k, k ∈ wakes /\ ns_of t = ns_of (w_clock k) + 1500 * 10 ^ 6 /\ 0 <= tv_nsec t < 10 ^ 9) dl /\
  (false = true -> res = Some 0 /\ dl = []).
Proof.
  intros wakes. apply (stop_timedwait_correct false 1500 wakes); [|lia].
  repeat constructor; cbn; lia.
Defined.
