(* ===== verification/Tunnel.v ===== *)
(** * State and wire format (src/wg_internal.h, include/wireguard.h)

    The records of a tunnel, the packed handshake, cookie and transport messages
    and their byte layout on the little-endian target, and the peer table. *)

From S2P Require Import Prelude Neon Counter RecvPool Aead Crypto.

(** ** Record update

    [r <| f := v |>] is [r] with field [f] set to [v]. *)

Class Eta (R : Type) := eta : R -> R.
Class Setter {R T : Type} (proj : R -> T) := set_field : (T -> T) -> R -> R.

Ltac solve_setter :=
  lazymatch goal with
  | |- @Setter ?R ?T ?proj =>
      let e := constr:(@eta R _) in
      let e := eval hnf in e in
      let p := eval pattern proj in e in
      lazymatch p with
      | ?g _ =>
          let t := constr:(fun (f : T -> T) (r : R) => g (fun r0 => f (proj r0)) r) in
          let t := eval cbv beta in t in
          exact t
      end
  end.
#[export] Hint Extern 0 (Setter _) => solve_setter : typeclass_instances.

Notation "r '<|' f ':=' v '|>'" := (set_field (proj := f) (fun _ => v) r)
  (at level 1, f at level 10, v at level 200, left associativity, format "r  <| f  :=  v |>").

(** ** Error codes and sizes *)

Definition WG_OK : Z := 0.
Definition WG_ERR_INVALID_CONFIG : Z := -1.
Definition WG_ERR_SOCKET : Z := -2.
Definition WG_ERR_HANDSHAKE : Z := -3.
Definition WG_ERR_TIMEOUT : Z := -4.
Definition WG_ERR_DECRYPT : Z := -5.
Definition WG_ERR_NOT_CONNECTED : Z := -6.
Definition WG_ERR_BUFFER_TOO_SMALL : Z := -7.
Definition WG_ERR_THREAD : Z := -8.
Definition WG_ERR_ALREADY_RUNNING : Z := -9.

Definition WG_MSG_HANDSHAKE_INIT : Z := 1.
Definition WG_MSG_HANDSHAKE_RESPONSE : Z := 2.
Definition WG_MSG_COOKIE_REPLY : Z := 3.
Definition WG_MSG_TRANSPORT : Z := 4.

Definition WG_COOKIE_LEN : Z := 16.
Definition WG_RELAY_HASH_LEN : Z := 36.
Definition WG_MAX_PEERS : Z := 64.
Definition WG_CANARY_MAGIC : Z := 0xDEADC0DE.
Definition WG_MAX_PACKET_SIZE : Z := 2048.
Definition WG_REKEY_AFTER_MESSAGES : Z := 2 ^ 60.
Definition WG_REKEY_AFTER_TIME : Z := 120.
Definition WG_REJECT_AFTER_TIME : Z := 180.
Definition WG_REKEY_TIMEOUT : Z := 5.
Definition WG_MAX_TIMER_HANDSHAKES : nat := 18.
Definition WG_KEEPALIVE_TIMEOUT : Z := 10.
Definition WG_COOKIE_SECRET_MAX_AGE : Z := 120.
Definition NS : Z := 1000000000.

(** ** Packed messages *)

Record WgHandshakeInit := mkInit {
  i_type : Z; i_reserved : list Z; i_sender_index : Z; i_ephemeral : list Z;
  i_encrypted_static : list Z; i_encrypted_timestamp : list Z; i_mac1 : list Z; i_mac2 : list Z
}.

Record WgHandshakeResponse := mkResp {
  r_type : Z; r_reserved : list Z; r_sender_index : Z; r_receiver_index : Z; r_ephemeral : list Z;
  r_encrypted_nothing : list Z; r_mac1 : list Z; r_mac2 : list Z
}.

Record WgTransport := mkTransport {
  t_type : Z; t_reserved : list Z; t_receiver_index : Z; t_counter : Z; encrypted_data : list Z
}.

Record WgCookieReply := mkCookie {
  c_type : Z; c_reserved : list Z; c_receiver_index : Z; c_nonce : list Z; encrypted_cookie : list Z
}.

Definition sizeof_WgHandshakeInit : Z := 148.
Definition sizeof_WgHandshakeResponse : Z := 92.
Definition sizeof_WgTransport : Z := 16.
Definition sizeof_WgCookieReply : Z := 64.

(** The memory of each struct. *)
Definition init_bytes (m : WgHandshakeInit) : list Z :=
  [i_type m] ++ i_reserved m ++ le_bytes 4 (i_sender_index m) ++ i_ephemeral m ++ i_encrypted_static m ++
  i_encrypted_timestamp m ++ i_mac1 m ++ i_mac2 m.
Definition response_bytes (m : WgHandshakeResponse) : list Z :=
  [r_type m] ++ r_reserved m ++ le_bytes 4 (r_sender_index m) ++ le_bytes 4 (r_receiver_index m) ++
  r_ephemeral m ++ r_encrypted_nothing m ++ r_mac1 m ++ r_mac2 m.
Definition transport_bytes (m : WgTransport) : list Z :=
  [t_type m] ++ t_reserved m ++ le_bytes 4 (t_receiver_index m) ++ le_bytes 8 (t_counter m) ++ encrypted_data m.

(** A buffer read through a pointer to the struct. *)
Definition bytes_at (buf : list Z) (o n : nat) : list Z := take n (drop o buf).

Definition init_of_bytes (b : list Z) : WgHandshakeInit :=
  mkInit (rd b 0) (bytes_at b 1 3) (le_val (bytes_at b 4 4)) (bytes_at b 8 32) (bytes_at b 40 48)
    (bytes_at b 88 28) (bytes_at b 116 16) (bytes_at b 132 16).
Definition response_of_bytes (b : list Z) : WgHandshakeResponse :=
  mkResp (rd b 0) (bytes_at b 1 3) (le_val (bytes_at b 4 4)) (le_val (bytes_at b 8 4)) (bytes_at b 12 32)
    (bytes_at b 44 16) (bytes_at b 60 16) (bytes_at b 76 16).
Definition transport_of_bytes (b : list Z) : WgTransport :=
  mkTransport (rd b 0) (bytes_at b 1 3) (le_val (bytes_at b 4 4)) (le_val (bytes_at b 8 8)) (drop 16 b).
Definition cookie_of_bytes (b : list Z) : WgCookieReply :=
  mkCookie (rd b 0) (bytes_at b 1 3) (le_val (bytes_at b 4 4)) (bytes_at b 8 24) (bytes_at b 32 32).

(** Fields of the sizes the structs declare. *)
Record init_ok (m : WgHandshakeInit) : Prop := {
  io_type : is_u8 (i_type m); io_index : is_u32 (i_sender_index m);
  io_res : length (i_reserved m) = 3%nat; io_eph : length (i_ephemeral m) = 32%nat;
  io_static : length (i_encrypted_static m) = 48%nat; io_ts : length (i_encrypted_timestamp m) = 28%nat;
  io_mac1 : length (i_mac1 m) = 16%nat; io_mac2 : length (i_mac2 m) = 16%nat
}.
Record response_ok (m : WgHandshakeResponse) : Prop := {
  ro_type : is_u8 (r_type m); ro_sender : is_u32 (r_sender_index m); ro_receiver : is_u32 (r_receiver_index m);
  ro_res : length (r_reserved m) = 3%nat; ro_eph : length (r_ephemeral m) = 32%nat;
  ro_nothing : length (r_encrypted_nothing m) = 16%nat;
  ro_mac1 : length (r_mac1 m) = 16%nat; ro_mac2 : length (r_mac2 m) = 16%nat
}.

(** ** Sessions, peers and tunnels *)

Record WgSession := mkSession {
  sending_key : list Z; receiving_key : list Z; sending_counter : Z; receiving_counter : Z;
  local_index : Z; old_local_index : Z; remote_index : Z; last_handshake : Z; last_received : Z;
  valid : bool; rekey_in_progress : bool; replay : WgReplayCounter
}.

#[export] Instance eta_session : Eta WgSession := fun r =>
  mkSession (sending_key r) (receiving_key r) (sending_counter r) (receiving_counter r) (local_index r)
    (old_local_index r) (remote_index r) (last_handshake r) (last_received r) (valid r) (rekey_in_progress r) (replay r).

Definition zero_key : list Z := replicate 32 0.
Definition zero_replay : WgReplayCounter := mkReplay 0 (replicate (Z.to_nat WG_COUNTER_WORDS) 0).

(** [crypto_wipe] of a whole session. *)
Definition zero_session : WgSession := mkSession zero_key zero_key 0 0 0 0 0 0 0 false false zero_replay.

Definition zero_hs : WgHandshakeState := mkHs (replicate 32 0) (replicate 32 0) (replicate 32 0).

Record WgPeer := mkPeer {
  public_key : list Z; relay_hash : list Z; p_tunnel_ip : Z; ip_raw : Z;
  p_session : WgSession; p_prev_session : WgSession; pending_hs : WgHandshakeState; hs_pending : bool;
  configured : bool; connected : bool; p_last_sent : Z; p_last_mac1 : list Z
}.

#[export] Instance eta_peer : Eta WgPeer := fun r =>
  mkPeer (public_key r) (relay_hash r) (p_tunnel_ip r) (ip_raw r) (p_session r) (p_prev_session r) (pending_hs r)
    (hs_pending r) (configured r) (connected r) (p_last_sent r) (p_last_mac1 r).

Definition zero_peer : WgPeer :=
  mkPeer zero_key (replicate 36 0) 0 0 zero_session zero_session zero_hs false false false 0 (replicate 16 0).

Record sockaddr_in := mkAddr { sin_family : Z; sin_port : Z; sin_addr : Z }.

(** [peers] holds the whole array; [recv_cb] is whether a callback is set. *)
Record WgTunnel := mkTunnel {
  static_private : list Z; static_public : list Z; peer_public : list Z; preshared_key : list Z; has_psk : bool;
  tunnel_ip : Z; endpoint : sockaddr_in; keepalive_interval : Z; socket_fd : Z;
  session : WgSession; prev_session : WgSession; peers : list WgPeer; peer_count : Z;
  canary_begin : Z; cookie : list Z; has_cookie : bool; cookie_timestamp : Z; last_mac1 : list Z;
  stop_pred : bool; recv_cb : bool; running : bool; last_sent : Z;
  pending_response : list Z; pending_response_len : Z; pending_cookie : bool;
  recv_src : sockaddr_in; recv_src_valid : bool; recv_pool : WgRecvPool; canary_end : Z
}.

#[export] Instance eta_tunnel : Eta WgTunnel := fun r =>
  mkTunnel (static_private r) (static_public r) (peer_public r) (preshared_key r) (has_psk r) (tunnel_ip r)
    (endpoint r) (keepalive_interval r) (socket_fd r) (session r) (prev_session r) (peers r) (peer_count r)
    (canary_begin r) (cookie r) (has_cookie r) (cookie_timestamp r) (last_mac1 r) (stop_pred r) (recv_cb r)
    (running r) (last_sent r) (pending_response r) (pending_response_len r) (pending_cookie r) (recv_src r)
    (recv_src_valid r) (recv_pool r) (canary_end r).

(** The tunnel as [calloc] returns it. *)
Definition zero_tunnel : WgTunnel :=
  mkTunnel zero_key zero_key zero_key zero_key false 0 (mkAddr 0 0 0) 0 0 zero_session zero_session
    (replicate (Z.to_nat WG_MAX_PEERS) zero_peer) 0 0 (replicate 16 0) false 0 (replicate 16 0) false false false 0
    (replicate 256 0) 0 false (mkAddr 0 0 0) false zero_pool 0.

(** ** The peer table *)

(** The pointer returned is the index of the peer. *)
Definition wg_add_peer (tun : WgTunnel) (public_key relay_hash : list Z) (ip : Z) : option nat * WgTunnel :=
  if WG_MAX_PEERS <=? peer_count tun then (None, tun)
  else
    let i := Z.to_nat (peer_count tun) in
    let peer := zero_peer <| Tunnel.public_key := public_key |> <| Tunnel.relay_hash := relay_hash |>
                  <| ip_raw := ip |> <| p_tunnel_ip := ip |> <| configured := true |> <| connected := false |> in
    (Some i, tun <| peers := <[i := peer]> (peers tun) |> <| peer_count := peer_count tun + 1 |>).

(** [for (i = 0; i < tun->peer_count; i++) if (f(&tun->peers[i])) return &tun->peers[i];] *)
Definition first_peer (f : WgPeer -> bool) (tun : WgTunnel) : option nat :=
  fst <$> list_find (fun p => Is_true (f p)) (take (Z.to_nat (peer_count tun)) (peers tun)).

Definition wg_find_peer_by_ip (tun : WgTunnel) (ip : Z) : option nat :=
  first_peer (fun p => configured p && (ip_raw p =? ip)) tun.

Definition wg_find_peer_by_local_index (tun : WgTunnel) (idx : Z) : option nat :=
  first_peer (fun p =>
    (configured p && valid (p_session p) && (local_index (p_session p) =? idx)) ||
    (configured p && valid (p_prev_session p) && (local_index (p_prev_session p) =? idx))) tun.

Definition wg_find_peer_by_public_key (tun : WgTunnel) (key : list Z) : option nat :=
  first_peer (fun p => configured p && bool_decide (public_key p = key)) tun.

(** ** Layout *)

Lemma bytes_at_skip a b o n k : length a = k -> (k <= o)%nat -> bytes_at (a ++ b) o n = bytes_at b (o - k) n.
Proof. intros <- Ho. unfold bytes_at. by rewrite drop_app_ge. Qed.
Lemma bytes_at_here a b n : length a = n -> bytes_at (a ++ b) 0 n = a.
Proof. intros H. unfold bytes_at. rewrite drop_0. by apply take_app_length'. Qed.
Lemma bytes_at_end a n : length a = n -> bytes_at a 0 n = a.
Proof. intros H. unfold bytes_at. rewrite drop_0. apply take_ge. lia. Qed.

(** Reads a field out of a concatenation of fields of known lengths. *)
Ltac field_length :=
  lazymatch goal with
  | |- length (le_bytes _ _) = _ => apply length_le_bytes
  | |- length [_] = _ => reflexivity
  | |- length _ = _ => eassumption
  end.
Ltac layout :=
  repeat first
    [ erewrite bytes_at_here by field_length
    | erewrite bytes_at_end by field_length
    | erewrite bytes_at_skip; [|field_length|cbn [length]; lia]; cbn [Nat.sub length] ].

Lemma le_val_u32 x : is_u32 x -> le_val (le_bytes 4 x) = x.
Proof. intros H. rewrite le_val_le_bytes. by apply Z.mod_small. Qed.
Lemma le_val_u64 x : is_u64 x -> le_val (le_bytes 8 x) = x.
Proof. intros H. rewrite le_val_le_bytes. by apply Z.mod_small. Qed.

Lemma init_of_init_bytes m : init_ok m -> init_of_bytes (init_bytes m) = m /\ Z.of_nat (length (init_bytes m)) = sizeof_WgHandshakeInit.
Proof.
  intros [H1 H2 H3 H4 H5 H6 H7 H8]. destruct m as [ty re si ep es et m1 m2]; cbn in H1, H2, H3, H4, H5, H6, H7, H8. split.
  - unfold init_of_bytes, init_bytes. cbn [i_type i_reserved i_sender_index i_ephemeral i_encrypted_static
      i_encrypted_timestamp i_mac1 i_mac2].
    f_equal; [layout; try done..]. by apply le_val_u32.
  - unfold init_bytes, sizeof_WgHandshakeInit. rewrite !length_app, length_le_bytes. simpl. lia.
Qed.

Lemma response_of_response_bytes m :
  response_ok m -> response_of_bytes (response_bytes m) = m /\ Z.of_nat (length (response_bytes m)) = sizeof_WgHandshakeResponse.
Proof.
  intros [H1 H2 H2' H3 H4 H5 H7 H8]. destruct m as [ty re si ri ep en m1 m2]; cbn in H1, H2, H2', H3, H4, H5, H7, H8. split.
  - unfold response_of_bytes, response_bytes. cbn [r_type r_reserved r_sender_index r_receiver_index r_ephemeral
      r_encrypted_nothing r_mac1 r_mac2].
    f_equal; [layout; try done..].
    + by apply le_val_u32.
    + by apply le_val_u32.
  - unfold response_bytes, sizeof_WgHandshakeResponse. rewrite !length_app, !length_le_bytes. simpl. lia.
Qed.

Lemma transport_of_transport_bytes m :
  length (t_reserved m) = 3%nat -> is_u32 (t_receiver_index m) -> is_u64 (t_counter m) ->
  transport_of_bytes (transport_bytes m) = m /\
  Z.of_nat (length (transport_bytes m)) = sizeof_WgTransport + Z.of_nat (length (encrypted_data m)).
Proof.
  intros H1 H2 H3. destruct m as [ty re ri ct ed]; cbn in H1, H2, H3. split.
  - unfold transport_of_bytes, transport_bytes. cbn [t_type t_reserved t_receiver_index t_counter encrypted_data].
    f_equal; [layout; try done..].
    + by apply le_val_u32.
    + by apply le_val_u64.
    + rewrite !app_assoc. apply drop_app_length'. rewrite !length_app, !length_le_bytes. simpl. lia.
  - unfold transport_bytes, sizeof_WgTransport. rewrite !length_app, !length_le_bytes. cbn [encrypted_data length t_reserved]. lia.
Qed.
