(* ===== verification/Platform.v ===== *)
(** * The platform layer (src/platform_switch.c)

    The system calls the library makes are the operations of a class over an
    abstract world; the functions of platform_switch.c around them are
    definitions. *)

From S2P Require Import Prelude Neon Aead Tunnel Agreement Curve25519.

(** An iteration of one of the two threads of a tunnel; the receive thread keeps what
    its static buffer holds. *)
Inductive thread_iter := IterRecv (fallback : list Z) | IterKeepalive.

(** libnx, the socket library, the scheduler and the callbacks of the application.
    [WLD] is the state outside the program. *)
Class Platform := {
  WLD : Type;
  (** [randomGet(buf, n)] *)
  randomGet : nat -> WLD -> list Z * WLD;
  (** [armTicksToNs(armGetSystemTick())] *)
  arm_ns : WLD -> Z * WLD;
  (** [clock_gettime(CLOCK_REALTIME, ...)]: seconds and nanoseconds *)
  clock_realtime : WLD -> (Z * Z) * WLD;
  (** whether a relay send function is installed, and the call to it *)
  relay_installed : WLD -> bool;
  relay_call : option (list Z) -> list Z -> WLD -> WLD;
  (** [sendto]: the result and whether [errno] is [EAGAIN] or [EWOULDBLOCK] *)
  sendto : Z -> sockaddr_in -> list Z -> WLD -> (Z * bool) * WLD;
  (** [socket(AF_INET, SOCK_DGRAM, 0)] and its options *)
  socket_open : WLD -> Z * WLD;
  (** [poll] on one descriptor: the result and whether [POLLIN] is set *)
  poll_in : Z -> Z -> WLD -> (Z * bool) * WLD;
  (** [recvfrom]: the result, the bytes received and their source *)
  recvfrom : Z -> nat -> WLD -> (Z * list Z * sockaddr_in) * WLD;
  (** the relay ring read up to a deadline (the component of Ring.v) *)
  ring_recv : nat -> Z -> WLD -> (Z * list Z) * WLD;
  (** [getaddrinfo] for a host and a port: the error code, and the family and
      address of the first result *)
  getaddrinfo : list Z -> Z -> WLD -> (Z * option (Z * sockaddr_in)) * WLD;
  (** [svcSleepThread], in nanoseconds *)
  svcSleepThread : Z -> WLD -> WLD;
  (** the scheduler: the iterations that the threads of the tunnel complete while
      another thread waits *)
  scheduled : WLD -> list thread_iter * WLD;
  (** the receive callback of the application: whether it keeps the slot *)
  recv_callback : nat -> list Z -> WLD -> bool * WLD
}.

(** What the code relies on. *)
Class PlatformLaws (P : Platform) := {
  randomGet_bytes n w : is_bytes (randomGet n w).1 /\ length (randomGet n w).1 = n;
  arm_ns_u64 w : is_u64 (arm_ns w).1
}.

(** The scalar multiplication the handshake calls.  [Curve25519] models the one of
    Monocypher; the handshake is proved for every operation with the laws below. *)
Class X25519 := crypto_x25519 : list Z -> list Z -> list Z.

Definition crypto_x25519_public_key `{X25519} (secret_key : list Z) : list Z :=
  let base_point := 9 :: replicate 31 0 in
  crypto_x25519 secret_key base_point.

(** RFC 7748: a 32-byte result, and both ends compute the same secret. *)
Class X25519Laws (X : X25519) := {
  x25519_ok k u : key_ok (crypto_x25519 k u);
  x25519_shared a b : key_ok a -> key_ok b ->
    crypto_x25519 a (crypto_x25519_public_key b) = crypto_x25519 b (crypto_x25519_public_key a)
}.

(** The operation of the program satisfies the laws. *)
Definition monocypher_x25519 : X25519 := Curve25519.crypto_x25519.

Lemma x25519_laws_of (X : X25519) : X = Curve25519.crypto_x25519 -> X25519Laws X.
Proof.
  intros HX. split.
  - intros k u. unfold crypto_x25519. rewrite HX. exact (crypto_x25519_bytes k u).
  - intros a b [Ha La] [Hb Lb]. unfold crypto_x25519_public_key, crypto_x25519. rewrite HX.
    exact (Agreement.secrets_agree a b Ha La Hb Lb).
Qed.

#[global] Instance monocypher_x25519_laws : X25519Laws monocypher_x25519.
Proof. by apply x25519_laws_of. Qed.

Definition AF_INET : Z := 2.
(** Network byte order on the little-endian target. *)
Definition htons (x : Z) : Z := u16 (Z.lor (Z.shiftl (Z.land x 255) 8) (Z.shiftr x 8)).
Definition INADDR_LOOPBACK_net : Z := 0x0100007f.
Definition LOCALHOST : list Z := [49; 50; 55; 46; 48; 46; 48; 46; 49].
(** A character array read up to its NUL. *)
Fixpoint c_string (s : list Z) : list Z :=
  match s with
  | [] => []
  | c :: s => if c =? 0 then [] else c :: c_string s
  end.

Section platform.
Context `{Platform}.

Definition wg_time_now (w : WLD) : Z * WLD := arm_ns w.

Definition wg_random_u32 (w : WLD) : Z * WLD :=
  let '(b, w) := randomGet 4 w in (le_val b, w).
Definition wg_random_index (w : WLD) : Z * WLD := wg_random_u32 w.

(** [key[0] &= 248; key[31] &= 127; key[31] |= 64;] *)
Definition clamp_key (k : list Z) : list Z :=
  let k := wr k 0 (Z.land (rd k 0) 248) in
  let k := wr k 31 (Z.land (rd k 31) 127) in
  wr k 31 (Z.lor (rd k 31) 64).

Definition wg_generate_keypair `{X25519} (w : WLD) : list Z * list Z * WLD :=
  let '(private_key, w) := randomGet 32 w in
  let private_key := clamp_key private_key in
  (private_key, crypto_x25519_public_key private_key, w).

Definition wg_socket_open (tun : WgTunnel) (w : WLD) : Z * WgTunnel * WLD :=
  if relay_installed w then (WG_OK, tun <| socket_fd := 0 |>, w)
  else
    let '(fd, w) := socket_open w in
    let tun := tun <| socket_fd := fd |> in
    if fd <? 0 then (WG_ERR_SOCKET, tun, w) else (WG_OK, tun, w).

Definition wg_sleep_ms (ms : Z) (w : WLD) : WLD := svcSleepThread (ms * 1000000) w.

(** The retry loop around [sendto]. *)
Fixpoint send_loop (retries : nat) (tun : WgTunnel) (data : list Z) (w : WLD) : Z * WLD :=
  match retries with
  | O => (WG_ERR_SOCKET, w)
  | S retries =>
      let '(sent, again, w) := sendto (socket_fd tun) (endpoint tun) data w in
      if 0 <=? sent then (sent, w)
      else if again then send_loop retries tun data (wg_sleep_ms 1 w)
      else (WG_ERR_SOCKET, w)
  end.

Definition wg_socket_send (tun : WgTunnel) (data : list Z) (w : WLD) : Z * WLD :=
  if relay_installed w then (Z.of_nat (length data), relay_call None data w)
  else send_loop 10 tun data w.

Definition wg_socket_send_to (tun : WgTunnel) (hash : list Z) (data : list Z) (w : WLD) : Z * WLD :=
  if relay_installed w then (Z.of_nat (length data), relay_call (Some hash) data w)
  else (WG_ERR_SOCKET, w).

(** The result and the bytes received. *)
Definition wg_socket_recv (tun : WgTunnel) (len : nat) (timeout_ms : Z) (w : WLD) : Z * list Z * WgTunnel * WLD :=
  if relay_installed w then
    let '(n, data, w) := ring_recv len timeout_ms w in (n, data, tun, w)
  else
    let '(ret, pollin, w) := poll_in (socket_fd tun) timeout_ms w in
    if ret <? 0 then (WG_ERR_SOCKET, [], tun, w)
    else if ret =? 0 then (WG_ERR_TIMEOUT, [], tun, w)
    else if negb pollin then (WG_ERR_SOCKET, [], tun, w)
    else
      let '(received, data, src, w) := recvfrom (socket_fd tun) len w in
      if received <? 0 then (WG_ERR_SOCKET, [], tun, w)
      else (received, data, tun <| recv_src := src |> <| recv_src_valid := true |>, w).

Definition wg_update_endpoint_from_recv (tun : WgTunnel) : WgTunnel :=
  if recv_src_valid tun then tun <| endpoint := recv_src tun |> <| recv_src_valid := false |> else tun.

Definition wg_socket_close (tun : WgTunnel) : WgTunnel :=
  if 0 <=? socket_fd tun then tun <| socket_fd := -1 |> else tun.

Definition wg_resolve_endpoint (tun : WgTunnel) (host : list Z) (port : Z) (w : WLD) : Z * WgTunnel * WLD :=
  if bool_decide (c_string host = LOCALHOST) then
    (WG_OK, tun <| endpoint := mkAddr AF_INET (htons port) INADDR_LOOPBACK_net |>, w)
  else
    let '(err, result, w) := getaddrinfo (c_string host) port w in
    if negb (err =? 0) then (WG_ERR_SOCKET, tun, w)
    else
      match result with
      | Some (ai_family, ai_addr) =>
          if ai_family =? AF_INET then (WG_OK, tun <| endpoint := ai_addr |>, w) else (WG_ERR_SOCKET, tun, w)
      | None => (WG_ERR_SOCKET, tun, w)
      end.

Lemma send_loop_result n tun data w : 0 <= (send_loop n tun data w).1 \/ (send_loop n tun data w).1 = WG_ERR_SOCKET.
Proof.
  revert w. induction n as [|n IH]; intros w; cbn [send_loop]; [by right|].
  destruct (sendto _ _ _ _) as [[sent again] w1]. destruct (Z.leb_spec 0 sent); [by left|].
  destruct again; [apply IH|by right].
Qed.
End platform.

(** Clamped keys have the form RFC 7748 asks for. *)
Lemma clamp_key_ok k : key_ok k -> key_ok (clamp_key k).
Proof.
  intros [Hb Hl]. unfold clamp_key. set (k1 := wr k 0 _). set (k2 := wr k1 31 _).
  assert (is_bytes k1) by (apply Forall_wr; [done|apply land_u8, is_bytes_rd; done]).
  assert (is_bytes k2) by (apply Forall_wr; [done|apply land_u8, is_bytes_rd; done]).
  split; [apply Forall_wr; [done|]|unfold k2, k1; by rewrite !length_wr].
  assert (length k1 = 32%nat) as Hk1 by (unfold k1; by rewrite length_wr).
  unfold k2. rewrite rd_wr_eq by lia.
  assert (0 <= Z.land (rd k1 31) 127 < 2 ^ 7) as Hr.
  { change 127 with (Z.ones 7). rewrite Z.land_ones by lia. apply Z.mod_pos_bound. lia. }
  unfold is_u8. assert (0 <= Z.lor (Z.land (rd k1 31) 127) 64) by (apply Z.lor_nonneg; lia).
  change 256 with (2 ^ 8). apply pow2_range_bits; [lia|done|]. intros i Hi. rewrite Z.lor_spec.
  rewrite (proj1 (pow2_range_bits 7 (Z.land (rd k1 31) 127) ltac:(lia) ltac:(lia))) by lia.
  rewrite (proj1 (pow2_range_bits 7 64 ltac:(lia) ltac:(lia))) by lia. done.
Qed.

(** ** Observing a platform

    The platform [P] with a record of what the program hands to the socket or to the
    relay: a second component of the world that [on_send] updates with each datagram.
    All answers are those of [P]. *)
Section observed.
Context (P : Platform) {A : Type} (on_send : list Z -> A -> A).

Definition pass {B W} (f : W -> B * W) (w : W * A) : B * (W * A) := let '(b, w') := f w.1 in (b, (w', w.2)).

Definition observed : Platform := {|
  WLD := @WLD P * A;
  randomGet n := pass (@randomGet P n);
  arm_ns := pass (@arm_ns P);
  clock_realtime := pass (@clock_realtime P);
  relay_installed w := @relay_installed P w.1;
  relay_call hash data w := (@relay_call P hash data w.1, on_send data w.2);
  sendto fd addr data w := let '(r, w') := @sendto P fd addr data w.1 in (r, (w', on_send data w.2));
  socket_open := pass (@socket_open P);
  poll_in fd ms := pass (@poll_in P fd ms);
  recvfrom fd n := pass (@recvfrom P fd n);
  ring_recv n ms := pass (@ring_recv P n ms);
  getaddrinfo host port := pass (@getaddrinfo P host port);
  svcSleepThread ns w := (@svcSleepThread P ns w.1, w.2);
  scheduled := pass (@scheduled P);
  recv_callback slot data := pass (@recv_callback P slot data)
|}.
End observed.

(** A call to the socket logs its datagram, once per try. *)
Definition logged (P : Platform) : Platform := observed P (fun data log => log ++ [data]).

Lemma send_loop_log P n tun data w log :
  exists k w', (@send_loop (logged P) n tun data (w, log)).2 = (w', log ++ replicate k data) /\
    (k <= n)%nat /\ (n <> 0 -> k <> 0)%nat.
Proof.
  revert w log. induction n as [|n IH]; intros w log; cbn [send_loop]; [by exists 0%nat, w; rewrite app_nil_r|].
  change (@sendto (logged P) ?f ?a data (w, log)) with
    (let '(r, w') := @sendto P f a data w in (r, (w', log ++ [data]))).
  destruct (@sendto P _ _ data w) as [[sent again] w1]. destruct (0 <=? sent); [by exists 1%nat, w1; split_and!; [|lia|]|].
  destruct again; [|by exists 1%nat, w1; split_and!; [|lia|]].
  destruct (IH (@svcSleepThread P (1 * 1000000) w1) (log ++ [data])) as (k & w' & E & Hk & _).
  exists (S k), w'. split_and!; [|lia|lia]. etrans; [exact E|]. by rewrite <- app_assoc.
Qed.

Lemma socket_send_log P tun data w log :
  exists k w', (@wg_socket_send (logged P) tun data (w, log)).2 = (w', log ++ replicate k data) /\ (1 <= k <= 10)%nat.
Proof.
  unfold wg_socket_send. change (@relay_installed (logged P) (w, log)) with (@relay_installed P w).
  destruct (@relay_installed P w); [by exists 1%nat, (@relay_call P None data w); split; [|lia]|].
  destruct (send_loop_log P 10 tun data w log) as (k & w' & E & Hk & Hn). exists k, w'. split; [exact E|lia].
Qed.

(** ** A concrete platform

    The laws hold of it; the witnesses run the code on it.  Its world counts the
    calls, keeps what was sent and what will be received. *)

Record demo_world := mkDemo { ticks : Z; sent_log : list (list Z) }.

Definition demo_tick (w : demo_world) : demo_world := mkDemo (ticks w + 1) (sent_log w).

(** [reply] is what the relay delivers, given what was sent. *)
Definition demo_net (reply : demo_world -> Z * list Z) : Platform := {|
  WLD := demo_world;
  randomGet n w := (map (fun i => (ticks w * 31 + Z.of_nat i * 7 + 1) mod 256) (seq 0 n), demo_tick w);
  arm_ns w := (ticks w mod 2 ^ 64, demo_tick w);
  clock_realtime w := ((1700000000 + ticks w, 0), w);
  relay_installed _ := true;
  relay_call _ d w := mkDemo (ticks w) (sent_log w ++ [d]);
  sendto _ _ d w := ((Z.of_nat (length d), false), w);
  socket_open w := (3, w);
  poll_in _ _ w := ((0, false), w);
  recvfrom _ _ w := ((-1, [], mkAddr 0 0 0), w);
  ring_recv _ _ w := (reply w, demo_tick w);
  getaddrinfo _ port w := ((0, Some (AF_INET, mkAddr AF_INET (htons port) 0)), w);
  svcSleepThread _ w := demo_tick w;
  scheduled w := ([], w);
  recv_callback _ _ w := (false, w)
|}.
Definition demo_platform : Platform := demo_net (fun _ => (WG_ERR_TIMEOUT, [])).

Lemma demo_net_laws reply : PlatformLaws (demo_net reply).
Proof.
  split.
  - intros n w. cbn. split; [|by rewrite length_map, length_seq].
    apply Forall_forall. intros x (i & -> & _)%list_elem_of_fmap. apply Z.mod_pos_bound. lia.
  - intros w. apply Z.mod_pos_bound. lia.
Qed.

(** Multiplication modulo [2 ^ 256] in place of the curve. *)
Definition demo_x25519 : X25519 := fun k u => le_bytes 32 (le_val k * le_val u).

Lemma demo_x25519_laws : X25519Laws demo_x25519.
Proof.
  split.
  - intros k u. split; [apply is_bytes_le_bytes|apply length_le_bytes].
  - intros a b _ _. unfold crypto_x25519_public_key, crypto_x25519, demo_x25519. set (g := le_val (9 :: _)).
    apply le_val_inj; try apply is_bytes_le_bytes; [by rewrite !length_le_bytes|].
    rewrite !le_val_le_bytes. rewrite !Zmult_mod_idemp_r. f_equal. ring.
Qed.

Definition demo_scratch : Scratch := {| scratch := replicate 16 0; scratch_length := eq_refl |}.
