(* ===== verification/Noise.v ===== *)
(** * The handshake (src/wg_noise.c)

    Initiation, the passive responder, completion of an active handshake on the
    tunnel or on a peer, and cookie replies.  Every function takes the world and
    returns it, so that the order of the system calls is that of the code. *)

From Stdlib Require Import String Ascii.
From S2P Require Import Prelude Neon Counter Blake2s Monocypher Aead Crypto RecvPool Tunnel Platform.

#[local] Open Scope Z_scope.

(** The bytes of a string literal, without the final NUL. *)
Definition str (s : string) : list Z := map (fun a => Z.of_nat (nat_of_ascii a)) (list_ascii_of_string s).

Definition WG_CONSTRUCTION : list Z := str "Noise_IKpsk2_25519_ChaChaPoly_BLAKE2s".
Definition WG_IDENTIFIER : list Z := str "WireGuard v1 zx2c4 Jason@zx2c4.com".
Definition WG_LABEL_MAC1 : list Z := str "mac1----".
Definition WG_LABEL_COOKIE : list Z := str "cookie--".

#[export] Instance eta_init : Eta WgHandshakeInit := fun r =>
  mkInit (i_type r) (i_reserved r) (i_sender_index r) (i_ephemeral r) (i_encrypted_static r)
    (i_encrypted_timestamp r) (i_mac1 r) (i_mac2 r).
#[export] Instance eta_resp : Eta WgHandshakeResponse := fun r =>
  mkResp (r_type r) (r_reserved r) (r_sender_index r) (r_receiver_index r) (r_ephemeral r)
    (r_encrypted_nothing r) (r_mac1 r) (r_mac2 r).
#[export] Instance eta_hs : Eta WgHandshakeState := fun r =>
  mkHs (hs_hash r) (chaining_key r) (ephemeral_private r).

Section noise.
Context `{NeonBuild} `{Scratch} `{Platform} `{X25519}.

Definition wg_handshake_init_state (state : WgHandshakeState) (peer_pub : list Z) : WgHandshakeState :=
  let ck := wg_hash WG_CONSTRUCTION in
  let state := state <| chaining_key := ck |> <| hs_hash := wg_hash2 ck WG_IDENTIFIER |> in
  wg_mix_hash state peer_pub.

Definition wg_compute_mac1 (peer_pub msg : list Z) : list Z :=
  let mac1_key := wg_hash2 WG_LABEL_MAC1 peer_pub in
  wg_mac mac1_key msg.

Definition wg_xaead_decrypt (key nonce ciphertext ad : list Z) : Z * option (list Z) :=
  if Z.of_nat (length ciphertext) <? WG_AEAD_TAG_LEN then (-1, None)
  else
    let plaintext_len := (length ciphertext - 16)%nat in
    let mac := drop plaintext_len ciphertext in
    let ctx := crypto_aead_init_x key nonce in
    let '(_, result, out) := crypto_aead_read scratch ctx mac ad (take plaintext_len ciphertext) in
    (result, out).

Definition wg_process_cookie_reply (tun : WgTunnel) (msg : WgCookieReply) (w : WLD) : Z * WgTunnel * WLD :=
  if negb (c_type msg =? WG_MSG_COOKIE_REPLY) then (WG_ERR_HANDSHAKE, tun, w)
  else if negb (c_receiver_index msg =? local_index (session tun)) then (WG_ERR_HANDSHAKE, tun, w)
  else
    let cookie_key := wg_hash2 WG_LABEL_COOKIE (peer_public tun) in
    let '(result, out) := wg_xaead_decrypt cookie_key (c_nonce msg) (encrypted_cookie msg) (last_mac1 tun) in
    let tun := tun <| cookie := default (cookie tun) out |> in
    if negb (result =? 0) then (WG_ERR_DECRYPT, tun, w)
    else
      let '(now, w) := wg_time_now w in
      (WG_OK, tun <| has_cookie := true |> <| cookie_timestamp := now |>, w).

(** [wg_kdf1(ck, ck, input)] and [wg_kdf2(ck, key, ck, input)] on the state. *)
Definition mix_kdf1 (state : WgHandshakeState) (input : list Z) : WgHandshakeState :=
  state <| chaining_key := wg_kdf1 (chaining_key state) input |>.
Definition mix_kdf2 (state : WgHandshakeState) (input : list Z) : WgHandshakeState * list Z :=
  let '(ck, key) := wg_kdf2 (chaining_key state) input in
  (state <| chaining_key := ck |>, key).

(** What an encryption wrote to its output. *)
Definition sealed (r : Z * option (list Z)) : list Z := default [] r.2.

(** The message fields before the MACs, over which [mac1] is taken: both
    initiators build them with the same statements, for the public key [pub].
    The index is drawn between the ephemeral key and the clock. *)
Definition build_init (tun : WgTunnel) (pub : list Z) (w : WLD) : WgHandshakeInit * WgHandshakeState * WLD :=
  let state := wg_handshake_init_state zero_hs pub in
  let '(rnd, w) := randomGet 32 w in
  let state := state <| ephemeral_private := clamp_key rnd |> in
  let ephemeral := crypto_x25519_public_key (ephemeral_private state) in
  let '(sender_index, w) := wg_random_index w in
  let state := wg_mix_hash state ephemeral in
  let state := mix_kdf1 state ephemeral in
  let dh_result := crypto_x25519 (ephemeral_private state) pub in
  let '(state, key) := mix_kdf2 state dh_result in
  let encrypted_static := sealed (wg_aead_encrypt key 0 (static_public tun) (hs_hash state)) in
  let state := wg_mix_hash state encrypted_static in
  let dh_result := crypto_x25519 (static_private tun) pub in
  let '(state, key) := mix_kdf2 state dh_result in
  let '((tv_sec, tv_nsec), w) := clock_realtime w in
  let timestamp := wg_timestamp tv_sec tv_nsec in
  let encrypted_timestamp := sealed (wg_aead_encrypt key 0 timestamp (hs_hash state)) in
  let state := wg_mix_hash state encrypted_timestamp in
  let msg := mkInit WG_MSG_HANDSHAKE_INIT [0; 0; 0] sender_index ephemeral encrypted_static encrypted_timestamp [] [] in
  let msg := msg <| i_mac1 := wg_compute_mac1 pub (take (148 - 2 * 16) (init_bytes msg)) |> in
  (msg, state, w).

Definition COOKIE_AGE_NS : Z := WG_COOKIE_SECRET_MAX_AGE * NS.

Definition wg_handshake_init (tun : WgTunnel) (w : WLD) : Z * WgTunnel * WgHandshakeInit * WgHandshakeState * WLD :=
  let '(msg, state, w) := build_init tun (peer_public tun) w in
  let tun := tun <| session := (session tun) <| old_local_index := local_index (session tun) |>
                                 <| local_index := i_sender_index msg |>
                                 <| rekey_in_progress := true |> |> in
  let tun := tun <| last_mac1 := i_mac1 msg |> in
  let '(now, w) := wg_time_now w in
  let cookie_age_ns := sub64 now (cookie_timestamp tun) in
  if has_cookie tun && (cookie_age_ns <? COOKIE_AGE_NS) then
    let msg := msg <| i_mac2 := wg_mac (cookie tun) (take (148 - 16) (init_bytes msg)) |> in
    (WG_OK, tun, msg, state, w)
  else
    let tun := if has_cookie tun && (COOKIE_AGE_NS <=? cookie_age_ns)
               then tun <| has_cookie := false |> <| cookie := replicate 16 0 |> else tun in
    (WG_OK, tun, msg <| i_mac2 := replicate 16 0 |>, state, w).

Definition upd_peer (tun : WgTunnel) (i : nat) (f : WgPeer -> WgPeer) : WgTunnel :=
  tun <| peers := alter f i (peers tun) |>.
Definition get_peer (tun : WgTunnel) (i : nat) : WgPeer := default zero_peer (peers tun !! i).

Definition wg_handshake_init_peer (tun : WgTunnel) (i : nat) (w : WLD)
  : Z * WgTunnel * WgHandshakeInit * WgHandshakeState * WLD :=
  let '(msg, state, w) := build_init tun (public_key (get_peer tun i)) w in
  let tun := upd_peer tun i (fun peer =>
    peer <| p_session := (p_session peer) <| old_local_index := local_index (p_session peer) |>
                           <| local_index := i_sender_index msg |> |>
         <| p_last_mac1 := i_mac1 msg |>) in
  let '(now, w) := wg_time_now w in
  let cookie_age_ns := sub64 now (cookie_timestamp tun) in
  if has_cookie tun && (cookie_age_ns <? COOKIE_AGE_NS) then
    let msg := msg <| i_mac2 := wg_mac (cookie tun) (take (148 - 16) (init_bytes msg)) |> in
    (WG_OK, tun, msg, state, w)
  else (WG_OK, tun, msg <| i_mac2 := replicate 16 0 |>, state, w).

(** The PSK step of both sides: the state and the key of the empty payload. *)
Definition mix_psk (tun : WgTunnel) (state : WgHandshakeState) : WgHandshakeState * list Z :=
  let psk := if has_psk tun then preshared_key tun else replicate 32 0 in
  let '(ck, psk_temp, key) := wg_kdf3 (chaining_key state) psk in
  let state := state <| chaining_key := ck |> in
  (wg_mix_hash state psk_temp, key).

(** What the passive responder learns from an initiation: the initiator's static
    key and the state after the timestamp. *)
Definition consume_init (tun : WgTunnel) (msg : WgHandshakeInit) : Z * option (list Z * WgHandshakeState) :=
  let state := wg_handshake_init_state zero_hs (static_public tun) in
  let state := wg_mix_hash state (i_ephemeral msg) in
  let state := mix_kdf1 state (i_ephemeral msg) in
  let dh_result := crypto_x25519 (static_private tun) (i_ephemeral msg) in
  let '(state, key) := mix_kdf2 state dh_result in
  match wg_aead_decrypt key 0 (i_encrypted_static msg) (hs_hash state) with
  | (0, Some decrypted_static) =>
      let state := wg_mix_hash state (i_encrypted_static msg) in
      let dh_result := crypto_x25519 (static_private tun) decrypted_static in
      let '(state, key) := mix_kdf2 state dh_result in
      match wg_aead_decrypt key 0 (i_encrypted_timestamp msg) (hs_hash state) with
      | (0, Some _) => (WG_OK, Some (decrypted_static, wg_mix_hash state (i_encrypted_timestamp msg)))
      | _ => (WG_ERR_DECRYPT, None)
      end
  | _ => (WG_ERR_DECRYPT, None)
  end.

(** The fields of the target session after a completed handshake. *)
Definition established (s : WgSession) (send recv : list Z) (now : Z) : WgSession :=
  s <| sending_key := send |> <| receiving_key := recv |> <| sending_counter := 0 |> <| receiving_counter := 0 |>
    <| last_handshake := now |> <| valid := true |> <| replay := zero_replay |>.

(** The passive responder up to the point where it sends: the result, the
    response with the peer it goes to, the tunnel with the new session. *)
Definition respond (tun : WgTunnel) (msg : WgHandshakeInit) (w : WLD)
  : Z * option (WgHandshakeResponse * option nat) * WgTunnel * WLD :=
  if negb (i_type msg =? WG_MSG_HANDSHAKE_INIT) then (WG_ERR_HANDSHAKE, None, tun, w)
  else
    let expected_mac1 := wg_compute_mac1 (static_public tun) (take (148 - 2 * 16) (init_bytes msg)) in
    if negb (bool_decide (expected_mac1 = i_mac1 msg)) then (WG_ERR_HANDSHAKE, None, tun, w)
    else
      let tun := tun <| last_mac1 := i_mac1 msg |> in
      match consume_init tun msg with
      | (err, None) => (err, None, tun, w)
      | (_, Some (decrypted_static, state)) =>
          let peer := wg_find_peer_by_public_key tun decrypted_static in
          let tun := match peer with Some _ => tun | None => tun <| peer_public := decrypted_static |> end in
          let '(sender_index, w) := wg_random_index w in
          let '(rnd, w) := randomGet 32 w in
          let resp_eph_priv := clamp_key rnd in
          let ephemeral := crypto_x25519_public_key resp_eph_priv in
          let state := wg_mix_hash state ephemeral in
          let state := mix_kdf1 state ephemeral in
          let state := mix_kdf1 state (crypto_x25519 resp_eph_priv (i_ephemeral msg)) in
          let state := mix_kdf1 state (crypto_x25519 resp_eph_priv decrypted_static) in
          let '(state, key) := mix_psk tun state in
          let encrypted_nothing := sealed (wg_aead_encrypt key 0 [] (hs_hash state)) in
          let state := wg_mix_hash state encrypted_nothing in
          let response := mkResp WG_MSG_HANDSHAKE_RESPONSE [0; 0; 0] sender_index (i_sender_index msg) ephemeral
                            encrypted_nothing (replicate 16 0) (replicate 16 0) in
          let response := response <| r_mac1 :=
            wg_compute_mac1 decrypted_static (take (92 - 2 * 16) (response_bytes response)) |> in
          let tun := tun <| last_mac1 := r_mac1 response |> in
          let '(k1, k2) := wg_kdf2 (chaining_key state) [] in
          let '(now, w) := wg_time_now w in
          let finish (s : WgSession) : WgSession :=
            (established (s <| local_index := sender_index |> <| remote_index := i_sender_index msg |>) k2 k1 now)
              <| rekey_in_progress := false |> in
          match peer with
          | Some i =>
              let tun := upd_peer tun i (fun p =>
                let p := if valid (p_session p) then p <| p_prev_session := p_session p |> else p in
                p <| p_session := finish (p_session p) |> <| connected := true |> <| p_last_mac1 := r_mac1 response |>) in
              (WG_OK, Some (response, peer), tun, w)
          | None =>
              let tun := if valid (session tun) then tun <| prev_session := session tun |> else tun in
              (WG_OK, Some (response, peer), tun <| session := finish (session tun) |>, w)
          end
      end.

Definition wg_handshake_init_process (tun : WgTunnel) (msg : WgHandshakeInit) (w : WLD) : Z * WgTunnel * WLD :=
  let '(err, out, tun, w) := respond tun msg w in
  match out with
  | None => (err, tun, w)
  | Some (response, Some i) =>
      let '(_, w) := wg_socket_send_to tun (relay_hash (get_peer tun i)) (response_bytes response) w in (err, tun, w)
  | Some (response, None) =>
      let '(_, w) := wg_socket_send tun (response_bytes response) w in (err, tun, w)
  end.

(** The steps of the response that the initiator replays: the state and whether
    the empty payload authenticates. *)
Definition consume_response (tun : WgTunnel) (msg : WgHandshakeResponse) (state : WgHandshakeState)
  : bool * WgHandshakeState :=
  let state := wg_mix_hash state (r_ephemeral msg) in
  let state := mix_kdf1 state (r_ephemeral msg) in
  let state := mix_kdf1 state (crypto_x25519 (ephemeral_private state) (r_ephemeral msg)) in
  let state := mix_kdf1 state (crypto_x25519 (static_private tun) (r_ephemeral msg)) in
  let '(state, key) := mix_psk tun state in
  match wg_aead_decrypt key 0 (r_encrypted_nothing msg) (hs_hash state) with
  | (0, _) => (true, wg_mix_hash state (r_encrypted_nothing msg))
  | _ => (false, state)
  end.

Definition wg_handshake_response (tun : WgTunnel) (msg : WgHandshakeResponse) (state : WgHandshakeState) (w : WLD)
  : Z * WgTunnel * WgHandshakeState * WLD :=
  if negb (r_type msg =? WG_MSG_HANDSHAKE_RESPONSE) then (WG_ERR_HANDSHAKE, tun, state, w)
  else if negb (r_receiver_index msg =? local_index (session tun)) then (WG_ERR_HANDSHAKE, tun, state, w)
  else
    let tun := tun <| session := (session tun) <| remote_index := r_sender_index msg |> |> in
    let '(ok, state) := consume_response tun msg state in
    if negb ok then (WG_ERR_DECRYPT, tun, state, w)
    else
      let tun := if valid (session tun)
                 then tun <| prev_session := (session tun) <| local_index := old_local_index (session tun) |> |>
                 else tun in
      let '(k1, k2) := wg_kdf2 (chaining_key state) [] in
      let '(now, w) := wg_time_now w in
      let tun := tun <| session := (established (session tun) k1 k2 now) <| rekey_in_progress := false |> |> in
      (WG_OK, tun, zero_hs, w).

Definition wg_handshake_init_process_response (tun : WgTunnel) (i : nat) (msg : WgHandshakeResponse) (w : WLD)
  : Z * WgTunnel * WLD :=
  let peer := get_peer tun i in
  if negb (r_type msg =? WG_MSG_HANDSHAKE_RESPONSE) then (WG_ERR_HANDSHAKE, tun, w)
  else if negb (r_receiver_index msg =? local_index (p_session peer)) then (WG_ERR_HANDSHAKE, tun, w)
  else
    let peer := peer <| p_session := (p_session peer) <| remote_index := r_sender_index msg |> |> in
    let '(ok, state) := consume_response tun msg (pending_hs peer) in
    let peer := peer <| pending_hs := state |> in
    if negb ok then (WG_ERR_DECRYPT, upd_peer tun i (fun _ => peer), w)
    else
      let '(k1, k2) := wg_kdf2 (chaining_key state) [] in
      let '(now, w) := wg_time_now w in
      let peer := peer <| p_session := established (p_session peer) k1 k2 now |>
                       <| hs_pending := false |> <| pending_hs := zero_hs |> in
      (WG_OK, upd_peer tun i (fun _ => peer), w).
End noise.

(** ** Handshake states up to the ephemeral key *)

Definition hs_equiv (a b : WgHandshakeState) : Prop := hs_hash a = hs_hash b /\ chaining_key a = chaining_key b.
Definition hs_ok (a : WgHandshakeState) : Prop := key_ok (hs_hash a) /\ key_ok (chaining_key a).

#[export] Instance hs_equiv_equivalence : Equivalence hs_equiv.
Proof.
  split; [by intros x|by intros x y [E1 E2]; split|]. intros x y z [E1 E2] [E3 E4]. split; congruence.
Qed.

Section lemmas.
Context `{NeonBuild} `{Scratch} `{Platform} `{X25519}.

#[export] Instance mix_hash_proper : Proper (hs_equiv ==> eq ==> hs_equiv) wg_mix_hash.
Proof. intros a b [E1 E2] x ? <-. split; cbn; by rewrite ?E1, ?E2. Qed.
#[export] Instance mix_kdf1_proper : Proper (hs_equiv ==> eq ==> hs_equiv) mix_kdf1.
Proof. intros a b [E1 E2] x ? <-. split; cbn; by rewrite ?E1, ?E2. Qed.

Lemma mix_kdf2_equiv a b x : hs_equiv a b -> hs_equiv (mix_kdf2 a x).1 (mix_kdf2 b x).1 /\ (mix_kdf2 a x).2 = (mix_kdf2 b x).2.
Proof.
  intros [E1 E2]. unfold mix_kdf2. rewrite E2. destruct (wg_kdf2 (chaining_key b) x). by split.
Qed.

Definition psk_of (tun : WgTunnel) : list Z := if has_psk tun then preshared_key tun else replicate 32 0.

Lemma mix_psk_equiv t u a b :
  psk_of t = psk_of u -> hs_equiv a b -> hs_equiv (mix_psk t a).1 (mix_psk u b).1 /\ (mix_psk t a).2 = (mix_psk u b).2.
Proof.
  intros Hp [E1 E2]. unfold mix_psk. fold (psk_of t) (psk_of u). rewrite Hp, E2.
  destruct (wg_kdf3 (chaining_key b) (psk_of u)) as [[ck pt] k]. split; [|done]. split; cbn; by rewrite ?E1.
Qed.

Lemma init_state_ok s pub : hs_ok (wg_handshake_init_state s pub).
Proof.
  split; cbn -[wg_hash wg_hash2]; rewrite ?wg_hash2_eq, ?wg_hash_eq; apply HASH_ok.
Qed.
Lemma mix_hash_ok s x : hs_ok s -> hs_ok (wg_mix_hash s x).
Proof. intros [H3 H4]. split; cbn -[wg_hash2]; [rewrite wg_hash2_eq; apply HASH_ok|done]. Qed.
Lemma mix_kdf1_ok s x : hs_ok s -> hs_ok (mix_kdf1 s x).
Proof. intros [H3 [H4 H5]]. split; [done|]. cbn -[wg_kdf1]. rewrite wg_kdf1_eq by lia. apply HKDF_ok. Qed.
Lemma mix_kdf2_ok s x : hs_ok s -> hs_ok (mix_kdf2 s x).1 /\ key_ok (mix_kdf2 s x).2.
Proof.
  intros [H3 [H4 H5]]. unfold mix_kdf2. rewrite wg_kdf2_eq by lia. cbn -[HKDF].
  split; [split; [done|apply HKDF_ok]|apply HKDF_ok].
Qed.
Lemma mix_psk_ok t s : hs_ok s -> hs_ok (mix_psk t s).1 /\ key_ok (mix_psk t s).2.
Proof.
  intros [H3 [H4 H5]]. unfold mix_psk. rewrite wg_kdf3_eq by lia. cbn [fst snd].
  split; [apply mix_hash_ok; split; [done|cbn -[HKDF]; apply HKDF_ok]|apply HKDF_ok].
Qed.

Lemma key_text k : key_ok k -> text_ok k.
Proof. intros [Hb Hl]. split; [done|]. rewrite Hl. lia. Qed.

(** What one side seals, the other opens. *)
Lemma sealed_opens k p ad :
  key_ok k -> text_ok ad -> is_bytes p -> (length p <= 32)%nat ->
  wg_aead_decrypt k 0 (sealed (wg_aead_encrypt k 0 p ad)) ad = (0, Some p) /\
  length (sealed (wg_aead_encrypt k 0 p ad)) = (length p + 16)%nat /\ is_bytes (sealed (wg_aead_encrypt k 0 p ad)).
Proof.
  intros Hk Ha Hp Hl. rewrite encrypt_seal by (done || (split; [done|lia])). unfold sealed. cbn [snd default].
  change (default [] (Some (wg_seal k 0 ad p))) with (wg_seal k 0 ad p).
  split; [|split; [apply length_seal|by apply is_bytes_seal]].
  assert (text_ok (wg_seal k 0 ad p)) by (split; [by apply is_bytes_seal|rewrite length_seal; lia]).
  by apply decrypt_iff.
Qed.

Lemma timestamp_ok s n : is_bytes (wg_timestamp s n) /\ length (wg_timestamp s n) = 12%nat.
Proof. split; [|done]. unfold wg_timestamp. repeat constructor; apply u8_range. Qed.

Lemma clamp_random_ok `{!PlatformLaws _} n w : n = 32%nat -> key_ok (clamp_key (randomGet n w).1).
Proof. intros ->. apply clamp_key_ok. apply randomGet_bytes. Qed.

Lemma random_index_u32 `{!PlatformLaws _} w : is_u32 (wg_random_index w).1.
Proof.
  unfold wg_random_index, wg_random_u32. destruct (randomGet_bytes 4 w) as [Hb Hl].
  destruct (randomGet 4 w) as [b w']. cbn in *. pose proof (le_val_range b Hb) as Hr. rewrite Hl in Hr. exact Hr.
Qed.

Lemma mac1_length pub m : length (wg_compute_mac1 pub m) = 16%nat.
Proof. unfold wg_compute_mac1. rewrite wg_hash2_eq, wg_mac_eq by (by rewrite (proj2 (HASH_ok _))).
  unfold blake2s_rfc. apply (digest_ok (param_h0 16 _) _ 16). lia. Qed.

Lemma public_key_ok `{!X25519Laws _} k : key_ok (crypto_x25519_public_key k).
Proof. apply x25519_ok. Qed.

(** The bytes under [mac1] do not depend on the MACs. *)
Definition init_head (m : WgHandshakeInit) : list Z :=
  [i_type m] ++ i_reserved m ++ le_bytes 4 (i_sender_index m) ++ i_ephemeral m ++ i_encrypted_static m ++
  i_encrypted_timestamp m.

Lemma take_init m :
  length (i_reserved m) = 3%nat -> length (i_ephemeral m) = 32%nat -> length (i_encrypted_static m) = 48%nat ->
  length (i_encrypted_timestamp m) = 28%nat -> take (148 - 2 * 16) (init_bytes m) = init_head m.
Proof.
  intros H3 H4 H5 H6. unfold init_bytes. rewrite !app_assoc, <- (app_assoc _ (i_mac1 m)). unfold init_head.
  rewrite take_app_length', !app_assoc; [done|]. rewrite !length_app, length_le_bytes. cbn [length]. lia.
Qed.

Lemma eph_mix_hash s x : ephemeral_private (wg_mix_hash s x) = ephemeral_private s.
Proof. reflexivity. Qed.
Lemma eph_mix_kdf1 s x : ephemeral_private (mix_kdf1 s x) = ephemeral_private s.
Proof. reflexivity. Qed.
Lemma eph_mix_kdf2 s x : ephemeral_private (mix_kdf2 s x).1 = ephemeral_private s.
Proof. unfold mix_kdf2. by destruct (wg_kdf2 _ _). Qed.

#[local] Opaque wg_mix_hash mix_kdf1 mix_kdf2 mix_psk wg_aead_encrypt wg_aead_decrypt wg_compute_mac1 wg_kdf2
  wg_handshake_init_state crypto_x25519_public_key clamp_key wg_timestamp.


(** The state after an initiation, and the sizes of its fields. *)
Lemma build_init_ok `{!PlatformLaws _} `{!X25519Laws _} tun pub w msg st w' :
  key_ok (static_public tun) -> build_init tun pub w = (msg, st, w') ->
  hs_ok st /\ key_ok (ephemeral_private st) /\
  i_ephemeral msg = crypto_x25519_public_key (ephemeral_private st) /\
  i_type msg = WG_MSG_HANDSHAKE_INIT /\
  (forall m2, length m2 = 16%nat -> init_ok (msg <| i_mac2 := m2 |>)) /\
  (forall m2, i_mac1 msg = wg_compute_mac1 pub (take (148 - 2 * 16) (init_bytes (msg <| i_mac2 := m2 |>)))).
Proof.
  intros [Hsb Hsl] E. unfold build_init in E. pose proof (clamp_random_ok 32 w eq_refl) as Hrk.
  destruct (randomGet 32 w) as [rnd w1]. cbn [fst] in Hrk.
  pose proof (random_index_u32 w1) as Hi. destruct (wg_random_index w1) as [si w2]. cbn [fst] in Hi.
  set (s0 := (wg_handshake_init_state zero_hs pub) <| ephemeral_private := clamp_key rnd |>) in E.
  set (e := crypto_x25519_public_key _) in E.
  assert (hs_ok (mix_kdf1 (wg_mix_hash s0 e) e)) as H2' by apply mix_kdf1_ok, mix_hash_ok, (init_state_ok zero_hs pub).
  assert (ephemeral_private (mix_kdf1 (wg_mix_hash s0 e) e) = clamp_key rnd) as E2 by (by rewrite eph_mix_kdf1, eph_mix_hash).
  set (s2 := mix_kdf1 _ _) in *. clearbody s2.
  destruct (mix_kdf2_ok s2 (crypto_x25519 (ephemeral_private s2) pub) H2') as [H3' K3].
  pose proof (eph_mix_kdf2 s2 (crypto_x25519 (ephemeral_private s2) pub)) as E3.
  destruct (mix_kdf2 s2 _) as [s3 k3]. cbn [fst snd] in H3', K3, E3.
  destruct (sealed_opens k3 (static_public tun) (hs_hash s3)) as (_ & Ls & Bs); [done|apply key_text, H3'|done|lia|].
  set (es := sealed _) in *. clearbody es.
  pose proof (mix_hash_ok s3 es H3') as H4'. set (s4 := wg_mix_hash s3 es) in *.
  assert (ephemeral_private s4 = ephemeral_private s3) as E4 by apply eph_mix_hash. clearbody s4.
  destruct (mix_kdf2_ok s4 (crypto_x25519 (static_private tun) pub) H4') as [H5' K5].
  pose proof (eph_mix_kdf2 s4 (crypto_x25519 (static_private tun) pub)) as E5.
  destruct (mix_kdf2 s4 _) as [s5 k5]. cbn [fst snd] in H5', K5, E5.
  destruct (clock_realtime w2) as [[sec nsec] w3]. destruct (timestamp_ok sec nsec) as [Bt Lt].
  destruct (sealed_opens k5 (wg_timestamp sec nsec) (hs_hash s5)) as (_ & Le & Be); [done|apply key_text, H5'|done|lia|].
  set (et := sealed _) in *. clearbody et. injection E as <- <- <-.
  assert (key_ok e) as [Hek Hel] by apply public_key_ok.
  split_and!.
  - by apply mix_hash_ok.
  - by rewrite eph_mix_hash, E5, E4, E3, E2.
  - by rewrite eph_mix_hash, E5, E4, E3, E2.
  - done.
  - intros m2 Hm. split; cbn -[wg_compute_mac1]; try done; try lia. apply mac1_length.
  - intros m2. cbn [i_mac1]. change (i_mac1 _) with (wg_compute_mac1 pub (take (148 - 2 * 16) (init_bytes
      (mkInit WG_MSG_HANDSHAKE_INIT [0; 0; 0] si e es et [] [])))) at 1. rewrite !take_init; cbn -[wg_compute_mac1]; try done; lia.
Qed.

Lemma kdf2_pair a b x y :
  hs_equiv a b -> x = y -> hs_ok a ->
  exists s t k, mix_kdf2 a x = (s, k) /\ mix_kdf2 b y = (t, k) /\ hs_equiv s t /\ hs_ok s /\ key_ok k /\
    ephemeral_private s = ephemeral_private a.
Proof.
  intros Hab <- Ha. destruct (mix_kdf2_equiv a b x Hab) as [E1 E2]. destruct (mix_kdf2_ok a x Ha) as [O1 O2].
  pose proof (eph_mix_kdf2 a x) as Ee. destruct (mix_kdf2 a x) as [s k], (mix_kdf2 b x) as [t k'].
  cbn [fst snd] in *. subst k'. eauto 10.
Qed.

Lemma psk_pair t u a b :
  psk_of t = psk_of u -> hs_equiv a b -> hs_ok a ->
  exists s s' k, mix_psk t a = (s, k) /\ mix_psk u b = (s', k) /\ hs_equiv s s' /\ hs_ok s /\ key_ok k.
Proof.
  intros Hp Hab Ha. destruct (mix_psk_equiv t u a b Hp Hab) as [E1 E2]. destruct (mix_psk_ok t a Ha) as [O1 O2].
  destruct (mix_psk t a) as [s k], (mix_psk u b) as [s' k']. cbn [fst snd] in *. subst k'. eauto 10.
Qed.

(** The responder reads the initiator's static key out of its initiation, and
    both sides then hold equivalent states. *)
Lemma consume_build `{!PlatformLaws _} `{!X25519Laws _} A B w msg st w' m :
  key_ok (static_public A) -> key_ok (static_private A) -> key_ok (static_private B) ->
  static_public A = crypto_x25519_public_key (static_private A) ->
  static_public B = crypto_x25519_public_key (static_private B) ->
  build_init A (static_public B) w = (msg, st, w') ->
  i_ephemeral m = i_ephemeral msg -> i_encrypted_static m = i_encrypted_static msg ->
  i_encrypted_timestamp m = i_encrypted_timestamp msg ->
  exists st', consume_init B m = (WG_OK, Some (static_public A, st')) /\ hs_equiv st st'.
Proof.
  intros [Hsb Hsl] KA KB PA PB E Em Es Et. unfold consume_init. rewrite Em, Es, Et. clear Em Es Et m.
  unfold build_init in E. pose proof (clamp_random_ok 32 w eq_refl) as Hrk.
  destruct (randomGet 32 w) as [rnd w1]. cbn [fst] in Hrk. destruct (wg_random_index w1) as [si w2].
  set (s0 := wg_handshake_init_state zero_hs (static_public B)) in *.
  set (s0' := s0 <| ephemeral_private := clamp_key rnd |>) in E.
  change (ephemeral_private s0') with (clamp_key rnd) in E. set (e := crypto_x25519_public_key (clamp_key rnd)) in E.
  assert (hs_equiv s0' s0) as Q0 by done.
  assert (hs_equiv (mix_kdf1 (wg_mix_hash s0' e) e) (mix_kdf1 (wg_mix_hash s0 e) e)) as Q2 by (by rewrite Q0).
  assert (hs_ok (mix_kdf1 (wg_mix_hash s0' e) e)) as O2 by apply mix_kdf1_ok, mix_hash_ok, (init_state_ok zero_hs (static_public B)).
  rewrite eph_mix_kdf1, eph_mix_hash in E. change (ephemeral_private s0') with (clamp_key rnd) in E.
  destruct (kdf2_pair _ _ (crypto_x25519 (clamp_key rnd) (static_public B)) (crypto_x25519 (static_private B) e) Q2)
    as (s3 & t3 & k3 & R1 & R2 & Q3 & O3 & K3 & _); [by rewrite PB; apply x25519_shared|done|].
  rewrite R1 in E. destruct (clock_realtime w2) as [[sec nsec] w3].
  destruct (sealed_opens k3 (static_public A) (hs_hash s3)) as (D1 & _ & _); [done|apply key_text, O3|done|lia|].
  set (es := sealed _) in *.
  assert (hs_equiv (wg_mix_hash s3 es) (wg_mix_hash t3 es)) as Q4 by (by rewrite Q3).
  destruct (kdf2_pair _ _ (crypto_x25519 (static_private A) (static_public B)) (crypto_x25519 (static_private B) (static_public A)) Q4)
    as (s5 & t5 & k5 & R3 & R4 & Q5 & O5 & K5 & _); [by rewrite PA, PB; apply x25519_shared|by apply mix_hash_ok|].
  rewrite R3 in E. destruct (timestamp_ok sec nsec) as [Bt Lt].
  destruct (sealed_opens k5 (wg_timestamp sec nsec) (hs_hash s5)) as (D2 & _ & _); [done|apply key_text, O5|done|lia|].
  set (et := sealed _) in *. injection E as <- <- <-.
  cbn -[crypto_x25519]. fold e. rewrite R2. destruct Q3 as [Q3 Q3']. rewrite <- Q3, D1, R4.
  destruct Q5 as [Q5 Q5']. rewrite <- Q5, D2. eexists. split; [done|]. apply mix_hash_proper; [by split|done].
Qed.

(** ** Agreement *)

(** Two sessions that carry each other's traffic. *)
Record paired (a b : WgSession) : Prop := {
  pr_to : sending_key a = receiving_key b;
  pr_from : receiving_key a = sending_key b;
  pr_remote : remote_index a = local_index b;
  pr_local : local_index a = remote_index b;
  pr_valid : valid a = true /\ valid b = true;
  pr_counters : sending_counter a = 0 /\ sending_counter b = 0;
  pr_replay : replay a = zero_replay /\ replay b = zero_replay;
  pr_idle : rekey_in_progress a = false /\ rekey_in_progress b = false
}.

(** Where the responder keeps the session. *)
Definition target_session (tun : WgTunnel) (peer : option nat) : WgSession :=
  match peer with Some i => p_session (get_peer tun i) | None => session tun end.

Lemma get_upd_peer tun i f : (i < length (peers tun))%nat -> get_peer (upd_peer tun i f) i = f (get_peer tun i).
Proof.
  intros Hi. unfold get_peer, upd_peer. cbn. rewrite list_lookup_alter, decide_True by done.
  destruct (lookup_lt_is_Some_2 _ _ Hi) as [p Hp]. by rewrite Hp.
Qed.

Lemma first_peer_lt f tun i : first_peer f tun = Some i -> (i < length (peers tun))%nat.
Proof.
  unfold first_peer. intros ([j p] & Hf & ->)%fmap_Some. apply list_find_Some in Hf as (Hl & _).
  apply lookup_lt_Some in Hl. rewrite length_take in Hl. cbn. lia.
Qed.

(** An initiation leaves the message of [build_init] with some second MAC, and
    changes only the indices, the flag and the cookie. *)
Lemma handshake_init_shape A w :
  length (cookie A) = 16%nat ->
  exists msg st A1 w1 w2 m2,
    build_init A (peer_public A) w = (msg, st, w1) /\ length m2 = 16%nat /\
    wg_handshake_init A w = (WG_OK, A1, msg <| i_mac2 := m2 |>, st, w2) /\
    local_index (session A1) = i_sender_index msg /\ static_private A1 = static_private A /\ psk_of A1 = psk_of A.
Proof.
  intros Hc. unfold wg_handshake_init. destruct (build_init A (peer_public A) w) as [[msg st] w1].
  destruct (wg_time_now w1) as [now w2]. cbn [cookie has_cookie cookie_timestamp].
  match goal with |- context [if ?b then _ else _] => destruct b end.
  - exists msg, st. do 4 eexists. split; [done|]. split; [|split; [reflexivity|done]].
    rewrite wg_mac_eq; [|cbn; lia]. apply (digest_ok (param_h0 16 _) _ 16). lia.
  - exists msg, st. match goal with |- context [if ?b then _ else _] => destruct b end;
      (do 4 eexists; split; [done|]; split; [|split; [reflexivity|done]]; by rewrite length_replicate).
Qed.


Lemma psk_keep tun x y : psk_of ((tun <| last_mac1 := x |>) <| peer_public := y |>) = psk_of tun.
Proof. reflexivity. Qed.

(** The initiator recovers the responder's keys from the response. *)
Lemma respond_agrees `{!PlatformLaws _} `{!X25519Laws _} A B m st st' w :
  i_type m = WG_MSG_HANDSHAKE_INIT ->
  i_mac1 m = wg_compute_mac1 (static_public B) (take (148 - 2 * 16) (init_bytes m)) ->
  is_u32 (i_sender_index m) -> hs_ok st ->
  key_ok (static_private A) -> key_ok (ephemeral_private st) -> i_ephemeral m = crypto_x25519_public_key (ephemeral_private st) ->
  consume_init B m = (WG_OK, Some (crypto_x25519_public_key (static_private A), st')) -> hs_equiv st st' ->
  psk_of A = psk_of B ->
  exists resp peer B1 w1 stA k1 k2, respond B m w = (WG_OK, Some (resp, peer), B1, w1) /\
    response_ok resp /\ r_type resp = WG_MSG_HANDSHAKE_RESPONSE /\ r_receiver_index resp = i_sender_index m /\
    consume_response A resp st = (true, stA) /\ wg_kdf2 (chaining_key stA) [] = (k1, k2) /\
    let s := target_session B1 peer in
    sending_key s = k2 /\ receiving_key s = k1 /\ local_index s = r_sender_index resp /\
    remote_index s = i_sender_index m /\ valid s = true /\ sending_counter s = 0 /\ replay s = zero_replay /\
    rekey_in_progress s = false.
Proof.
  intros Ht Hm Hi Ho KA Ke He Hc Hq Hp. unfold respond. rewrite Ht. change (WG_MSG_HANDSHAKE_INIT =? WG_MSG_HANDSHAKE_INIT) with true.
  rewrite <- Hm. rewrite bool_decide_true by done. cbn [negb].
  change (consume_init (B <| last_mac1 := i_mac1 m |>) m) with (consume_init B m). rewrite Hc. cbv beta zeta iota.
  set (pubA := crypto_x25519_public_key (static_private A)) in *.
  set (B0 := B <| last_mac1 := i_mac1 m |>). set (peer := wg_find_peer_by_public_key B0 pubA).
  set (B1 := match peer with Some _ => B0 | None => _ end).
  assert (psk_of B1 = psk_of B) as HpB by (unfold B1; by destruct peer).
  assert (peers B1 = peers B0) as Hpr by (unfold B1; by destruct peer).
  clearbody B1. pose proof (random_index_u32 w) as Hsi. destruct (wg_random_index w) as [si w1]. cbn [fst] in Hsi.
  pose proof (clamp_random_ok 32 w1 eq_refl) as Hrk.
  destruct (randomGet 32 w1) as [rnd w2]. cbn [fst] in Hrk. set (ep := clamp_key rnd). set (e := crypto_x25519_public_key ep).
  assert (crypto_x25519 ep (i_ephemeral m) = crypto_x25519 (ephemeral_private st) e) as -> by (rewrite He; by apply x25519_shared).
  assert (crypto_x25519 ep pubA = crypto_x25519 (static_private A) e) as -> by (by apply x25519_shared).
  set (mix s := mix_kdf1 (mix_kdf1 (mix_kdf1 (wg_mix_hash s e) e) (crypto_x25519 (ephemeral_private st) e))
                  (crypto_x25519 (static_private A) e)).
  assert (hs_equiv (mix st) (mix st')) as Q2.
  { unfold mix. generalize (ephemeral_private st). intros k. by rewrite Hq. }
  assert (hs_ok (mix st)) as O2 by (by apply mix_kdf1_ok, mix_kdf1_ok, mix_kdf1_ok, mix_hash_ok).
  destruct (psk_pair A B1 (mix st) (mix st')) as (s3 & t3 & k & R1 & R2 & [Q3 Q3'] & O3 & K3); [by rewrite HpB|done|done|].
  fold (mix st'). rewrite R2. rewrite <- Q3.
  destruct (sealed_opens k [] (hs_hash s3)) as (D & L & _); [done|apply key_text, O3|constructor|simpl; lia|].
  set (en := sealed _) in *.
  assert (chaining_key (wg_mix_hash t3 en) = chaining_key s3) as -> by (by rewrite Q3').
  destruct (wg_kdf2 (chaining_key s3) []) as [k1 k2] eqn:Ek. destruct (wg_time_now w2) as [now w3].
  set (resp := _ <| r_mac1 := _ |>).
  assert (response_ok resp) as Hr.
  { destruct (public_key_ok ep). split; cbn -[wg_compute_mac1]; try done. apply mac1_length. }
  assert (consume_response A resp st = (true, wg_mix_hash s3 en)) as Hcr.
  { unfold consume_response. change (r_ephemeral resp) with e. change (r_encrypted_nothing resp) with en.
    rewrite !eph_mix_kdf1, eph_mix_hash. fold (mix st). by rewrite R1, D. }
  assert (r_type resp = WG_MSG_HANDSHAKE_RESPONSE /\ r_receiver_index resp = i_sender_index m /\ r_sender_index resp = si)
    as (T1 & T2 & T3) by done.
  clearbody resp.
  assert (wg_kdf2 (chaining_key (wg_mix_hash s3 en)) [] = (k1, k2)) as Hk by exact Ek.
  destruct peer as [i|] eqn:Epeer.
  - pose proof (first_peer_lt _ _ _ Epeer) as Hlt.
    eexists resp, (Some i), _, _, _, k1, k2. split; [reflexivity|]. do 5 (split; [done|]). unfold target_session. cbv zeta.
    rewrite get_upd_peer by (cbn; by rewrite Hpr).
    match goal with |- context [get_peer ?t i] => set (p := get_peer t i) end.
    rewrite T3. by destruct (valid (p_session p)).
  - eexists resp, None, _, _, _, k1, k2. split; [reflexivity|]. do 5 (split; [done|]). unfold target_session. cbv zeta.
    rewrite T3. match goal with |- context [if ?b then _ else _] => by destruct b end.
Qed.

(** What both ends must share before they talk: key pairs of 32 bytes that fit, the
    responder's key at the initiator and the same pre-shared key. *)
Record acquainted (A B : WgTunnel) : Prop := {
  aq_A : static_public A = crypto_x25519_public_key (static_private A);
  aq_B : static_public B = crypto_x25519_public_key (static_private B);
  aq_priv_A : key_ok (static_private A);
  aq_priv_B : key_ok (static_private B);
  aq_peer : peer_public A = static_public B;
  aq_psk : psk_of A = psk_of B;
  aq_cookie : length (cookie A) = 16%nat
}.

Lemma response_completes A msg st stA k1 k2 w :
  r_type msg = WG_MSG_HANDSHAKE_RESPONSE -> r_receiver_index msg = local_index (session A) ->
  consume_response A msg st = (true, stA) -> wg_kdf2 (chaining_key stA) [] = (k1, k2) ->
  exists A2 w2, wg_handshake_response A msg st w = (WG_OK, A2, zero_hs, w2) /\
    let s := session A2 in
    sending_key s = k1 /\ receiving_key s = k2 /\ local_index s = local_index (session A) /\
    remote_index s = r_sender_index msg /\ valid s = true /\ sending_counter s = 0 /\ replay s = zero_replay /\
    rekey_in_progress s = false.
Proof.
  intros Ht Hi Hc Hk. unfold wg_handshake_response. rewrite Ht, Hi, !Z.eqb_refl. cbn [negb].
  change (consume_response (A <| session := _ |>) msg st) with (consume_response A msg st). rewrite Hc, Hk. cbn [negb].
  destruct (wg_time_now w) as [now w2]. eexists _, w2. split; [reflexivity|].
  match goal with |- context [if ?b then _ else _] => by destruct b end.
Qed.

End lemmas.

Section agreement.
Context `{NeonBuild} `{Scratch} `{X25519} `{!X25519Laws _} (PA PB : Platform) `{!PlatformLaws PA} `{!PlatformLaws PB}.

(** The initiator may go on from any tunnel with the same keys and session. *)
Lemma handshake_agrees_later A B wa wb :
  acquainted A B ->
  exists A1 msg st wa1 resp peer B1 wb1,
    wg_handshake_init (H1 := PA) A wa = (WG_OK, A1, msg, st, wa1) /\
    respond (H1 := PB) B (init_of_bytes (init_bytes msg)) wb = (WG_OK, Some (resp, peer), B1, wb1) /\
    rd (response_bytes resp) 0 = WG_MSG_HANDSHAKE_RESPONSE /\
    forall A1' wa', session A1' = session A1 -> static_private A1' = static_private A1 -> psk_of A1' = psk_of A1 ->
    exists A2 st' wa2,
      wg_handshake_response (H1 := PA) A1' (response_of_bytes (response_bytes resp)) st wa' = (WG_OK, A2, st', wa2) /\
      paired (session A2) (target_session B1 peer).
Proof.
  intros [QA QB KA KB Hpub Hpsk Hck].
  destruct (handshake_init_shape A wa Hck) as (msg & st & A1 & w1 & w2 & m2 & Hb & Hl & Hh & Hi & Hs & Hp).
  rewrite Hpub in Hb. assert (key_ok (static_public A)) as Hok by (rewrite QA; apply public_key_ok).
  destruct (build_init_ok _ _ _ _ _ _ Hok Hb) as (Ho & Ke & He & Ht & Hio & Hm).
  destruct (consume_build A B wa msg st w1 (msg <| i_mac2 := m2 |>) Hok KA KB QA QB Hb eq_refl eq_refl eq_refl) as (st' & Hc & Hq).
  pose proof (Hio m2 Hl) as Hio2. destruct (init_of_init_bytes _ Hio2) as [Hrt _].
  destruct (respond_agrees A1 B (msg <| i_mac2 := m2 |>) st st' wb) as (resp & peer & B1 & w3 & stA & k1 & k2 & Hr & Hro & R1 & R2 & Hcr & Hk & S);
    [done|exact (Hm m2)|apply Hio2|done|by rewrite Hs|done|exact He|by rewrite Hs, <- QA|done|by rewrite Hp|].
  destruct (response_of_response_bytes _ Hro) as [Hrr _].
  exists A1, (msg <| i_mac2 := m2 |>), st, w2, resp, peer, B1, w3. rewrite Hrt, Hrr. split_and!; try done.
  intros A1' wa' Hse Hst Hps.
  assert (consume_response A1' resp st = (true, stA)) as Hcr'.
  { rewrite <- Hcr. unfold consume_response, mix_psk. fold (psk_of A1') (psk_of A1). by rewrite Hst, Hps. }
  destruct (response_completes A1' resp st stA k1 k2 wa') as (A2 & w4 & Hresp & S'); [done|by rewrite R2, Hse, Hi|done|done|].
  exists A2, zero_hs, w4. split; [done|]. cbv zeta in S, S'. destruct S as (?&?&?&?&?&?&?&?), S' as (?&?&?&?&?&?&?&?).
  change (i_sender_index (msg <| i_mac2 := m2 |>)) with (i_sender_index msg) in *.
  split; try (split; done); congruence.
Qed.

Lemma handshake_agrees A B wa wb wa' :
  acquainted A B ->
  exists A1 msg st wa1 resp peer B1 wb1 A2 st' wa2,
    wg_handshake_init (H1 := PA) A wa = (WG_OK, A1, msg, st, wa1) /\
    respond (H1 := PB) B (init_of_bytes (init_bytes msg)) wb = (WG_OK, Some (resp, peer), B1, wb1) /\
    wg_handshake_response (H1 := PA) A1 (response_of_bytes (response_bytes resp)) st wa' = (WG_OK, A2, st', wa2) /\
    paired (session A2) (target_session B1 peer).
Proof.
  intros HA. destruct (handshake_agrees_later A B wa wb HA) as (A1 & msg & st & wa1 & resp & peer & B1 & wb1 & E1 & E2 & _ & E3).
  destruct (E3 A1 wa' eq_refl eq_refl eq_refl) as (A2 & st' & wa2 & E4 & Hp).
  exists A1, msg, st, wa1, resp, peer, B1, wb1, A2, st', wa2. done.
Qed.

(** C1. Agreement of the handshake: an initiator and a responder that know each
    other's keys and run [wg_handshake_init], the passive responder on the bytes
    it received, and [wg_handshake_response] on the bytes of its answer, all
    succeed and end with paired sessions: each side's sending key is the other's
    receiving key, the indices cross, and both replay windows are empty.  This
    holds for every random source, clock and peer table, with a session of the
    peer table or with the tunnel's own. *)
Theorem handshake_agreement A B wa wb wa' :
  acquainted A B ->
  exists A1 msg st wa1 resp peer B1 wb1 A2 st' wa2,
    wg_handshake_init (H1 := PA) A wa = (WG_OK, A1, msg, st, wa1) /\
    respond (H1 := PB) B (init_of_bytes (init_bytes msg)) wb = (WG_OK, Some (resp, peer), B1, wb1) /\
    wg_handshake_response (H1 := PA) A1 (response_of_bytes (response_bytes resp)) st wa' = (WG_OK, A2, st', wa2) /\
    paired (session A2) (target_session B1 peer).
Proof. apply handshake_agrees. Qed.
End agreement.

Definition demo_tunnel (priv peer : list Z) : WgTunnel :=
  zero_tunnel <| static_private := priv |> <| static_public := @crypto_x25519_public_key demo_x25519 priv |>
    <| peer_public := @crypto_x25519_public_key demo_x25519 peer |> <| socket_fd := 0 |>.

Lemma handshake_agreement_witness :
  let A := demo_tunnel (replicate 32 3) (replicate 32 5) in
  let B := demo_tunnel (replicate 32 5) (replicate 32 3) in
  @acquainted demo_x25519 A B /\
  exists A1 msg st wa1 resp peer B1 wb1 A2 st' wa2,
    @wg_handshake_init true demo_scratch demo_platform demo_x25519 A (mkDemo 0 []) = (WG_OK, A1, msg, st, wa1) /\
    @respond true demo_scratch demo_platform demo_x25519 B (init_of_bytes (init_bytes msg)) (mkDemo 9 []) =
      (WG_OK, Some (resp, peer), B1, wb1) /\
    @wg_handshake_response true demo_scratch demo_platform demo_x25519 A1 (response_of_bytes (response_bytes resp)) st
      (mkDemo 20 []) = (WG_OK, A2, st', wa2) /\
    paired (session A2) (target_session B1 peer).
Proof.
  intros A B. assert (@acquainted demo_x25519 A B) as HA by (split; try reflexivity; apply (bool_decide_unpack _); vm_compute; exact I). split; [exact HA|].
  exact (@handshake_agreement true demo_scratch demo_x25519 demo_x25519_laws demo_platform demo_platform (demo_net_laws _) (demo_net_laws _)
    A B _ _ _ HA).
Defined.

(** ** Failures *)

Section failures.
Context `{NeonBuild} `{Scratch} `{Platform} `{X25519}.
#[local] Opaque wg_mix_hash mix_kdf1 mix_kdf2 mix_psk wg_aead_encrypt wg_aead_decrypt wg_compute_mac1 wg_kdf2
  wg_handshake_init_state crypto_x25519_public_key clamp_key wg_timestamp.

Lemma consume_init_result tun msg :
  (exists r, consume_init tun msg = (WG_OK, Some r)) \/ consume_init tun msg = (WG_ERR_DECRYPT, None).
Proof.
  unfold consume_init. destruct (mix_kdf2 _ _) as [s k]. destruct (wg_aead_decrypt _ _ _ _) as [[|r|r] [d|]]; auto.
  destruct (mix_kdf2 _ _) as [s' k']. destruct (wg_aead_decrypt _ _ _ _) as [[|r|r] [d'|]]; eauto.
Qed.

(** The three ways a responder ends. *)
Lemma respond_result tun msg w :
  let mac1_ok := wg_compute_mac1 (static_public tun) (take (148 - 2 * 16) (init_bytes msg)) = i_mac1 msg in
  (i_type msg = WG_MSG_HANDSHAKE_INIT /\ mac1_ok /\ (exists r, consume_init tun msg = (WG_OK, Some r)) /\
    exists r tun' w', respond tun msg w = (WG_OK, Some r, tun', w')) \/
  (respond tun msg w = (WG_ERR_HANDSHAKE, None, tun, w) /\ (i_type msg <> WG_MSG_HANDSHAKE_INIT \/ ~ mac1_ok)) \/
  (respond tun msg w = (WG_ERR_DECRYPT, None, tun <| last_mac1 := i_mac1 msg |>, w) /\
    consume_init tun msg = (WG_ERR_DECRYPT, None)).
Proof.
  cbv zeta. unfold respond. destruct (Z.eqb_spec (i_type msg) WG_MSG_HANDSHAKE_INIT) as [Et|Et]; cbn [negb]; [|auto].
  destruct (bool_decide_reflect (wg_compute_mac1 (static_public tun) (take (148 - 2 * 16) (init_bytes msg)) = i_mac1 msg))
    as [Em|Em]; cbn [negb]; [|auto].
  change (consume_init (tun <| last_mac1 := i_mac1 msg |>) msg) with (consume_init tun msg).
  destruct (consume_init_result tun msg) as [[[ds st] Hc]|Hc]; rewrite Hc; [|auto].
  left. split; [done|]. split; [done|]. split; [eauto|].
  destruct (wg_random_index w) as [si w1]. destruct (randomGet 32 w1) as [rnd w2]. destruct (mix_psk _ _) as [s k].
  destruct (wg_kdf2 _ _) as [k1 k2]. destruct (wg_time_now w2) as [now w3].
  destruct (wg_find_peer_by_public_key _ _) as [i|]; eauto.
Qed.

Lemma process_refused tun msg w :
  wg_compute_mac1 (static_public tun) (take (148 - 2 * 16) (init_bytes msg)) <> i_mac1 msg ->
  wg_handshake_init_process tun msg w = (WG_ERR_HANDSHAKE, tun, w).
Proof.
  intros Hm. unfold wg_handshake_init_process, respond. destruct (negb _); [done|]. by rewrite bool_decide_false.
Qed.

(** C38. A handshake initiation that is refused has no effect but the record of
    its MAC: nothing is sent, no random number is drawn, and the sessions, the
    peers and the keys of the tunnel stay as they are.  A wrong type or a wrong
    first MAC gives [WG_ERR_HANDSHAKE] and not even that record. *)
Theorem init_refused_safe tun msg w err tun' w' :
  wg_handshake_init_process tun msg w = (err, tun', w') -> err <> WG_OK ->
  w' = w /\
  (err = WG_ERR_HANDSHAKE /\ tun' = tun \/ err = WG_ERR_DECRYPT /\ tun' = tun <| last_mac1 := i_mac1 msg |>).
Proof.
  unfold wg_handshake_init_process. intros E Herr.
  destruct (respond_result tun msg w) as [(_ & _ & _ & [resp peer] & t & u & Hr)|[[Hr _]|[Hr _]]]; rewrite Hr in E.
  - destruct peer as [i|]; [destruct (wg_socket_send_to _ _ _ _)|destruct (wg_socket_send _ _ _)]; injection E as <- <- <-; done.
  - injection E as <- <- <-. auto.
  - injection E as <- <- <-. auto.
Qed.

(** The timestamp of an initiation is decrypted and dropped: whether an
    initiation is accepted depends only on the responder's key pair and the
    message, so a recorded initiation is accepted again in every later state of
    the tunnel and replaces the session its peer has. *)
Theorem init_replay_accepted tun msg w tun2 w2 :
  (wg_handshake_init_process tun msg w).1.1 = WG_OK ->
  static_private tun2 = static_private tun -> static_public tun2 = static_public tun ->
  (wg_handshake_init_process tun2 msg w2).1.1 = WG_OK.
Proof.
  intros E K1 K2. assert (forall t u, (wg_handshake_init_process t msg u).1.1 = (respond t msg u).1.1.1) as Hp.
  { intros t u. unfold wg_handshake_init_process. destruct (respond t msg u) as [[[e [[resp [i|]]|]] t'] u']; [| |done];
      [destruct (wg_socket_send_to _ _ _ _)|destruct (wg_socket_send _ _ _)]; done. }
  rewrite Hp in *. destruct (respond_result tun msg w) as [(Ht & Hm & Hc & _)|[[Hr _]|[Hr _]]]; [|by rewrite Hr in E..].
  assert (consume_init tun2 msg = consume_init tun msg) as Hcc by (unfold consume_init; by rewrite K1, K2).
  destruct (respond_result tun2 msg w2) as [(_ & _ & _ & r & t & u & Hr)|[[Hr Hx]|[Hr Hx]]]; [by rewrite Hr| |].
  - rewrite K2 in Hx. tauto.
  - rewrite Hcc in Hx. destruct Hc as [? Hc]. congruence.
Qed.
End failures.

(** The handshakes of the witnesses, in the vector build. *)
Definition demo_A : WgTunnel := demo_tunnel (replicate 32 3) (replicate 32 5).
Definition demo_B : WgTunnel := demo_tunnel (replicate 32 5) (replicate 32 3).
Definition demo_init (w : demo_world) : WgHandshakeInit :=
  (@wg_handshake_init true demo_scratch demo_platform demo_x25519 demo_A w).1.1.2.
#[local] Abbreviation demo_process := (@wg_handshake_init_process true demo_scratch demo_platform demo_x25519).

(** An initiation with the right first MAC whose contents do not decrypt. *)
Definition forged_init : WgHandshakeInit :=
  let msg := mkInit WG_MSG_HANDSHAKE_INIT [0; 0; 0] 1 (replicate 32 1) (replicate 48 2) (replicate 28 3) (replicate 16 0) (replicate 16 0) in
  msg <| i_mac1 := @wg_compute_mac1 true (static_public demo_B) (take (148 - 2 * 16) (init_bytes msg)) |>.

Lemma forged_refused : (demo_process demo_B forged_init (mkDemo 9 [])).1.1 = WG_ERR_DECRYPT.
Proof. vm_compute. reflexivity. Qed.

Lemma init_refused_safe_witness :
  demo_process demo_B forged_init (mkDemo 9 []) =
    (WG_ERR_DECRYPT, demo_B <| last_mac1 := i_mac1 forged_init |>, mkDemo 9 []).
Proof.
  pose proof forged_refused as Hr. destruct (demo_process demo_B forged_init (mkDemo 9 [])) as [[err tun'] w'] eqn:E.
  cbn [fst] in Hr. subst err.
  destruct (@init_refused_safe true demo_scratch demo_platform demo_x25519 demo_B forged_init (mkDemo 9 []) WG_ERR_DECRYPT tun' w' E)
    as [-> [[Hx _]|[_ ->]]]; [discriminate|discriminate Hx|reflexivity].
Defined.

(** The responder accepts the initiation of [demo_A]. *)
Lemma demo_accepts wa wb : exists tun' w', demo_process demo_B (init_of_bytes (init_bytes (demo_init wa))) wb = (WG_OK, tun', w').
Proof.
  assert (@acquainted demo_x25519 demo_A demo_B) as HA by (split; try reflexivity; apply (bool_decide_unpack _); vm_compute; exact I).
  destruct (@handshake_agrees true demo_scratch demo_x25519 demo_x25519_laws demo_platform demo_platform (demo_net_laws _) (demo_net_laws _)
    demo_A demo_B wa wb wa HA) as (A1 & msg & st & wa1 & resp & peer & B1 & wb1 & A2 & st' & wa2 & E1 & E2 & _).
  unfold demo_init. rewrite E1. cbn [fst snd]. unfold wg_handshake_init_process. rewrite E2.
  destruct peer as [i|]; [destruct (wg_socket_send_to _ _ _ _)|destruct (wg_socket_send _ _ _)]; eauto.
Qed.

Lemma init_replay_accepted_witness :
  let msg := init_of_bytes (init_bytes (demo_init (mkDemo 0 []))) in
  let tun2 := demo_B <| has_psk := true |> <| peer_count := 1 |> in
  (demo_process tun2 msg (mkDemo 50 [])).1.1 = WG_OK.
Proof.
  intros msg tun2. destruct (demo_accepts (mkDemo 0 []) (mkDemo 9 [])) as (t & w & E).
  apply (@init_replay_accepted true demo_scratch demo_platform demo_x25519 demo_B msg (mkDemo 9 []) tun2 (mkDemo 50 [])).
  - exact (f_equal (fun r => r.1.1) E).
  - reflexivity.
  - reflexivity.
Defined.
