(* ===== verification/Cookie.v ===== *)
(** * Cookie replies (src/wg_noise.c)

    XChaCha20-Poly1305 as the draft of the CFRG defines it, the messages
    [wg_xaead_decrypt] accepts, and what a cookie reply does to the tunnel and to the
    initiation sent after it. *)

From S2P Require Import Prelude Neon Blake2s ChaCha20 Poly1305 Monocypher Aead Crypto Tunnel Platform Noise.

(** ** draft-irtf-cfrg-xchacha, sections 2.2 and 2.3 *)

(** The first and the last row of the state after the rounds, without the final
    addition; the 16 bytes of the nonce fill the last row. *)
Definition hchacha20 (key nonce : list Z) : list Z :=
  let state := chacha_state key (drop 4 nonce) (load32_le nonce 0) in
  let working := fold_left (fun s _ => inner_block s) (seq 0 10) state in
  concat (map (le_bytes 4) (take 4 working ++ drop 12 working)).

(** The AEAD of RFC 8439 under the derived key and the last eight bytes. *)
Definition xnonce (nonce : list Z) : list Z := replicate 4 0 ++ drop 16 nonce.
Definition xseal (key nonce ad plaintext : list Z) : list Z :=
  aead_encrypt_rfc (hchacha20 key (take 16 nonce)) (xnonce nonce) ad plaintext.

Definition xnonce_ok (nonce : list Z) : Prop := is_bytes nonce /\ length nonce = 24%nat.

#[global] Instance xnonce_ok_dec n : Decision (xnonce_ok n).
Proof. unfold xnonce_ok; apply _. Defined.

#[local] Opaque inner_block chacha20_rounds.

Lemma state_words key nonce c :
  is_bytes key -> is_bytes nonce -> is_u32 c -> words (chacha_state key nonce c).
Proof.
  intros Hk Hn Hc. split; [done|]. unfold chacha_state. repeat constructor; try apply load32_le_range; try done;
    unfold is_u32 in *; lia.
Qed.

Lemma h_state key nonce :
  xnonce_ok nonce ->
  load32_le_buf chacha20_constant 0 4 ++ load32_le_buf key 0 8 ++ load32_le_buf nonce 0 4
  = chacha_state key (drop 4 (take 16 nonce)) (load32_le (take 16 nonce) 0).
Proof.
  intros [_ Hl]. do 24 (destruct nonce as [|? nonce]; [discriminate|]). destruct nonce; [|discriminate]. reflexivity.
Qed.

(** The key derivation of Monocypher is that of the draft. *)
Lemma chacha20_h_draft key nonce :
  is_bytes key -> xnonce_ok nonce -> crypto_chacha20_h key nonce = hchacha20 key (take 16 nonce).
Proof.
  intros Hk Hn. unfold crypto_chacha20_h, hchacha20. rewrite h_state by done.
  assert (is_bytes (take 16 nonce)) as Hb by apply is_bytes_take, Hn.
  destruct (chacha20_rounds_rfc (chacha_state key (drop 4 (take 16 nonce)) (load32_le (take 16 nonce) 0))) as [_ E].
  { apply state_words; [done|by apply is_bytes_drop|by apply load32_le_range]. }
  rewrite E, !store32_le_buf_le, map_app, concat_app. reflexivity.
Qed.

Lemma length_inner_rounds_state key nonce c :
  length (fold_left (fun s _ => inner_block s) (seq 0 10) (chacha_state key nonce c)) = 16%nat.
Proof. by apply length_inner_rounds. Qed.

Lemma hchacha20_ok key nonce : key_ok (hchacha20 key nonce).
Proof.
  unfold hchacha20. split; [apply is_bytes_concat_le4|]. rewrite length_concat_le4, length_app, length_take, length_drop.
  by rewrite length_inner_rounds_state.
Qed.

Lemma xnonce_bytes nonce : xnonce_ok nonce -> is_bytes (xnonce nonce) /\ length (xnonce nonce) = 12%nat.
Proof.
  intros [Hb Hl]. unfold xnonce. split; [apply is_bytes_app; [by apply is_bytes_replicate|by apply is_bytes_drop]|].
  rewrite length_app, length_drop, Hl. done.
Qed.

Lemma xnonce_word nonce : load32_le (xnonce nonce) 0 = 0.
Proof. unfold xnonce. rewrite load32_le_app by (simpl; lia). reflexivity. Qed.

Lemma xnonce_tail nonce : xnonce_ok nonce -> take 8 (drop 16 nonce) = take 8 (drop 4 (xnonce nonce)).
Proof. intros _. unfold xnonce. rewrite drop_app_length' by done. reflexivity. Qed.

#[local] Opaque chacha20_block_rfc chacha20_rfc poly1305_rfc crypto_chacha20_djb lock_auth hchacha20.

(** ** The functions of Monocypher *)

Section xaead.
Context `{NeonBuild} `{Scratch}.

Lemma x_block key nonce :
  xnonce_ok nonce -> key_ok key ->
  (crypto_chacha20_djb None 64 key (take 8 (drop 16 nonce)) 0).1 = chacha20_block_rfc key (xnonce nonce) 0.
Proof.
  intros Hn [Hk _]. destruct (xnonce_bytes nonce Hn). rewrite xnonce_tail by done.
  rewrite <- chacha20_djb_block by (done || lia). by rewrite xnonce_word.
Qed.

Lemma x_text key nonce text :
  xnonce_ok nonce -> key_ok key -> text_ok text ->
  (crypto_chacha20_djb (Some text) (length text) key (take 8 (drop 16 nonce)) 1).1 = chacha20_rfc text key (xnonce nonce) 1.
Proof.
  intros Hn [Hk _] [Ht Hl]. destruct (xnonce_bytes nonce Hn). rewrite xnonce_tail by done.
  assert (Z.of_nat (length text / 64) < 2 ^ 31) by (pose proof (Nat.div_mod_eq (length text) 64); lia).
  rewrite <- chacha20_djb_rfc by (done || lia). by rewrite xnonce_word.
Qed.

(** Sealing with [crypto_aead_write]: the cipher text followed by the tag. *)
Lemma aead_write_x key nonce ad p :
  key_ok key -> xnonce_ok nonce -> text_ok ad -> text_ok p ->
  let '(_, cipher_text, mac) := crypto_aead_write scratch (crypto_aead_init_x key nonce) ad p in
  cipher_text ++ mac = xseal key nonce ad p /\ length cipher_text = length p.
Proof.
  intros [Hk _] Hn [Ha Hal] Hp. unfold crypto_aead_write, crypto_aead_init_x, xseal, aead_encrypt_rfc, aead_tag_rfc.
  cbn [ae_key ae_nonce ae_counter]. rewrite chacha20_h_draft by done.
  pose proof (hchacha20_ok key (take 16 nonce)) as Hh. set (sub := hchacha20 _ _) in *.
  destruct (text_ok_chacha sub (xnonce nonce) 1 p Hp).
  rewrite x_block by done. change (add64 0 1) with 1. rewrite x_text by done.
  rewrite lock_auth_rfc by (done || lia || apply otk_ok). split; [done|apply length_chacha20_rfc].
Qed.

Lemma xaead_open key nonce c ad :
  key_ok key -> xnonce_ok nonce -> text_ok c -> text_ok ad -> (16 <= length c)%nat ->
  let ct := take (length c - 16) c in
  let sub := hchacha20 key (take 16 nonce) in
  wg_xaead_decrypt key nonce c ad =
  if decide (drop (length c - 16) c = aead_tag_rfc sub (xnonce nonce) ad ct)
  then (0, Some (chacha20_rfc ct sub (xnonce nonce) 1)) else (-1, None).
Proof.
  intros [Hk _] Hn [Hc Hcl] [Ha Hal] H16 ct sub. pose proof (hchacha20_ok key (take 16 nonce)) as Hh. fold sub in Hh.
  assert (text_ok ct) as [Ht Htl] by (split; [unfold ct; auto with wg_range|unfold ct; rewrite length_take; lia]).
  unfold wg_xaead_decrypt, WG_AEAD_TAG_LEN. destruct (Z.ltb_spec (Z.of_nat (length c)) 16); [lia|].
  fold ct. set (mac := drop (length c - 16) c).
  assert (is_bytes mac) as Hm by (unfold mac; auto with wg_range).
  assert (length mac = 16%nat) as Hml by (unfold mac; rewrite length_drop; lia).
  unfold crypto_aead_init_x, crypto_aead_read. cbn [ae_key ae_nonce ae_counter].
  rewrite chacha20_h_draft by done. fold sub. rewrite x_block by done. change (add64 0 1) with 1.
  rewrite x_text by done. rewrite lock_auth_rfc by (done || lia || apply otk_ok).
  rewrite crypto_verify16_spec by (done || apply is_bytes_poly1305_rfc || apply length_poly1305_rfc).
  unfold aead_tag_rfc. destruct (decide _); done.
Qed.

Lemma length_xseal key nonce ad p : length (xseal key nonce ad p) = (length p + 16)%nat.
Proof.
  unfold xseal, aead_encrypt_rfc, aead_tag_rfc. by rewrite length_app, length_chacha20_rfc, length_poly1305_rfc.
Qed.

Lemma is_bytes_xseal key nonce ad p : is_bytes p -> is_bytes (xseal key nonce ad p).
Proof. intros Hp. apply is_bytes_app; [by apply is_bytes_chacha20_rfc|apply is_bytes_poly1305_rfc]. Qed.

(** Exactly the sealed messages are opened. *)
Lemma xaead_exact key nonce c ad :
  key_ok key -> xnonce_ok nonce -> text_ok c -> text_ok ad ->
  (exists p, wg_xaead_decrypt key nonce c ad = (0, Some p) /\ c = xseal key nonce ad p) \/
  (wg_xaead_decrypt key nonce c ad = (-1, None) /\ forall p, c <> xseal key nonce ad p).
Proof.
  intros Hk Hn Hc Ha. destruct (decide (16 <= length c)%nat) as [H16|H16].
  2: { right. split; [|intros p ->; apply H16; rewrite length_xseal; lia].
    unfold wg_xaead_decrypt, WG_AEAD_TAG_LEN. by destruct (Z.ltb_spec (Z.of_nat (length c)) 16); [|lia]. }
  rewrite xaead_open by done. cbv zeta. set (sub := hchacha20 _ _). destruct (decide _) as [E|E].
  - left. eexists. split; [done|]. unfold xseal, aead_encrypt_rfc. fold sub.
    by rewrite chacha20_rfc_involutive, <- E, take_drop.
  - right. split; [done|]. intros p ->. apply E. rewrite length_xseal, Nat.add_sub. unfold xseal, aead_encrypt_rfc.
    fold sub. by rewrite take_app_length', drop_app_length' by (by rewrite length_chacha20_rfc).
Qed.

(** Opening is determined by sealing. *)
Lemma xaead_opens key nonce p ad :
  key_ok key -> xnonce_ok nonce -> text_ok (xseal key nonce ad p) -> text_ok ad ->
  wg_xaead_decrypt key nonce (xseal key nonce ad p) ad = (0, Some p).
Proof.
  intros Hk Hn Hc Ha. rewrite xaead_open by (done || rewrite length_xseal; lia). cbv zeta. set (sub := hchacha20 _ _).
  rewrite length_xseal, Nat.add_sub. unfold xseal, aead_encrypt_rfc. fold sub.
  rewrite take_app_length', drop_app_length' by (by rewrite length_chacha20_rfc).
  rewrite decide_True by done. by rewrite chacha20_rfc_involutive.
Qed.
End xaead.

(** ** Cookie replies *)

Definition cookie_key (tun : WgTunnel) : list Z := HASH (WG_LABEL_COOKIE ++ peer_public tun).

(** What the reply of the responder carries: [cookie] sealed for the initiation whose
    first MAC is [mac1]. *)
Definition reply_seals (tun : WgTunnel) (msg : WgCookieReply) (mac1 cookie : list Z) : Prop :=
  encrypted_cookie msg = xseal (cookie_key tun) (c_nonce msg) mac1 cookie.

(** A reply with the sizes of the struct. *)
Record cookie_ok (msg : WgCookieReply) : Prop := {
  co_nonce : xnonce_ok (c_nonce msg);
  co_text : is_bytes (encrypted_cookie msg) /\ length (encrypted_cookie msg) = 32%nat
}.

Section cookie.
Context `{NeonBuild} `{Scratch} `{Platform} `{X25519}.

Lemma cookie_same (tun : WgTunnel) : tun <| cookie := cookie tun |> = tun.
Proof. by destruct tun. Qed.

Lemma cookie_reply_total tun msg w :
  cookie_ok msg -> text_ok (last_mac1 tun) ->
  (exists c, c_type msg = WG_MSG_COOKIE_REPLY /\ c_receiver_index msg = local_index (session tun) /\
     reply_seals tun msg (last_mac1 tun) c /\ length c = 16%nat /\
     wg_process_cookie_reply tun msg w =
       (WG_OK, tun <| cookie := c |> <| has_cookie := true |> <| cookie_timestamp := (wg_time_now w).1 |>, (wg_time_now w).2)) \/
  ((c_type msg = WG_MSG_COOKIE_REPLY -> c_receiver_index msg = local_index (session tun) ->
      forall c, ~ reply_seals tun msg (last_mac1 tun) c) /\
   exists err, err <> WG_OK /\ wg_process_cookie_reply tun msg w = (err, tun, w)).
Proof.
  intros [Hn [Hb Hl]] Hm. unfold wg_process_cookie_reply.
  destruct (Z.eqb_spec (c_type msg) WG_MSG_COOKIE_REPLY) as [Et|Et]; [|right; split; [done|by exists WG_ERR_HANDSHAKE]].
  destruct (Z.eqb_spec (c_receiver_index msg) (local_index (session tun))) as [Ei|Ei];
    [|right; split; [done|by exists WG_ERR_HANDSHAKE]].
  cbn [negb]. rewrite wg_hash2_eq. fold (cookie_key tun).
  destruct (xaead_exact (cookie_key tun) (c_nonce msg) (encrypted_cookie msg) (last_mac1 tun)) as [(p & E & Hs)|[E Hs]];
    [apply HASH_ok|done|split; [done|rewrite Hl; lia]|done|rewrite E; cbn [default Z.eqb negb]..].
  - left. exists p. split_and!; try done; [|by destruct (wg_time_now w)].
    rewrite Hs, length_xseal in Hl. lia.
  - right. split; [intros _ _ c Hc; by apply (Hs c)|]. exists WG_ERR_DECRYPT. split; [done|].
    change (-1 =? 0) with false. by rewrite cookie_same.
Qed.

(** C14. A cookie reply is accepted exactly when it has the type and the index of the
    initiation in progress and carries a 16-byte cookie sealed with XChaCha20-Poly1305
    under HASH("cookie--" || peer's public key), the nonce of the reply and the last MAC
    sent; the tunnel then keeps that cookie with the time.  Any other reply is refused
    and changes nothing. *)
Theorem cookie_reply_exact tun msg w :
  cookie_ok msg -> text_ok (last_mac1 tun) ->
  (exists c, c_type msg = WG_MSG_COOKIE_REPLY /\ c_receiver_index msg = local_index (session tun) /\
     reply_seals tun msg (last_mac1 tun) c /\ length c = 16%nat /\
     wg_process_cookie_reply tun msg w =
       (WG_OK, tun <| cookie := c |> <| has_cookie := true |> <| cookie_timestamp := (wg_time_now w).1 |>, (wg_time_now w).2)) \/
  ((c_type msg = WG_MSG_COOKIE_REPLY -> c_receiver_index msg = local_index (session tun) ->
      forall c, ~ reply_seals tun msg (last_mac1 tun) c) /\
   exists err, err <> WG_OK /\ wg_process_cookie_reply tun msg w = (err, tun, w)).
Proof. apply cookie_reply_total. Qed.

(** Sealing is injective in the plain text, so the cookie kept is the one sent. *)
Lemma reply_seals_inj tun msg mac1 c d :
  cookie_ok msg -> text_ok mac1 -> reply_seals tun msg mac1 c -> reply_seals tun msg mac1 d -> c = d.
Proof.
  intros [Hn [Hb Hl]] Hm Ec Ed. unfold reply_seals in *.
  assert (text_ok (encrypted_cookie msg)) as Ht by (split; [done|rewrite Hl; lia]).
  pose proof (xaead_opens (cookie_key tun) (c_nonce msg) c mac1 (HASH_ok _) Hn) as E1.
  pose proof (xaead_opens (cookie_key tun) (c_nonce msg) d mac1 (HASH_ok _) Hn) as E2.
  rewrite <- Ec in E1. rewrite <- Ed in E2. rewrite (E1 Ht Hm) in E2. by injection (E2 Ht Hm) as ->.
Qed.

(** The reply the server sends is accepted. *)
Lemma cookie_reply_accepts tun msg c w :
  cookie_ok msg -> text_ok (last_mac1 tun) ->
  c_type msg = WG_MSG_COOKIE_REPLY -> c_receiver_index msg = local_index (session tun) ->
  reply_seals tun msg (last_mac1 tun) c ->
  wg_process_cookie_reply tun msg w =
    (WG_OK, tun <| cookie := c |> <| has_cookie := true |> <| cookie_timestamp := (wg_time_now w).1 |>, (wg_time_now w).2).
Proof.
  intros Hm Hl Et Ei Hs. destruct (cookie_reply_total tun msg w Hm Hl) as [(d & _ & _ & Hd & _ & E)|[Hn _]].
  - by rewrite E, (reply_seals_inj tun msg (last_mac1 tun) d c).
  - exfalso. by apply (Hn Et Ei c).
Qed.

(** The bytes under the second MAC do not depend on it. *)
Lemma take_mac2 m y x : init_ok (m <| i_mac2 := y |>) -> take 132 (init_bytes (m <| i_mac2 := x |>)) = take 132 (init_bytes m).
Proof.
  intros [_ _ H3 H4 H5 H6 H7 _]. cbn in H3, H4, H5, H6, H7. unfold init_bytes. cbn [i_type i_reserved i_sender_index i_ephemeral
    i_encrypted_static i_encrypted_timestamp i_mac1 i_mac2 set_field].
  rewrite !app_assoc. rewrite !take_app_length'; [done|..]; rewrite !length_app, length_le_bytes; cbn [length]; lia.
Qed.

(** The second MAC of an initiation by a tunnel that holds a cookie. *)
Lemma handshake_init_mac2 `{!PlatformLaws _} `{!X25519Laws _} tun w :
  key_ok (static_public tun) -> has_cookie tun = true ->
  exists tun2 m st w2, wg_handshake_init tun w = (WG_OK, tun2, m, st, w2) /\
    if sub64 (wg_time_now (build_init tun (peer_public tun) w).2).1 (cookie_timestamp tun) <? COOKIE_AGE_NS
    then i_mac2 m = wg_mac (cookie tun) (take 132 (init_bytes m)) /\ cookie tun2 = cookie tun /\ has_cookie tun2 = true
    else i_mac2 m = replicate 16 0 /\ cookie tun2 = replicate 16 0 /\ has_cookie tun2 = false.
Proof.
  intros Hk Hc. unfold wg_handshake_init.
  destruct (build_init tun (peer_public tun) w) as [[m st] w1] eqn:Eb. cbn [snd].
  destruct (build_init_ok tun (peer_public tun) w m st w1 Hk Eb) as (_ & _ & _ & _ & Hok & _).
  destruct (wg_time_now w1) as [now w2]. cbn [fst].
  set (t1 := _ <| last_mac1 := _ |>). assert (has_cookie t1 = true) as -> by exact Hc.
  assert (cookie_timestamp t1 = cookie_timestamp tun) as -> by reflexivity. rewrite !andb_true_l.
  destruct (Z.ltb_spec (sub64 now (cookie_timestamp tun)) COOKIE_AGE_NS) as [Ha|Ha].
  - exists t1. do 3 eexists. split; [reflexivity|]. split; [|done].
    rewrite (take_mac2 m (replicate 16 0)) by (by apply Hok). reflexivity.
  - destruct (Z.leb_spec COOKIE_AGE_NS (sub64 now (cookie_timestamp tun))); [|lia]. do 4 eexists. split; [reflexivity|done].
Qed.

(** C15. The answer to the server's challenge: after a reply that seals [c], the next
    initiation carries as its second MAC the MAC of the message under [c] when its clock is
    less than 120 seconds after the reply's, and otherwise sixteen zero bytes, and the
    cookie is forgotten. *)
Theorem cookie_answers_challenge `{!PlatformLaws _} `{!X25519Laws _} tun msg c w w1 :
  cookie_ok msg -> text_ok (last_mac1 tun) -> key_ok (static_public tun) ->
  c_type msg = WG_MSG_COOKIE_REPLY -> c_receiver_index msg = local_index (session tun) ->
  reply_seals tun msg (last_mac1 tun) c ->
  exists tun1 tun2 m st w2,
    wg_process_cookie_reply tun msg w = (WG_OK, tun1, (wg_time_now w).2) /\
    wg_handshake_init tun1 w1 = (WG_OK, tun2, m, st, w2) /\
    let age := sub64 (wg_time_now (build_init tun (peer_public tun) w1).2).1 (wg_time_now w).1 in
    if age <? COOKIE_AGE_NS
    then i_mac2 m = wg_mac c (take 132 (init_bytes m)) /\ cookie tun2 = c /\ has_cookie tun2 = true
    else i_mac2 m = replicate 16 0 /\ cookie tun2 = replicate 16 0 /\ has_cookie tun2 = false.
Proof.
  intros Hm Hl Hk Et Ei Hs. rewrite (cookie_reply_accepts tun msg c w) by done.
  set (tun1 := _ <| cookie_timestamp := _ |>).
  destruct (handshake_init_mac2 tun1 w1 Hk eq_refl) as (tun2 & m & st & w2 & Ei' & H').
  exists tun1, tun2, m, st, w2. split; [done|]. split; [done|]. exact H'.
Qed.

(** An initiation that comes in between breaks the exchange: anyone who knows the
    tunnel's public key can form its first MAC, the message need not decrypt, and the MAC
    replaces the one of the tunnel's own initiation.  The server's reply, which the tunnel
    would have accepted, is then refused, unless it happens to authenticate under the
    other MAC too. *)
Theorem foreign_initiation_blocks_cookie tun init w w' tun' msg c :
  cookie_ok msg -> text_ok (last_mac1 tun) -> text_ok (i_mac1 init) ->
  c_type msg = WG_MSG_COOKIE_REPLY -> c_receiver_index msg = local_index (session tun) ->
  reply_seals tun msg (last_mac1 tun) c ->
  wg_handshake_init_process tun init w = (WG_ERR_DECRYPT, tun', w') ->
  (wg_process_cookie_reply tun msg w').1.1 = WG_OK /\
  ((forall d, ~ reply_seals tun msg (i_mac1 init) d) ->
   exists err, err <> WG_OK /\ wg_process_cookie_reply tun' msg w' = (err, tun', w')).
Proof.
  intros Hm Hl Hi Et Er Hs E. split.
  - by rewrite (cookie_reply_accepts tun msg c w').
  - intros Hno. assert (tun' = tun <| last_mac1 := i_mac1 init |>) as ->.
    { unfold wg_handshake_init_process in E.
      destruct (respond_result tun init w) as [(_ & _ & _ & [resp peer] & t & u & Hr)|[[Hr _]|[Hr _]]]; rewrite Hr in E.
      - destruct peer as [i|]; [destruct (wg_socket_send_to _ _ _ _)|destruct (wg_socket_send _ _ _)]; discriminate.
      - discriminate.
      - by injection E as <- <-. }
    set (tun' := tun <| last_mac1 := i_mac1 init |>).
    destruct (cookie_reply_total tun' msg w' Hm Hi) as [(d & _ & _ & Hd & _)|[_ Hx]]; [|done].
    exfalso. exact (Hno d Hd).
Qed.
End cookie.

(** ** An exchange *)

Definition cookie_tunnel : WgTunnel :=
  demo_A <| session := zero_session <| local_index := 77 |> |> <| last_mac1 := seqZ 1 16 |>.
Definition cookie_msg : WgCookieReply :=
  mkCookie WG_MSG_COOKIE_REPLY [0; 0; 0] 77 (seqZ 5 24) (xseal (cookie_key cookie_tunnel) (seqZ 5 24) (seqZ 1 16) (seqZ 100 16)).

(** A message with the right first MAC and no contents. *)
Definition bogus_init : WgHandshakeInit :=
  let m := mkInit WG_MSG_HANDSHAKE_INIT [0; 0; 0] 9 (replicate 32 1) (replicate 48 0) (replicate 28 0) [] (replicate 16 0) in
  m <| i_mac1 := @wg_compute_mac1 true (static_public cookie_tunnel) (take (148 - 2 * 16) (init_bytes m)) |>.

Lemma cookie_msg_ok : cookie_ok cookie_msg.
Proof. split; apply (bool_decide_unpack _); vm_compute; exact I. Qed.

Lemma cookie_mac_ok : text_ok (last_mac1 cookie_tunnel).
Proof. apply (bool_decide_unpack _); vm_compute; exact I. Qed.

Lemma bogus_refused w :
  @wg_handshake_init_process true demo_scratch demo_platform demo_x25519 cookie_tunnel bogus_init w
  = (WG_ERR_DECRYPT, cookie_tunnel <| last_mac1 := i_mac1 bogus_init |>, w).
Proof.
  assert ((@consume_init true demo_scratch demo_x25519 cookie_tunnel bogus_init).1 = WG_ERR_DECRYPT) as Hc by (vm_compute; reflexivity).
  assert (@wg_compute_mac1 true (static_public cookie_tunnel) (take (148 - 2 * 16) (init_bytes bogus_init)) = i_mac1 bogus_init)
    as Hm by (vm_compute; reflexivity).
  unfold wg_handshake_init_process.
  destruct (@respond_result true demo_scratch demo_platform demo_x25519 cookie_tunnel bogus_init w)
    as [(_ & _ & [r Hr] & _)|[[_ [Ht|Hn]]|[-> _]]].
  - rewrite Hr in Hc. discriminate Hc.
  - exfalso. apply Ht. reflexivity.
  - exfalso. exact (Hn Hm).
  - reflexivity.
Qed.

(** The reply does not authenticate under that MAC. *)
Lemma cookie_foreign d : ~ reply_seals cookie_tunnel cookie_msg (i_mac1 bogus_init) d.
Proof.
  assert ((@wg_xaead_decrypt demo_scratch (cookie_key cookie_tunnel) (c_nonce cookie_msg) (encrypted_cookie cookie_msg)
    (i_mac1 bogus_init)).1 = -1) as E by (vm_compute; reflexivity).
  destruct (@xaead_exact demo_scratch (cookie_key cookie_tunnel) (c_nonce cookie_msg) (encrypted_cookie cookie_msg)
    (i_mac1 bogus_init)) as [(p & E' & _)|[_ Hn]].
  - apply HASH_ok.
  - apply cookie_msg_ok.
  - apply (bool_decide_unpack _); vm_compute; exact I.
  - apply (bool_decide_unpack _); vm_compute; exact I.
  - rewrite E' in E. discriminate E.
  - exact (Hn d).
Qed.

Lemma cookie_reply_exact_witness :
  exists c, reply_seals cookie_tunnel cookie_msg (last_mac1 cookie_tunnel) c /\
    (@wg_process_cookie_reply true demo_scratch demo_platform cookie_tunnel cookie_msg (mkDemo 3 [])).1.2 =
      cookie_tunnel <| cookie := c |> <| has_cookie := true |> <| cookie_timestamp := 3 |>.
Proof.
  destruct (@cookie_reply_exact true demo_scratch demo_platform cookie_tunnel cookie_msg (mkDemo 3 [])
    cookie_msg_ok cookie_mac_ok) as [(c & _ & _ & Hs & _ & E)|[Hn _]].
  - exists c. split; [exact Hs|]. rewrite E. reflexivity.
  - exfalso. exact (Hn eq_refl eq_refl (seqZ 100 16) eq_refl).
Defined.

Lemma cookie_answers_challenge_witness :
  exists tun1 tun2 m st w2,
    @wg_process_cookie_reply true demo_scratch demo_platform cookie_tunnel cookie_msg (mkDemo 3 [])
      = (WG_OK, tun1, (@wg_time_now demo_platform (mkDemo 3 [])).2) /\
    @wg_handshake_init true demo_scratch demo_platform demo_x25519 tun1 (mkDemo 8 []) = (WG_OK, tun2, m, st, w2) /\
    let age := sub64 (@wg_time_now demo_platform (@build_init true demo_scratch demo_platform demo_x25519 cookie_tunnel
      (peer_public cookie_tunnel) (mkDemo 8 [])).2).1 (@wg_time_now demo_platform (mkDemo 3 [])).1 in
    if age <? COOKIE_AGE_NS
    then i_mac2 m = @wg_mac true (seqZ 100 16) (take 132 (init_bytes m)) /\ cookie tun2 = seqZ 100 16 /\ has_cookie tun2 = true
    else i_mac2 m = replicate 16 0 /\ cookie tun2 = replicate 16 0 /\ has_cookie tun2 = false.
Proof.
  apply (@cookie_answers_challenge true demo_scratch demo_platform demo_x25519 (demo_net_laws _) demo_x25519_laws cookie_tunnel
    cookie_msg (seqZ 100 16) (mkDemo 3 []) (mkDemo 8 [])).
  - exact cookie_msg_ok.
  - exact cookie_mac_ok.
  - apply (bool_decide_unpack _); vm_compute; exact I.
  - reflexivity.
  - reflexivity.
  - reflexivity.
Defined.

Lemma foreign_initiation_blocks_cookie_witness :
  let tun' := cookie_tunnel <| last_mac1 := i_mac1 bogus_init |> in
  (@wg_process_cookie_reply true demo_scratch demo_platform cookie_tunnel cookie_msg (mkDemo 3 [])).1.1 = WG_OK /\
  exists err, err <> WG_OK /\
    @wg_process_cookie_reply true demo_scratch demo_platform tun' cookie_msg (mkDemo 3 []) = (err, tun', mkDemo 3 []).
Proof.
  intros tun'. destruct (@foreign_initiation_blocks_cookie true demo_scratch demo_platform demo_x25519 cookie_tunnel bogus_init
    (mkDemo 3 []) (mkDemo 3 []) tun' cookie_msg (seqZ 100 16)) as [H1 H2].
  - exact cookie_msg_ok.
  - exact cookie_mac_ok.
  - apply (bool_decide_unpack _); vm_compute; exact I.
  - reflexivity.
  - reflexivity.
  - reflexivity.
  - exact (bogus_refused _).
  - split; [exact H1|]. apply H2. intros d Hd.
    exact (cookie_foreign d Hd).
Defined.
