(* ===== verification/Wireguard.v ===== *)
(** * The tunnel (src/wireguard.c)

    Creation, sending, the active handshakes of [wg_connect] and [wg_rekey], one
    iteration of the receive thread and one of the keepalive thread, the blocking
    receive, start, stop and close. *)

From S2P Require Import Prelude Neon Counter RecvPool Aead Crypto Tunnel Platform Noise.

#[local] Open Scope Z_scope.

Definition WG_REKEY_CHECK_INTERVAL_MS : Z := 10000.
Definition WG_KEEPALIVE_TIMEOUT_NS : Z := WG_KEEPALIVE_TIMEOUT * NS.
Definition WG_ZERO_KEY_TIMEOUT_NS : Z := WG_REJECT_AFTER_TIME * 3 * NS.
Definition REJECT_NS : Z := WG_REJECT_AFTER_TIME * NS.
Definition REKEY_NS : Z := WG_REKEY_AFTER_TIME * NS.

Record WgConfig := mkConfig {
  private_key : list Z; cfg_tunnel_ip : Z; peer_public_key : list Z; endpoint_host : list Z; endpoint_port : Z;
  cfg_keepalive_interval : Z; cfg_preshared_key : list Z; has_preshared_key : bool
}.

(** What the allocations of [wg_init] return. *)
Record init_results := mkResults {
  calloc_ok : bool; send_mutex_ok : bool; stop_cond_ok : bool; pool_calloc_ok : bool; pool_mutex_ok : bool
}.

(** The session a transport packet is for: of a peer or of the tunnel, current
    or previous. *)
Inductive sess_ref := PeerCur (i : nat) | PeerPrev (i : nat) | TunCur | TunPrev.

#[export] Instance sess_ref_eq_dec : EqDecision sess_ref.
Proof. solve_decision. Defined.

Section wireguard.
Context `{NeonBuild} `{Scratch} `{Platform} `{X25519}.

Definition wg_recv_slot_release (tun : WgTunnel) (slot : option nat) : WgTunnel :=
  tun <| recv_pool := wg_recv_pool_release (recv_pool tun) slot |>.

Definition wg_jitter_ms (w : WLD) : Z * WLD :=
  let '(i, w) := wg_random_index w in (i mod 334, w).

Definition wg_init (res : init_results) (config : WgConfig) (w : WLD) : option WgTunnel * WLD :=
  if negb (calloc_ok res) then (None, w)
  else
    let tun := zero_tunnel in
    let tun := tun <| static_private := private_key config |> in
    let tun := tun <| static_public := crypto_x25519_public_key (static_private tun) |> in
    let tun := tun <| peer_public := peer_public_key config |> <| tunnel_ip := cfg_tunnel_ip config |>
                   <| keepalive_interval := cfg_keepalive_interval config |> in
    let tun := if has_preshared_key config
               then tun <| preshared_key := cfg_preshared_key config |> <| has_psk := true |> else tun in
    let '(err, tun, w) := wg_resolve_endpoint tun (endpoint_host config) (endpoint_port config) w in
    if negb (err =? WG_OK) then (None, w)
    else
      let tun := tun <| socket_fd := -1 |> <| session := (session tun) <| valid := false |> |>
                     <| running := false |> <| recv_cb := false |> in
      if negb (send_mutex_ok res) then (None, w)
      else if negb (stop_cond_ok res) then (None, w)
      else
        let tun := tun <| stop_pred := false |> in
        let '(err, pool) := wg_recv_pool_init (pool_calloc_ok res) (pool_mutex_ok res) (recv_pool tun) in
        let tun := tun <| recv_pool := pool |> in
        if negb (err =? 0) then (None, w)
        else (Some (tun <| canary_begin := WG_CANARY_MAGIC |> <| canary_end := WG_CANARY_MAGIC |>), w).

(** ** Sending *)

(** The packet built for a session, and the session with the counter taken. *)
Definition transport_packet (s : WgSession) (data : list Z) : list Z :=
  transport_bytes (mkTransport WG_MSG_TRANSPORT [0; 0; 0] (remote_index s) (sending_counter s)
    (sealed (wg_aead_encrypt (sending_key s) (sending_counter s) data []))).
Definition take_counter (s : WgSession) : WgSession := s <| sending_counter := add64 (sending_counter s) 1 |>.

Definition packet_size (len : Z) : Z := sizeof_WgTransport + len + WG_AEAD_TAG_LEN.

Definition wg_send_to_peer (tun : WgTunnel) (i : nat) (data : list Z) (w : WLD) : Z * WgTunnel * WLD :=
  let peer := get_peer tun i in
  if negb (connected peer) || negb (valid (p_session peer)) then (WG_ERR_NOT_CONNECTED, tun, w)
  else if WG_MAX_PACKET_SIZE <? packet_size (Z.of_nat (length data)) then (WG_ERR_BUFFER_TOO_SMALL, tun, w)
  else
    let packet := transport_packet (p_session peer) data in
    let tun := upd_peer tun i (fun p => p <| p_session := take_counter (p_session p) |>) in
    let '(sent, w) := wg_socket_send_to tun (relay_hash peer) packet w in
    if 0 <=? sent then
      let '(now, w) := wg_time_now w in
      (Z.of_nat (length data), upd_peer tun i (fun p => p <| p_last_sent := now |>), w)
    else (WG_ERR_SOCKET, tun, w).

Definition wg_send_keepalive_to_peer (tun : WgTunnel) (i : nat) (w : WLD) : WgTunnel * WLD :=
  let peer := get_peer tun i in
  let keepalive := transport_packet (p_session peer) [] in
  let tun := upd_peer tun i (fun p => p <| p_session := take_counter (p_session p) |>) in
  let '(_, w) := wg_socket_send_to tun (relay_hash peer) keepalive w in
  let '(now, w) := wg_time_now w in
  (upd_peer tun i (fun p => p <| p_last_sent := now |>), w).

Definition wg_set_recv_callback (tun : WgTunnel) (cb : bool) : WgTunnel := tun <| recv_cb := cb |>.

Definition wg_send_keepalive (tun : WgTunnel) (w : WLD) : WgTunnel * WLD :=
  let keepalive := transport_packet (session tun) [] in
  let tun := tun <| session := take_counter (session tun) |> in
  let '(_, w) := wg_socket_send tun keepalive w in
  let '(now, w) := wg_time_now w in
  (tun <| last_sent := now |>, w).

(** ** The receive thread *)

Definition get_sess (tun : WgTunnel) (r : sess_ref) : WgSession :=
  match r with
  | PeerCur i => p_session (get_peer tun i)
  | PeerPrev i => p_prev_session (get_peer tun i)
  | TunCur => session tun
  | TunPrev => prev_session tun
  end.
Definition upd_sess (tun : WgTunnel) (r : sess_ref) (f : WgSession -> WgSession) : WgTunnel :=
  match r with
  | PeerCur i => upd_peer tun i (fun p => p <| p_session := f (p_session p) |>)
  | PeerPrev i => upd_peer tun i (fun p => p <| p_prev_session := f (p_prev_session p) |>)
  | TunCur => tun <| session := f (session tun) |>
  | TunPrev => tun <| prev_session := f (prev_session tun) |>
  end.

(** [peer] and [sess] for the receiver index of a packet. *)
Definition find_session (tun : WgTunnel) (receiver_index : Z) : option nat * option sess_ref :=
  let cur_idx := local_index (session tun) in
  let peer := wg_find_peer_by_local_index tun receiver_index in
  let sess :=
    match peer with
    | Some i =>
        let p := get_peer tun i in
        if receiver_index =? local_index (p_session p) then Some (PeerCur i)
        else if valid (p_prev_session p) && (receiver_index =? local_index (p_prev_session p)) then Some (PeerPrev i)
        else None
    | None => None
    end in
  let sess :=
    match sess with
    | Some r => Some r
    | None =>
        if receiver_index =? cur_idx then Some TunCur
        else if receiver_index =? old_local_index (session tun) then Some TunCur
        else if valid (prev_session tun) && (receiver_index =? local_index (prev_session tun)) then Some TunPrev
        else None
    end in
  (peer, sess).

Definition touch_peer (tun : WgTunnel) (peer : option nat) (f : WgPeer -> WgPeer) : WgTunnel :=
  match peer with Some i => upd_peer tun i f | None => tun end.

(** A transport packet of [received] bytes: the plaintext for the consumer. *)
Definition recv_transport (tun : WgTunnel) (transport : WgTransport) (received : Z) (w : WLD)
  : option (list Z) * WgTunnel * WLD :=
  let '(peer, sess) := find_session tun (t_receiver_index transport) in
  match sess with
  | None => (None, tun, w)
  | Some r =>
      let '(now, w) := wg_time_now w in
      let sess_elapsed := sub64 now (last_handshake (get_sess tun r)) in
      if REJECT_NS <=? sess_elapsed then
        match r with
        | PeerPrev _ | TunPrev => (None, upd_sess tun r (fun _ => zero_session), w)
        | _ => (None, tun, w)
        end
      else
        let ciphertext_len := received - sizeof_WgTransport in
        let plaintext_len := ciphertext_len - WG_AEAD_TAG_LEN in
        if plaintext_len =? 0 then
          let '(now, w) := wg_time_now w in
          let tun := upd_sess tun r (fun s => s <| last_received := now |>) in
          match peer with
          | Some i =>
              let '(now, w) := wg_time_now w in
              (None, upd_peer tun i (fun p => p <| p_last_sent := now |> <| connected := true |>), w)
          | None => (None, tun, w)
          end
        else
          match wg_aead_decrypt (receiving_key (get_sess tun r)) (t_counter transport)
                  (take (Z.to_nat ciphertext_len) (encrypted_data transport)) [] with
          | (0, Some plaintext) =>
              let '(fresh, rc) := wg_counter_validate (replay (get_sess tun r)) (t_counter transport) in
              let tun := upd_sess tun r (fun s => s <| replay := rc |>) in
              if negb fresh then (None, tun, w)
              else
                let '(now, w) := wg_time_now w in
                let tun := upd_sess tun r (fun s =>
                  s <| last_received := now |> <| receiving_counter := add64 (t_counter transport) 1 |>) in
                let tun := touch_peer tun peer (fun p => p <| connected := true |>) in
                (Some plaintext, wg_update_endpoint_from_recv tun, w)
          | _ => (None, tun, w)
          end
  end.

(** The peer whose handshake a response completes. *)
Definition awaiting_peer (tun : WgTunnel) (receiver_index : Z) : option nat :=
  first_peer (fun p => connected p && negb (valid (p_session p)) && (local_index (p_session p) =? receiver_index)) tun.

Definition sizeof_pending_response : Z := 256.

(** A packet of another type. *)
Definition recv_control (tun : WgTunnel) (packet : list Z) (received : Z) (w : WLD) : WgTunnel * WLD :=
  let type := rd packet 0 in
  if type =? WG_MSG_HANDSHAKE_RESPONSE then
    let resp := response_of_bytes packet in
    if rekey_in_progress (session tun) then
      if received <=? sizeof_pending_response then
        let n := Z.to_nat received in
        (tun <| pending_response := take n packet ++ drop n (pending_response tun) |> <| pending_response_len := received |>, w)
      else (tun, w)
    else
      match awaiting_peer tun (r_receiver_index resp) with
      | Some i => let '(_, tun, w) := wg_handshake_init_process_response tun i resp w in (tun, w)
      | None => (tun, w)
      end
  else if type =? WG_MSG_COOKIE_REPLY then
    if sizeof_WgCookieReply <=? received then
      let '(_, tun, w) := wg_process_cookie_reply tun (cookie_of_bytes packet) w in
      (tun <| pending_cookie := true |>, w)
    else (tun, w)
  else if type =? WG_MSG_HANDSHAKE_INIT then
    if sizeof_WgHandshakeInit <=? received then
      let '(passive_err, tun, w) := wg_handshake_init_process tun (init_of_bytes packet) w in
      if passive_err =? WG_OK then
        match first_peer (fun p => connected p && valid (p_session p)) tun with
        | Some i => wg_send_keepalive_to_peer tun i w
        | None => (tun, w)
        end
      else (tun, w)
    else (tun, w)
  else (tun, w).

(** The buffer a packet is received into: the slot's, or the static one. *)
Definition slot_buf (pool : WgRecvPool) (slot : option nat) (fallback : list Z) : list Z :=
  match slot with
  | Some i => match slots pool with Some ss => match ss !! i with Some s => slot_data s | None => [] end | None => [] end
  | None => fallback
  end.
Definition buf_write (buf : list Z) (o : nat) (d : list Z) : list Z := take o buf ++ d ++ drop (o + length d) buf.
Definition store_packet (tun : WgTunnel) (slot : option nat) (fallback d : list Z) (o : nat) : WgTunnel * list Z :=
  let buf := buf_write (slot_buf (recv_pool tun) slot fallback) o d in
  match slot with
  | Some i => (tun <| recv_pool := slot_write (recv_pool tun) i buf |>, fallback)
  | None => (tun, buf)
  end.

(** One iteration: [fallback] is the static buffer. *)
Definition recv_thread_step (tun : WgTunnel) (fallback : list Z) (w : WLD) : WgTunnel * list Z * WLD :=
  let '(slot, pool) := wg_recv_pool_acquire (recv_pool tun) in
  let tun := tun <| recv_pool := pool |> in
  let '(received, data, tun, w) := wg_socket_recv tun (Z.to_nat WG_MAX_PACKET_SIZE) 100 w in
  if received <? 0 then
    let tun := wg_recv_slot_release tun slot in
    if received =? WG_ERR_TIMEOUT then let '(_, w) := wg_time_now w in (tun, fallback, w) else (tun, fallback, w)
  else
    let '(tun, fallback) := store_packet tun slot fallback data 0 in
    if received <? sizeof_WgTransport + WG_AEAD_TAG_LEN then (wg_recv_slot_release tun slot, fallback, w)
    else
      let packet := slot_buf (recv_pool tun) slot fallback in
      if negb (rd packet 0 =? WG_MSG_TRANSPORT) then
        let '(tun, w) := recv_control tun packet received w in
        (wg_recv_slot_release tun slot, fallback, w)
      else
        let '(out, tun, w) := recv_transport tun (transport_of_bytes packet) received w in
        match out with
        | None => (wg_recv_slot_release tun slot, fallback, w)
        | Some plaintext =>
            let '(tun, fallback) := store_packet tun slot fallback plaintext 16 in
            match slot with
            | Some i =>
                if recv_cb tun then
                  let '(retained, w) := recv_callback i plaintext w in
                  (if retained : bool then tun else wg_recv_slot_release tun slot, fallback, w)
                else (wg_recv_slot_release tun slot, fallback, w)
            | None => (tun, fallback, w)
            end
        end.

(** ** The keepalive thread *)

Definition check_interval_ms (tun : WgTunnel) : Z :=
  let keepalive_interval_ms := keepalive_interval tun * 1000 in
  if (0 <? keepalive_interval_ms) && (keepalive_interval_ms <? WG_REKEY_CHECK_INTERVAL_MS)
  then keepalive_interval_ms else WG_REKEY_CHECK_INTERVAL_MS.

Definition keepalive_peer (now : Z) (tun : WgTunnel) (i : nat) (w : WLD) : WgTunnel * WLD :=
  let peer := get_peer tun i in
  if negb (configured peer) then (tun, w)
  else if valid (p_session peer) && (WG_ZERO_KEY_TIMEOUT_NS <=? sub64 now (last_handshake (p_session peer))) then
    (upd_peer tun i (fun p => p <| p_session := zero_session |> <| connected := false |> <| p_prev_session := zero_session |>), w)
  else if negb (valid (p_session peer)) then (tun, w)
  else if (0 <? last_received (p_session peer)) && (WG_KEEPALIVE_TIMEOUT_NS <=? sub64 now (p_last_sent peer)) then
    wg_send_keepalive_to_peer tun i w
  else if (0 <? keepalive_interval tun) && (keepalive_interval tun * NS <=? sub64 now (p_last_sent peer)) then
    wg_send_keepalive_to_peer tun i w
  else (tun, w).

(** The body of the loop after a timed-out wait. *)
Definition keepalive_thread_step (tun : WgTunnel) (w : WLD) : WgTunnel * WLD :=
  let '(now, w) := wg_time_now w in
  let '(tun, w) := fold_left (fun '(tun, w) i => keepalive_peer now tun i w)
                     (seq 0 (Z.to_nat (peer_count tun))) (tun, w) in
  if valid (session tun) && (WG_ZERO_KEY_TIMEOUT_NS <=? sub64 now (last_handshake (session tun)))
  then (tun <| session := zero_session |> <| prev_session := zero_session |>, w) else (tun, w).

(** ** While a thread waits *)

Definition run_iter (it : thread_iter) (tun : WgTunnel) (w : WLD) : WgTunnel * WLD :=
  match it with
  | IterRecv fallback => let '(tun, _, w) := recv_thread_step tun fallback w in (tun, w)
  | IterKeepalive => keepalive_thread_step tun w
  end.

(** What the threads of the tunnel do to it meanwhile: the iterations that the
    scheduler picks, if [wg_start] has created the threads. *)
Definition other_threads (tun : WgTunnel) (w : WLD) : WgTunnel * WLD :=
  let '(its, w) := scheduled w in
  if running tun then fold_left (fun '(tun, w) it => run_iter it tun w) its (tun, w) else (tun, w).

(** ** Active handshakes *)

(** The loop of [wg_connect] around [wg_socket_recv], once per 10 ms left. *)
Fixpoint connect_wait (n : nat) (tun : WgTunnel) (w : WLD) : Z * list Z * WgTunnel * WLD :=
  match n with
  | O => (WG_ERR_TIMEOUT, [], tun, w)
  | S n =>
      let '(received, recv_buf, tun, w) := wg_socket_recv tun 256 10 w in
      let '(tun, w) := other_threads tun w in
      if 0 <=? received then (received, recv_buf, tun, w)
      else if negb (received =? WG_ERR_TIMEOUT) then (received, recv_buf, tun, w)
      else if pending_cookie tun then (received, recv_buf, tun, w)
      else connect_wait n tun w
  end.

(** [while (remaining_ms > 0) { ...; remaining_ms -= 10; }] *)
Definition wait_rounds (remaining_ms : Z) : nat := Z.to_nat ((remaining_ms + 9) / 10).

(** One attempt: whether the loop is left, and [err]. *)
Definition connect_attempt (tun : WgTunnel) (w : WLD) : bool * Z * WgTunnel * WLD :=
  let '(err, tun, init_msg, state, w) := wg_handshake_init tun w in
  if negb (err =? WG_OK) then (true, err, tun, w)
  else
    let '(sent, w) := wg_socket_send tun (init_bytes init_msg) w in
    if sent <? 0 then (true, WG_ERR_SOCKET, tun, w)
    else
      let tun := tun <| pending_cookie := false |> in
      let '(jitter, w) := wg_jitter_ms w in
      let remaining_ms := WG_REKEY_TIMEOUT * 1000 + jitter in
      let '(received, recv_buf, tun, w) := connect_wait (wait_rounds remaining_ms) tun w in
      if pending_cookie tun then (false, WG_ERR_TIMEOUT, tun <| pending_cookie := false |>, w)
      else if received <? 0 then (false, WG_ERR_TIMEOUT, tun, w)
      else
        let msg_type := rd recv_buf 0 in
        if (msg_type =? WG_MSG_HANDSHAKE_INIT) && (sizeof_WgHandshakeInit <=? received) then
          let '(passive_err, tun, w) := wg_handshake_init_process tun (init_of_bytes recv_buf) w in
          if passive_err =? WG_OK then (true, WG_OK, tun, w) else (false, err, tun, w)
        else if received <? sizeof_WgHandshakeResponse then (false, WG_ERR_HANDSHAKE, tun, w)
        else
          let '(err, tun, state, w) := wg_handshake_response tun (response_of_bytes recv_buf) state w in
          (err =? WG_OK, err, tun, w).

Fixpoint connect_loop (attempts : nat) (err : Z) (tun : WgTunnel) (w : WLD) : Z * WgTunnel * WLD :=
  match attempts with
  | O => (err, tun, w)
  | S attempts =>
      let '(brk, err, tun, w) := connect_attempt tun w in
      if brk : bool then (err, tun, w) else connect_loop attempts err tun w
  end.

Definition wg_connect (tun : WgTunnel) (w : WLD) : Z * WgTunnel * WLD :=
  let '(err, tun, w) := if socket_fd tun <? 0 then wg_socket_open tun w else (WG_OK, tun, w) in
  if negb (err =? WG_OK) then (err, tun, w)
  else
    let '(err, tun, w) := connect_loop WG_MAX_TIMER_HANDSHAKES WG_ERR_TIMEOUT tun w in
    if negb (err =? WG_OK) then (err, tun <| session := (session tun) <| rekey_in_progress := false |> |>, w)
    else let '(tun, w) := wg_send_keepalive tun w in (WG_OK, tun, w).

(** The loop of [wg_rekey] that waits for the receive thread. *)
Fixpoint rekey_wait (n : nat) (tun : WgTunnel) (w : WLD) : WgTunnel * WLD :=
  match n with
  | O => (tun, w)
  | S n =>
      if (0 <? pending_response_len tun) || pending_cookie tun then (tun, w)
      else
        let w := wg_sleep_ms 10 w in
        let '(tun, w) := other_threads tun w in
        rekey_wait n tun w
  end.

Definition rekey_attempt (tun : WgTunnel) (w : WLD) : bool * Z * WgTunnel * WLD :=
  let tun := tun <| pending_response_len := 0 |> <| pending_cookie := false |> in
  let '(err, tun, init_msg, state, w) := wg_handshake_init tun w in
  if negb (err =? WG_OK) then (true, err, tun, w)
  else
    let '(sent, w) := wg_socket_send tun (init_bytes init_msg) w in
    if sent <? 0 then (true, WG_ERR_SOCKET, tun, w)
    else
      let '(jitter, w) := wg_jitter_ms w in
      let '(tun, w) := rekey_wait (wait_rounds (WG_REKEY_TIMEOUT * 1000 + jitter)) tun w in
      if pending_cookie tun then (false, err, tun <| pending_cookie := false |>, w)
      else if pending_response_len tun =? 0 then (false, WG_ERR_TIMEOUT, tun, w)
      else if pending_response_len tun <? sizeof_WgHandshakeResponse then (false, WG_ERR_HANDSHAKE, tun, w)
      else
        let '(err, tun, state, w) := wg_handshake_response tun (response_of_bytes (pending_response tun)) state w in
        (err =? WG_OK, err, tun, w).

Fixpoint rekey_loop (attempts : nat) (err : Z) (tun : WgTunnel) (w : WLD) : Z * WgTunnel * WLD :=
  match attempts with
  | O => (err, tun, w)
  | S attempts =>
      let '(brk, err, tun, w) := rekey_attempt tun w in
      if brk : bool then (err, tun, w) else rekey_loop attempts err tun w
  end.

Definition wg_rekey (tun : WgTunnel) (w : WLD) : Z * WgTunnel * WLD :=
  let saved_local_index := local_index (session tun) in
  let tun := tun <| pending_response_len := 0 |> in
  let '(err, tun, w) := rekey_loop WG_MAX_TIMER_HANDSHAKES WG_ERR_TIMEOUT tun w in
  if negb (err =? WG_OK) then
    (err, tun <| session := (session tun) <| local_index := saved_local_index |> <| rekey_in_progress := false |> |>, w)
  else let '(tun, w) := wg_send_keepalive tun w in (WG_OK, tun, w).

Definition wg_session_expired (tun : WgTunnel) (w : WLD) : bool * WLD :=
  if negb (valid (session tun)) then (false, w)
  else
    let '(now, w) := wg_time_now w in
    let elapsed := sub64 now (last_handshake (session tun)) in
    ((REJECT_NS <=? elapsed) || (WG_REJECT_AFTER_MESSAGES <=? sending_counter (session tun)), w).

Definition wg_needs_rekey (tun : WgTunnel) (w : WLD) : bool * WLD :=
  if negb (valid (session tun)) then (false, w)
  else if rekey_in_progress (session tun) then (false, w)
  else
    let '(now, w) := wg_time_now w in
    let elapsed := sub64 now (last_handshake (session tun)) in
    if REKEY_NS <=? elapsed then (true, w)
    else if WG_REKEY_AFTER_MESSAGES <=? sending_counter (session tun) then (true, w)
    else (false, w).

(** ** The interface *)

(** [recv_ok] and [keep_ok] are the outcomes of the two thread creations. *)
Definition wg_start (tun : WgTunnel) (recv_ok keep_ok : bool) : Z * WgTunnel :=
  if negb (valid (session tun)) && (peer_count tun =? 0) then (WG_ERR_NOT_CONNECTED, tun)
  else if running tun then (WG_ERR_ALREADY_RUNNING, tun)
  else
    let tun := tun <| stop_pred := false |> in
    if negb recv_ok then (WG_ERR_THREAD, tun)
    else if negb keep_ok then (WG_ERR_THREAD, tun <| stop_pred := true |>)
    else (WG_OK, tun <| running := true |>).

Definition wg_stop (tun : WgTunnel) : WgTunnel :=
  if negb (running tun) then tun else tun <| stop_pred := true |> <| running := false |>.

Definition wg_send (tun : WgTunnel) (data : list Z) (w : WLD) : Z * WgTunnel * WLD :=
  if negb (valid (session tun)) then (WG_ERR_NOT_CONNECTED, tun, w)
  else
    let '(expired, w) := wg_session_expired tun w in
    if expired then (WG_ERR_NOT_CONNECTED, tun, w)
    else if WG_MAX_PACKET_SIZE <? packet_size (Z.of_nat (length data)) then (WG_ERR_BUFFER_TOO_SMALL, tun, w)
    else
      let packet := transport_packet (session tun) data in
      let tun := tun <| session := take_counter (session tun) |> in
      let '(sent, w) := wg_socket_send tun packet w in
      if 0 <=? sent then
        let '(now, w) := wg_time_now w in (Z.of_nat (length data), tun <| last_sent := now |>, w)
      else (WG_ERR_SOCKET, tun, w).

(** The result and what was written to [buf]. *)
Definition wg_recv (tun : WgTunnel) (len timeout_ms : Z) (w : WLD) : Z * option (list Z) * WgTunnel * WLD :=
  if negb (valid (session tun)) then (WG_ERR_NOT_CONNECTED, None, tun, w)
  else
    let '(received, packet, tun, w) := wg_socket_recv tun (Z.to_nat WG_MAX_PACKET_SIZE) timeout_ms w in
    if received <? 0 then (received, None, tun, w)
    else if received <? sizeof_WgTransport + WG_AEAD_TAG_LEN then (WG_ERR_DECRYPT, None, tun, w)
    else
      let transport := transport_of_bytes packet in
      if negb (t_type transport =? WG_MSG_TRANSPORT) then (WG_ERR_DECRYPT, None, tun, w)
      else if negb (t_receiver_index transport =? local_index (session tun)) then (WG_ERR_DECRYPT, None, tun, w)
      else
        let ciphertext_len := received - sizeof_WgTransport in
        let plaintext_len := ciphertext_len - WG_AEAD_TAG_LEN in
        if len <? plaintext_len then (WG_ERR_BUFFER_TOO_SMALL, None, tun, w)
        else if plaintext_len =? 0 then
          let '(now, w) := wg_time_now w in
          (0, None, tun <| session := (session tun) <| last_received := now |> |>, w)
        else
          let '(err, out) := wg_aead_decrypt (receiving_key (session tun)) (t_counter transport)
                               (take (Z.to_nat ciphertext_len) (encrypted_data transport)) [] in
          if negb (err =? 0) then (WG_ERR_DECRYPT, out, tun, w)
          else
            let '(fresh, rc) := wg_counter_validate (replay (session tun)) (t_counter transport) in
            let tun := tun <| session := (session tun) <| replay := rc |> |> in
            if negb fresh then (WG_ERR_DECRYPT, out, tun, w)
            else
              let '(now, w) := wg_time_now w in
              (plaintext_len, out, tun <| session := (session tun) <| last_received := now |>
                <| receiving_counter := add64 (t_counter transport) 1 |> |>, w).

Definition wg_get_ip (tun : WgTunnel) : Z * Z := (WG_OK, tunnel_ip tun).

(** The memory [free] gets back. *)
Definition wg_close (tun : WgTunnel) : WgTunnel :=
  let tun := wg_stop tun in
  let tun := wg_socket_close tun in
  let tun := tun <| recv_pool := wg_recv_pool_destroy (recv_pool tun) |> in
  tun <| static_private := zero_key |> <| preshared_key := zero_key |> <| session := zero_session |> <| prev_session := zero_session |>.

Definition wg_get_session_index (tun : WgTunnel) : Z :=
  if negb (valid (session tun)) then 0 else local_index (session tun).

Definition wg_canary_check (tun : WgTunnel) : Z :=
  if negb (canary_begin tun =? WG_CANARY_MAGIC) then 0
  else if negb (canary_end tun =? WG_CANARY_MAGIC) then 0 else 1.
End wireguard.

(** ** Transport *)

Section transport.
Context `{NeonBuild} `{Scratch} `{Platform} `{X25519}.
#[local] Opaque wg_aead_encrypt wg_aead_decrypt wg_counter_validate.

Lemma text_nil : text_ok [].
Proof. split; [constructor|done]. Qed.

(** A packet of a session, read back. *)
Lemma packet_parse s data :
  key_ok (sending_key s) -> text_ok data -> is_u32 (remote_index s) -> is_u64 (sending_counter s) ->
  transport_of_bytes (transport_packet s data) =
    mkTransport WG_MSG_TRANSPORT [0; 0; 0] (remote_index s) (sending_counter s)
      (wg_seal (sending_key s) (sending_counter s) [] data) /\
  Z.of_nat (length (transport_packet s data)) = packet_size (Z.of_nat (length data)).
Proof.
  intros Hk Hd Hr Hc. unfold transport_packet. rewrite encrypt_seal by (done || apply text_nil).
  unfold sealed. cbn [snd]. change (default [] (Some ?x)) with x.
  match goal with |- transport_of_bytes (transport_bytes ?m) = _ /\ _ =>
    destruct (transport_of_transport_bytes m) as [E1 E2]; [done|done|done|] end.
  rewrite E1, E2. match goal with |- ?a = ?b /\ _ => constr_eq a b end. split; [reflexivity|]. cbn [encrypted_data]. rewrite length_seal. unfold packet_size, WG_AEAD_TAG_LEN. lia.
Qed.

(** Which packets of a live session are delivered. *)
Lemma recv_delivers tun t received w peer r p :
  find_session tun (t_receiver_index t) = (peer, Some r) ->
  let s := get_sess tun r in
  let c := take (Z.to_nat (received - sizeof_WgTransport)) (encrypted_data t) in
  key_ok (receiving_key s) -> text_ok c -> 16 <= received - sizeof_WgTransport ->
  Z.of_nat (length c) = received - sizeof_WgTransport ->
  sub64 (wg_time_now w).1 (last_handshake s) < REJECT_NS ->
  (recv_transport tun t received w).1.1 = Some p <->
    p <> [] /\ c = wg_seal (receiving_key s) (t_counter t) [] p /\
    (wg_counter_validate (replay s) (t_counter t)).1 = true.
Proof.
  intros Hf s c Hk Hc Hlen Hcl Hel. unfold recv_transport. rewrite Hf. destruct (wg_time_now w) as [now w1]. cbn [fst] in Hel.
  fold s c. destruct (Z.leb_spec REJECT_NS (sub64 now (last_handshake s))); [lia|]. cbv zeta.
  unfold WG_AEAD_TAG_LEN. destruct (Z.eqb_spec (received - sizeof_WgTransport - 16) 0) as [E0|E0].
  - split.
    { intros E. exfalso. destruct (wg_time_now w1) as [? w2]. destruct peer; [destruct (wg_time_now w2)|]; discriminate E. }
    intros (Hp & E & _). exfalso. rewrite E, length_seal in Hcl. destruct p; [done|]. cbn [length] in Hcl. lia.
  - destruct (decrypt_total (receiving_key s) (t_counter t) c []) as [(q & Hq & Es)|(Hn & Hs)]; [done|done|apply text_nil| |].
    + rewrite Hq. destruct (wg_counter_validate (replay s) (t_counter t)) as [fresh rc]. cbn [fst].
      assert (length q <> 0%nat) as Hq0 by (rewrite Es, length_seal in Hcl; lia).
      assert (forall p', wg_seal (receiving_key s) (t_counter t) [] q = wg_seal (receiving_key s) (t_counter t) [] p' -> q = p') as Hinj.
      { intros p' E. pose proof (proj2 (decrypt_iff (receiving_key s) (t_counter t) c [] p' Hk Hc text_nil)) as D.
        rewrite Es in D at 1. specialize (D E). congruence. }
      destruct fresh; cbn [negb].
      * destruct (wg_time_now w1) as [now2 w2]. cbn [fst]. split.
        -- intros [= <-]. split_and!; [by intros ->|done|done].
        -- intros (_ & E & _). f_equal. apply Hinj. by rewrite <- Es.
      * split; [done|]. by intros (_ & _ & ?).
    + rewrite Hn. split; [done|]. intros (_ & E & _). by apply Hs in E.
Qed.

(** C3. Authenticity of delivered data: on a live session the receive thread
    hands [p] to the consumer exactly when the packet is the encryption of the
    non-empty [p] under the session's receiving key and the packet's counter,
    and the replay window accepts that counter. *)
Theorem recv_delivers_exactly tun t received w peer r p :
  find_session tun (t_receiver_index t) = (peer, Some r) ->
  let s := get_sess tun r in
  let c := take (Z.to_nat (received - sizeof_WgTransport)) (encrypted_data t) in
  key_ok (receiving_key s) -> text_ok c -> 16 <= received - sizeof_WgTransport ->
  Z.of_nat (length c) = received - sizeof_WgTransport ->
  sub64 (wg_time_now w).1 (last_handshake s) < REJECT_NS ->
  (recv_transport tun t received w).1.1 = Some p <->
    p <> [] /\ c = wg_seal (receiving_key s) (t_counter t) [] p /\
    (wg_counter_validate (replay s) (t_counter t)).1 = true.
Proof. apply recv_delivers. Qed.

(** What both ends must hold for the sender's next packet to get through. *)
Record carries (S R : WgTunnel) (peer : option nat) (r : sess_ref) (wr : WLD) : Prop := {
  cy_found : find_session R (remote_index (session S)) = (peer, Some r);
  cy_key : receiving_key (get_sess R r) = sending_key (session S);
  cy_key_ok : key_ok (sending_key (session S));
  cy_index : is_u32 (remote_index (session S));
  cy_counter : is_u64 (sending_counter (session S));
  cy_fresh : (wg_counter_validate (replay (get_sess R r)) (sending_counter (session S))).1 = true;
  cy_live : sub64 (wg_time_now wr).1 (last_handshake (get_sess R r)) < REJECT_NS
}.

(** C2. Data arrives: when the sender's session is valid and not expired and the
    receiver holds the matching session, [wg_send] returns the length, puts one
    packet on the relay and takes one counter, and the receive thread that gets
    this packet hands exactly the bytes sent to its consumer. *)
Theorem send_then_receive S R peer r ws ws1 wr data :
  valid (session S) = true -> wg_session_expired S ws = (false, ws1) -> relay_installed ws1 = true ->
  carries S R peer r wr -> is_bytes data -> data <> [] ->
  packet_size (Z.of_nat (length data)) <= WG_MAX_PACKET_SIZE ->
  exists packet S' ws2,
    wg_send S data ws = (Z.of_nat (length data), S', ws2) /\
    ws2 = (wg_time_now (relay_call None packet ws1)).2 /\
    session S' = take_counter (session S) /\
    (recv_transport R (transport_of_bytes packet) (Z.of_nat (length packet)) wr).1.1 = Some data.
Proof.
  intros Hv He Hr C Hb Hd Hs. assert (text_ok data) as Ht.
  { split; [done|]. unfold packet_size, sizeof_WgTransport, WG_AEAD_TAG_LEN, WG_MAX_PACKET_SIZE in Hs. lia. }
  destruct (packet_parse (session S) data) as [E1 E2]; [apply C|done|apply C|apply C|].
  exists (transport_packet (session S) data).
  unfold wg_send. rewrite Hv, He. cbn [negb]. destruct (Z.ltb_spec WG_MAX_PACKET_SIZE (packet_size (Z.of_nat (length data)))); [lia|].
  unfold wg_socket_send. rewrite Hr. destruct (Z.leb_spec 0 (Z.of_nat (length (transport_packet (session S) data)))); [|lia].
  destruct (wg_time_now (relay_call None (transport_packet (session S) data) ws1)) as [now ws2].
  eexists _, ws2. split; [done|]. split; [done|]. split; [done|].
  rewrite E1, E2. unfold packet_size, sizeof_WgTransport, WG_AEAD_TAG_LEN, WG_MAX_PACKET_SIZE in *.
  set (n := Z.of_nat (length data)) in *.
  assert (take (Z.to_nat (16 + n + 16 - 16)) (wg_seal (sending_key (session S)) (sending_counter (session S)) [] data) =
    wg_seal (sending_key (session S)) (sending_counter (session S)) [] data) as Htk.
  { apply take_ge. rewrite length_seal. lia. }
  apply (recv_delivers R _ _ wr peer r); cbn [t_receiver_index t_counter encrypted_data]; unfold sizeof_WgTransport; rewrite ?Htk.
  - apply C.
  - rewrite (cy_key _ _ _ _ _ C). apply C.
  - split; [by apply is_bytes_seal|rewrite length_seal; lia].
  - lia.
  - rewrite length_seal. lia.
  - apply C.
  - split; [done|]. rewrite (cy_key _ _ _ _ _ C). split; [done|apply C].
Qed.

(** ** Counters and limits *)

(** [wg_send] refuses a session that has reached the age or the message limit
    of the protocol: it returns [WG_ERR_NOT_CONNECTED], sends nothing and leaves
    the tunnel as it is. *)
Theorem send_refused_after_limit tun data w :
  valid (session tun) = true ->
  REJECT_NS <= sub64 (wg_time_now w).1 (last_handshake (session tun)) \/
    WG_REJECT_AFTER_MESSAGES <= sending_counter (session tun) ->
  wg_send tun data w = (WG_ERR_NOT_CONNECTED, tun, (wg_time_now w).2).
Proof.
  intros Hv Hl. unfold wg_send, wg_session_expired. rewrite Hv. cbn [negb].
  destruct (wg_time_now w) as [now w']. cbn [fst snd] in *.
  destruct (Z.leb_spec REJECT_NS (sub64 now (last_handshake (session tun)))),
    (Z.leb_spec WG_REJECT_AFTER_MESSAGES (sending_counter (session tun))); (done || lia).
Qed.

(** The send path to a peer has no such check: a connected peer's session
    carries a packet however old it is, with the next counter, where [wg_send]
    would refuse. *)
Theorem peer_send_ignores_age tun i data w p :
  peers tun !! i = Some p -> connected p = true -> valid (p_session p) = true -> relay_installed w = true ->
  packet_size (Z.of_nat (length data)) <= WG_MAX_PACKET_SIZE ->
  exists tun' w', wg_send_to_peer tun i data w = (Z.of_nat (length data), tun', w') /\
    w' = (wg_time_now (relay_call (Some (relay_hash p)) (transport_packet (p_session p) data) w)).2 /\
    p_session (get_peer tun' i) = take_counter (p_session p).
Proof.
  intros Hp Hc Hv Hr Hs. pose proof (lookup_lt_Some _ _ _ Hp) as Hlt.
  unfold wg_send_to_peer, get_peer. rewrite Hp. change (default zero_peer (Some p)) with p. rewrite Hc, Hv. cbn [negb orb].
  destruct (Z.ltb_spec WG_MAX_PACKET_SIZE (packet_size (Z.of_nat (length data)))); [lia|].
  unfold wg_socket_send_to. rewrite Hr. set (pk := transport_packet _ _).
  destruct (Z.leb_spec 0 (Z.of_nat (length pk))); [|lia].
  destruct (wg_time_now _) as [now w'] eqn:Ew. eexists _, w'. split; [done|]. split; [done|].
  fold (get_peer (upd_peer (upd_peer tun i (fun p => p <| p_session := take_counter (p_session p) |>)) i
    (fun p => p <| p_last_sent := now |>)) i).
  rewrite !get_upd_peer by (cbn; rewrite ?length_alter; done). unfold get_peer. by rewrite Hp.
Qed.

Lemma zero_replay_fresh c : 0 <= c -> (wg_counter_validate zero_replay c).1 = fresh ∅ c.
Proof. intros Hc. apply (validate_fresh replay_zero ∅ c); [apply remembers_zero|apply exact_zero|done|cbn; lia]. Qed.

(** ** What the receive path lets through *)

(** A packet of 32 bytes, the size of an empty payload, is never decrypted:
    its effect is the same for every counter and every tag, so anyone who knows
    the receiver index of a live session refreshes its receive time. *)
Theorem keepalive_unauthenticated tun t t' w peer r :
  find_session tun (t_receiver_index t) = (peer, Some r) -> t_receiver_index t' = t_receiver_index t ->
  sub64 (wg_time_now w).1 (last_handshake (get_sess tun r)) < REJECT_NS ->
  let len := sizeof_WgTransport + WG_AEAD_TAG_LEN in
  recv_transport tun t len w = recv_transport tun t' len w /\
  (peer = None -> last_received (get_sess (recv_transport tun t len w).1.2 r) = (wg_time_now (wg_time_now w).2).1).
Proof.
  intros Hf Ht Hl len. unfold recv_transport. rewrite Ht, Hf. destruct (wg_time_now w) as [now w1]. cbn [fst snd] in *.
  destruct (Z.leb_spec REJECT_NS (sub64 now (last_handshake (get_sess tun r)))); [lia|].
  change (len - sizeof_WgTransport - WG_AEAD_TAG_LEN =? 0) with true. cbv zeta iota. destruct (wg_time_now w1) as [now2 w2].
  split; [done|]. intros ->. cbn [fst snd]. unfold find_session in Hf. injection Hf as Hp Hs. rewrite Hp in Hs.
  repeat match type of Hs with (if ?b then _ else _) = _ => destruct b end; simplify_eq; done.
Qed.

(** The session of a tunnel that was never established is used as if it
    were: while the clock is below the reject time, a packet for index 0 that is
    encrypted under the all-zero key is delivered. *)
Theorem unestablished_session_delivers tun c p w :
  session tun = zero_session -> wg_find_peer_by_local_index tun 0 = None ->
  (wg_time_now w).1 < REJECT_NS -> 0 <= (wg_time_now w).1 -> 0 <= c < WG_REJECT_AFTER_MESSAGES ->
  text_ok p -> p <> [] -> Z.of_nat (length p) <= 1000 ->
  (recv_transport tun (mkTransport WG_MSG_TRANSPORT [0; 0; 0] 0 c (wg_seal zero_key c [] p))
    (packet_size (Z.of_nat (length p))) w).1.1 = Some p.
Proof.
  intros Hs Hp Ht Ht0 Hc [Hpb Hpl] Hne Hl.
  assert (find_session tun 0 = (None, Some TunCur)) as Hf by (unfold find_session; by rewrite Hp, Hs).
  set (n := Z.of_nat (length p)) in *.
  assert (take (Z.to_nat (packet_size n - sizeof_WgTransport)) (wg_seal zero_key c [] p) = wg_seal zero_key c [] p) as Htk.
  { apply take_ge. rewrite length_seal. unfold packet_size, sizeof_WgTransport, WG_AEAD_TAG_LEN. lia. }
  apply (recv_delivers tun _ _ w None TunCur); cbn [t_receiver_index t_counter encrypted_data get_sess]; rewrite ?Htk, ?Hs;
    cbn [receiving_key zero_session last_handshake replay]; unfold packet_size, sizeof_WgTransport, WG_AEAD_TAG_LEN.
  - done.
  - split; [apply is_bytes_replicate, is_u8_0|apply length_replicate].
  - split; [by apply is_bytes_seal|rewrite length_seal; lia].
  - lia.
  - rewrite length_seal. lia.
  - unfold sub64. rewrite Z.sub_0_r, u64_small; [done|]. unfold is_u64, REJECT_NS, WG_REJECT_AFTER_TIME, NS in *. lia.
  - split; [done|]. split; [done|]. rewrite zero_replay_fresh by lia. unfold fresh.
    rewrite (proj2 (Z.ltb_lt _ _)) by lia. done.
Qed.
End transport.

(** ** Nonces *)

Section nonces.
Context `{NeonBuild} `{Scratch} (P : Platform) `{X25519}.
#[local] Opaque wg_aead_encrypt.

(** [wg_send] on each of [ds] in turn, on the platform that logs the datagrams. *)
Definition send_all (tun : WgTunnel) (ds : list (list Z)) (w : @WLD (logged P)) : WgTunnel * @WLD (logged P) :=
  fold_left (fun '(tun, w) d => let '(_, tun, w) := @wg_send _ _ (logged P) tun d w in (tun, w)) ds (tun, w).

(** A transport packet as the protocol has it: the header, the index, the counter and
    the text sealed under that counter. *)
Definition wire_packet (s : WgSession) (c : Z) (d : list Z) : list Z :=
  transport_bytes (mkTransport WG_MSG_TRANSPORT [0; 0; 0] (remote_index s) c (wg_seal (sending_key s) c [] d)).

(** The packets of [ds] under the counters from [c] on, each in [tries] copies. *)
Fixpoint wire_packets (s : WgSession) (c : Z) (ds : list (list Z * nat)) : list (list Z) :=
  match ds with [] => [] | (d, tries) :: ds => replicate tries (wire_packet s c d) ++ wire_packets s (c + 1) ds end.

Lemma wire_packet_counter s c d : is_u32 (remote_index s) -> is_u64 c -> t_counter (transport_of_bytes (wire_packet s c d)) = c.
Proof.
  intros Hr Hc. unfold wire_packet. match goal with |- context [transport_bytes ?m] =>
    destruct (transport_of_transport_bytes m) as [E _]; [done|done|done|] end. by rewrite E.
Qed.

Lemma wire_packets_take s c ds : wire_packets (take_counter s) c ds = wire_packets s c ds.
Proof.
  revert c. induction ds as [|[d n] ds IH]; intros c; cbn [wire_packets]; [done|]. rewrite IH.
  unfold wire_packet. reflexivity.
Qed.
#[local] Opaque wire_packet.

Lemma wire_packets_in s c ds p : p ∈ wire_packets s c ds ->
  exists j d, p = wire_packet s (c + Z.of_nat j) d /\ (j < length ds)%nat /\ fst <$> ds !! j = Some d.
Proof.
  revert c. induction ds as [|[d n] ds IH]; intros c; cbn [wire_packets]; [by intros ?%elem_of_nil|].
  intros [[-> _]%elem_of_replicate|Hp]%elem_of_app; [exists 0%nat, d; rewrite Z.add_0_r; split_and!; [done|cbn; lia|done]|].
  destruct (IH _ Hp) as (j & d' & -> & Hj & Hd). exists (S j), d'.
  replace (c + Z.of_nat (S j)) with (c + 1 + Z.of_nat j) by lia. split_and!; [done|cbn; lia|done].
Qed.

(** One call: refused, or one packet under the current counter. *)
Lemma wg_send_log tun d w log :
  key_ok (sending_key (session tun)) -> is_bytes d ->
  let '(_, tun', w') := @wg_send _ _ (logged P) tun d (w, log) in
  (session tun' = session tun /\ w'.2 = log) \/
  (session tun' = take_counter (session tun) /\ sending_counter (session tun) < WG_REJECT_AFTER_MESSAGES /\
   exists k, (1 <= k <= 10)%nat /\ w'.2 = log ++ replicate k (wire_packet (session tun) (sending_counter (session tun)) d)).
Proof.
  intros Hk Hd. unfold wg_send, wg_session_expired. destruct (valid (session tun)); cbn [negb]; [|by left].
  change (@wg_time_now (logged P) (w, log)) with (let '(t, w') := @arm_ns P w in (t, (w', log))).
  destruct (@arm_ns P w) as [now w1].
  destruct (Z.leb_spec REJECT_NS (sub64 now (last_handshake (session tun)))),
    (Z.leb_spec WG_REJECT_AFTER_MESSAGES (sending_counter (session tun))); cbn [orb]; try (by left).
  destruct (Z.ltb_spec WG_MAX_PACKET_SIZE (packet_size (Z.of_nat (length d)))) as [|Hs]; [by left|].
  assert (text_ok d) as Ht.
  { split; [done|]. unfold packet_size, sizeof_WgTransport, WG_AEAD_TAG_LEN, WG_MAX_PACKET_SIZE in Hs. lia. }
  assert (transport_packet (session tun) d = wire_packet (session tun) (sending_counter (session tun)) d) as ->.
  { unfold transport_packet. by rewrite encrypt_seal by (done || apply text_nil). }
  set (t1 := tun <| session := _ |>). set (pk := wire_packet _ _ _).
  destruct (socket_send_log P t1 pk w1 log) as (k & w' & E & Hk').
  destruct (@wg_socket_send (logged P) t1 pk (w1, log)) as [sent w2]. cbn [snd] in E. subst w2.
  destruct (0 <=? sent).
  - change (@wg_time_now (logged P) (w', log ++ replicate k pk)) with
      (let '(t, u) := @arm_ns P w' in (t, (u, log ++ replicate k pk))).
    destruct (@arm_ns P w') as [now' w3]. right. split_and!; [done|done|by exists k].
  - right. split_and!; [done|done|by exists k].
Qed.

Lemma send_all_log ds tun w log :
  key_ok (sending_key (session tun)) -> Forall is_bytes ds -> 0 <= sending_counter (session tun) ->
  exists sent : list (list Z * nat), map fst sent `sublist_of` ds /\ Forall (fun e => (1 <= e.2 <= 10)%nat) sent /\
    (send_all tun ds (w, log)).2.2 = log ++ wire_packets (session tun) (sending_counter (session tun)) sent /\
    (sent <> [] -> sending_counter (session tun) + Z.of_nat (length sent) <= WG_REJECT_AFTER_MESSAGES).
Proof.
  revert tun w log. induction ds as [|d ds IH]; intros tun w log Hk Hd Hc.
  { exists []. rewrite app_nil_r. by split_and!. }
  apply Forall_cons in Hd as [Hd Hds]. pose proof (wg_send_log tun d w log Hk Hd) as Hl. unfold send_all in *. cbn [fold_left].
  destruct (@wg_send _ _ (logged P) tun d (w, log)) as [[r tun'] [w' log']]. cbn [snd] in Hl.
  destruct Hl as [[Es ->]|(Es & Hlt & k & Hk' & ->)].
  - destruct (IH tun' w' log) as (sent & H1' & H2' & H3' & H4'); [by rewrite Es|done|by rewrite Es|]. rewrite Es in H3', H4'.
    exists sent. split_and!; try done. by apply sublist_cons.
  - assert (sending_counter (session tun') = sending_counter (session tun) + 1) as Ec.
    { rewrite Es. cbn. unfold add64. apply u64_small.
      unfold is_u64, WG_REJECT_AFTER_MESSAGES, UINT64_MAX, WG_COUNTER_WINDOW_SIZE in *. lia. }
    destruct (IH tun' w' (log ++ replicate k (wire_packet (session tun) (sending_counter (session tun)) d)))
      as (sent & H1' & H2' & H3' & H4'); [by rewrite Es|done|lia|].
    exists ((d, k) :: sent). split_and!.
    + by apply sublist_skip.
    + by constructor.
    + rewrite H3', <- app_assoc, Ec, Es, wire_packets_take. done.
    + intros _. cbn [length]. destruct sent; [cbn; lia|]. specialize (H4' ltac:(done)). lia.
Qed.

(** C10. No nonce is used twice.  Whatever the caller passes to [wg_send] one call
    after the other, and whatever the socket or the relay answers, the datagrams handed to
    them are, in order, transport packets of the session whose counter field and whose
    encryption nonce are the same number; the numbers are consecutive from the
    counter of the session on and below the message limit, so the 64-bit counter does
    not wrap.  A packet that the socket refuses is offered at most ten times, and two
    datagrams with the same counter are the same packet. *)
Theorem send_nonces_unique tun ds w :
  let s := session tun in
  key_ok (sending_key s) -> is_u32 (remote_index s) -> 0 <= sending_counter s -> Forall is_bytes ds ->
  let log := (send_all tun ds (w, [])).2.2 in
  (exists sent : list (list Z * nat), map fst sent `sublist_of` ds /\ Forall (fun e => (1 <= e.2 <= 10)%nat) sent /\
    log = wire_packets s (sending_counter s) sent /\
    (sent <> [] -> sending_counter s + Z.of_nat (length sent) <= WG_REJECT_AFTER_MESSAGES)) /\
  (forall p p', p ∈ log -> p' ∈ log ->
    t_counter (transport_of_bytes p) = t_counter (transport_of_bytes p') -> p = p').
Proof.
  intros s Hk Hr Hc Hd log. destruct (send_all_log ds tun w [] Hk Hd Hc) as (sent & H1' & H2' & H3' & H4').
  fold log s in H3', H4'. cbn [app] in H3'. split; [by exists sent|]. rewrite H3'. intros p p' Hp Hp' E.
  assert (sent <> []) as Hne by (intros ->; by apply elem_of_nil in Hp). specialize (H4' Hne).
  apply wire_packets_in in Hp as (j & d & -> & Hj & Ed), Hp' as (j' & d' & -> & Hj' & Ed').
  assert (forall j, (j < length sent)%nat -> is_u64 (sending_counter s + Z.of_nat j)) as Hu.
  { intros i Hi. unfold is_u64, WG_REJECT_AFTER_MESSAGES, UINT64_MAX, WG_COUNTER_WINDOW_SIZE in *. lia. }
  rewrite !wire_packet_counter in E by auto. assert (j = j') as -> by lia. congruence.
Qed.
End nonces.

(** ** Handshakes of the tunnel *)

Section connect.
Context `{NeonBuild} `{Scratch} `{Platform} `{X25519}.
#[local] Opaque wg_handshake_init_process consume_response build_init wg_kdf2 wg_mac wg_compute_mac1 transport_packet.

(** What a completed response leaves. *)
Lemma response_ok_state tun msg st w tun' st' w' :
  wg_handshake_response tun msg st w = (WG_OK, tun', st', w') ->
  valid (session tun') = true /\ peers tun' = peers tun /\ peer_count tun' = peer_count tun /\
  local_index (session tun') = local_index (session tun) /\ old_local_index (session tun') = old_local_index (session tun) /\
  (valid (session tun) = true ->
    prev_session tun' = (session tun) <| remote_index := r_sender_index msg |> <| local_index := old_local_index (session tun) |>).
Proof.
  unfold wg_handshake_response. destruct (r_type msg =? WG_MSG_HANDSHAKE_RESPONSE); cbn [negb]; [|by intros [=]].
  destruct (r_receiver_index msg =? local_index (session tun)); cbn [negb]; [|by intros [=]].
  destruct (consume_response _ _ _) as [[] st1]; cbn [negb]; [|by intros [=]].
  destruct (wg_kdf2 _ _) as [k1 k2]. destruct (wg_time_now w) as [now w1]. intros [= <- <- <-].
  cbn. destruct (valid (session tun)); done.
Qed.

(** After a rekey the previous session is out of reach: its index, kept in
    [prev_session], is also the tunnel's [old_local_index], which is looked up
    first, so packets still in flight under the old keys are decrypted with the
    new ones. *)
Theorem rekey_shadows_previous_session tun msg st w tun' st' w' :
  valid (session tun) = true -> wg_handshake_response tun msg st w = (WG_OK, tun', st', w') ->
  let old := old_local_index (session tun) in
  wg_find_peer_by_local_index tun' old = None ->
  valid (prev_session tun') = true /\ local_index (prev_session tun') = old /\
  receiving_key (prev_session tun') = receiving_key (session tun) /\
  find_session tun' old = (None, Some TunCur).
Proof.
  intros Hv E old Hp. destruct (response_ok_state _ _ _ _ _ _ _ E) as (_ & _ & _ & _ & Ho & Hprev).
  specialize (Hprev Hv). rewrite Hprev. split; [exact Hv|]. split; [done|]. split; [done|].
  unfold find_session. rewrite Hp, Ho. fold old. rewrite Z.eqb_refl. by destruct (old =? _).
Qed.

Lemma init_effect t w e t' m s w' :
  wg_handshake_init t w = (e, t', m, s, w') ->
  e = WG_OK /\ local_index (session t') = i_sender_index m /\ old_local_index (session t') = local_index (session t) /\
  receiving_key (session t') = receiving_key (session t) /\ valid (session t') = valid (session t) /\
  prev_session t' = prev_session t /\ peers t' = peers t /\ peer_count t' = peer_count t /\
  socket_fd t' = socket_fd t /\ static_public t' = static_public t.
Proof.
  intros E. unfold wg_handshake_init in E. destruct (build_init t (peer_public t) w) as [[msg st] w1].
  destruct (wg_time_now w1) as [now w2].
  repeat match type of E with (if ?b then _ else _) = _ => destruct b | context [if ?b then _ else _] => destruct b end;
    injection E as <- <- <- <- <-; done.
Qed.

(** A rekey that needs a second attempt loses the live session: each
    [wg_handshake_init] takes the index of the attempt before as the old one, so
    packets of the session that is still valid find no session at all and are
    dropped, unless the index happens to be drawn again. *)
Theorem retry_drops_live_session tun w e1 tun1 m1 s1 w1 e2 tun2 m2 s2 w2 :
  wg_handshake_init tun w = (e1, tun1, m1, s1, w1) ->
  wg_handshake_init tun1 w1 = (e2, tun2, m2, s2, w2) ->
  let live := local_index (session tun) in
  live <> i_sender_index m1 -> live <> i_sender_index m2 ->
  valid (prev_session tun) = false -> wg_find_peer_by_local_index tun live = None ->
  valid (session tun2) = valid (session tun) /\ receiving_key (session tun2) = receiving_key (session tun) /\
  find_session tun live = (None, Some TunCur) /\ find_session tun1 live = (None, Some TunCur) /\
  find_session tun2 live = (None, None).
Proof.
  intros E1 E2 live N1 N2 Hpv Hp.
  destruct (init_effect _ _ _ _ _ _ _ E1) as (_ & L1 & O1 & K1 & V1 & P1 & Q1 & C1 & _ & _).
  destruct (init_effect _ _ _ _ _ _ _ E2) as (_ & L2 & O2 & K2 & V2 & P2 & Q2 & C2 & _ & _).
  assert (wg_find_peer_by_local_index tun1 live = None) as Hp1.
  { unfold wg_find_peer_by_local_index, first_peer in *. by rewrite Q1, C1. }
  assert (wg_find_peer_by_local_index tun2 live = None) as Hp2.
  { unfold wg_find_peer_by_local_index, first_peer in *. by rewrite Q2, C2, Q1, C1. }
  split; [congruence|]. split; [congruence|]. unfold find_session. rewrite Hp, Hp1, Hp2, L1, L2, O1, O2, L1, P2, P1, Hpv.
  fold live. rewrite Z.eqb_refl. rewrite (proj2 (Z.eqb_neq _ _) N1), (proj2 (Z.eqb_neq _ _) N2). done.
Qed.

(** ** [wg_connect] *)

(** A platform whose receive calls return what [P] says of them. *)
Definition receives (P : Z -> list Z -> Prop) : Prop :=
  forall tun n ms w, let '(received, data, _, _) := wg_socket_recv tun n ms w in P received data.

Lemma connect_wait_receives P n tun w :
  receives P -> P WG_ERR_TIMEOUT [] -> let '(received, data, _, _) := connect_wait n tun w in P received data.
Proof.
  intros HP H0'. revert tun w. induction n as [|n IH]; intros tun w; cbn [connect_wait]; [done|].
  pose proof (HP tun 256%nat 10 w) as HPw. destruct (wg_socket_recv tun 256 10 w) as [[[r d] t] w1].
  destruct (other_threads t w1) as [t2 w2].
  destruct (0 <=? r); [done|]. destruct (negb (r =? WG_ERR_TIMEOUT)); [done|]. destruct (pending_cookie t2); [done|apply IH].
Qed.

(** An attempt that reports success without an initiation from the peer left a
    valid session. *)
Lemma attempt_ok tun w b tun' w' :
  receives (fun _ data => rd data 0 <> WG_MSG_HANDSHAKE_INIT) ->
  connect_attempt tun w = (b, WG_OK, tun', w') -> b = true /\ valid (session tun') = true.
Proof.
  intros HP. unfold connect_attempt. destruct (wg_handshake_init tun w) as [[[[e t1] m] st] w1] eqn:E.
  destruct (init_effect _ _ _ _ _ _ _ E) as (-> & _). cbn [negb Z.eqb WG_OK].
  destruct (wg_socket_send _ _ _) as [sent w2]. destruct (sent <? 0); [by intros [=]|].
  destruct (wg_jitter_ms w2) as [j w3].
  match goal with |- context [connect_wait ?n ?t ?u] => pose proof (connect_wait_receives _ n t u HP) as Hr;
    destruct (connect_wait n t u) as [[[r d] t2] w4] end.
  specialize (Hr ltac:(done)). destruct (pending_cookie t2); [by intros [=]|]. destruct (r <? 0); [by intros [=]|].
  rewrite (proj2 (Z.eqb_neq _ _) Hr). cbn [andb]. destruct (r <? sizeof_WgHandshakeResponse); [by intros [=]|].
  destruct (wg_handshake_response _ _ _ _) as [[[e t3] st'] w5] eqn:Er. intros [= <- -> <- <-].
  split; [done|]. by destruct (response_ok_state _ _ _ _ _ _ _ Er).
Qed.

Lemma loop_ok n e tun w tun' w' :
  receives (fun _ data => rd data 0 <> WG_MSG_HANDSHAKE_INIT) -> e <> WG_OK ->
  connect_loop n e tun w = (WG_OK, tun', w') -> valid (session tun') = true.
Proof.
  intros HP. revert e tun w. induction n as [|n IH]; intros e tun w He; cbn [connect_loop].
  - intros [= -> <- <-]. done.
  - destruct (connect_attempt tun w) as [[[b e1] t1] w1] eqn:E. destruct b.
    + intros [= -> <- <-]. by eapply attempt_ok.
    + intros Hl. apply (IH e1 t1 w1); [|done]. intros ->. by destruct (attempt_ok _ _ _ _ _ HP E).
Qed.

(** C13. [wg_connect] keeps its promise when no initiation of the other side
    comes in while it waits: if it returns [WG_OK], the tunnel has a valid
    session. *)
Theorem connect_establishes tun w tun' w' :
  receives (fun _ data => rd data 0 <> WG_MSG_HANDSHAKE_INIT) ->
  wg_connect tun w = (WG_OK, tun', w') -> valid (session tun') = true.
Proof.
  intros HP. unfold wg_connect. destruct (if socket_fd tun <? 0 then _ else _) as [[e t] w1].
  destruct (negb (e =? WG_OK)) eqn:En; [intros [= -> <- <-]; by rewrite Z.eqb_refl in En|].
  destruct (connect_loop _ _ _ _) as [[e2 t2] w2] eqn:El. destruct (Z.eqb_spec e2 WG_OK) as [->|Hn]; cbn [negb]; [|by intros [=]].
  apply loop_ok in El; [|done|done]. unfold wg_send_keepalive. destruct (wg_socket_send _ _ _) as [s w3].
  destruct (wg_time_now w3) as [now w4]. intros [= <- <-]. exact El.
Qed.

Lemma wait_rounds_pos x : exists n, wait_rounds (WG_REKEY_TIMEOUT * 1000 + x mod 334) = S n.
Proof.
  pose proof (Z.mod_pos_bound x 334 ltac:(lia)). unfold wait_rounds, WG_REKEY_TIMEOUT.
  exists (pred (Z.to_nat ((5 * 1000 + x mod 334 + 9) / 10))).
  assert (1 <= (5 * 1000 + x mod 334 + 9) / 10) by (apply Z.div_le_lower_bound; lia). lia.
Qed.

(** Nothing happens in the waits when the scheduler runs no other thread. *)
Lemma other_threads_none t w : scheduled w = ([], w) -> other_threads t w = (t, w).
Proof. intros E. unfold other_threads. rewrite E. by destruct (running t). Qed.

(** A refused initiation ends an attempt with [err] still [WG_OK]. *)
Lemma attempt_refused bad tun w :
  (forall w, relay_installed w = true) -> (forall n t w, (ring_recv n t w).1 = (sizeof_WgHandshakeInit, bad)) ->
  (forall w, scheduled w = ([], w)) -> rd bad 0 = WG_MSG_HANDSHAKE_INIT ->
  wg_compute_mac1 (static_public tun) (take (148 - 2 * 16) (init_bytes (init_of_bytes bad))) <> i_mac1 (init_of_bytes bad) ->
  exists tun' w', connect_attempt tun w = (false, WG_OK, tun', w') /\ valid (session tun') = valid (session tun) /\
    static_public tun' = static_public tun.
Proof.
  intros Hr Hg Ho Ht Hm. unfold connect_attempt. destruct (wg_handshake_init tun w) as [[[[e t1] m] st] w1] eqn:E.
  destruct (init_effect _ _ _ _ _ _ _ E) as (-> & _ & _ & _ & Hv & _ & _ & _ & _ & Hs). cbn [negb Z.eqb WG_OK].
  unfold wg_socket_send. rewrite Hr. destruct (Z.ltb_spec (Z.of_nat (length (init_bytes m))) 0); [lia|].
  unfold wg_jitter_ms. destruct (wg_random_index _) as [x w3].
  destruct (wait_rounds_pos x) as [n ->].
  cbn [connect_wait]. unfold wg_socket_recv. rewrite Hr. specialize (Hg 256%nat 10 w3).
  destruct (ring_recv 256 10 w3) as [[r d] w4]. injection Hg as -> ->. rewrite other_threads_none by done.
  change (0 <=? sizeof_WgHandshakeInit) with true. cbn [pending_cookie]. rewrite Ht.
  rewrite (process_refused _ (init_of_bytes bad)) by (cbn; by rewrite Hs).
  eexists _, _. split; [reflexivity|]. done.
Qed.

(** A refused initiation makes [wg_connect] report a connection it does not
    have: the error of the passive handshake is dropped, so when each attempt
    gets an initiation whose MAC does not match, [wg_connect] returns [WG_OK]
    with the session as invalid as before. *)
Theorem connect_reports_refused bad tun w :
  (forall w, relay_installed w = true) -> (forall n t w, (ring_recv n t w).1 = (sizeof_WgHandshakeInit, bad)) ->
  (forall w, scheduled w = ([], w)) -> rd bad 0 = WG_MSG_HANDSHAKE_INIT -> 0 <= socket_fd tun ->
  wg_compute_mac1 (static_public tun) (take (148 - 2 * 16) (init_bytes (init_of_bytes bad))) <> i_mac1 (init_of_bytes bad) ->
  exists tun' w', wg_connect tun w = (WG_OK, tun', w') /\ valid (session tun') = valid (session tun).
Proof.
  intros Hr Hg Ho Ht Hfd Hm. unfold wg_connect. destruct (Z.ltb_spec (socket_fd tun) 0); [lia|]. cbn [negb Z.eqb WG_OK].
  assert (forall n e t u, static_public t = static_public tun -> (0 < n)%nat -> exists t' u', connect_loop n e t u = (WG_OK, t', u') /\
    valid (session t') = valid (session t)) as Hloop.
  { induction n as [|n IH]; intros e t u Hs Hn; [lia|]. cbn [connect_loop].
    destruct (attempt_refused bad t u) as (t1 & u1 & -> & Hv & Hs1); [done|done|done|done|by rewrite Hs|].
    destruct n as [|n]; [by exists t1, u1|].
    destruct (IH WG_OK t1 u1) as (t' & u' & -> & Hv'); [congruence|lia|]. exists t', u'. split; [done|congruence]. }
  destruct (Hloop WG_MAX_TIMER_HANDSHAKES WG_ERR_TIMEOUT tun w) as (t & u & -> & Hv); [done|unfold WG_MAX_TIMER_HANDSHAKES; lia|].
  cbn [negb Z.eqb WG_OK]. unfold wg_send_keepalive. destruct (wg_socket_send _ _ _) as [s w3]. destruct (wg_time_now w3) as [now w4].
  eexists _, _. split; [reflexivity|]. exact Hv.
Qed.
End connect.

(** ** Witnesses *)

#[local] Instance witness_build : NeonBuild := true.
#[local] Existing Instances demo_scratch demo_platform demo_x25519.

Definition demo_world0 : demo_world := mkDemo 0 [].
Definition demo_session : WgSession :=
  zero_session <| valid := true |> <| sending_key := replicate 32 1 |> <| receiving_key := replicate 32 2 |>
    <| local_index := 5 |> <| remote_index := 7 |>.
Definition demo_sender : WgTunnel := zero_tunnel <| session := demo_session |>.
Definition demo_receiver : WgTunnel :=
  zero_tunnel <| session := zero_session <| valid := true |> <| receiving_key := replicate 32 1 |> <| local_index := 7 |> |>.
Definition demo_peer : WgPeer :=
  zero_peer <| configured := true |> <| connected := true |> <| p_session := demo_session |>.

Lemma recv_delivers_exactly_witness :
  let t := mkTransport WG_MSG_TRANSPORT [0; 0; 0] 7 3 (replicate 17 9) in
  let s := get_sess demo_receiver TunCur in
  (recv_transport demo_receiver t 33 demo_world0).1.1 = Some [4] <->
  [4] <> [] /\ replicate 17 9 = wg_seal (receiving_key s) 3 [] [4] /\ (wg_counter_validate (replay s) 3).1 = true.
Proof.
  intros t s. apply (recv_delivers_exactly (H1 := demo_platform) demo_receiver t 33 demo_world0 None TunCur [4]).
  - reflexivity.
  - apply (bool_decide_unpack _). vm_compute. exact I.
  - apply (bool_decide_unpack _). vm_compute. exact I.
  - discriminate.
  - reflexivity.
  - reflexivity.
Defined.

Lemma demo_carries : carries demo_sender demo_receiver None TunCur demo_world0.
Proof.
  split; try reflexivity; try (apply (bool_decide_unpack _); vm_compute; exact I).
Qed.

Lemma send_then_receive_witness :
  exists packet S' ws2,
    wg_send demo_sender [104; 105] demo_world0 = (2, S', ws2) /\
    ws2 = (@wg_time_now demo_platform (@relay_call demo_platform None packet (mkDemo 1 []))).2 /\
    session S' = take_counter (session demo_sender) /\
    (recv_transport demo_receiver (transport_of_bytes packet) (Z.of_nat (length packet)) demo_world0).1.1 = Some [104; 105].
Proof.
  apply (send_then_receive (H1 := demo_platform) demo_sender demo_receiver None TunCur demo_world0 (mkDemo 1 []) demo_world0 [104; 105]).
  - reflexivity.
  - reflexivity.
  - reflexivity.
  - exact demo_carries.
  - apply (bool_decide_unpack _). vm_compute. exact I.
  - discriminate.
  - discriminate.
Defined.

Lemma send_refused_after_limit_witness :
  let tun := demo_sender <| session := demo_session <| sending_counter := WG_REJECT_AFTER_MESSAGES |> |> in
  wg_send tun [1] demo_world0 = (WG_ERR_NOT_CONNECTED, tun, mkDemo 1 []).
Proof.
  intros tun. apply (send_refused_after_limit (H1 := demo_platform) tun [1] demo_world0); [reflexivity|]. right. discriminate.
Defined.

Lemma peer_send_ignores_age_witness :
  let tun := zero_tunnel <| peers := [demo_peer] |> <| peer_count := 1 |> in
  let w := mkDemo (REJECT_NS * 10) [] in
  exists tun' w', wg_send_to_peer tun 0 [1; 2] w = (2, tun', w') /\
    w' = (@wg_time_now demo_platform (@relay_call demo_platform (Some (relay_hash demo_peer))
            (transport_packet (p_session demo_peer) [1; 2]) w)).2 /\
    p_session (get_peer tun' 0) = take_counter (p_session demo_peer).
Proof. intros tun w. apply (peer_send_ignores_age (H1 := demo_platform) tun 0 [1; 2] w demo_peer); (reflexivity || discriminate). Defined.

Lemma demo_log_counters :
  map (fun p => t_counter (transport_of_bytes p)) (send_all demo_platform demo_sender [[1]; [2; 3]; []] (demo_world0, [])).2.2 = [0; 1; 2].
Proof. vm_compute. reflexivity. Qed.

Lemma send_nonces_unique_witness :
  let s := session demo_sender in
  let ds := [[1]; [2; 3]; []] in
  let log := (send_all demo_platform demo_sender ds (demo_world0, [])).2.2 in
  map (fun p => t_counter (transport_of_bytes p)) log = [0; 1; 2] /\
  (exists sent : list (list Z * nat), map fst sent `sublist_of` ds /\ Forall (fun e => (1 <= e.2 <= 10)%nat) sent /\
    log = wire_packets s (sending_counter s) sent /\
    (sent <> [] -> sending_counter s + Z.of_nat (length sent) <= WG_REJECT_AFTER_MESSAGES)) /\
  (forall p p', p ∈ log -> p' ∈ log ->
    t_counter (transport_of_bytes p) = t_counter (transport_of_bytes p') -> p = p').
Proof.
  intros s ds log. split; [exact demo_log_counters|].
  assert (key_ok (sending_key s)) as H1' by (apply (bool_decide_unpack _); vm_compute; exact I).
  assert (is_u32 (remote_index s)) as H2' by (apply (bool_decide_unpack _); vm_compute; exact I).
  assert (0 <= sending_counter s) as H3' by discriminate.
  assert (Forall is_bytes ds) as H4' by (apply (bool_decide_unpack _); vm_compute; exact I).
  exact (send_nonces_unique demo_platform demo_sender ds demo_world0 H1' H2' H3' H4').
Defined.

Lemma keepalive_unauthenticated_witness :
  let t := mkTransport WG_MSG_TRANSPORT [0; 0; 0] 7 3 (replicate 16 9) in
  let t' := mkTransport WG_MSG_TRANSPORT [0; 0; 0] 7 99 (replicate 16 0) in
  recv_transport demo_receiver t 32 demo_world0 = recv_transport demo_receiver t' 32 demo_world0 /\
  (@None nat = None ->
    last_received (get_sess (recv_transport demo_receiver t 32 demo_world0).1.2 TunCur) = 1).
Proof.
  intros t t'. apply (keepalive_unauthenticated (H1 := demo_platform) demo_receiver t t' demo_world0 None TunCur); reflexivity.
Defined.

Lemma unestablished_session_delivers_witness :
  (recv_transport zero_tunnel (mkTransport WG_MSG_TRANSPORT [0; 0; 0] 0 41 (wg_seal zero_key 41 [] [1; 2; 3]))
    (packet_size 3) demo_world0).1.1 = Some [1; 2; 3].
Proof.
  apply (unestablished_session_delivers (H1 := demo_platform) zero_tunnel 41 [1; 2; 3] demo_world0);
    try reflexivity; try discriminate; try (split; (discriminate || reflexivity)).
  apply (bool_decide_unpack _). vm_compute. exact I.
Defined.

(** The indices of two attempts in a row. *)
Definition attempt1 := wg_handshake_init (H1 := demo_platform) demo_sender demo_world0.
Definition attempt2 := wg_handshake_init (H1 := demo_platform) attempt1.1.1.1.2 attempt1.2.

Lemma attempt_indices : i_sender_index attempt1.1.1.2 <> 5 /\ i_sender_index attempt2.1.1.2 <> 5.
Proof.
  split; intros E; [assert ((i_sender_index attempt1.1.1.2 =? 5) = false) as E' by (lazy; reflexivity)
    |assert ((i_sender_index attempt2.1.1.2 =? 5) = false) as E' by (lazy; reflexivity)]; rewrite E in E'; discriminate E'.
Qed.

#[local] Opaque wg_handshake_init wg_handshake_response wg_handshake_init_process respond.

Lemma rekey_shadows_previous_session_witness :
  exists tun msg st w tun' st' w',
    wg_handshake_response tun msg st w = (WG_OK, tun', st', w') /\
    let old := old_local_index (session tun) in
    valid (prev_session tun') = true /\ local_index (prev_session tun') = old /\
    receiving_key (prev_session tun') = receiving_key (session tun) /\ find_session tun' old = (None, Some TunCur).
Proof.
  set (A := demo_A <| session := demo_session |>).
  assert (acquainted A demo_B) as HA by (split; try reflexivity; apply (bool_decide_unpack _); vm_compute; exact I).
  destruct (handshake_agrees demo_platform demo_platform (PlatformLaws0 := demo_net_laws _) (PlatformLaws1 := demo_net_laws _)
    (X25519Laws0 := demo_x25519_laws) A demo_B demo_world0 demo_world0 demo_world0 HA)
    as (A1 & msg & st & w1 & resp & peer & B1 & w2 & A2 & st' & w3 & E1 & _ & E2 & _).
  exists A1, (response_of_bytes (response_bytes resp)), st, demo_world0, A2, st', w3. split; [exact E2|].
  destruct (init_effect _ _ _ _ _ _ _ E1) as (_ & _ & _ & _ & V & _ & _ & C & _).
  apply (rekey_shadows_previous_session (H1 := demo_platform) A1 (response_of_bytes (response_bytes resp)) st demo_world0 A2 st' w3).
  - rewrite V. reflexivity.
  - exact E2.
  - destruct (response_ok_state _ _ _ _ _ _ _ E2) as (_ & _ & C' & _).
    unfold wg_find_peer_by_local_index, first_peer. rewrite C', C. reflexivity.
Defined.

Lemma retry_drops_live_session_witness :
  let tun2 := attempt2.1.1.1.2 in
  valid (session tun2) = true /\ receiving_key (session tun2) = replicate 32 2 /\
  find_session demo_sender 5 = (None, Some TunCur) /\ find_session attempt1.1.1.1.2 5 = (None, Some TunCur) /\
  find_session tun2 5 = (None, None).
Proof.
  destruct attempt_indices as [N1 N2].
  apply (retry_drops_live_session (H1 := demo_platform) demo_sender demo_world0 attempt1.1.1.1.1 attempt1.1.1.1.2 attempt1.1.1.2
    attempt1.1.2 attempt1.2 attempt2.1.1.1.1 attempt2.1.1.1.2 attempt2.1.1.2 attempt2.1.2 attempt2.2).
  - unfold attempt1. by destruct (wg_handshake_init _ _) as [[[[? ?] ?] ?] ?].
  - unfold attempt2. by destruct (wg_handshake_init _ _) as [[[[? ?] ?] ?] ?].
  - exact (not_eq_sym N1).
  - exact (not_eq_sym N2).
  - reflexivity.
  - reflexivity.
Defined.

(** A relay that brings the answer of [demo_B] to the last message sent. *)
Definition reply_of_B (w : demo_world) : Z * list Z :=
  match respond (H1 := demo_platform) demo_B (init_of_bytes (default [] (last (sent_log w)))) (mkDemo 9 []) with
  | (_, Some (resp, _), _, _) =>
      if rd (response_bytes resp) 0 =? WG_MSG_HANDSHAKE_RESPONSE
      then (sizeof_WgHandshakeResponse, response_bytes resp) else (WG_ERR_TIMEOUT, [])
  | _ => (WG_ERR_TIMEOUT, [])
  end.
#[local] Abbreviation net_B := (demo_net reply_of_B).

Lemma reply_not_init w : rd (reply_of_B w).2 0 <> WG_MSG_HANDSHAKE_INIT.
Proof.
  unfold reply_of_B. destruct (respond _ _ _) as [[[e [[resp peer]|]] t] u]; [|discriminate].
  destruct (Z.eqb_spec (rd (response_bytes resp) 0) WG_MSG_HANDSHAKE_RESPONSE) as [E|E]; [|discriminate].
  change (rd (response_bytes resp) 0 <> WG_MSG_HANDSHAKE_INIT). rewrite E. discriminate.
Qed.

Lemma connect_demo : exists tun' w', wg_connect (H1 := net_B) demo_A demo_world0 = (WG_OK, tun', w').
Proof.
  assert (acquainted demo_A demo_B) as HA by (split; try reflexivity; apply (bool_decide_unpack _); vm_compute; exact I).
  destruct (handshake_agrees_later net_B demo_platform (PlatformLaws0 := demo_net_laws _) (PlatformLaws1 := demo_net_laws _)
    (X25519Laws0 := demo_x25519_laws) demo_A demo_B demo_world0 (mkDemo 9 []) HA)
    as (A1 & msg & st & w1 & resp & peer & B1 & w2 & E1 & E2 & Et & E3).
  unfold wg_connect. change (socket_fd demo_A <? 0) with false. cbn [negb Z.eqb WG_OK].
  change WG_MAX_TIMER_HANDSHAKES with 18%nat. cbn [connect_loop]. unfold connect_attempt. rewrite E1. cbn [negb Z.eqb WG_OK].
  unfold wg_socket_send. change (@relay_installed net_B w1) with true. cbv iota.
  destruct (Z.ltb_spec (Z.of_nat (length (init_bytes msg))) 0); [lia|].
  set (w1' := relay_call None (init_bytes msg) w1).
  assert (reply_of_B w1' = (sizeof_WgHandshakeResponse, response_bytes resp)) as Hreply.
  { unfold reply_of_B. change (sent_log w1') with (sent_log w1 ++ [init_bytes msg]). rewrite last_snoc.
    change (default [] (Some (init_bytes msg))) with (init_bytes msg). rewrite E2, Et. reflexivity. }
  unfold wg_jitter_ms. assert (exists x, wg_random_index w1' = (x, demo_tick w1')) as [x ->] by (eexists; reflexivity).
  destruct (wait_rounds_pos x) as [n ->]. cbn [connect_wait]. unfold wg_socket_recv.
  change (@relay_installed net_B (demo_tick w1')) with true. cbv iota.
  change (@ring_recv net_B 256 10 (demo_tick w1')) with (reply_of_B w1', demo_tick (demo_tick w1')). rewrite Hreply.
  rewrite other_threads_none by done. change (0 <=? sizeof_WgHandshakeResponse) with true. cbv iota beta.
  change (pending_cookie (A1 <| pending_cookie := false |>)) with false. rewrite Et.
  change (sizeof_WgHandshakeResponse <? 0) with false. change (sizeof_WgHandshakeResponse <? sizeof_WgHandshakeResponse) with false.
  change (WG_MSG_HANDSHAKE_RESPONSE =? WG_MSG_HANDSHAKE_INIT) with false. cbn [andb].
  match goal with |- context [wg_handshake_response ?t ?m ?s ?u] =>
    destruct (E3 t u eq_refl eq_refl eq_refl) as (A2 & st' & w4 & Hx & _) end.
  rewrite Hx.
  cbn [negb Z.eqb WG_OK]. destruct (wg_send_keepalive A2 w4) as [t u]. eauto.
Qed.

Lemma connect_establishes_witness :
  exists tun' w', wg_connect (H1 := net_B) demo_A demo_world0 = (WG_OK, tun', w') /\ valid (session tun') = true.
Proof.
  destruct connect_demo as (tun' & w' & E). exists tun', w'. split; [exact E|].
  apply (connect_establishes (H1 := net_B) demo_A demo_world0 tun' w').
  - intros tun n ms w. unfold wg_socket_recv. pose proof (reply_not_init w) as Hn.
    change (@relay_installed net_B w) with true. cbv iota. change (@ring_recv net_B n ms w) with (reply_of_B w, demo_tick w).
    destruct (reply_of_B w) as [r d]. exact Hn.
  - exact E.
Defined.

Definition bad_initiation : list Z := 1 :: replicate 147 0.

Lemma connect_reports_refused_witness :
  exists tun' w', wg_connect (H1 := demo_net (fun _ => (sizeof_WgHandshakeInit, bad_initiation))) demo_A demo_world0 = (WG_OK, tun', w') /\
    valid (session tun') = false.
Proof.
  refine (connect_reports_refused (H1 := demo_net (fun _ => (sizeof_WgHandshakeInit, bad_initiation))) bad_initiation demo_A demo_world0 _ _ _ _ _ _).
  - intros w. reflexivity.
  - intros n t w. reflexivity.
  - intros w. reflexivity.
  - reflexivity.
  - discriminate.
  - intros E. apply (f_equal (fun l => rd l 0)) in E. vm_compute in E. discriminate E.
Defined.
