(* ===== verification/Interleave.v ===== *)
(** * Threads that send at the same time (src/wireguard.c, src/wg_noise.c)

    [Wireguard] models a call as one step.  Here the calls that touch the sending half
    of a session run statement by statement, interleaved in any order: [wg_send],
    [wg_send_to_peer], the keepalives with and without [send_mutex], the stores that
    complete a handshake, and the wipe of an old session.  The state is what these calls
    share: the sessions (0 is that of the tunnel, [S i] that of peer [i]), the mutex and
    [send_buffer], with the packets handed to the socket. *)

From stdpp Require Import functions.
From S2P Require Import Prelude Neon Counter Aead Tunnel Platform Noise Wireguard.

#[local] Open Scope Z_scope.

(** ** The calls *)

Inductive op :=
| OpSend (data : list Z)                  (* wg_send *)
| OpSendPeer (i : nat) (data : list Z)    (* wg_send_to_peer *)
| OpKeepalive                             (* wg_rekey: lock, wg_send_keepalive, unlock *)
| OpKeepalivePeer (i : nat)               (* keepalive thread: lock, wg_send_keepalive_to_peer, unlock *)
| OpConnectKeepalive                      (* wg_connect: wg_send_keepalive *)
| OpPassiveKeepalive (i : nat)            (* receive thread: wg_send_keepalive_to_peer *)
| OpInstall (send recv : list Z)          (* wg_handshake_response: the new keys *)
| OpWipe (i : nat).                       (* keepalive thread: crypto_wipe of the session of a peer *)

Definition target (o : op) : nat :=
  match o with
  | OpSend _ | OpKeepalive | OpConnectKeepalive | OpInstall _ _ => 0
  | OpSendPeer i _ | OpKeepalivePeer i | OpPassiveKeepalive i | OpWipe i => S i
  end.
Definition payload (o : op) : list Z :=
  match o with OpSend data | OpSendPeer _ data => data | _ => [] end.
(** The two sends build their packet in the buffer of the tunnel, the keepalives on the stack. *)
Definition in_send_buffer (o : op) : bool := match o with OpSend _ | OpSendPeer _ _ => true | _ => false end.
Definition locks (o : op) : bool :=
  match o with OpSend _ | OpSendPeer _ _ | OpKeepalive | OpKeepalivePeer _ => true | _ => false end.

(** The next statement of a thread. *)
Inductive pc :=
| Idle
| AtValid | AtExpired | AtSize | AtLock
| AtHeader | AtCounter | AtBump | AtEncrypt | AtSend | AtStamp | AtUnlock
| AtKeys | AtReset | AtTime | AtLive | AtReplay
| AtWipe.

Definition entry (o : op) : pc :=
  match o with
  | OpSend _ | OpSendPeer _ _ => AtValid
  | OpKeepalive | OpKeepalivePeer _ => AtLock
  | OpConnectKeepalive | OpPassiveKeepalive _ => AtHeader
  | OpInstall _ _ => AtKeys
  | OpWipe _ => AtWipe
  end.

Record thread := mkThread { at_ : pc; job : op; reg : Z; sent : Z; local_packet : WgTransport }.
#[export] Instance eta_thread : Eta thread := fun r => mkThread (at_ r) (job r) (reg r) (sent r) (local_packet r).

Record packet := mkPacket { to : nat; pk_payload : list Z; pk_bytes : list Z }.

Record shared := mkShared {
  sess : nat -> WgSession; peer_connected : nat -> bool; send_mutex : option nat; send_buffer : WgTransport;
  sent_at : nat -> Z; wire : list packet; threads : list thread
}.
#[export] Instance eta_shared : Eta shared := fun r =>
  mkShared (sess r) (peer_connected r) (send_mutex r) (send_buffer r) (sent_at r) (wire r) (threads r).

#[export] Instance eta_transport : Eta WgTransport := fun r =>
  mkTransport (t_type r) (t_reserved r) (t_receiver_index r) (t_counter r) (encrypted_data r).

Definition set_sess (st : shared) (k : nat) (s : WgSession) : shared := st <| sess := <[k := s]> (sess st) |>.
Definition set_thread (st : shared) (t : nat) (th : thread) : shared := st <| threads := <[t := th]> (threads st) |>.

Section interleave.
Context `{NeonBuild} `{Scratch}.

Definition buffer (st : shared) (th : thread) : WgTransport :=
  if in_send_buffer (job th) then send_buffer st else local_packet th.

(** Thread [t] writes [b] to its packet and goes on at [p]. *)
Definition write_buffer (st : shared) (t : nat) (th : thread) (b : WgTransport) (p : pc) : shared :=
  if in_send_buffer (job th) then set_thread (st <| send_buffer := b |>) t (th <| at_ := p |>)
  else set_thread st t (th <| local_packet := b |> <| at_ := p |>).

(** The stores at the end of [wg_handshake_response]. *)
Definition install_step (st : shared) (t : nat) (th : thread) (now : Z) : option shared :=
  let o := job th in
  let s := sess st (target o) in
  let store s p := Some (set_thread (set_sess st (target o) s) t (th <| at_ := p |>)) in
  match at_ th, o with
  | AtKeys, OpInstall send recv => store (s <| sending_key := send |> <| receiving_key := recv |>) AtReset
  | AtReset, OpInstall _ _ => store (s <| sending_counter := 0 |>) AtTime
  | AtTime, OpInstall _ _ => store (s <| receiving_counter := 0 |> <| last_handshake := now |>) AtLive
  | AtLive, OpInstall _ _ => store (s <| valid := true |>) AtReplay
  | AtReplay, OpInstall _ _ => store (s <| replay := zero_replay |> <| rekey_in_progress := false |>) Idle
  | _, _ => None
  end.

(** The test and the wipe of the keepalive thread. *)
Definition wipe_step (st : shared) (t : nat) (th : thread) (now : Z) : option shared :=
  let o := job th in
  let s := sess st (target o) in
  match o with
  | OpWipe i =>
      if valid s && (WG_ZERO_KEY_TIMEOUT_NS <=? sub64 now (last_handshake s)) then
        Some (set_thread ((set_sess st (target o) zero_session) <| peer_connected := <[i := false]> (peer_connected st) |>) t
          (th <| at_ := Idle |>))
      else Some (set_thread st t (th <| at_ := Idle |>))
  | _ => None
  end.

(** One statement of thread [t].  [now] is the clock and [result] what the socket
    returns, should the statement read them.  [None]: the thread cannot move. *)
Definition step_thread (st : shared) (t : nat) (th : thread) (now result : Z) : option shared :=
  let o := job th in
  let s := sess st (target o) in
  let go p := Some (set_thread st t (th <| at_ := p |>)) in
  match at_ th with
  | Idle => None
  | AtValid =>
      match o with
      | OpSend _ => if negb (valid s) then go Idle else go AtExpired
      | OpSendPeer i _ => if negb (peer_connected st i) || negb (valid s) then go Idle else go AtSize
      | _ => None
      end
  | AtExpired =>
      if (REJECT_NS <=? sub64 now (last_handshake s)) || (WG_REJECT_AFTER_MESSAGES <=? sending_counter s)
      then go Idle else go AtSize
  | AtSize => if WG_MAX_PACKET_SIZE <? packet_size (Z.of_nat (length (payload o))) then go Idle else go AtLock
  | AtLock =>
      match send_mutex st with
      | None => Some (set_thread (st <| send_mutex := Some t |>) t (th <| at_ := AtHeader |>))
      | Some _ => None
      end
  | AtHeader =>
      Some (write_buffer st t th ((buffer st th) <| t_type := WG_MSG_TRANSPORT |> <| t_reserved := [0; 0; 0] |>
        <| t_receiver_index := remote_index s |>) AtCounter)
  | AtCounter => Some (set_thread st t (th <| reg := sending_counter s |> <| at_ := AtBump |>))
  | AtBump =>
      Some (write_buffer (set_sess st (target o) (s <| sending_counter := add64 (reg th) 1 |>)) t th
        ((buffer st th) <| t_counter := reg th |>) AtEncrypt)
  | AtEncrypt =>
      Some (write_buffer st t th ((buffer st th) <| encrypted_data :=
        sealed (wg_aead_encrypt (sending_key s) (t_counter (buffer st th)) (payload o) []) |>) AtSend)
  | AtSend =>
      Some (set_thread (st <| wire := wire st ++ [mkPacket (target o) (payload o) (transport_bytes (buffer st th))] |>) t
        (th <| sent := result |> <| at_ := AtStamp |>))
  | AtStamp =>
      let st := if negb (in_send_buffer o) || (0 <=? sent th) then st <| sent_at := <[target o := now]> (sent_at st) |>
                else st in
      Some (set_thread st t (th <| at_ := if locks o then AtUnlock else Idle |>))
  | AtUnlock => Some (set_thread (st <| send_mutex := None |>) t (th <| at_ := Idle |>))
  | AtKeys | AtReset | AtTime | AtLive | AtReplay => install_step st t th now
  | AtWipe => wipe_step st t th now
  end.

(** A schedule: idle threads start calls, the others execute statements. *)
Inductive event := Start (t : nat) (o : op) | Step (t : nat) (now result : Z).

Definition step (ev : event) (st : shared) : option shared :=
  match ev with
  | Start t o =>
      match threads st !! t with
      | Some th => match at_ th with
                   | Idle => Some (set_thread st t (th <| job := o |> <| at_ := entry o |>))
                   | _ => None
                   end
      | None => None
      end
  | Step t now result =>
      match threads st !! t with
      | Some th => step_thread st t th now result
      | None => None
      end
  end.

Fixpoint run (evs : list event) (st : shared) : option shared :=
  match evs with
  | [] => Some st
  | ev :: evs => match step ev st with Some st => run evs st | None => None end
  end.

Definition zero_transport : WgTransport := mkTransport 0 [0; 0; 0] 0 0 [].
Definition idle_thread : thread := mkThread Idle OpKeepalive 0 0 zero_transport.
Definition init (ss : nat -> WgSession) (cs : nat -> bool) (n : nat) : shared :=
  mkShared ss cs None zero_transport (fun _ => 0) [] (replicate n idle_thread).

Definition starts (P : op -> Prop) (ev : event) : Prop := match ev with Start _ o => P o | Step _ _ _ => True end.

(** ** One call after the other *)

Definition at_counter (s : WgSession) (j : Z) : WgSession := s <| sending_counter := u64 (sending_counter s + j) |>.

(** The packets of sends that happen one after the other, from session [s] on. *)
Definition serial (s : WgSession) (ds : list (list Z)) : list (list Z) :=
  imap (fun j d => transport_packet (at_counter s (Z.of_nat j)) d) ds.

Definition wire_to (st : shared) (k : nat) : list packet := filter (fun p => to p = k) (wire st).

Definition crit (p : pc) : bool :=
  match p with AtHeader | AtCounter | AtBump | AtEncrypt | AtSend | AtStamp | AtUnlock => true | _ => false end.

Definition sends (p : pc) : bool := match p with AtKeys | AtReset | AtTime | AtLive | AtReplay | AtWipe => false | _ => true end.

(** Between the increment of the counter and the hand-over of the packet. *)
Definition taken (p : pc) : bool := match p with AtEncrypt | AtSend => true | _ => false end.

Definition pending (st : shared) (k : nat) : Z :=
  match send_mutex st with
  | Some t => match threads st !! t with
              | Some th => if taken (at_ th) && bool_decide (target (job th) = k) then 1 else 0
              | None => 0
              end
  | None => 0
  end.

Definition header (b : WgTransport) (s : WgSession) : Prop :=
  t_type b = WG_MSG_TRANSPORT /\ t_reserved b = [0; 0; 0] /\ t_receiver_index b = remote_index s.

#[local] Opaque transport_bytes wg_aead_encrypt.
#[local] Arguments serial : simpl never.

Section serialized.
Context (s0 : nat -> WgSession).
Hypothesis s0_u64 : forall k, is_u64 (sending_counter (s0 k)).

(** What the owner of the mutex has done so far. *)
Definition progress (st : shared) (th : thread) : Prop :=
  let k := target (job th) in
  let b := buffer st th in
  let now := at_counter (s0 k) (Z.of_nat (length (wire_to st k))) in
  match at_ th with
  | AtCounter => header b (s0 k)
  | AtBump => header b (s0 k) /\ reg th = sending_counter now
  | AtEncrypt => header b (s0 k) /\ t_counter b = sending_counter now
  | AtSend => transport_bytes b = transport_packet now (payload (job th))
  | _ => True
  end.

Record inv (st : shared) : Prop := {
  iv_jobs : forall t th, threads st !! t = Some th -> locks (job th) = true /\ sends (at_ th) = true;
  iv_crit : forall t th, threads st !! t = Some th -> crit (at_ th) = true -> send_mutex st = Some t;
  iv_wire : forall k, map pk_bytes (wire_to st k) = serial (s0 k) (map pk_payload (wire_to st k));
  iv_sess : forall k, sess st k = at_counter (s0 k) (Z.of_nat (length (wire_to st k)) + pending st k);
  iv_progress : forall t th, threads st !! t = Some th -> progress st th
}.

Lemma at_counter_0 s : is_u64 (sending_counter s) -> at_counter s 0 = s.
Proof. intros Hs. destruct s. unfold at_counter. cbn in *. by rewrite Z.add_0_r, u64_small. Qed.

Lemma inv_init cs n : inv (init s0 cs n).
Proof.
  split; cbn [threads init].
  - intros t th [-> _]%lookup_replicate. done.
  - intros t th [-> _]%lookup_replicate. done.
  - done.
  - intros k. by rewrite at_counter_0.
  - intros t th [-> _]%lookup_replicate. done.
Qed.

(** A thread that does not hold the mutex and touches only its own state. *)
Lemma inv_outside st t th th' : inv st -> threads st !! t = Some th -> crit (at_ th) = false ->
  crit (at_ th') = false -> locks (job th') = true -> sends (at_ th') = true -> inv (set_thread st t th').
Proof.
  intros [I1 I2 I3 I4 I5] Ht C C' J S. assert (t < length (threads st))%nat by (by apply lookup_lt_Some in Ht).
  split; cbn.
  - intros t1 th1 [(-> & <- & _)|[_ E]]%list_lookup_insert_Some; eauto.
  - intros t1 th1 [(-> & <- & _)|[_ E]]%list_lookup_insert_Some; [congruence|eauto].
  - done.
  - intros k. rewrite I4. f_equal. f_equal. unfold pending. cbn. destruct (send_mutex st) as [m|]; [|done].
    destruct (decide (t = m)) as [<-|]; [|by rewrite list_lookup_insert_ne].
    rewrite list_lookup_insert_eq, Ht by done. destruct (at_ th), (at_ th'); done.
  - intros t1 th1 [(-> & <- & _)|[_ E]]%list_lookup_insert_Some.
    + unfold progress. destruct (at_ th'); done.
    + exact (I5 t1 th1 E).
Qed.

Lemma others_outside st t th : inv st -> threads st !! t = Some th -> crit (at_ th) = true ->
  forall t' th', threads st !! t' = Some th' -> t <> t' -> crit (at_ th') = false.
Proof.
  intros Hi Ht C t' th' Ht' Hn. destruct (crit (at_ th')) eqn:C'; [|done].
  pose proof (iv_crit _ Hi _ _ Ht C). pose proof (iv_crit _ Hi _ _ Ht' C'). congruence.
Qed.

Lemma progress_outside st th : crit (at_ th) = false -> progress st th.
Proof. unfold progress. by destruct (at_ th). Qed.

(** A step of the owner: what is left to show of the next state. *)
Lemma inv_inside st st' t th th' : inv st -> threads st !! t = Some th -> crit (at_ th) = true ->
  threads st' = <[t := th']> (threads st) -> job th' = job th -> sends (at_ th') = true ->
  send_mutex st' = (if crit (at_ th') then Some t else None) ->
  (forall k, map pk_bytes (wire_to st' k) = serial (s0 k) (map pk_payload (wire_to st' k))) ->
  (forall k, sess st' k = at_counter (s0 k) (Z.of_nat (length (wire_to st' k)) +
     (if taken (at_ th') && bool_decide (target (job th) = k) then 1 else 0))) ->
  progress st' th' -> inv st'.
Proof.
  intros Hi Ht C Et Ej Es Em Hw Hs Hp. pose proof (others_outside st t th Hi Ht C) as Ho.
  assert (t < length (threads st))%nat by (by apply lookup_lt_Some in Ht).
  split; rewrite ?Et.
  - intros t1 th1 [(-> & <- & _)|[_ E]]%list_lookup_insert_Some; [|by eapply iv_jobs].
    rewrite Ej. split; [by eapply iv_jobs|done].
  - intros t1 th1 [(-> & <- & _)|[Hn E]]%list_lookup_insert_Some C1; [by rewrite C1 in Em|].
    rewrite (Ho _ _ E Hn) in C1. done.
  - done.
  - intros k. rewrite Hs. f_equal. f_equal. unfold pending. rewrite Em, Et, <- Ej.
    destruct (crit (at_ th')) eqn:C'; [by rewrite list_lookup_insert_eq|]. by destruct (at_ th').
  - intros t1 th1 [(-> & <- & _)|[Hn E]]%list_lookup_insert_Some; [done|].
    apply progress_outside. by eapply Ho.
Qed.

Lemma sess_owner st t th k : inv st -> threads st !! t = Some th -> crit (at_ th) = true ->
  sess st k = at_counter (s0 k) (Z.of_nat (length (wire_to st k)) +
    (if taken (at_ th) && bool_decide (target (job th) = k) then 1 else 0)).
Proof. intros Hi Ht C. rewrite iv_sess by done. unfold pending. by rewrite (iv_crit _ Hi _ _ Ht C), Ht. Qed.

Lemma lock_step st t th : inv st -> threads st !! t = Some th -> at_ th = AtLock -> send_mutex st = None ->
  inv (set_thread (st <| send_mutex := Some t |>) t (th <| at_ := AtHeader |>)).
Proof.
  intros Hi Ht Ea Em. assert (t < length (threads st))%nat by (by apply lookup_lt_Some in Ht).
  assert (forall t' th', threads st !! t' = Some th' -> crit (at_ th') = false) as Ho.
  { intros t' th' Ht'. destruct (crit (at_ th')) eqn:C; [|done]. pose proof (iv_crit _ Hi _ _ Ht' C). congruence. }
  split; cbn.
  - intros t1 th1 [(-> & <- & _)|[_ E]]%list_lookup_insert_Some; [|by eapply iv_jobs]. split; [exact (proj1 (iv_jobs _ Hi _ _ Ht))|done].
  - intros t1 th1 [(-> & <- & _)|[_ E]]%list_lookup_insert_Some C; [done|]. by rewrite (Ho _ _ E) in C.
  - apply Hi.
  - intros k. rewrite (iv_sess _ Hi). unfold pending. cbn. by rewrite Em, list_lookup_insert_eq.
  - intros t1 th1 [(-> & <- & _)|[_ E]]%list_lookup_insert_Some; [done|]. apply progress_outside. by eapply Ho.
Qed.

Lemma buffer_write st t th b p : threads st !! t = Some th ->
  exists th', threads (write_buffer st t th b p) = <[t := th']> (threads st) /\ job th' = job th /\ at_ th' = p /\
    reg th' = reg th /\ buffer (write_buffer st t th b p) th' = b /\
    sess (write_buffer st t th b p) = sess st /\ wire (write_buffer st t th b p) = wire st /\
    send_mutex (write_buffer st t th b p) = send_mutex st.
Proof.
  intros Ht. unfold write_buffer, buffer. destruct (in_send_buffer (job th)) eqn:E.
  - exists (th <| at_ := p |>). cbn. by rewrite E.
  - exists (th <| local_packet := b |> <| at_ := p |>). cbn. by rewrite E.
Qed.

Lemma at_counter_bump s i j :
  (at_counter s i) <| sending_counter := add64 (sending_counter (at_counter s j)) 1 |> = at_counter s (j + 1).
Proof.
  destruct s. unfold at_counter. cbn. unfold add64, u64. by rewrite Zplus_mod_idemp_l, Z.add_assoc.
Qed.

Lemma at_counter_key s j : sending_key (at_counter s j) = sending_key s.
Proof. done. Qed.

Lemma header_set b s c x : header b s -> t_counter b = c ->
  b <| encrypted_data := x |> = mkTransport WG_MSG_TRANSPORT [0; 0; 0] (remote_index s) c x.
Proof. intros (E1 & E2 & E3) E4. destruct b. cbn in *. by rewrite E1, E2, E3, E4. Qed.

(** A write to the packet of the owner, which leaves the session as it is. *)
Lemma write_step st t th b p : inv st -> threads st !! t = Some th -> crit (at_ th) = true -> crit p = true ->
  taken p = taken (at_ th) -> sends p = true ->
  (forall st' th', buffer st' th' = b -> job th' = job th -> at_ th' = p -> reg th' = reg th -> wire st' = wire st ->
    progress st' th') -> inv (write_buffer st t th b p).
Proof.
  intros Hi Ht C Cp Tp Sp Hpr. destruct (buffer_write st t th b p Ht) as (th' & E1 & E2 & E3 & E4 & E5 & E6 & E7 & E8).
  eapply inv_inside; [exact Hi|exact Ht|exact C|exact E1|exact E2|by rewrite E3| | | |].
  - rewrite E8, E3, Cp. exact (iv_crit _ Hi _ _ Ht C).
  - intros k. unfold wire_to. rewrite E7. apply Hi.
  - intros k. unfold wire_to. rewrite E6, E7, E3, Tp. exact (sess_owner st t th k Hi Ht C).
  - by apply Hpr.
Qed.

Lemma bump_step st t th : inv st -> threads st !! t = Some th -> at_ th = AtBump ->
  inv (write_buffer (set_sess st (target (job th)) ((sess st (target (job th))) <| sending_counter := add64 (reg th) 1 |>)) t th
    ((buffer st th) <| t_counter := reg th |>) AtEncrypt).
Proof.
  intros Hi Ht Ea. assert (crit (at_ th) = true) as C by (by rewrite Ea).
  pose proof (iv_progress _ Hi _ _ Ht) as Hp. unfold progress in Hp. rewrite Ea in Hp. destruct Hp as [Hh Hr].
  set (st1 := set_sess _ _ _). assert (threads st1 !! t = Some th) as Ht1 by done.
  destruct (buffer_write st1 t th ((buffer st th) <| t_counter := reg th |>) AtEncrypt Ht1)
    as (th' & E1 & E2 & E3 & E4 & E5 & E6 & E7 & E8).
  eapply inv_inside; [exact Hi|exact Ht|exact C|exact E1|exact E2|by rewrite E3| | | |].
  - rewrite E8, E3. exact (iv_crit _ Hi _ _ Ht C).
  - intros k. unfold wire_to. rewrite E7. apply Hi.
  - intros k. unfold wire_to. rewrite E6, E7, E3. cbn [sess st1 set_sess]. cbn.
    pose proof (sess_owner st t th k Hi Ht C) as Hk. rewrite Ea in Hk. cbn in Hk. unfold wire_to in Hk.
    destruct (decide (target (job th) = k)) as [<-|Hne].
    + rewrite fn_lookup_insert, bool_decide_true, Hk, Hr by done. apply at_counter_bump.
    + by rewrite fn_lookup_insert_ne, bool_decide_false.
  - unfold progress. rewrite E3, E5. unfold wire_to. rewrite E2, E7. done.
Qed.

Lemma serial_snoc s ds d : serial s (ds ++ [d]) = serial s ds ++ [transport_packet (at_counter s (Z.of_nat (length ds))) d].
Proof. unfold serial. rewrite imap_app. cbn. by rewrite Nat.add_0_r. Qed.

Lemma transmit_step st t th r : inv st -> threads st !! t = Some th -> at_ th = AtSend ->
  inv (set_thread (st <| wire := wire st ++ [mkPacket (target (job th)) (payload (job th)) (transport_bytes (buffer st th))] |>) t
        (th <| sent := r |> <| at_ := AtStamp |>)).
Proof.
  intros Hi Ht Ea. assert (crit (at_ th) = true) as C by (by rewrite Ea).
  pose proof (iv_progress _ Hi _ _ Ht) as Hp. unfold progress in Hp. rewrite Ea in Hp.
  eapply inv_inside; [exact Hi|exact Ht|exact C|reflexivity|done|done|exact (iv_crit _ Hi _ _ Ht C)| | |done].
  - intros k. pose proof (iv_wire _ Hi k) as Hw. unfold wire_to in *. cbn. rewrite filter_app.
    destruct (decide (target (job th) = k)) as [<-|Hne].
    + rewrite filter_cons_True, filter_nil by done. rewrite !map_app, Hw. cbn [map pk_bytes pk_payload]. rewrite serial_snoc, length_map, Hp. done.
    + rewrite filter_cons_False by done. by rewrite filter_nil, app_nil_r.
  - intros k. pose proof (sess_owner st t th k Hi Ht C) as Hk. rewrite Ea in Hk. unfold wire_to in *. cbn in *.
    rewrite Hk, filter_app. destruct (decide (target (job th) = k)) as [E|Hne].
    + rewrite filter_cons_True, length_app by done. rewrite bool_decide_true by done. cbn. f_equal. lia.
    + rewrite filter_cons_False, bool_decide_false by done. by rewrite filter_nil, app_nil_r.
Qed.

(** A step of the owner that changes neither the session nor the packets. *)
Lemma owner_step st st' t th th' : inv st -> threads st !! t = Some th -> crit (at_ th) = true ->
  threads st' = <[t := th']> (threads st) -> job th' = job th -> sends (at_ th') = true -> taken (at_ th') = taken (at_ th) ->
  send_mutex st' = (if crit (at_ th') then Some t else None) -> sess st' = sess st -> wire st' = wire st ->
  progress st' th' -> inv st'.
Proof.
  intros Hi Ht C Et Ej Es Ek Em Ess Ew Hp. eapply inv_inside; try eassumption.
  - intros k. unfold wire_to. rewrite Ew. apply Hi.
  - intros k. unfold wire_to. rewrite Ess, Ew, Ek. exact (sess_owner st t th k Hi Ht C).
Qed.

Lemma inv_step ev st st' : inv st -> starts (fun o => locks o = true) ev -> step ev st = Some st' -> inv st'.
Proof.
  intros Hi Hs. destruct ev as [t o|t now r]; cbn [step starts] in *.
  { destruct (threads st !! t) as [th|] eqn:Ht; [|done]. destruct (at_ th) eqn:Ea; try done. intros [= <-].
    apply (inv_outside st t th); cbn; rewrite ?Ea; try done; by destruct o. }
  destruct (threads st !! t) as [th|] eqn:Ht; [|done]. destruct (iv_jobs _ Hi _ _ Ht) as [Hl Hse].
  pose proof (iv_progress _ Hi _ _ Ht) as Hp. unfold step_thread.
  destruct (at_ th) eqn:Ea; try done; unfold progress in Hp; rewrite Ea in Hp.
  - destruct (job th) eqn:Ej; try done; case_match; intros [= <-];
      (apply (inv_outside st t th); cbn; rewrite ?Ea, ?Ej; done).
  - case_match; intros [= <-]; (apply (inv_outside st t th); cbn; rewrite ?Ea; done).
  - case_match; intros [= <-]; (apply (inv_outside st t th); cbn; rewrite ?Ea; done).
  - destruct (send_mutex st) eqn:Em; [done|]. intros [= <-]. by apply lock_step.
  - intros [= <-]. apply write_step; rewrite ?Ea; try done. intros st1 th1 Eb Ej E1 _ Ew.
    unfold progress. rewrite E1, Eb, Ej. pose proof (sess_owner st t th (target (job th)) Hi Ht ltac:(by rewrite Ea)) as ->. done.
  - intros [= <-]. eapply (owner_step st); try done; cbn; rewrite ?Ea; try done.
    + exact (iv_crit _ Hi _ _ Ht ltac:(by rewrite Ea)).
    + unfold progress, buffer, wire_to in *. cbn. split; [exact Hp|].
      pose proof (sess_owner st t th (target (job th)) Hi Ht ltac:(by rewrite Ea)) as ->. rewrite Ea. cbn.
      by rewrite Z.add_0_r.
  - intros [= <-]. by apply bump_step.
  - intros [= <-]. apply write_step; rewrite ?Ea; try done. intros st1 th1 Eb Ej E1 _ Ew. unfold progress. rewrite E1, Eb, Ej.
    destruct Hp as [Hh Hc]. rewrite (header_set _ _ _ _ Hh Hc), Hc.
    pose proof (sess_owner st t th (target (job th)) Hi Ht ltac:(by rewrite Ea)) as ->.
    rewrite at_counter_key. unfold wire_to, transport_packet. rewrite Ew, at_counter_key. reflexivity.
  - intros [= <-]. by apply transmit_step.
  - rewrite Hl. destruct (negb _ || _); intros [= <-];
      (eapply (owner_step st); try done; cbn; rewrite ?Ea; try done; exact (iv_crit _ Hi _ _ Ht ltac:(by rewrite Ea))).
  - intros [= <-]. eapply (owner_step st); try done; cbn; rewrite ?Ea; done.
Qed.

Lemma inv_run evs st st' : inv st -> Forall (starts (fun o => locks o = true)) evs -> run evs st = Some st' -> inv st'.
Proof.
  intros Hi Hf. revert st Hi. induction Hf as [|ev evs He _ IH]; intros st Hi; cbn; [by intros [= <-]|].
  destruct (step ev st) eqn:E; [|done]. apply IH. by eapply inv_step.
Qed.
End serialized.


(** C11. Any number of threads may call [wg_send], [wg_send_to_peer] and the keepalives
    under [send_mutex] at the same time: in every interleaving of their statements at
    most one thread is between the lock and the unlock, and the packets of each session
    that reach the socket are those of the same calls made one after the other.  No
    thread's packet is damaged by another one in the shared buffer, and the counters
    are consecutive. *)
Theorem concurrent_sends_serialized s0 cs n evs st :
  (forall k, is_u64 (sending_counter (s0 k))) -> Forall (starts (fun o => locks o = true)) evs ->
  run evs (init s0 cs n) = Some st ->
  (forall k, map pk_bytes (wire_to st k) = serial (s0 k) (map pk_payload (wire_to st k))) /\
  (forall t th t' th', threads st !! t = Some th -> threads st !! t' = Some th' ->
     crit (at_ th) = true -> crit (at_ th') = true -> t = t').
Proof.
  intros H0' He Hr. pose proof (inv_run s0 evs _ st (inv_init s0 H0' cs n) He Hr) as Hi. split; [apply Hi|].
  intros t th t' th' Ht Ht' C C'. pose proof (iv_crit _ _ Hi _ _ Ht C). pose proof (iv_crit _ _ Hi _ _ Ht' C'). congruence.
Qed.

(** ** The message limit

    [wg_send] compares the counter with the limit before it takes the mutex. *)

Definition is_send (o : op) : Prop := match o with OpSend _ => True | _ => False end.

(** Threads that passed the comparison and have not yet taken a counter. *)
Definition past (p : pc) : bool := match p with AtSize | AtLock | AtHeader | AtCounter | AtBump => true | _ => false end.
Definition past_count (ths : list thread) : Z := foldr (fun th n => Z.b2z (past (at_ th)) + n) 0 ths.

Lemma past_count_cons x ths : past_count (x :: ths) = Z.b2z (past (at_ x)) + past_count ths.
Proof. done. Qed.

Lemma past_count_insert ths t th th' : ths !! t = Some th ->
  past_count (<[t := th']> ths) = past_count ths - Z.b2z (past (at_ th)) + Z.b2z (past (at_ th')).
Proof.
  revert t. induction ths as [|x ths IH]; intros [|t]; [done..| |].
  - intros [= ->]. cbn. lia.
  - intros Ht. change (Z.b2z (past (at_ x)) + past_count (<[t := th']> ths) =
      Z.b2z (past (at_ x)) + past_count ths - Z.b2z (past (at_ th)) + Z.b2z (past (at_ th'))).
    rewrite (IH t Ht). lia.
Qed.

Lemma past_count_le ths : past_count ths <= Z.of_nat (length ths).
Proof. induction ths as [|th ths IH]; [done|]. rewrite past_count_cons. cbn [length]. destruct (past (at_ th)); cbn [Z.b2z]; lia. Qed.

Lemma past_count_nonneg ths : 0 <= past_count ths.
Proof. induction ths as [|th ths IH]; [done|]. rewrite past_count_cons. destruct (past (at_ th)); cbn [Z.b2z]; lia. Qed.

Lemma pending_01 st k : pending st k = 0 \/ pending st k = 1.
Proof. unfold pending. repeat case_match; auto. Qed.

Lemma congruent_near a b : u64 a = u64 b -> -2 ^ 64 < a - b < 2 ^ 64 -> a = b.
Proof. unfold u64. intros E Hr. Z.div_mod_to_equations. lia. Qed.

Section limit.
Context (s0 : nat -> WgSession) (n : nat).
Hypothesis s0_u64 : forall k, is_u64 (sending_counter (s0 k)).
Hypothesis few_threads : Z.of_nat n <= WG_COUNTER_WINDOW_SIZE.

Definition total (st : shared) : Z := sending_counter (s0 0%nat) + (Z.of_nat (length (wire_to st 0)) + pending st 0).

Record bounded (st : shared) : Prop := {
  bd_inv : inv s0 st;
  bd_jobs : forall t th, threads st !! t = Some th -> at_ th = Idle \/ is_send (job th);
  bd_threads : length (threads st) = n;
  bd_total : total st + past_count (threads st) <= WG_REJECT_AFTER_MESSAGES + Z.of_nat n
}.

Lemma total_counter st : bounded st -> sending_counter (sess st 0%nat) = total st /\ 0 <= total st < 2 ^ 64 - 1.
Proof.
  intros [Hi _ _ Hb]. pose proof (past_count_nonneg (threads st)). pose proof (pending_01 st 0).
  pose proof (s0_u64 0) as H0'. unfold is_u64 in H0'.
  assert (0 <= total st < 2 ^ 64 - 1) as Hr.
  { unfold total in *. reject_val. unfold WG_COUNTER_WINDOW_SIZE in *. lia. }
  split; [|done]. rewrite (iv_sess _ _ Hi). change (u64 (total st) = total st). apply u64_small. unfold is_u64. lia.
Qed.

Ltac no_packets := exists []; rewrite app_nil_r; split; [done|cbn; lia].

(** How one step moves the counter, the packets and the threads past the comparison. *)
Lemma step_shape ev st st' : bounded st -> starts is_send ev -> step ev st = Some st' ->
  exists t th th', threads st !! t = Some th /\ threads st' = <[t := th']> (threads st) /\
    (at_ th' = Idle \/ is_send (job th')) /\
    ((past (at_ th) = true /\ past (at_ th') = false /\ wire st' = wire st /\
        sending_counter (sess st' 0%nat) = add64 (sending_counter (sess st 0%nat)) 1) \/
     (at_ th = AtExpired /\ at_ th' = AtSize /\ wire st' = wire st /\ sess st' = sess st /\
        sending_counter (sess st 0%nat) < WG_REJECT_AFTER_MESSAGES) \/
     ((past (at_ th') = true -> past (at_ th) = true) /\ sess st' = sess st /\
        exists l, wire st' = wire st ++ l /\ (length l <= 1)%nat)).
Proof.
  intros Hb Hs. destruct ev as [t o|t now r]; cbn [step starts] in *.
  { destruct (threads st !! t) as [th|] eqn:Ht; [|done]. destruct (at_ th) eqn:Ea; try done. intros [= <-].
    exists t, th, (th <| job := o |> <| at_ := entry o |>). split_and!; try done; [by right|]. right; right.
    rewrite Ea. split; [by destruct o|]. split; [done|]. no_packets. }
  destruct (threads st !! t) as [th|] eqn:Ht; [|done].
  destruct (bd_jobs _ Hb _ _ Ht) as [Ea|Hj]; [unfold step_thread; rewrite Ea; done|].
  destruct (job th) as [data| | | | | | |] eqn:Ej; try done.
  pose proof (iv_progress _ _ (bd_inv _ Hb) _ _ Ht) as Hp. unfold step_thread. rewrite Ej.
  destruct (at_ th) eqn:Ea; try done; unfold progress in Hp; rewrite Ea, ?Ej in Hp; cbn [target] in *.

  all: unfold write_buffer, buffer in *; rewrite ?Ej in *; cbn [in_send_buffer locks negb orb] in *.
  all: try (case_match eqn:E; [intros [= <-]; exists t, th; eexists; split; [done|]; split; [reflexivity|]; split; [by left|];
    right; right; split; [done|]; split; [done|]; no_packets|]).
  all: try (intros [= <-]; exists t, th; eexists; split; [done|]; split; [reflexivity|]; split; [right; cbn; by rewrite Ej|];
    right; right; rewrite Ea; split; [done|]; split; [done|]; no_packets).
  all: try (pose proof (proj2 (iv_jobs _ _ (bd_inv _ Hb) _ _ Ht)) as Hse; rewrite Ea in Hse; done).
  - intros [= <-]. exists t, th. eexists. split; [done|]. split; [reflexivity|]. split; [right; cbn; by rewrite Ej|].
    right; left. split_and!; try done. apply orb_false_iff in E as [_ E]. by apply Z.leb_gt in E.
  - case_match; [done|]. intros [= <-]. exists t, th. eexists. split; [done|]. split; [reflexivity|].
    split; [right; cbn; by rewrite Ej|]. right; right. rewrite Ea. split; [done|]. split; [done|]. no_packets.
  - intros [= <-]. exists t, th. eexists. split; [done|]. split; [reflexivity|]. split; [right; cbn; by rewrite Ej|].
    left. rewrite Ea. split_and!; try done. cbn. destruct Hp as [_ Hr].
    pose proof (sess_owner s0 st t th 0 (bd_inv _ Hb) Ht ltac:(by rewrite Ea)) as Hs0. rewrite Ea in Hs0. cbn [taken andb] in Hs0.
    rewrite Z.add_0_r in Hs0. by rewrite Hr, <- Hs0.
  - intros [= <-]. exists t, th. eexists. split; [done|]. split; [reflexivity|]. split; [right; cbn; by rewrite Ej|].
    right; right. split; [done|]. split; [done|]. eexists. split; [reflexivity|cbn; lia].
  - intros [= <-]. exists t, th. eexists. split; [done|]. split; [by destruct (0 <=? sent th)|].
    split; [right; cbn; by rewrite Ej|]. right; right. split; [done|]. split; [by destruct (0 <=? sent th)|].
    exists []. rewrite app_nil_r. split; [by destruct (0 <=? sent th)|cbn; lia].
Qed.

Lemma bounded_step ev st st' : bounded st -> starts is_send ev -> step ev st = Some st' -> bounded st'.
Proof.
  intros Hb Hs E. destruct (step_shape ev st st' Hb Hs E) as (t & th & th' & Ht & Et & Hj & Hc).
  assert (starts (fun o => locks o = true) ev) as Hl by (destruct ev as [? []|]; done).
  pose proof (inv_step s0 ev st st' (bd_inv _ Hb) Hl E) as Hi'.
  destruct (total_counter st Hb) as [Hct Hrt]. pose proof (bd_total _ Hb) as HB. pose proof (bd_threads _ Hb) as Hn.
  pose proof (iv_sess _ _ Hi' 0%nat) as Hs'. apply (f_equal sending_counter) in Hs'.
  change (sending_counter (sess st' 0%nat) = u64 (total st')) in Hs'.
  pose proof (past_count_insert _ _ _ th' Ht) as Hpc. rewrite <- Et in Hpc.
  assert (length (threads st') = n) as Hn' by (by rewrite Et, length_insert).
  pose proof (past_count_le (threads st')) as Hle. rewrite Hn' in Hle.
  split; [done| |done|].
  { intros t1 th1. rewrite Et. intros [(-> & <- & _)|[_ E1]]%list_lookup_insert_Some; [done|by eapply (bd_jobs _ Hb)]. }
  pose proof (pending_01 st 0) as P. pose proof (pending_01 st' 0) as P'.
  destruct Hc as [(P1 & P2 & Ew & Ec)|[(P1 & P2 & Ew & Ec & Hlt)|(P1 & Ec & l & Ew & Hl1)]].
  - assert (total st' = total st + 1) as ->.
    { apply congruent_near; [rewrite <- Hs', Ec, Hct; done|]. unfold total, wire_to in *. rewrite Ew. lia. }
    rewrite Hpc, P1, P2. cbn [Z.b2z]. lia.
  - assert (total st' = total st) as ->.
    { apply congruent_near; [rewrite <- Hs', Ec, Hct; symmetry; apply u64_small; unfold is_u64; lia|].
      unfold total, wire_to in *. rewrite Ew. lia. }
    lia.
  - assert (total st' = total st) as ->.
    { apply congruent_near; [rewrite <- Hs', Ec, Hct; symmetry; apply u64_small; unfold is_u64; lia|].
      unfold total, wire_to in *. rewrite Ew, filter_app, length_app.
      pose proof (length_filter (fun p : packet => to p = 0%nat) l). lia. }
    rewrite Hpc. destruct (past (at_ th')); [rewrite P1 by done|destruct (past (at_ th))]; cbn [Z.b2z]; lia.
Qed.

Lemma bounded_run evs st st' : bounded st -> Forall (starts is_send) evs -> run evs st = Some st' -> bounded st'.
Proof.
  intros Hb Hf. revert st Hb. induction Hf as [|ev evs He _ IH]; intros st Hb; cbn; [by intros [= <-]|].
  destruct (step ev st) eqn:E; [|done]. apply IH. by eapply bounded_step.
Qed.
End limit.


Lemma serial_unwrapped s ds : 0 <= sending_counter s -> sending_counter s + Z.of_nat (length ds) <= 2 ^ 64 ->
  serial s ds = imap (fun j d => transport_packet (s <| sending_counter := sending_counter s + Z.of_nat j |>) d) ds.
Proof.
  intros H1 H2. unfold serial. apply imap_ext. intros j d Hj. apply lookup_lt_Some in Hj. unfold at_counter.
  by rewrite u64_small by (unfold is_u64; lia).
Qed.

(** C12. Threads that call [wg_send] at the same time never use a nonce twice.  The
    comparison with the message limit happens before the lock, so threads can pass it
    together; but with at most 8192 threads the counters of the packets sent are
    consecutive numbers below the limit plus the number of threads, so the 64-bit counter
    never wraps, whatever the schedule, the clock and the socket do. *)
Theorem concurrent_nonces_unique s0 cs n evs st :
  (forall k, is_u64 (sending_counter (s0 k))) -> Z.of_nat n <= WG_COUNTER_WINDOW_SIZE ->
  sending_counter (s0 0%nat) <= WG_REJECT_AFTER_MESSAGES ->
  Forall (starts is_send) evs -> run evs (init s0 cs n) = Some st ->
  let s := s0 0%nat in
  map pk_bytes (wire_to st 0) =
    imap (fun j d => transport_packet (s <| sending_counter := sending_counter s + Z.of_nat j |>) d)
      (map pk_payload (wire_to st 0)) /\
  sending_counter s + Z.of_nat (length (wire_to st 0)) <= WG_REJECT_AFTER_MESSAGES + Z.of_nat n < 2 ^ 64.
Proof.
  intros Hu Hn Hc He Hr s. assert (bounded s0 n (init s0 cs n)) as Hb0.
  { split; [by apply inv_init| |apply length_replicate|].
    - intros t th [-> _]%lookup_replicate. by left.
    - assert (past_count (threads (init s0 cs n)) = 0) as ->; [|unfold total, pending; cbn; lia].
      cbn [init threads]. clear. induction n as [|n IH]; [done|]. cbn [replicate]. rewrite past_count_cons. exact IH. }
  pose proof (bounded_run s0 n Hu Hn evs _ st Hb0 He Hr) as Hb. destruct (total_counter s0 n Hu Hn st Hb) as [_ Ht].
  pose proof (bd_total _ _ _ Hb) as HB. pose proof (past_count_nonneg (threads st)). pose proof (pending_01 st 0).
  pose proof (Hu 0%nat) as H0'. unfold total, is_u64 in *. subst s. split.
  - rewrite <- serial_unwrapped; [apply (iv_wire _ _ (bd_inv _ _ _ Hb))|lia|rewrite length_map; lia].
  - reject_val. unfold WG_COUNTER_WINDOW_SIZE in *. lia.
Qed.


(** ** Without the mutex *)

(** [n] statements of thread [t] in a row. *)
Definition steps (t n : nat) (now : Z) : list event := replicate n (Step t now 0).

Lemma run_cons ev evs st st1 st' : step ev st = Some st1 -> run evs st1 = Some st' -> run (ev :: evs) st = Some st'.
Proof. intros E. cbn. by rewrite E. Qed.

Lemma fn_insert_eq {A B} `{EqDecision A} (a : A) (b : B) f : fn_insert a b f a = b.
Proof. apply fn_lookup_insert. Qed.

(** Symbolic execution of one event, with the state as a record. *)
Ltac reduce_state :=
  lazy beta iota zeta delta
    [step step_thread install_step wipe_step set_thread set_sess set_field write_buffer buffer init idle_thread zero_transport
     threads wire sess send_mutex peer_connected send_buffer sent_at at_ job reg sent local_packet entry target payload
     in_send_buffer locks eta eta_shared eta_thread eta_transport t_type t_reserved t_receiver_index t_counter encrypted_data
     lookup list_lookup insert list_insert negb orb andb replicate].
Ltac reduce_step :=
  reduce_state; try (change (0 <=? 0) with true; reduce_state); rewrite ?fn_insert_eq;
  cbn [sending_key receiving_key sending_counter receiving_counter local_index old_local_index remote_index last_handshake
    last_received valid rekey_in_progress replay zero_session].
Ltac exec_with tac :=
  eapply run_cons; [reduce_step; lazymatch goal with |- Some _ = _ => reflexivity | _ => tac; reflexivity end|].

(** The receive thread answers a passive handshake with [wg_send_keepalive_to_peer]
    without [send_mutex].  When it reads the counter of a peer that a sender is about to
    use, both packets, the keepalive and the sender's data, are encrypted with the same
    key and the same counter. *)
Theorem passive_keepalive_reuses_nonce s0 cs i data :
  cs i = true -> valid (s0 (S i)) = true -> packet_size (Z.of_nat (length data)) <= WG_MAX_PACKET_SIZE ->
  exists evs st, run evs (init s0 cs 2) = Some st /\
    Forall (starts (fun o => o = OpPassiveKeepalive i \/ o = OpSendPeer i data)) evs /\
    map pk_bytes (wire_to st (S i)) = [transport_packet (s0 (S i)) data; transport_packet (s0 (S i)) []].
Proof.
  intros Hc Hv Hl. apply Z.ltb_ge in Hl.
  exists ([Start 0 (OpPassiveKeepalive i)] ++ steps 0 2 0 ++ [Start 1 (OpSendPeer i data)] ++ steps 1 10 0 ++ steps 0 4 0).
  eexists. split; [cbn [app steps replicate]; repeat exec_with ltac:(rewrite ?Hc, ?Hv, ?Hl); reflexivity|].
  split; [repeat first [apply Forall_nil_2|apply Forall_cons_2]; cbn; auto|].
  unfold wire_to. cbn [wire app]. rewrite !filter_cons_True by done. reflexivity.
Qed.

(** The keepalive thread wipes the session of a peer that is older than nine minutes
    without [send_mutex].  A sender that tested [connected] and [valid] just before goes on
    with the wiped session: its data leaves encrypted under the all-zero key. *)
Theorem wiped_session_sends s0 cs i data now :
  cs i = true -> valid (s0 (S i)) = true -> packet_size (Z.of_nat (length data)) <= WG_MAX_PACKET_SIZE ->
  WG_ZERO_KEY_TIMEOUT_NS <= sub64 now (last_handshake (s0 (S i))) ->
  exists evs st, run evs (init s0 cs 2) = Some st /\
    Forall (starts (fun o => o = OpWipe i \/ o = OpSendPeer i data)) evs /\
    map pk_bytes (wire_to st (S i)) = [transport_packet zero_session data].
Proof.
  intros Hc Hv Hl Ho. apply Z.ltb_ge in Hl. apply Z.leb_le in Ho.
  exists ([Start 1 (OpSendPeer i data)] ++ steps 1 1 now ++ [Start 0 (OpWipe i)] ++ steps 0 1 now ++ steps 1 9 now).
  eexists. split; [cbn [app steps replicate]; repeat exec_with ltac:(rewrite ?Hc, ?Hv, ?Hl, ?Ho); reflexivity|].
  split; [repeat first [apply Forall_nil_2|apply Forall_cons_2]; cbn; auto|].
  unfold wire_to. cbn [wire app]. rewrite !filter_cons_True by done. reflexivity.
Qed.

Lemma run_app evs evs' st st1 st' : run evs st = Some st1 -> run evs' st1 = Some st' -> run (evs ++ evs') st = Some st'.
Proof.
  revert st. induction evs as [|ev evs IH]; intros st; cbn; [by intros [= ->]|].
  destruct (step ev st); [apply IH|done].
Qed.

(** A call of [wg_send] that nothing interrupts. *)
Lemma send_alone ss cs buf sa w a b d now :
  at_ b = Idle -> valid (ss 0%nat) = true -> sub64 now (last_handshake (ss 0%nat)) < REJECT_NS ->
  sending_counter (ss 0%nat) < WG_REJECT_AFTER_MESSAGES -> packet_size (Z.of_nat (length d)) <= WG_MAX_PACKET_SIZE ->
  exists buf' sa' b', at_ b' = Idle /\
    run (Start 1 (OpSend d) :: steps 1 11 now) (mkShared ss cs None buf sa w [a; b]) =
    Some (mkShared (fn_insert 0%nat (take_counter (ss 0%nat)) ss) cs None buf' sa'
      (w ++ [mkPacket 0 d (transport_packet (ss 0%nat) d)]) [a; b']).
Proof.
  intros Hb Hv Ht Hc Hl. apply Z.ltb_ge in Hl. apply Z.leb_gt in Ht, Hc. destruct b as [ab jb rb sb pb]. cbn in Hb. subst ab.
  do 3 eexists. split; [|cbn [steps replicate]; repeat exec_with ltac:(rewrite ?Hv, ?Hl, ?Ht, ?Hc); reflexivity]. done.
Qed.

Lemma sends_alone n ss cs buf sa w a b now :
  at_ b = Idle -> valid (ss 0%nat) = true -> sub64 now (last_handshake (ss 0%nat)) < REJECT_NS -> 0 <= sending_counter (ss 0%nat) ->
  sending_counter (ss 0%nat) + Z.of_nat n <= WG_REJECT_AFTER_MESSAGES ->
  exists evs ss' buf' sa' b' l, at_ b' = Idle /\ Forall (starts is_send) evs /\
    ss' 0%nat = (ss 0%nat) <| sending_counter := sending_counter (ss 0%nat) + Z.of_nat n |> /\
    run evs (mkShared ss cs None buf sa w [a; b]) = Some (mkShared ss' cs None buf' sa' (w ++ l) [a; b']).
Proof.
  revert ss buf sa w b. induction n as [|n IH]; intros ss buf sa w b Hb Hv Ht H0' Hc.
  - exists [], ss, buf, sa, b, []. rewrite app_nil_r. split_and!; try done. destruct (ss 0%nat). cbn. by rewrite Z.add_0_r.
  - destruct (send_alone ss cs buf sa w a b [] now Hb Hv Ht ltac:(lia) ltac:(done)) as (buf1 & sa1 & b1 & Hb1 & R1).
    assert (sending_counter (take_counter (ss 0%nat)) = sending_counter (ss 0%nat) + 1) as Ec.
    { cbn. unfold add64. apply u64_small. reject_val. unfold is_u64. lia. }
    destruct (IH (fn_insert 0%nat (take_counter (ss 0%nat)) ss) buf1 sa1 (w ++ [mkPacket 0 [] (transport_packet (ss 0%nat) [])]) b1)
      as (evs & ss' & buf' & sa' & b' & l & Hb' & Hf & Hs & R2); rewrite ?fn_insert_eq; try done; rewrite ?Ec; try lia.
    exists ((Start 1 (OpSend []) :: steps 1 11 now) ++ evs), ss', buf', sa', b', (mkPacket 0 [] (transport_packet (ss 0%nat) []) :: l).
    split_and!; try done.
    + apply Forall_app. split; [|done]. repeat first [apply Forall_nil_2|apply Forall_cons_2]; done.
    + rewrite Hs, fn_insert_eq, Ec, <- Z.add_assoc, (Z.add_comm 1), Z.add_1_r, <- Nat2Z.inj_succ. by destruct (ss 0%nat).
    + eapply run_app; [exact R1|]. rewrite R2. by rewrite <- app_assoc.
Qed.

(** [wg_handshake_response] stores the new keys before it resets the counter, without
    [send_mutex].  A sender that takes its counter in between uses the old counter with
    the new key; after the reset, once as many packets were sent as under the old key, the
    same counter is used with the same key for other data. *)
Theorem rekey_reuses_nonce s0 cs k1 k2 d1 d2 now :
  valid (s0 0%nat) = true -> 0 <= sending_counter (s0 0%nat) < WG_REJECT_AFTER_MESSAGES ->
  sub64 now (last_handshake (s0 0%nat)) < REJECT_NS ->
  packet_size (Z.of_nat (length d1)) <= WG_MAX_PACKET_SIZE -> packet_size (Z.of_nat (length d2)) <= WG_MAX_PACKET_SIZE ->
  let s := (s0 0%nat) <| sending_key := k1 |> in
  exists evs st l, run evs (init s0 cs 2) = Some st /\
    Forall (starts (fun o => o = OpInstall k1 k2 \/ is_send o)) evs /\
    map pk_bytes (wire st) = transport_packet s d1 :: l ++ [transport_packet s d2].
Proof.
  intros Hv Hc Ht L1 L2 s. assert (sub64 now now = 0) as Hn by (unfold sub64; by rewrite Z.sub_diag).
  assert (exists buf sa a b ss, at_ b = Idle /\
    ss 0%nat = s <| sending_counter := 0 |> <| receiving_key := k2 |> <| receiving_counter := 0 |> <| last_handshake := now |>
                 <| valid := true |> <| replay := zero_replay |> <| rekey_in_progress := false |> /\
    run ([Start 0 (OpInstall k1 k2); Start 1 (OpSend d1)] ++ steps 1 4 now ++ steps 0 1 now ++ steps 1 7 now ++ steps 0 4 now)
      (init s0 cs 2) = Some (mkShared ss cs None buf sa [mkPacket 0 d1 (transport_bytes (mkTransport WG_MSG_TRANSPORT [0; 0; 0]
        (remote_index (s0 0%nat)) (sending_counter (s0 0%nat))
        (sealed (wg_aead_encrypt k1 (sending_counter (s0 0%nat)) d1 []))))] [a; b]))
    as (buf & sa & a & b & ss & Hb & Hss & R1).
  { apply Z.ltb_ge in L1. apply Z.leb_gt in Ht. destruct Hc as [_ Hc]. apply Z.leb_gt in Hc. do 5 eexists. split; cycle 1.
    - split; cycle 1; [cbn [app steps replicate]; repeat exec_with ltac:(rewrite ?Hv, ?L1, ?Ht, ?Hc); reflexivity|].
      rewrite fn_insert_eq. subst s. by destruct (s0 0%nat).
    - done. }
  change (transport_bytes _) with (transport_packet s d1) in R1.
  assert (valid (ss 0%nat) = true /\ last_handshake (ss 0%nat) = now /\ sending_counter (ss 0%nat) = 0) as (V & T & C)
    by (by rewrite Hss).
  assert (0 < REJECT_NS) as Hpos by done. set (N := sending_counter (s0 0%nat)) in *.
  destruct (sends_alone (Z.to_nat N) ss cs buf sa [mkPacket 0 d1 (transport_packet s d1)] a b now Hb V)
    as (evs & ss' & buf' & sa' & b' & l & Hb' & Hf & Hs & R2); rewrite ?T, ?C, ?Hn; try lia.
  rewrite C in Hs. assert (valid (ss' 0%nat) = true /\ last_handshake (ss' 0%nat) = now /\ sending_counter (ss' 0%nat) = N)
    as (V' & T' & C') by (rewrite Hs; cbn [valid last_handshake sending_counter set_field]; split_and!; [done|done|cbn; lia]).
  destruct (send_alone ss' cs buf' sa' ([mkPacket 0 d1 (transport_packet s d1)] ++ l) a b' d2 now Hb' V')
    as (buf2 & sa2 & b2 & Hb2 & R3); rewrite ?T', ?C', ?Hn; try lia.
  eexists _, _, (map pk_bytes l). split; [eapply run_app; [exact R1|]; eapply run_app; [exact R2|exact R3]|].
  split.
  - repeat first [apply Forall_nil_2|apply Forall_cons_2|apply Forall_app_2]; cbn [starts is_send]; auto.
    eapply Forall_impl; [exact Hf|]. intros [t o|]; cbn; auto.
  - assert (remote_index (ss' 0%nat) = remote_index s /\ sending_key (ss' 0%nat) = sending_key s) as [E1 E2]
      by (by rewrite Hs, Hss).
    assert (transport_packet (ss' 0%nat) d2 = transport_packet s d2) as E by (unfold transport_packet; by rewrite E1, E2, C').
    cbn [wire]. rewrite !map_app, E. reflexivity.
Qed.

End interleave.

(** ** Concrete runs *)

Definition demo_session : WgSession := zero_session <| valid := true |> <| remote_index := 7 |>.
Definition demo_sessions : nat -> WgSession := fun _ => demo_session.
Definition demo_data : list Z := [69; 0; 0; 28].

(** Two senders and a keepalive to a peer, which take turns after every statement. *)
Definition demo_schedule : list event :=
  [Start 0 (OpSend demo_data); Start 1 (OpSend [1; 2]); Step 0 0 0; Step 1 0 0; Step 0 0 0; Step 1 0 0; Step 1 0 0; Step 0 0 0;
   Step 1 0 0] ++ steps 1 7 0 ++ steps 0 8 0 ++ [Start 1 (OpSend []); Step 1 0 0; Step 1 0 0; Step 1 0 0; Step 1 0 0; Step 1 0 0].

Lemma demo_sessions_u64 k : is_u64 (sending_counter (demo_sessions k)).
Proof. unfold demo_sessions, is_u64. cbn. lia. Qed.

Ltac runs E :=
  apply (f_equal (fun o => match o with Some _ => true | None => false end)) in E; vm_compute in E; discriminate.

Lemma concurrent_sends_serialized_witness :
  match run (H := true) (H0 := demo_scratch) demo_schedule (init demo_sessions (fun _ => true) 2) with
  | Some st => forall k, map pk_bytes (wire_to st k) =
      serial (H := true) (H0 := demo_scratch) (demo_sessions k) (map pk_payload (wire_to st k))
  | None => False
  end.
Proof.
  destruct (run (H := true) (H0 := demo_scratch) demo_schedule _) as [st|] eqn:E; [|runs E].
  apply (concurrent_sends_serialized (H := true) (H0 := demo_scratch) demo_sessions (fun _ => true) 2 demo_schedule st);
    [exact demo_sessions_u64| |exact E].
  repeat first [apply Forall_nil_2|apply Forall_cons_2]; done.
Defined.

Lemma concurrent_nonces_unique_witness :
  match run (H := true) (H0 := demo_scratch) demo_schedule (init demo_sessions (fun _ => true) 2) with
  | Some st => sending_counter demo_session + Z.of_nat (length (wire_to st 0)) <= WG_REJECT_AFTER_MESSAGES + 2 < 2 ^ 64
  | None => False
  end.
Proof.
  destruct (run (H := true) (H0 := demo_scratch) demo_schedule _) as [st|] eqn:E; [|runs E].
  apply (concurrent_nonces_unique (H := true) (H0 := demo_scratch) demo_sessions (fun _ => true) 2 demo_schedule st);
    [exact demo_sessions_u64|done|done| |exact E].
  repeat first [apply Forall_nil_2|apply Forall_cons_2]; done.
Defined.

Lemma passive_keepalive_reuses_nonce_witness :
  exists evs st, run (H := true) (H0 := demo_scratch) evs (init demo_sessions (fun _ => true) 2) = Some st /\
    map pk_bytes (wire_to st 4) = [transport_packet (H := true) (H0 := demo_scratch) demo_session demo_data;
                                   transport_packet (H := true) (H0 := demo_scratch) demo_session []].
Proof.
  destruct (passive_keepalive_reuses_nonce (H := true) (H0 := demo_scratch) demo_sessions (fun _ => true) 3 demo_data)
    as (evs & st & R & _ & E); [done|done|done|]. exists evs, st. split; [exact R|exact E].
Defined.

Lemma wiped_session_sends_witness :
  exists evs st, run (H := true) (H0 := demo_scratch) evs (init demo_sessions (fun _ => true) 2) = Some st /\
    map pk_bytes (wire_to st 4) = [transport_packet (H := true) (H0 := demo_scratch) zero_session demo_data].
Proof.
  destruct (wiped_session_sends (H := true) (H0 := demo_scratch) demo_sessions (fun _ => true) 3 demo_data (600 * NS))
    as (evs & st & R & _ & E); [done|done|done|done|]. exists evs, st. split; [exact R|exact E].
Defined.

Lemma rekey_reuses_nonce_witness :
  let s := (demo_session <| sending_counter := 5 |>) <| sending_key := replicate 32 9 |> in
  exists evs st l,
    run (H := true) (H0 := demo_scratch) evs (init (fun _ => demo_session <| sending_counter := 5 |>) (fun _ => true) 2) = Some st /\
    map pk_bytes (wire st) = transport_packet (H := true) (H0 := demo_scratch) s demo_data :: l ++
      [transport_packet (H := true) (H0 := demo_scratch) s [1; 2]].
Proof.
  destruct (rekey_reuses_nonce (H := true) (H0 := demo_scratch) (fun _ => demo_session <| sending_counter := 5 |>)
    (fun _ => true) (replicate 32 9) (replicate 32 8) demo_data [1; 2] 1000) as (evs & st & l & R & _ & E); [done|done|done|done|done|].
  exists evs, st, l. split; [exact R|exact E].
Defined.
