(* ===== verification/Expiry.v ===== *)
(** * A handshake against the expiry of sessions (src/wireguard.c, src/wg_noise.c)

    [System] runs the handlers of the threads one at a time, apart from the waits.  Here two of them overlap
    statement by statement on one peer: the receive thread at the end of
    [wg_handshake_init_process], where it stores the new session, and the keepalive
    thread at the expiry test of its loop.  Neither takes a lock, and the keepalive
    thread reads the clock once, before it looks at the peers. *)

From Stdlib Require Import Sorting.Sorted.
From S2P Require Import Prelude Neon Counter Aead Crypto Tunnel Platform Noise Wireguard.

#[local] Open Scope Z_scope.

(** What the handshake computed before it stores the session. *)
Record install := mkInstall {
  in_receiving : list Z; in_sending : list Z; in_sender_index : Z; in_remote_index : Z; in_mac1 : list Z
}.

(** ** The receive thread *)

Inductive recv_pc :=
| RTest | RWipePrev | RCopyPrev | RCopyIndex | RKeys | RSendCounter | RRecvCounter | RLocal | RRemote
| RTime | RValid | RRekey | RReplay | RConnected | RMac | RDone.

Definition on_session (f : WgSession -> WgSession) (p : WgPeer) : WgPeer := p <| p_session := f (p_session p) |>.
Definition on_prev (f : WgSession -> WgSession) (p : WgPeer) : WgPeer := p <| p_prev_session := f (p_prev_session p) |>.

(** The next statement; [clock] is what [wg_time_now] returns if it calls it. *)
Definition recv_stmt (m : install) (pc : recv_pc) (clock : Z) (p : WgPeer) : option (recv_pc * WgPeer) :=
  match pc with
  | RTest => Some (if valid (p_session p) then RWipePrev else RKeys, p)
  | RWipePrev => Some (RCopyPrev, on_prev (fun _ => zero_session) p)
  | RCopyPrev => Some (RCopyIndex, on_prev (fun _ => p_session p) p)
  | RCopyIndex => Some (RKeys, on_prev (fun s => s <| local_index := local_index (p_session p) |>) p)
  | RKeys => Some (RSendCounter, on_session (fun s => s <| receiving_key := in_receiving m |> <| sending_key := in_sending m |>) p)
  | RSendCounter => Some (RRecvCounter, on_session (fun s => s <| sending_counter := 0 |>) p)
  | RRecvCounter => Some (RLocal, on_session (fun s => s <| receiving_counter := 0 |>) p)
  | RLocal => Some (RRemote, on_session (fun s => s <| local_index := in_sender_index m |>) p)
  | RRemote => Some (RTime, on_session (fun s => s <| remote_index := in_remote_index m |>) p)
  | RTime => Some (RValid, on_session (fun s => s <| last_handshake := clock |>) p)
  | RValid => Some (RRekey, on_session (fun s => s <| valid := true |>) p)
  | RRekey => Some (RReplay, on_session (fun s => s <| rekey_in_progress := false |>) p)
  | RReplay => Some (RConnected, on_session (fun s => s <| replay := zero_replay |>) p)
  | RConnected => Some (RMac, p <| connected := true |>)
  | RMac => Some (RDone, p <| p_last_mac1 := in_mac1 m |>)
  | RDone => None
  end.

(** ** The keepalive thread *)

Inductive keep_pc :=
| KTime | KConfigured | KValid | KAge | KWipe | KInvalid | KDisconnect | KWipePrev | KPrevInvalid | KWiped | KKept.

(** [KWiped]: the iteration is over; [KKept]: it goes on to the keepalives. *)
Definition keep_stmt (pc : keep_pc) (clock now : Z) (p : WgPeer) : option (keep_pc * Z * WgPeer) :=
  match pc with
  | KTime => Some (KConfigured, clock, p)
  | KConfigured => Some (if configured p then KValid else KKept, now, p)
  | KValid => Some (if valid (p_session p) then KAge else KKept, now, p)
  | KAge => Some (if WG_ZERO_KEY_TIMEOUT_NS <=? sub64 now (last_handshake (p_session p)) then KWipe else KKept, now, p)
  | KWipe => Some (KInvalid, now, on_session (fun _ => zero_session) p)
  | KInvalid => Some (KDisconnect, now, on_session (fun s => s <| valid := false |>) p)
  | KDisconnect => Some (KWipePrev, now, p <| connected := false |>)
  | KWipePrev => Some (KPrevInvalid, now, on_prev (fun _ => zero_session) p)
  | KPrevInvalid => Some (KWiped, now, on_prev (fun s => s <| valid := false |>) p)
  | KWiped | KKept => None
  end.

(** ** Both *)

Record race := mkRace { rc_peer : WgPeer; rc_recv : recv_pc; rc_keep : keep_pc; rc_now : Z }.

(** Which thread runs next, and the clock. *)
Inductive turn := Recv (clock : Z) | Keep (clock : Z).
Definition clock_of (t : turn) : Z := match t with Recv c | Keep c => c end.

Definition race_step (m : install) (t : turn) (st : race) : option race :=
  match t with
  | Recv c => '(pc, p) ← recv_stmt m (rc_recv st) c (rc_peer st); Some (mkRace p pc (rc_keep st) (rc_now st))
  | Keep c => '(pc, now, p) ← keep_stmt (rc_keep st) c (rc_now st) (rc_peer st); Some (mkRace p (rc_recv st) pc now)
  end.

Fixpoint race_run (m : install) (ts : list turn) (st : race) : option race :=
  match ts with [] => Some st | t :: ts => st ← race_step m t st; race_run m ts st end.

Definition race_start (p : WgPeer) : race := mkRace p RTest KTime 0.

(** The threads reach the ends of their work in a schedule whose clock does not go
    back; [now] is the reading of the keepalive thread. *)
Definition ends (m : install) (p : WgPeer) (ts : list turn) (kept : bool) (now : Z) (p' : WgPeer) : Prop :=
  Sorted Z.le (map clock_of ts) /\
  race_run m ts (race_start p) = Some (mkRace p' RDone (if kept then KKept else KWiped) now).

(** ** Each thread alone *)

Definition installed (m : install) (t : Z) (p : WgPeer) : WgPeer :=
  let p := if valid (p_session p) then p <| p_prev_session := p_session p |> else p in
  p <| p_session := (established ((p_session p) <| local_index := in_sender_index m |> <| remote_index := in_remote_index m |>)
                       (in_sending m) (in_receiving m) t) <| rekey_in_progress := false |> |>
    <| connected := true |> <| p_last_mac1 := in_mac1 m |>.

Definition expired (p : WgPeer) : WgPeer :=
  p <| p_session := zero_session |> <| connected := false |> <| p_prev_session := zero_session |>.

Definition recv_length (p : WgPeer) : nat := if valid (p_session p) then 15 else 12.

Lemma race_run_app m ts ts' st st1 : race_run m ts st = Some st1 -> race_run m (ts ++ ts') st = race_run m ts' st1.
Proof.
  revert st. induction ts as [|t ts IH]; intros st; cbn; [by intros [= ->]|]. destruct (race_step m t st); [apply IH|done].
Qed.

(** The statements of the receive thread in one go store what [installed] says. *)
Lemma recv_alone m t p k now :
  race_run m (replicate (recv_length p) (Recv t)) (mkRace p RTest k now) = Some (mkRace (installed m t p) RDone k now).
Proof. unfold recv_length, installed. by destruct p as [? ? ? ? [? ? ? ? ? ? ? ? ? [] ? ?] ? ? ? ? ? ? ?]. Qed.

(** It is what [wg_handshake_init_process] does to its peer. *)
Lemma respond_installs `{NeonBuild} `{Scratch} `{Platform} `{X25519} tun msg w resp i tun' w' :
  respond tun msg w = (WG_OK, Some (resp, Some i), tun', w') ->
  exists m t, in_remote_index m = i_sender_index msg /\ in_sender_index m = r_sender_index resp /\
    peers tun' = alter (installed m t) i (peers tun).
Proof.
  unfold respond. destruct (negb _); [done|]. destruct (negb _); [done|].
  destruct (consume_init _ _) as [e [[ds st]|]]; [|done]. destruct (wg_find_peer_by_public_key _ _) as [j|] eqn:Ej.
  - destruct (wg_random_index w) as [si w1]. destruct (randomGet 32 w1) as [rnd w2]. destruct (mix_psk _ _) as [s k].
    destruct (wg_kdf2 _ _) as [k1 k2] eqn:Ek. destruct (wg_time_now w2) as [now w3]. intros E.
    injection E as Hr Hj Ht _. exists (mkInstall k1 k2 si (i_sender_index msg) (r_mac1 resp)), now.
    rewrite <- Hr, <- Ht, <- Hj. split_and!; reflexivity.
  - destruct (wg_random_index w) as [si w1]. destruct (randomGet 32 w1) as [rnd w2]. destruct (mix_psk _ _) as [s k].
    destruct (wg_kdf2 _ _) as [k1 k2] eqn:Ek. by destruct (wg_time_now w2) as [now w3].
Qed.

(** The statements of the keepalive thread in one go are the expiry test of
    [keepalive_peer]: the peer is wiped, or left for the keepalives. *)
Definition stale (now : Z) (p : WgPeer) : bool :=
  configured p && (valid (p_session p) && (WG_ZERO_KEY_TIMEOUT_NS <=? sub64 now (last_handshake (p_session p)))).

Lemma keep_rest_expired m t p r now : stale now p = true ->
  race_run m (replicate 8 (Keep t)) (mkRace p r KConfigured now) = Some (mkRace (expired p) r KWiped now).
Proof.
  intros [Hc [Hv Ha]%andb_true_iff]%andb_true_iff. cbn [replicate race_run race_step keep_stmt rc_keep rc_peer rc_recv rc_now mbind option_bind].
  rewrite Hc. cbn. rewrite Hv. cbn. rewrite Ha. reflexivity.
Qed.

Lemma keep_alone_expired m t p r now : stale t p = true ->
  race_run m (replicate 9 (Keep t)) (mkRace p r KTime now) = Some (mkRace (expired p) r KWiped t).
Proof. apply keep_rest_expired. Qed.

Lemma keep_alone_kept m t p r now : stale t p = false ->
  exists n, (n <= 4)%nat /\ race_run m (replicate n (Keep t)) (mkRace p r KTime now) = Some (mkRace p r KKept t).
Proof.
  intros Hs. unfold stale in Hs. destruct (configured p) eqn:Hc; [|exists 2%nat; split; [lia|cbn; by rewrite Hc]].
  destruct (valid (p_session p)) eqn:Hv; [|exists 3%nat; split; [lia|cbn; rewrite Hc; cbn; by rewrite Hv]].
  exists 4%nat. split; [lia|]. cbn in *. rewrite Hc. cbn. rewrite Hv. cbn. by rewrite Hs.
Qed.

Lemma keepalive_peer_expires `{NeonBuild} `{Scratch} `{Platform} `{X25519} now tun i w p :
  peers tun !! i = Some p -> stale now p = true ->
  peers (keepalive_peer now tun i w).1 !! i = Some (expired p) /\ (keepalive_peer now tun i w).2 = w.
Proof.
  intros Hp [Hc Hs]%andb_true_iff. unfold keepalive_peer, get_peer. rewrite Hp. change (default zero_peer (Some p)) with p.
  rewrite Hc, Hs. cbn [negb fst snd]. split; [|done]. cbn. by rewrite list_lookup_alter_eq, Hp.
Qed.

(** ** Both threads *)

Lemma sorted_twice a b n k : a <= b -> Sorted Z.le (replicate n a ++ replicate k b).
Proof.
  intros Hab. assert (forall k, Sorted Z.le (replicate k b)) as Hb.
  { intros j. induction j as [|[|j] IH]; cbn [replicate]; constructor; try done; by constructor. }
  induction n as [|[|n] IH]; cbn [replicate app]; [apply Hb| |]; (constructor; [exact IH|]); [|by constructor].
  destruct k; cbn; by constructor.
Qed.

(** Schedules whose clock shows [a] and then [b]. *)
Lemma monotone_twice ts a b n k : map clock_of ts = replicate n a ++ replicate k b -> a <= b -> Sorted Z.le (map clock_of ts).
Proof. intros -> Hab. by apply sorted_twice. Qed.

Lemma clocks_recv n t : map clock_of (replicate n (Recv t)) = replicate n t.
Proof. apply fmap_replicate. Qed.
Lemma clocks_keep n t : map clock_of (replicate n (Keep t)) = replicate n t.
Proof. apply fmap_replicate. Qed.

(** The receive thread about to set [connected], and about to set [valid]. *)
Lemma recv_to_connected m t p k now :
  race_run m (replicate (recv_length p - 2) (Recv t)) (mkRace p RTest k now) =
    Some (mkRace ((installed m t p) <| connected := connected p |> <| p_last_mac1 := p_last_mac1 p |>) RConnected k now).
Proof. unfold recv_length, installed. by destruct p as [? ? ? ? [? ? ? ? ? ? ? ? ? [] ? ?] ? ? ? ? ? ? ?]. Qed.

Definition half_installed (m : install) (t : Z) (p : WgPeer) : WgPeer :=
  p <| p_prev_session := p_session p |>
    <| p_session := (p_session p) <| receiving_key := in_receiving m |> <| sending_key := in_sending m |> <| sending_counter := 0 |>
         <| receiving_counter := 0 |> <| local_index := in_sender_index m |> <| remote_index := in_remote_index m |>
         <| last_handshake := t |> |>.

Lemma recv_to_valid m t p k now : valid (p_session p) = true ->
  race_run m (replicate 10 (Recv t)) (mkRace p RTest k now) = Some (mkRace (half_installed m t p) RValid k now).
Proof. by destruct p as [? ? ? ? [? ? ? ? ? ? ? ? ? [] ? ?] ? ? ? ? ? ? ?]. Qed.

Lemma stale_after q t0 : configured q = true -> valid (p_session q) = true ->
  (WG_ZERO_KEY_TIMEOUT_NS <=? sub64 t0 (last_handshake (p_session q))) = true -> stale t0 q = true.
Proof. unfold stale. by intros -> -> ->. Qed.

Lemma installed_configured m t p : configured (installed m t p) = configured p.
Proof. unfold installed. by destruct (valid _). Qed.

(** A reading of the clock that is older than the handshake counts as expired. *)
Lemma stale_wraps t0 t1 : 0 <= t0 < t1 -> t1 - t0 <= 2 ^ 64 - WG_ZERO_KEY_TIMEOUT_NS -> (WG_ZERO_KEY_TIMEOUT_NS <=? sub64 t0 t1) = true.
Proof.
  intros H1 H2. apply Z.leb_le. unfold sub64. assert (u64 (t0 - t1) = t0 - t1 + 2 ^ 64) as ->; [|lia].
  unfold WG_ZERO_KEY_TIMEOUT_NS, WG_REJECT_AFTER_TIME, NS in H2. unfold u64. symmetry. apply (Z.mod_unique _ _ (-1)); lia.
Qed.

Lemma fresh_not_stale m p t1 t2 : t1 <= t2 < t1 + WG_ZERO_KEY_TIMEOUT_NS -> stale t2 (installed m t1 p) = false.
Proof.
  intros Ht. unfold stale. replace (last_handshake (p_session (installed m t1 p))) with t1 by done.
  destruct (Z.leb_spec WG_ZERO_KEY_TIMEOUT_NS (sub64 t2 t1)) as [Hl|]; [|by rewrite !andb_false_r]. exfalso.
  unfold sub64 in Hl. rewrite u64_small in Hl; [lia|].
  unfold is_u64, WG_ZERO_KEY_TIMEOUT_NS, WG_REJECT_AFTER_TIME, NS in *. lia.
Qed.

(** C9. A handshake of a peer and the expiry test of the keepalive thread.  When one of
    them is over before the other begins, the peer ends connected with the new session.
    When they overlap, the clock the keepalive thread has read may be older than the
    handshake, the unsigned age wraps to a huge one, and the new session is wiped: after
    the whole handshake, so that the peer is disconnected although it has the response;
    or before the last stores of the receive thread, which then mark the peer connected
    without a session, or its wiped session valid, with both keys zero. *)
Theorem handshake_expiry_race m p t0 t1 t2 :
  configured p = true -> 0 <= t0 < t1 -> t1 - t0 <= 2 ^ 64 - WG_ZERO_KEY_TIMEOUT_NS ->
  t1 <= t2 < t1 + WG_ZERO_KEY_TIMEOUT_NS ->
  (exists n k, ends m p (replicate n (Recv t1) ++ replicate k (Keep t2)) true t2 (installed m t1 p)) /\
  (exists n k, ends m p (replicate k (Keep t0) ++ replicate n (Recv t1)) (negb (stale t0 p)) t0
                 (installed m t1 (if stale t0 p then expired p else p))) /\
  (exists ts, ends m p ts false t0 (expired (installed m t1 p))) /\
  (exists ts p', ends m p ts false t0 p' /\ connected p' = true /\ p_session p' = zero_session) /\
  (valid (p_session p) = true -> exists ts p', ends m p ts false t0 p' /\ connected p' = true /\
     valid (p_session p') = true /\ sending_key (p_session p') = zero_key /\ receiving_key (p_session p') = zero_key).
Proof.
  intros Hc Ht Hw Hf. pose proof (stale_wraps t0 t1 Ht Hw) as Hst. split_and!.
  - destruct (keep_alone_kept m t2 (installed m t1 p) RDone 0) as (k & _ & E); [by apply fresh_not_stale|].
    exists (recv_length p), k. split.
    + rewrite map_app, clocks_recv, clocks_keep. apply sorted_twice. lia.
    + rewrite (race_run_app m _ _ _ (mkRace (installed m t1 p) RDone KTime 0)) by apply recv_alone. exact E.
  - destruct (stale t0 p) eqn:Es.
    + exists (recv_length (expired p)), 9%nat. split; [rewrite map_app, clocks_recv, clocks_keep; apply sorted_twice; lia|].
      rewrite (race_run_app m _ _ _ _ (keep_alone_expired m t0 p RTest 0 Es)). apply recv_alone.
    + destruct (keep_alone_kept m t0 p RTest 0 Es) as (k & _ & E). exists (recv_length p), k.
      split; [rewrite map_app, clocks_recv, clocks_keep; apply sorted_twice; lia|].
      rewrite (race_run_app m _ _ _ _ E). apply recv_alone.
  - exists ([Keep t0] ++ replicate (recv_length p) (Recv t1) ++ replicate 8 (Keep t1)). split.
    + apply (monotone_twice _ t0 t1 1 (recv_length p + 8)); [|lia].
      rewrite !map_app, clocks_recv, clocks_keep, replicate_add. done.
    + rewrite (race_run_app m _ _ _ (mkRace p RTest KConfigured t0)) by done.
      rewrite (race_run_app m _ _ _ _ (recv_alone m t1 p KConfigured t0)).
      apply keep_rest_expired, stale_after; [by rewrite installed_configured|done|done].
  - eexists ([Keep t0] ++ replicate (recv_length p - 2) (Recv t1) ++ replicate 8 (Keep t1) ++ replicate 2 (Recv t1)), _. split; [split|].
    + apply (monotone_twice _ t0 t1 1 (recv_length p - 2 + (8 + 2))); [|lia].
      rewrite !map_app, !clocks_recv, clocks_keep, !replicate_add. done.
    + rewrite (race_run_app m _ _ _ (mkRace p RTest KConfigured t0)) by done.
      rewrite (race_run_app m _ _ _ _ (recv_to_connected m t1 p KConfigured t0)).
      set (q := (installed m t1 p) <| connected := _ |> <| p_last_mac1 := _ |>).
      assert (stale t0 q = true) as Hq by (apply stale_after; [by etrans; [apply installed_configured|]|done|done]).
      rewrite (race_run_app m _ _ _ _ (keep_rest_expired m t1 q RConnected t0 Hq)). reflexivity.
    + done.
  - intros Hv. pose proof (recv_to_valid m t1 p KConfigured t0 Hv) as E.
    eexists ([Keep t0] ++ replicate 10 (Recv t1) ++ replicate 8 (Keep t1) ++ replicate 5 (Recv t1)), _. split; [split|].
    + by apply (monotone_twice _ t0 t1 1 23); [|lia].
    + rewrite (race_run_app m _ _ _ (mkRace p RTest KConfigured t0)) by done. rewrite (race_run_app m _ _ _ _ E).
      assert (stale t0 (half_installed m t1 p) = true) as Hq by (apply stale_after; done).
      rewrite (race_run_app m _ _ _ _ (keep_rest_expired m t1 (half_installed m t1 p) RValid t0 Hq)). reflexivity.
    + done.
Qed.

(** ** A concrete overlap *)

Definition demo_install : install := mkInstall (replicate 32 3) (replicate 32 4) 11 12 (replicate 16 5).
Definition demo_old_peer : WgPeer :=
  zero_peer <| configured := true |> <| connected := true |> <| p_session := zero_session <| valid := true |> <| last_handshake := 40 |> |>.

Lemma handshake_expiry_race_witness :
  (exists ts, ends demo_install demo_old_peer ts false 99 (expired (installed demo_install 100 demo_old_peer))) /\
  (exists ts p', ends demo_install demo_old_peer ts false 99 p' /\ connected p' = true /\ p_session p' = zero_session) /\
  (exists ts p', ends demo_install demo_old_peer ts false 99 p' /\ connected p' = true /\
     valid (p_session p') = true /\ sending_key (p_session p') = zero_key /\ receiving_key (p_session p') = zero_key).
Proof.
  assert (0 <= 99 < 100) as Ht by lia. assert (100 - 99 <= 2 ^ 64 - WG_ZERO_KEY_TIMEOUT_NS) as Hw by (vm_compute; discriminate).
  assert (100 <= 101 < 100 + WG_ZERO_KEY_TIMEOUT_NS) as Hf by (split; [lia|reflexivity]).
  destruct (handshake_expiry_race demo_install demo_old_peer 99 100 101 eq_refl Ht Hw Hf) as (_ & _ & B & C & D).
  exact (conj B (conj C (D eq_refl))).
Defined.
