(* ===== verification/Netif.v ===== *)
(** * The lwIP interface (lwip-relay/src/wg_netif.c)

    The output function of the network interface, which starts a handshake with
    the peer of the destination when there is none, and the receive slots that
    travel to lwIP inside custom pbufs.  lwIP itself is outside the model: what
    its functions return are arguments. *)

From S2P Require Import Prelude Neon RecvPool Aead Crypto Tunnel Platform Noise Wireguard.

(** [ERR_CODE] stands for the other codes of lwIP. *)
Inductive err_t := ERR_OK | ERR_IF | ERR_BUF | ERR_RTE | ERR_ARG | ERR_CODE (code : Z).

#[export] Instance err_t_eq_dec : EqDecision err_t.
Proof. solve_decision. Defined.

Definition WG_MTU : Z := 1420.

(** The interface structure, as far as the code sets it. *)
Record netif := mkNetif { n_name : list Z; n_mtu : Z; n_state : bool; n_up : bool }.

Section output.
Context `{NeonBuild} `{Scratch} `{Platform} `{X25519}.

(** The branch for a peer without a session. *)
Definition auto_connect (tunnel : WgTunnel) (peer : nat) (w : WLD) : WgTunnel * WLD :=
  let '(h_ret, tunnel, init_msg, hs_state, w) := wg_handshake_init_peer tunnel peer w in
  if h_ret =? WG_OK then
    let '(_, w) := wg_socket_send_to tunnel (relay_hash (get_peer tunnel peer)) (init_bytes init_msg) w in
    (upd_peer tunnel peer (fun p => p <| pending_hs := hs_state |> <| hs_pending := true |>), w)
  else (tunnel, w).

(** [n_state] is whether the interface has a tunnel; [buf] is what
    [pbuf_copy_partial] copied. *)
Definition wg_netif_output (netif : netif) (tunnel : WgTunnel) (buf : list Z) (ipaddr : Z) (w : WLD) : err_t * WgTunnel * WLD :=
  if negb (n_state netif) then (ERR_IF, tunnel, w)
  else if (length buf =? 0)%nat then (ERR_BUF, tunnel, w)
  else
    match wg_find_peer_by_ip tunnel ipaddr with
    | None => (ERR_RTE, tunnel, w)
    | Some i =>
        let peer := get_peer tunnel i in
        if negb (connected peer) || negb (valid (p_session peer)) then
          let '(tunnel, w) := auto_connect tunnel i w in (ERR_OK, tunnel, w)
        else
          let '(ret, tunnel, w) := wg_send_to_peer tunnel i buf w in
          if ret <? 0 then (ERR_IF, tunnel, w) else (ERR_OK, tunnel, w)
    end.
End output.

Definition wg_netif_init (netif : netif) : err_t * Netif.netif :=
  (ERR_OK, mkNetif [119; 103] WG_MTU (n_state netif) true).

Definition wg_netif_set_tunnel (netif : netif) (tunnel : bool) : Netif.netif :=
  mkNetif (n_name netif) (n_mtu netif) tunnel (n_up netif).

(** A holder of a receive slot inside a pbuf. *)
Record WgSlotPbuf := mkHolder { h_in_use : bool; h_tunnel : bool; h_slot : option nat }.

Definition wg_slot_pbuf_free (holder : WgSlotPbuf) (tun : WgTunnel) : WgSlotPbuf * WgTunnel :=
  let slot := h_slot holder in
  let has_tun := h_tunnel holder in
  (mkHolder false false None, if has_tun && bool_decide (slot <> None) then wg_recv_slot_release tun slot else tun).

(** [alloc_ok] and [input_ok] are the outcomes of [pbuf_alloced_custom] and of the
    input function; [pbuf_free] of a fresh pbuf calls the free function. *)
Definition wg_netif_input_slot (tun : WgTunnel) (slot : option nat) (len : Z) (holder : WgSlotPbuf)
    (alloc_ok input_ok : bool) : WgSlotPbuf * WgTunnel :=
  match slot with
  | None => (holder, tun)
  | Some i =>
      if len =? 0 then (holder, wg_recv_slot_release tun slot)
      else
        let holder := mkHolder true true slot in
        if negb alloc_ok then (mkHolder false false None, wg_recv_slot_release tun slot)
        else if negb input_ok then wg_slot_pbuf_free holder tun
        else (holder, tun)
  end.

(** Milliseconds of the monotonic clock (lwip-relay/src/sys_arch.c). *)
Definition sys_now (tv_sec tv_nsec : Z) : Z := u32 (tv_sec * 1000 + tv_nsec / 1000000).

(** A slot given to the interface is given back to the pool exactly once: at
    once when lwIP does not take it, by the free function otherwise. *)
Lemma input_slot_once tun i len holder alloc_ok input_ok :
  let '(h, tun') := wg_netif_input_slot tun (Some i) len holder alloc_ok input_ok in
  (len <> 0 /\ alloc_ok = true /\ input_ok = true /\ tun' = tun /\ h = mkHolder true true (Some i) /\
    (wg_slot_pbuf_free h tun').2 = wg_recv_slot_release tun (Some i) /\ h_in_use (wg_slot_pbuf_free h tun').1 = false) \/
  (tun' = wg_recv_slot_release tun (Some i) /\ (len <> 0 -> h_in_use h = false /\ (wg_slot_pbuf_free h tun').2 = tun')).
Proof.
  unfold wg_netif_input_slot. destruct (Z.eqb_spec len 0); [right; done|].
  destruct alloc_ok; cbn [negb]; [|right; done]. destruct input_ok; cbn [negb]; [left|right; done]. split_and!; done.
Qed.
