(* ===== verification/Relay.v ===== *)
(** * The UDP relay (src/wg_relay.c)

    A loopback socket whose datagrams go into the tunnel and whose last sender
    gets what comes out of it. *)

From S2P Require Import Prelude Neon RecvPool Aead Crypto Tunnel Platform Noise Wireguard.

#[local] Open Scope Z_scope.

Definition RELAY_MAX_PACKET : Z := 65535.
Definition RELAY_POLL_TIMEOUT_MS : Z := 100.

(** The tunnel the relay points to is passed beside it. *)
Record WgRelay := mkRelay {
  local_socket : Z; local_port : Z; client_addr : sockaddr_in; has_client : bool; rl_stop_pred : bool; rl_running : bool
}.

#[export] Instance eta_relay : Eta WgRelay := fun r =>
  mkRelay (local_socket r) (local_port r) (client_addr r) (has_client r) (rl_stop_pred r) (rl_running r).

Section relay.
Context `{NeonBuild} `{Scratch} `{Platform} `{X25519}.

(** The callback: it never keeps the slot. *)
Definition relay_recv_callback (relay : WgRelay) (data : list Z) (w : WLD) : Z * WLD :=
  if negb (has_client relay) then (0, w)
  else let '(_, w) := sendto (local_socket relay) (client_addr relay) data w in (0, w).

(** One iteration of the relay thread. *)
Definition relay_thread_step (relay : WgRelay) (tun : WgTunnel) (w : WLD) : WgRelay * WgTunnel * WLD :=
  let '(ret, pollin, w) := poll_in (local_socket relay) RELAY_POLL_TIMEOUT_MS w in
  if ret <=? 0 then (relay, tun, w)
  else if negb pollin then (relay, tun, w)
  else
    let '(received, buf, from_addr, w) := recvfrom (local_socket relay) (Z.to_nat RELAY_MAX_PACKET) w in
    if received <=? 0 then (relay, tun, w)
    else
      let relay := relay <| client_addr := from_addr |> <| has_client := true |> in
      let '(_, tun, w) := wg_send tun buf w in
      (relay, tun, w).

(** [bind_result] and [bound_port] are the results of [bind] and [getsockname]. *)
Definition wg_relay_create (calloc_ok : bool) (local_port : Z) (bind_result bound_port : Z) (stop_cond_ok : bool) (w : WLD)
  : option WgRelay * WLD :=
  if negb calloc_ok then (None, w)
  else
    let '(fd, w) := socket_open w in
    let relay := mkRelay fd local_port (mkAddr 0 0 0) false false false in
    if fd <? 0 then (None, w)
    else if bind_result <? 0 then (None, w)
    else
      let relay := if local_port =? 0 then relay <| Relay.local_port := bound_port |> else relay in
      if negb stop_cond_ok then (None, w) else (Some (relay <| rl_stop_pred := false |>), w).

(** The three booleans are the outcomes of the thread creations. *)
Definition wg_relay_start (relay : WgRelay) (tun : WgTunnel) (recv_ok keep_ok relay_ok : bool) : Z * WgRelay * WgTunnel :=
  if rl_running relay then (-1, relay, tun)
  else
    let tun := wg_set_recv_callback tun true in
    let '(err, tun) := wg_start tun recv_ok keep_ok in
    if negb (err =? WG_OK) then (err, relay, tun)
    else
      let relay := relay <| rl_stop_pred := false |> in
      if negb relay_ok then (-1, relay, wg_stop tun)
      else (0, relay <| rl_running := true |>, tun).

Definition wg_relay_stop (relay : WgRelay) (tun : WgTunnel) : WgRelay * WgTunnel :=
  if negb (rl_running relay) then (relay, tun)
  else (relay <| rl_stop_pred := true |> <| rl_running := false |>, wg_stop tun).

(** The tunnel that remains. *)
Definition wg_relay_destroy (relay : WgRelay) (tun : WgTunnel) : WgTunnel := (wg_relay_stop relay tun).2.

Definition wg_relay_get_port (relay : option WgRelay) : Z := match relay with Some r => local_port r | None => 0 end.

(** ** Life cycle *)

(** What [wg_start] can return. *)
Lemma start_result tun a b :
  let '(err, tun') := wg_start tun a b in
  (err = WG_OK /\ running tun' = true /\ stop_pred tun' = false) \/ (err <> WG_OK /\ running tun' = running tun).
Proof.
  unfold wg_start. destruct (_ && _); [right; done|]. destruct (running tun) eqn:Er; [right; done|].
  destruct a; cbn [negb]; [|right; done]. destruct b; cbn [negb]; [left|right]; done.
Qed.

(** Starting the relay either starts everything or leaves nothing running:
    on success the relay and the tunnel run with their stop flags clear, on any
    failure a relay and a tunnel that did not run still do not, and stopping a
    started relay stops both threads' owners with the stop flags set. *)
Theorem relay_start_stop relay tun a b c :
  rl_running relay = false -> running tun = false ->
  let '(err, relay', tun') := wg_relay_start relay tun a b c in
  (err = 0 /\ rl_running relay' = true /\ running tun' = true /\ rl_stop_pred relay' = false /\ stop_pred tun' = false /\
    let '(relay'', tun'') := wg_relay_stop relay' tun' in
    rl_running relay'' = false /\ running tun'' = false /\ rl_stop_pred relay'' = true /\ stop_pred tun'' = true) \/
  (err <> 0 /\ rl_running relay' = false /\ running tun' = false).
Proof.
  intros Hr Ht. unfold wg_relay_start. rewrite Hr. pose proof (start_result (wg_set_recv_callback tun true) a b) as Hs.
  destruct (wg_start _ a b) as [err t1]. destruct Hs as [(-> & R1 & S1)|(He & R1)].
  - cbn [negb Z.eqb WG_OK]. destruct c; cbn [negb].
    + left. unfold wg_relay_stop, wg_stop. cbn. rewrite R1. done.
    + right. unfold wg_stop. rewrite R1. done.
  - rewrite (proj2 (Z.eqb_neq _ _) He). cbn [negb]. right. split; [done|]. split; [done|]. by rewrite R1.
Qed.

(** A destroyed relay stays the consumer of its tunnel: [wg_relay_destroy]
    frees the relay but the tunnel keeps the callback that points to it, also
    after a start that failed, so a tunnel started again calls into freed
    memory. *)
Theorem destroyed_relay_keeps_callback relay tun a b c :
  rl_running relay = false ->
  let '(_, relay', tun') := wg_relay_start relay tun a b c in recv_cb (wg_relay_destroy relay' tun') = true.
Proof.
  intros Hr. unfold wg_relay_start. rewrite Hr.
  assert (recv_cb (wg_start (wg_set_recv_callback tun true) a b).2 = true) as Hc.
  { unfold wg_start. repeat match goal with |- context [if ?x then _ else _] => destruct x end; done. }
  assert (forall r t, recv_cb t = true -> recv_cb (wg_relay_destroy r t) = true) as Hd.
  { intros r t E. unfold wg_relay_destroy, wg_relay_stop, wg_stop.
    repeat match goal with |- context [if ?x then _ else _] => destruct x end; done. }
  destruct (wg_start _ a b) as [err t1]. cbn [snd] in Hc. destruct (negb _); [by apply Hd|]. destruct c; cbn [negb]; apply Hd; [done|].
  unfold wg_stop. by destruct (negb _).
Qed.

(** A datagram from a client makes it the receiver of the tunnel's output. *)
Lemma relay_remembers_client relay tun w ret w1 received buf from w2 :
  poll_in (local_socket relay) RELAY_POLL_TIMEOUT_MS w = ((ret, true), w1) -> 0 < ret ->
  recvfrom (local_socket relay) (Z.to_nat RELAY_MAX_PACKET) w1 = ((received, buf, from), w2) -> 0 < received ->
  let relay' := (relay_thread_step relay tun w).1.1 in
  has_client relay' = true /\ client_addr relay' = from /\
  forall data w3, relay_recv_callback relay' data w3 = (0, (sendto (local_socket relay) from data w3).2).
Proof.
  intros Hp Hr Hf Hn. unfold relay_thread_step. rewrite Hp. destruct (Z.leb_spec ret 0); [lia|]. cbn [negb]. rewrite Hf.
  destruct (Z.leb_spec received 0); [lia|]. destruct (wg_send tun buf w2) as [[e t] w4]. cbn. split_and!; try done.
  intros data w3. unfold relay_recv_callback. cbn. by destruct (sendto _ _ _ _) as [? ?].
Qed.
End relay.

Definition demo_relay : WgRelay := mkRelay 4 7000 (mkAddr 0 0 0) false false false.

Lemma relay_start_stop_witness :
  let tun := zero_tunnel <| peer_count := 1 |> in
  let '(err, relay', tun') := wg_relay_start demo_relay tun true true true in
  (err = 0 /\ rl_running relay' = true /\ running tun' = true /\ rl_stop_pred relay' = false /\ stop_pred tun' = false /\
    let '(relay'', tun'') := wg_relay_stop relay' tun' in
    rl_running relay'' = false /\ running tun'' = false /\ rl_stop_pred relay'' = true /\ stop_pred tun'' = true) \/
  (err <> 0 /\ rl_running relay' = false /\ running tun' = false).
Proof. intros tun. apply (relay_start_stop demo_relay tun true true true); reflexivity. Defined.

Lemma destroyed_relay_keeps_callback_witness :
  let '(_, relay', tun') := wg_relay_start demo_relay zero_tunnel true false true in recv_cb (wg_relay_destroy relay' tun') = true.
Proof. apply (destroyed_relay_keeps_callback demo_relay zero_tunnel true false true). reflexivity. Defined.
