(* ===== verification/Tester.v ===== *)
(** * The test application (wg-tester/src/main.cpp)

    The tests that the repository ships, run on the model: each function below is the
    translation of the test of that name, and the theorems say that they pass, those with
    random keys and clocks on every platform.  The tests that need the demo server, the
    user interface and the log lines are left out. *)

From Stdlib Require Import String Ascii.
From stdpp Require Import list.
From S2P Require Import Prelude Neon Counter Blake2s ChaCha20 Poly1305 Monocypher Curve25519 Aead Crypto.
From S2P Require Import RecvPool Base64 Thread Tunnel Platform Noise Cookie Wireguard Relay.

#[local] Open Scope Z_scope.

Record TestResult := mkTest { test_name : string; passed : bool }.

(** ** Helpers *)

(** The bytes of a string literal. *)
Fixpoint chars (s : string) : list Z :=
  match s with
  | EmptyString => []
  | String c s => Z.of_nat (nat_of_ascii c) :: chars s
  end.

(** A digit as [sscanf] reads it with %x. *)
Definition hex_digit (c : Z) : Z :=
  if (48 <=? c) && (c <=? 57) then c - 48
  else if (97 <=? c) && (c <=? 102) then c - 87
  else if (65 <=? c) && (c <=? 70) then c - 55 else 0.

Definition hex_to_bytes (hex : string) (len : nat) : list Z :=
  let h := chars hex in
  map (fun i => u8 (16 * hex_digit (rd h (2 * Z.of_nat i)) + hex_digit (rd h (2 * Z.of_nat i + 1)))) (seq 0 len).

Fixpoint compare_bytes (a b : list Z) (len : nat) : bool :=
  match len with
  | O => true
  | S len => if negb (rd a 0 =? rd b 0) then false else compare_bytes (drop 1 a) (drop 1 b) len
  end.

(** [for (i = 0; i < n; i++) a[i] = (uint8_t)(i + base)] *)
Definition counting (n : nat) (base : Z) : list Z := map (fun i => u8 (Z.of_nat i + base)) (seq 0 n).

(** [a[0] ^= 0xFF] and the like. *)
Definition flip_first (a : list Z) (m : Z) : list Z := wr a 0 (Z.lxor (rd a 0) m).

Section tests.
Context `{NeonBuild} `{Scratch}.

(** ** Primitives *)

Definition abc_digest : list Z := hex_to_bytes "508c5e8c327c14e2e1a72ba34eeb452f37458b209ed63a294d999b4c86675982" 32.

Definition test_blake2s : TestResult :=
  let result := blake2s 32 (chars "abc") [] in
  mkTest "BLAKE2s" (compare_bytes result abc_digest 32).

Definition test_x25519 : TestResult :=
  let scalar := hex_to_bytes "a546e36bf0527c9d3b16154b82465edd62144c0ac1fc5a18506a2244ba449ac4" 32 in
  let u := hex_to_bytes "e6db6867583030db3594c1a424b15f7c726624ec26b3353b10a903a6d0ab1c4c" 32 in
  let expected := hex_to_bytes "c3da55379de9c6908e94ea4df28d084f32eccf03491c71f754b4075577a28552" 32 in
  let result := Curve25519.crypto_x25519 scalar u in
  mkTest "X25519" (compare_bytes result expected 32).

Definition test_key : list Z := hex_to_bytes "808182838485868788898a8b8c8d8e8f909192939495969798999a9b9c9d9e9f" 32.
Definition test_aad : list Z := hex_to_bytes "50515253c0c1c2c3c4c5c6c7" 12.

Definition test_chacha20_poly1305 : TestResult :=
  let nonce := hex_to_bytes "070000004041424344454647" 12 in
  let plaintext := chars ("Ladies and Gentlemen of the class of '99: If I could offer you " ++
    "only one tip for the future, sunscreen would be it.")%string in
  let expected_tag := hex_to_bytes "1ae10b594f09e26a7e902ecbd0600691" 16 in
  let ctx := crypto_aead_init_ietf test_key nonce in
  let '(_, _, tag) := crypto_aead_write scratch ctx test_aad plaintext in
  mkTest "AEAD Encrypt" (compare_bytes tag expected_tag 16).

Definition test_chacha20_neon : TestResult :=
  if negb wg_chacha20_neon_available then mkTest "ChaCha20 NEON" false
  else
    let key := counting 32 0 in
    let nonce := hex_to_bytes "000000090000004a00000000" 12 in
    let expected := hex_to_bytes ("10f1e7e4d13b5915500fdd1fa32071c4" ++ "c7d1f4c733c068030422aa9ac3d46c4e" ++
      "d2826446079faa0914c2d705d98b02a2" ++ "b5129cd1de164eb9cbd083e8a2503c4e") 64 in
    let block := wg_chacha20_block_neon key nonce 1 in
    let block_ok := compare_bytes block expected 64 in
    let plain := replicate 128 0x42 in
    let cipher := wg_chacha20_neon plain key nonce 1 in
    let dec := wg_chacha20_neon cipher key nonce 1 in
    let roundtrip_ok := compare_bytes dec plain 128 in
    mkTest "ChaCha20 NEON" (block_ok && roundtrip_ok).

Definition test_blake2s_neon : TestResult :=
  if negb blake2s_neon_available then mkTest "BLAKE2s NEON" false
  else
    let result := blake2s 32 (chars "abc") [] in
    mkTest "BLAKE2s NEON" (compare_bytes result abc_digest 32).

(** The text of a decryption, or the untouched buffer. *)
Definition opened (r : Z * option (list Z)) : list Z := default [] r.2.

Definition test_aead_neon : TestResult :=
  if negb wg_chacha20_neon_available then mkTest "AEAD NEON" false
  else
    let plaintext := chars "Test message for AEAD" in
    let plaintext_len := length plaintext in
    let cipher := sealed (wg_aead_neon_encrypt test_key 1 plaintext test_aad) in
    let result := wg_aead_neon_decrypt test_key 1 (take (plaintext_len + 16) cipher) test_aad in
    let ok := (result.1 =? 0) && compare_bytes (opened result) plaintext plaintext_len in
    mkTest "AEAD NEON" ok.

Definition test_poly1305_rfc : TestResult :=
  let key := hex_to_bytes ("85d6be7857556d337f4452fe42d506a8" ++ "0103808afb0db2fd4abff6af4149f51b") 32 in
  let message := chars "Cryptographic Forum Research Group" in
  let expected := hex_to_bytes "a8061dc1305136c6c22b8baf0c0127a9" 16 in
  let neon_tag := wg_poly1305 scratch message key in
  let mono_tag := crypto_poly1305 scratch message key in
  let neon_ok := compare_bytes neon_tag expected 16 in
  let match_ := compare_bytes neon_tag mono_tag 16 in
  mkTest "Poly1305 RFC" (neon_ok && match_).

Definition test_lengths : list nat := [0; 1; 15; 16; 17; 31; 32; 33; 63; 64; 65; 127; 128]%nat.

Definition test_poly1305_lengths : TestResult :=
  let key := counting 32 0x80 in
  let message := counting 256 0 in
  let all_pass := fold_left (fun all_pass len =>
    let neon_tag := wg_poly1305 scratch (take len message) key in
    let mono_tag := crypto_poly1305 scratch (take len message) key in
    if negb (compare_bytes neon_tag mono_tag 16) then false else all_pass) test_lengths true in
  mkTest "Poly1305 Lengths" all_pass.

(** The nonce of WireGuard: four zero bytes and the counter. *)
Definition test_nonce (counter : Z) : list Z :=
  [0; 0; 0; 0] ++ map (fun i => u8 (shr64 counter (8 * Z.of_nat i))) (seq 0 8).

Definition test_poly1305_aead_compat : TestResult :=
  let plaintext := chars "Test AEAD message" in
  let plen := length plaintext in
  let counter := 42 in
  let nonce := test_nonce counter in
  let neon_poly_key := wg_chacha20_block_neon test_key nonce 0 in
  let mono_poly_key := (crypto_chacha20_ietf None 64 test_key nonce 0).1 in
  let polykey_match := compare_bytes neon_poly_key mono_poly_key 32 in
  let neon_cipher := wg_chacha20_neon plaintext test_key nonce 1 in
  let mono_cipher := (crypto_chacha20_ietf (Some plaintext) plen test_key nonce 1).1 in
  let cipher_match := compare_bytes neon_cipher mono_cipher plen in
  let ctx := crypto_aead_init_ietf test_key nonce in
  let '(_, mono_out, mono_tag) := crypto_aead_write scratch ctx test_aad plaintext in
  let neon_out := sealed (wg_aead_neon_encrypt test_key counter plaintext test_aad) in
  let tag_match := compare_bytes mono_tag (drop plen neon_out) 16 in
  let mono_combined := take plen mono_out ++ take 16 mono_tag in
  let cross_result := (wg_aead_neon_decrypt test_key counter mono_combined test_aad).1 in
  mkTest "Poly1305 AEAD" (polykey_match && cipher_match && tag_match && (cross_result =? 0)).

Definition test_poly1305_aead_32byte_ad : TestResult :=
  let aad := counting 32 0x10 in
  let counter := 0 in
  let nonce := test_nonce counter in
  let '(_, mono_out, mono_tag) := crypto_aead_write scratch (crypto_aead_init_ietf test_key nonce) aad [] in
  let neon_out := sealed (wg_aead_neon_encrypt test_key counter [] aad) in
  let tag_match := compare_bytes mono_tag neon_out 16 in
  let mono_combined := take 0 mono_out ++ take 16 mono_tag in
  let neon_dec_mono := (wg_aead_neon_decrypt test_key counter mono_combined aad).1 in
  let '(_, mono_dec_neon, _) :=
    crypto_aead_read scratch (crypto_aead_init_ietf test_key nonce) (take 16 neon_out) aad (take 0 neon_out) in
  let all_ok := tag_match && (neon_dec_mono =? 0) && (mono_dec_neon =? 0) in
  let test_msg := chars "Test with 32-byte AD" in
  let test_len := length test_msg in
  let '(_, _, mono_tag) := crypto_aead_write scratch (crypto_aead_init_ietf test_key nonce) aad test_msg in
  let neon_out := sealed (wg_aead_neon_encrypt test_key counter test_msg aad) in
  let tag_match2 := compare_bytes mono_tag (drop test_len neon_out) 16 in
  mkTest "AEAD 32-byte AD" (all_ok && tag_match2).

(** ** Replay window *)

(** [ok = ok && check], where the check runs on the window only while [ok] holds. *)
Definition expect (want : bool) (counter : Z) (st : bool * WgReplayCounter) : bool * WgReplayCounter :=
  let '(ok, rc) := st in
  if ok then
    let '(accepted, rc) := wg_counter_validate rc counter in (if want then accepted else negb accepted, rc)
  else (false, rc).

Fixpoint counter_sequential (n : nat) (i : Z) (rc : WgReplayCounter) : bool :=
  match n with
  | O => true
  | S n => let '(accepted, rc) := wg_counter_validate rc i in
           if negb accepted then false else counter_sequential n (i + 1) rc
  end.

Definition test_counter_sequential : TestResult :=
  mkTest "Counter Sequential" (counter_sequential 1000 0 zero_replay).

Definition test_counter_duplicate : TestResult :=
  let st := (true, zero_replay) in
  let st := expect true 42 st in
  let st := expect false 42 st in
  let st := expect true 100 st in
  let st := expect false 100 st in
  mkTest "Counter Duplicate" st.1.

Definition test_counter_out_of_order : TestResult :=
  let st := (true, zero_replay) in
  let st := expect true 500 st in
  let st := expect true 300 st in
  let st := expect true 499 st in
  let st := expect true 1 st in
  let st := expect false 300 st in
  let st := expect false 499 st in
  mkTest "Counter OOO" st.1.

Definition test_counter_window_boundary : TestResult :=
  let high := WG_COUNTER_WINDOW_SIZE + 100 in
  let st := expect true high (true, zero_replay) in
  let boundary := sub64 high (WG_COUNTER_WINDOW_SIZE - 1) in
  let st := expect true boundary st in
  let st := expect false (sub64 boundary 1) st in
  mkTest "Counter Window" st.1.

Definition test_counter_reject_after_messages : TestResult :=
  let st := expect false WG_REJECT_AFTER_MESSAGES (true, zero_replay) in
  let st := expect false (WG_REJECT_AFTER_MESSAGES + 1) st in
  let st := expect true (WG_REJECT_AFTER_MESSAGES - 1) st in
  mkTest "Counter Reject Limit" st.1.

Definition test_counter_large_jump : TestResult :=
  let st := expect true 0 (true, zero_replay) in
  let st := expect true (WG_COUNTER_WINDOW_SIZE * 3) st in
  let st := expect false 0 st in
  let high := WG_COUNTER_WINDOW_SIZE * 3 in
  let st := expect true (high - 100) st in
  let st := expect true (high - 200) st in
  mkTest "Counter Large Jump" st.1.

(** ** Authenticated encryption *)

Definition test_xchacha20poly1305 : TestResult :=
  let key := counting 32 0x10 in
  let nonce := counting 24 0x30 in
  let ad := counting 16 0x50 in
  let plaintext := [0xDE; 0xAD; 0xBE; 0xEF; 0xCA; 0xFE; 0xBA; 0xBE; 1; 2; 3; 4; 5; 6; 7; 8] in
  let '(_, ciphertext, tag) := crypto_aead_write scratch (crypto_aead_init_x key nonce) ad plaintext in
  let combined := take 16 ciphertext ++ take 16 tag in
  let result := wg_xaead_decrypt key nonce combined ad in
  let decrypt_ok := result.1 =? 0 in
  let data_ok := compare_bytes (opened result) plaintext 16 in
  let bad_result := (wg_xaead_decrypt key nonce combined (flip_first ad 0xFF)).1 in
  let reject_ok := negb (bad_result =? 0) in
  mkTest "XChaCha20Poly1305" (decrypt_ok && data_ok && reject_ok).

Definition test_aead_roundtrip : TestResult :=
  let key := counting 32 0xA0 in
  let plaintext := chars "WireGuard transport data test payload" in
  let plen := length plaintext in
  let ciphertext := sealed (wg_aead_encrypt key 7 plaintext []) in
  let result := wg_aead_decrypt key 7 ciphertext [] in
  let roundtrip_ok := (result.1 =? 0) && compare_bytes (opened result) plaintext plen in
  let wrong_ctr_ok := negb ((wg_aead_decrypt key 8 ciphertext []).1 =? 0) in
  let wrong_key_ok := negb ((wg_aead_decrypt (flip_first key 0xFF) 7 ciphertext []).1 =? 0) in
  let tamper_ok := negb ((wg_aead_decrypt key 7 (flip_first ciphertext 0x01) []).1 =? 0) in
  mkTest "AEAD Roundtrip" (roundtrip_ok && wrong_ctr_ok && wrong_key_ok && tamper_ok).

Definition test_aead_with_ad : TestResult :=
  let key := counting 32 0 in
  let ad := counting 32 0x10 in
  let plaintext := chars "test with AD" in
  let plen := length plaintext in
  let ciphertext := sealed (wg_aead_encrypt key 0 plaintext ad) in
  let result := wg_aead_decrypt key 0 ciphertext ad in
  let ad_ok := (result.1 =? 0) && compare_bytes (opened result) plaintext plen in
  let bad_ad_ok := negb ((wg_aead_decrypt key 0 ciphertext (flip_first ad 0xFF)).1 =? 0) in
  let no_ad_ok := negb ((wg_aead_decrypt key 0 ciphertext []).1 =? 0) in
  mkTest "AEAD with AD" (ad_ok && bad_ad_ok && no_ad_ok).

Definition test_aead_empty : TestResult :=
  let key := replicate 32 0 in
  let ciphertext := sealed (wg_aead_encrypt key 0 [] []) in
  let empty_ok := (wg_aead_decrypt key 0 ciphertext []).1 =? 0 in
  let short_ok := negb ((wg_aead_decrypt key 0 (take 15 ciphertext) []).1 =? 0) in
  mkTest "AEAD Empty" (empty_ok && short_ok).

(** ** Hashes and key derivation *)

Definition test_wg_hash : TestResult := mkTest "WG Hash" (compare_bytes (wg_hash (chars "abc")) abc_digest 32).

Definition test_wg_hash2 : TestResult :=
  let h2 := wg_hash2 (chars "Hello") (chars "World") in
  let h_concat := wg_hash (chars "Hello" ++ chars "World")%list in
  mkTest "WG Hash2" (compare_bytes h2 h_concat 32).

Definition test_wg_mac : TestResult :=
  let key := counting 32 0 in
  let mac1 := wg_mac key (chars "test") in
  let same_ok := compare_bytes mac1 (wg_mac key (chars "test")) 16 in
  let diff_ok := negb (compare_bytes mac1 (wg_mac key (chars "tess")) 16) in
  let diff_key_ok := negb (compare_bytes mac1 (wg_mac (flip_first key 0xFF) (chars "test")) 16) in
  mkTest "WG MAC" (same_ok && diff_ok && diff_key_ok).

Definition test_wg_hmac : TestResult :=
  let key := counting 32 0x50 in
  let hmac1 := wg_hmac 32 key (chars "data") in
  let same_ok := compare_bytes hmac1 (wg_hmac 32 key (chars "data")) 32 in
  let diff_ok := negb (compare_bytes hmac1 (wg_hmac 32 key (chars "dat0")) 32) in
  let diff_key_ok := negb (compare_bytes hmac1 (wg_hmac 32 (flip_first key 0xFF) (chars "data")) 32) in
  mkTest "WG HMAC" (same_ok && diff_ok && diff_key_ok).

Definition test_kdf_consistency : TestResult :=
  let key := counting 32 0x20 in
  let input := chars "KDF test input" in
  let kdf1_out := wg_kdf1 key input in
  let '(kdf2_out1, kdf2_out2) := wg_kdf2 key input in
  let kdf1_eq_kdf2 := compare_bytes kdf1_out kdf2_out1 32 in
  let kdf2_diff := negb (compare_bytes kdf2_out1 kdf2_out2 32) in
  let '(kdf3_out1, kdf3_out2, kdf3_out3) := wg_kdf3 key input in
  let kdf3_eq1 := compare_bytes kdf3_out1 kdf2_out1 32 in
  let kdf3_eq2 := compare_bytes kdf3_out2 kdf2_out2 32 in
  let kdf3_diff := negb (compare_bytes kdf3_out2 kdf3_out3 32) in
  mkTest "KDF Consistency" (kdf1_eq_kdf2 && kdf2_diff && kdf3_eq1 && kdf3_eq2 && kdf3_diff).

Definition test_kdf_deterministic : TestResult :=
  let key := counting 32 0 in
  let out_a := wg_kdf1 key (chars "same") in
  let same_ok := compare_bytes out_a (wg_kdf1 key (chars "same")) 32 in
  let diff_input := negb (compare_bytes out_a (wg_kdf1 key (chars "diff")) 32) in
  let diff_key := negb (compare_bytes out_a (wg_kdf1 (flip_first key 0xFF) (chars "same")) 32) in
  let empty_ok := compare_bytes (wg_kdf1 key []) (wg_kdf1 key []) 32 in
  mkTest "KDF Deterministic" (same_ok && diff_input && diff_key && empty_ok).

Definition test_wg_construction_hash : TestResult :=
  let c := wg_hash WG_CONSTRUCTION in
  let h := wg_hash2 c WG_IDENTIFIER in
  let c2 := wg_hash WG_CONSTRUCTION in
  let h2 := wg_hash2 c2 WG_IDENTIFIER in
  mkTest "WG Construction" (compare_bytes c c2 32 && compare_bytes h h2 32 && negb (compare_bytes c h 32)).

(** ** Base64 *)

Definition key_roundtrip (key : list Z) : bool :=
  let b64 := (wg_key_to_base64 64 key).2 in
  let '(err, decoded) := wg_key_from_base64 (c_string b64) in
  (err =? 0) && compare_bytes decoded key 32.

(** The null argument is left out: the model has no null string. *)
Definition test_base64_edge_cases : TestResult :=
  let key := counting 32 0 in
  let encode_ok := (wg_key_to_base64 64 key).1 =? 0 in
  let short_encode := negb ((wg_key_to_base64 10 key).1 =? 0) in
  let short_ok := negb ((wg_key_from_base64 (chars "AAAA")).1 =? 0) in
  let invalid_ok := negb ((wg_key_from_base64 (replicate 43 33)).1 =? 0) in
  mkTest "Base64 Edges" (encode_ok && key_roundtrip key && short_encode && short_ok && invalid_ok &&
    key_roundtrip (replicate 32 0) && key_roundtrip (replicate 32 0xFF)).

Definition pure_tests : list TestResult :=
  [test_blake2s; test_chacha20_poly1305; test_chacha20_neon; test_poly1305_rfc; test_poly1305_lengths;
   test_poly1305_aead_compat; test_poly1305_aead_32byte_ad; test_aead_neon; test_blake2s_neon;
   test_counter_sequential; test_counter_duplicate; test_counter_out_of_order; test_counter_window_boundary;
   test_counter_reject_after_messages; test_counter_large_jump; test_xchacha20poly1305; test_aead_roundtrip;
   test_aead_with_ad; test_aead_empty; test_wg_hash; test_wg_hash2; test_wg_mac; test_wg_hmac; test_kdf_consistency;
   test_kdf_deterministic; test_wg_construction_hash; test_base64_edge_cases].

End tests.


(** ** Tests with random keys, a clock and threads

    [attr], [mutex], ... are the results of the system calls. *)

Definition test_mutex (attr mutex : Z) : TestResult := mkTest "Mutex" (wg_mutex_init attr mutex =? 0).

Definition test_cond (attr setclock cond : Z) : TestResult := mkTest "Cond" (wg_cond_init attr setclock cond =? 0).

Definition test_stop_cond (attr mutex cattr setclock cond : Z) : TestResult :=
  let '(err, pred) := wg_stop_cond_init attr mutex cattr setclock cond in
  let ok := err =? 0 in
  let check1 := ok && negb (wg_stop_cond_check pred) in
  let pred := if ok then wg_stop_cond_signal pred else pred in
  let check2 := ok && wg_stop_cond_check pred in
  mkTest "StopCond" (ok && check1 && check2).

(** [retval] is what the thread function returned. *)
Definition test_thread_create (limit pthread_create pthread_join retval : Z) : TestResult :=
  let created := wg_thread_create limit pthread_create =? 0 in
  let joined := created && (wg_thread_join pthread_join =? 0) in
  let retval := if created then retval else 0 in
  mkTest "Thread Create/Join" (created && joined && (retval =? 0x1234)).

(** [inet_addr("10.0.0.2")] on the little-endian target. *)
Definition inet_10_0_0_2 : Z := 0x0200000a.

Definition WG_MAX_ENDPOINT : nat := 256.

Definition test_config (priv peer_pub : list Z) : WgConfig :=
  mkConfig priv inet_10_0_0_2 peer_pub (chars "127.0.0.1" ++ replicate (WG_MAX_ENDPOINT - 9) 0) 51820 25 (replicate 32 0) false.

(** The receive thread's matching as the test repeats it. *)
Definition match_session (tun : WgTunnel) (receiver_index : Z) : option sess_ref :=
  if receiver_index =? local_index (session tun) then Some TunCur
  else if rekey_in_progress (session tun) && (receiver_index =? old_local_index (session tun)) then Some TunCur
  else if valid (prev_session tun) && (receiver_index =? local_index (prev_session tun)) then Some TunPrev
  else None.

Section platform_tests.
Context `{NeonBuild} `{Scratch} `{Platform} `{X25519} (res : init_results).

Definition test_keypair (w : WLD) : TestResult * WLD :=
  let '(priv, pub, w) := wg_generate_keypair w in
  let '(err, b64) := wg_key_to_base64 64 pub in
  let to_ok := err =? 0 in
  let '(err, decoded) := wg_key_from_base64 (c_string b64) in
  let from_ok := err =? 0 in
  let match_ := compare_bytes decoded pub 32 in
  (mkTest "Keypair + Base64" (to_ok && from_ok && match_), w).

(** The tunnel the tests work on: [wg_generate_keypair(peer_pub, peer_pub)] leaves the
    public key. *)
Definition test_tunnel (w : WLD) : option WgTunnel * WLD :=
  let '(priv, pub, w) := wg_generate_keypair w in
  let '(_, peer_pub, w) := wg_generate_keypair w in
  wg_init res (test_config priv peer_pub) w.

Definition test_wg_init (w : WLD) : TestResult * WLD :=
  let '(tun, w) := test_tunnel w in
  let ok :=
    match tun with
    | Some tun => (wg_get_ip tun).2 =? inet_10_0_0_2
    | None => false
    end in
  (mkTest "WG Init/Close" ok, w).

Definition test_relay (calloc_ok : bool) (bind_result bound_port : Z) (stop_cond_ok : bool) (w : WLD) : TestResult * WLD :=
  let '(tun, w) := test_tunnel w in
  match tun with
  | None => (mkTest "Relay Create" false, w)
  | Some tun =>
      let '(relay, w) := wg_relay_create calloc_ok 0 bind_result bound_port stop_cond_ok w in
      let ok := match relay with Some _ => true | None => false end in
      let port := wg_relay_get_port relay in
      (mkTest "Relay Create" (ok && (0 <? port)), w)
  end.

Definition test_cookie_reply_flow (w : WLD) : TestResult * WLD :=
  let '(tun, w) := test_tunnel w in
  match tun with
  | None => (mkTest "Cookie Reply Flow" false, w)
  | Some tun =>
      let our_index := 0xDEADBEEF in
      let tun := tun <| session := (session tun) <| local_index := our_index |> |> in
      let fake_mac1 := counting 16 0x42 in
      let tun := tun <| last_mac1 := fake_mac1 |> in
      let cookie_key := wg_hash2 WG_LABEL_COOKIE (peer_public tun) in
      let real_cookie := counting 16 0xC0 in
      let nonce := counting 24 0x77 in
      let '(_, cipher_text, tag) := crypto_aead_write scratch (crypto_aead_init_x cookie_key nonce) fake_mac1 real_cookie in
      let reply := mkCookie WG_MSG_COOKIE_REPLY [0; 0; 0] our_index nonce (cipher_text ++ tag) in
      let tun := tun <| has_cookie := false |> in
      let '(err, tun, w) := wg_process_cookie_reply tun reply w in
      let decrypt_ok := err =? WG_OK in
      let cookie_set := has_cookie tun in
      let cookie_match := compare_bytes (cookie tun) real_cookie 16 in
      let timestamp_set := 0 <? cookie_timestamp tun in
      let '(bad_err, tun, w) := wg_process_cookie_reply tun (mkCookie (c_type reply) (c_reserved reply) 0x12345678 (c_nonce reply) (encrypted_cookie reply)) w in
      let bad_index_ok := negb (bad_err =? WG_OK) in
      (mkTest "Cookie Reply Flow" (decrypt_ok && cookie_set && cookie_match && timestamp_set && bad_index_ok), w)
  end.

Definition test_rekey_index_matching (w : WLD) : TestResult * WLD :=
  let '(tun, w) := test_tunnel w in
  match tun with
  | None => (mkTest "Rekey Index Match" false, w)
  | Some tun =>
      let NEW_IDX := 0xAAAAAAAA in
      let OLD_IDX := 0xBBBBBBBB in
      let PREV_IDX := 0xCCCCCCCC in
      let BAD_IDX := 0xDDDDDDDD in
      let recv_key := replicate 32 0x42 in
      let '(now, w) := wg_time_now w in
      let tun := tun <| session := (session tun) <| receiving_key := recv_key |> <| local_index := NEW_IDX |>
        <| old_local_index := OLD_IDX |> <| rekey_in_progress := true |> <| valid := true |> <| last_handshake := now |>
        <| receiving_counter := 0 |> <| replay := zero_replay |> |> in
      let prev_key := replicate 32 0x99 in
      let '(now, w) := wg_time_now w in
      let tun := tun <| prev_session := (prev_session tun) <| receiving_key := prev_key |> <| local_index := PREV_IDX |>
        <| valid := true |> <| last_handshake := now |> <| receiving_counter := 0 |> <| replay := zero_replay |> |> in
      let new_ok := bool_decide (match_session tun NEW_IDX = Some TunCur) in
      let old_ok := bool_decide (match_session tun OLD_IDX = Some TunCur) in
      let prev_ok := bool_decide (match_session tun PREV_IDX = Some TunPrev) in
      let bad_ok := bool_decide (match_session tun BAD_IDX = None) in
      let tun := tun <| session := (session tun) <| rekey_in_progress := false |> |> in
      let no_rekey_ok := bool_decide (match_session tun OLD_IDX = None) in
      let tun := tun <| session := (session tun) <| rekey_in_progress := true |> |> in
      let plaintext := [0x45; 0x00; 0x00; 0x1c] in
      let ciphertext := sealed (wg_aead_encrypt recv_key 0 plaintext []) in
      let decrypt_ok :=
        match match_session tun OLD_IDX with
        | Some matched =>
            let '(dec, decrypted) := wg_aead_decrypt (receiving_key (get_sess tun matched)) 0 ciphertext [] in
            (dec =? 0) && bool_decide (default [] decrypted = plaintext)
        | None => false
        end in
      (mkTest "Rekey Index Match" (new_ok && old_ok && prev_ok && bad_ok && no_rekey_ok && decrypt_ok), w)
  end.

(** [wg_send(..) >= 0 || wg_send(..) == WG_ERR_SOCKET], whose value is not used. *)
Definition send_once_or_twice (tun : WgTunnel) (data : list Z) (w : WLD) : bool * WgTunnel * WLD :=
  let '(r, tun, w) := wg_send tun data w in
  if 0 <=? r then (true, tun, w)
  else let '(r, tun, w) := wg_send tun data w in (r =? WG_ERR_SOCKET, tun, w).

Definition test_session_expiry (w : WLD) : TestResult * WLD :=
  let '(tun, w) := test_tunnel w in
  match tun with
  | None => (mkTest "Session Expiry" false, w)
  | Some tun =>
      let data := [1; 2] in
      let '(r, tun, w) := wg_send tun data w in
      let not_connected := r =? WG_ERR_NOT_CONNECTED in
      let tun := tun <| session := (session tun) <| sending_key := replicate 32 0xAA |> <| remote_index := 0x12345678 |>
        <| valid := true |> <| sending_counter := 0 |> |> in
      let '(now, w) := wg_time_now w in
      let tun := tun <| session := (session tun) <| last_handshake := now |> |> in
      let '(_, tun, w) := wg_socket_open tun w in
      let '(send_ok, tun, w) := send_once_or_twice tun data w in
      let '(now, w) := wg_time_now w in
      let tun := tun <| session := (session tun) <| last_handshake := sub64 now ((WG_REJECT_AFTER_TIME + 1) * NS) |> |> in
      let '(r, tun, w) := wg_send tun data w in
      let expired := r =? WG_ERR_NOT_CONNECTED in
      let '(now, w) := wg_time_now w in
      let tun := tun <| session := (session tun) <| last_handshake := now |> <| sending_counter := WG_REJECT_AFTER_MESSAGES |> |> in
      let '(r, tun, w) := wg_send tun data w in
      let counter_expired := r =? WG_ERR_NOT_CONNECTED in
      (mkTest "Session Expiry" (not_connected && expired && counter_expired), w)
  end.
End platform_tests.

(** ** Every test passes *)

(** A buffer is equal to itself. *)
Lemma compare_bytes_refl a n : compare_bytes a a n = true.
Proof. revert a. induction n as [|n IH]; intros a; [done|]. cbn [compare_bytes]. rewrite Z.eqb_refl. apply IH. Qed.

Section pass.
Context `{NeonBuild} `{Scratch} `{Platform} `{X25519} `{!PlatformLaws _} `{!X25519Laws _}.

Definition all_ok : init_results := mkResults true true true true true.

Lemma generate_keypair_ok w : exists priv pub w', wg_generate_keypair w = (priv, pub, w') /\ key_ok priv /\ key_ok pub.
Proof.
  unfold wg_generate_keypair. pose proof (clamp_random_ok 32 w eq_refl) as Hr. destruct (randomGet 32 w) as [k w'].
  do 3 eexists. split; [done|]. split; [done|apply public_key_ok].
Qed.

(** What the tests know of their tunnel. *)
Record test_tunnel_ok (tun : WgTunnel) : Prop := {
  tt_ip : tunnel_ip tun = inet_10_0_0_2;
  tt_invalid : valid (session tun) = false;
  tt_peers : peer_count tun = 0;
  tt_peer : key_ok (peer_public tun)
}.

Lemma test_tunnel_ready w : exists tun w', test_tunnel all_ok w = (Some tun, w') /\ test_tunnel_ok tun.
Proof.
  unfold test_tunnel. destruct (generate_keypair_ok w) as (priv & pub & w1 & -> & Hpr & Hpu).
  destruct (generate_keypair_ok w1) as (p2 & peer & w2 & -> & _ & Hpeer).
  unfold wg_init. cbn [all_ok calloc_ok send_mutex_ok stop_cond_ok pool_calloc_ok pool_mutex_ok negb].
  unfold wg_resolve_endpoint.
  assert (c_string (endpoint_host (test_config priv peer)) = LOCALHOST) as -> by reflexivity.
  rewrite bool_decide_true by reflexivity. cbn [Z.eqb WG_OK negb].
  unfold wg_recv_pool_init. destruct (link_slots _ _) as [ss head]. do 2 eexists. split; [reflexivity|].
  split; [reflexivity..|exact Hpeer].
Qed.

(** A string of characters ends at its terminator. *)
Lemma c_string_ends s t : Forall (fun c => c <> 0) s -> c_string (s ++ 0 :: t) = s.
Proof. induction 1 as [|c s Hc Hs IH]; [done|]. cbn [app c_string]. by rewrite (proj2 (Z.eqb_neq c 0) Hc), IH. Qed.

Lemma c_string_base64 key : c_string (wg_key_to_base64 64 key).2 = take 44 (wg_key_to_base64 64 key).2.
Proof.
  destruct (base64_chars 64 key ltac:(lia)) as (Hl & Hz & Hc). set (out := (wg_key_to_base64 64 key).2) in *.
  rewrite <- (take_drop 44 out) at 1. assert (drop 44 out = [0]) as ->; [|by apply c_string_ends].
  destruct (drop 44 out) as [|z [|? l]] eqn:Ed; apply (f_equal length) in Ed as Ed'; rewrite length_drop, Hl in Ed'; cbn in Ed'; try lia.
  unfold rd in Hz. change (Z.to_nat 44) with 44%nat in Hz.
  rewrite <- (take_drop 44 out), Ed, app_nth2, length_take, Hl in Hz by (rewrite length_take, Hl; cbn; lia).
  cbn in Hz. by rewrite Hz.
Qed.

Lemma keypair_passes w : passed (test_keypair w).1 = true.
Proof.
  unfold test_keypair. destruct (generate_keypair_ok w) as (priv & pub & w1 & -> & _ & [Hb Hl]).
  pose proof (base64_roundtrip_lemma 64 pub Hb Hl ltac:(lia)) as E. pose proof (c_string_base64 pub) as Ec.
  destruct (wg_key_to_base64 64 pub) as [err b64] eqn:Eb. cbn [snd] in E, Ec. rewrite Ec, E. cbn [fst passed].
  rewrite compare_bytes_refl. apply (f_equal fst) in Eb. cbn in Eb. by rewrite <- Eb.
Qed.

Lemma init_passes w : passed (test_wg_init all_ok w).1 = true.
Proof.
  unfold test_wg_init. destruct (test_tunnel_ready w) as (tun & w1 & -> & Ht). cbn [fst passed wg_get_ip snd].
  by rewrite (tt_ip tun Ht).
Qed.

(** The relay needs a socket, and a port from [getsockname]. *)
Lemma relay_passes w port : 0 < port -> (forall w, 0 <= (socket_open w).1) -> passed (test_relay all_ok true 0 port true w).1 = true.
Proof.
  intros Hp Hs. unfold test_relay. destruct (test_tunnel_ready w) as (tun & w1 & -> & Ht).
  unfold wg_relay_create. specialize (Hs w1). destruct (socket_open w1) as [fd w2]. cbn [fst negb] in *.
  rewrite (proj2 (Z.ltb_ge fd 0) Hs). cbn [Z.ltb Z.compare Z.eqb passed fst]. cbn. by apply Z.ltb_lt.
Qed.

Lemma counting_ok n base : is_bytes (counting n base) /\ length (counting n base) = n.
Proof.
  unfold counting. split; [|by rewrite length_map, length_seq].
  apply Forall_forall. intros x (i & -> & _)%list_elem_of_fmap. apply u8_range.
Qed.

(** The clock of the tests: positive, not going back, and far from the end of 64 bits. *)
Definition steady_clock : Prop := forall w, 0 < (wg_time_now w).1 /\ (wg_time_now w).1 <= (wg_time_now (wg_time_now w).2).1 < 2 ^ 63.

Lemma cookie_passes w : steady_clock -> passed (test_cookie_reply_flow all_ok w).1 = true.
Proof.
  intros Hc. unfold test_cookie_reply_flow. destruct (test_tunnel_ready w) as (tun & w1 & -> & Ht).
  set (tun1 := _ <| last_mac1 := _ |>). destruct (counting_ok 16 0x42) as [Hm Lm]. destruct (counting_ok 16 0xC0) as [Hr Lr].
  destruct (counting_ok 24 0x77) as [Hn Ln]. rewrite wg_hash2_eq.
  assert (xnonce_ok (counting 24 0x77)) as Hx by done.
  assert (text_ok (counting 16 0x42)) as Htm by (split; [done|rewrite Lm; lia]).
  assert (text_ok (counting 16 0xC0)) as Htr by (split; [done|rewrite Lr; lia]).
  pose proof (aead_write_x (HASH (WG_LABEL_COOKIE ++ peer_public tun1)) (counting 24 0x77) (counting 16 0x42) (counting 16 0xC0)
    (HASH_ok _) Hx Htm Htr) as E.
  destruct (crypto_aead_write _ _ _ _) as [[ctx ct] tag]. destruct E as [E _]. rewrite E.
  set (key := HASH _) in *. assert (key = cookie_key tun1) as Hkey by reflexivity.
  pose proof (is_bytes_xseal key (counting 24 0x77) (counting 16 0x42) (counting 16 0xC0) Hr) as Hxb.
  pose proof (length_xseal key (counting 24 0x77) (counting 16 0x42) (counting 16 0xC0)) as Hxl. rewrite Lr in Hxl.
  set (x := xseal _ _ _ _) in *. assert (x = xseal key (counting 24 0x77) (counting 16 0x42) (counting 16 0xC0)) as Hxe by reflexivity.
  clearbody x. clearbody key.
  set (tun2 := tun1 <| has_cookie := false |>). set (msg := mkCookie _ _ _ _ _).
  assert (cookie_ok msg) as Hmsg by (split; [exact Hx|split; [exact Hxb|exact Hxl]]).
  assert (reply_seals tun2 msg (last_mac1 tun2) (counting 16 0xC0)) as Hseal.
  { unfold reply_seals. change (encrypted_cookie msg) with x. change (cookie_key tun2) with (cookie_key tun1).
    rewrite <- Hkey. exact Hxe. }
  rewrite (cookie_reply_accepts tun2 msg (counting 16 0xC0) w1 Hmsg Htm eq_refl eq_refl Hseal).
  set (bad := mkCookie _ _ 0x12345678 _ _). unfold wg_process_cookie_reply.
  change (c_type bad =? WG_MSG_COOKIE_REPLY) with true. change (c_receiver_index bad) with 0x12345678.
  match goal with |- context [local_index ?x] => change (local_index x) with 0xDEADBEEF end.
  cbn [negb Z.eqb Pos.eqb fst passed]. cbn [cookie has_cookie cookie_timestamp].
  rewrite compare_bytes_refl. destruct (Hc w1) as [Hpos _]. apply Z.ltb_lt in Hpos.
  match goal with |- context [0 <? ?t] => change t with (wg_time_now w1).1 end. rewrite Hpos. done.
Qed.

Lemma rekey_passes w : passed (test_rekey_index_matching all_ok w).1 = true.
Proof.
  unfold test_rekey_index_matching. destruct (test_tunnel_ready w) as (tun & w1 & -> & Ht).
  destruct (wg_time_now w1) as [t1 w2]. destruct (wg_time_now w2) as [t2 w3].
  destruct (sealed_opens (replicate 32 0x42) [0x45; 0x00; 0x00; 0x1c] []) as (E & _ & _);
    [split; [by apply is_bytes_replicate|done]|split; [constructor|done]|repeat constructor; lia|cbn; lia|].
  set (c := sealed _) in *. clearbody c.
  match goal with |- context [match match_session ?t ?i with _ => _ end] => set (tun1 := t) end.
  assert (match_session tun1 0xBBBBBBBB = Some TunCur) as -> by reflexivity.
  assert (receiving_key (get_sess tun1 TunCur) = replicate 32 0x42) as -> by reflexivity.
  rewrite E. reflexivity.
Qed.

Lemma send_refused tun data w :
  (REJECT_NS <= sub64 (wg_time_now w).1 (last_handshake (session tun)) \/
   WG_REJECT_AFTER_MESSAGES <= sending_counter (session tun)) ->
  (wg_send tun data w).1.1 = WG_ERR_NOT_CONNECTED.
Proof.
  intros Hl. destruct (valid (session tun)) eqn:Hv; [by rewrite send_refused_after_limit|].
  unfold wg_send. by rewrite Hv.
Qed.

Lemma expiry_passes w : steady_clock -> passed (test_session_expiry all_ok w).1 = true.
Proof.
  intros Hc. unfold test_session_expiry. destruct (test_tunnel_ready w) as (tun & w1 & -> & Ht).
  unfold wg_send at 1. rewrite (tt_invalid tun Ht). cbn [negb].
  destruct (wg_time_now w1) as [t1 w2].
  set (tun1 := _ <| session := _ |>). destruct (wg_socket_open tun1 w2) as [[e1 tun2] w3].
  destruct (send_once_or_twice tun2 [1; 2] w3) as [[sok tun3] w4].
  pose proof (Hc w4) as [H4 H4']. destruct (wg_time_now w4) as [t4 w5]. cbn [fst snd] in *.
  set (tun4 := _ <| session := _ |>). pose proof (send_refused tun4 [1; 2] w5) as E4.
  assert (last_handshake (session tun4) = sub64 t4 ((WG_REJECT_AFTER_TIME + 1) * NS)) as El by reflexivity.
  rewrite El in E4. destruct (wg_send tun4 [1; 2] w5) as [[r4 tun5] w6]. cbn [fst] in E4.
  rewrite E4; [|left; unfold sub64, u64, REJECT_NS, WG_REJECT_AFTER_TIME, NS in *; rewrite Zminus_mod_idemp_r;
    rewrite Z.mod_small by lia; lia].
  destruct (wg_time_now w6) as [t6 w7]. set (tun6 := _ <| session := _ |>).
  pose proof (send_refused tun6 [1; 2] w7) as E6. destruct (wg_send tun6 [1; 2] w7) as [[r6 tun7] w8]. cbn [fst] in E6.
  rewrite E6; [done|]. right. reflexivity.
Qed.

(** C40. The tests with random keys and a clock pass on every platform whose allocations
    succeed and whose clock is positive and does not go back: key encoding, creation of a
    tunnel, a cookie reply sealed by the server and one for another index, the matching of
    indices with a decryption, and the refusals of [wg_send] without a session, after 180
    seconds and at the message limit. *)
Theorem tests_pass_on_every_platform w :
  steady_clock ->
  passed (test_keypair w).1 = true /\ passed (test_wg_init all_ok w).1 = true /\
  passed (test_cookie_reply_flow all_ok w).1 = true /\ passed (test_rekey_index_matching all_ok w).1 = true /\
  passed (test_session_expiry all_ok w).1 = true.
Proof.
  intros Hc. split; [apply keypair_passes|]. split; [apply init_passes|]. split; [by apply cookie_passes|].
  split; [apply rekey_passes|by apply expiry_passes].
Qed.

(** The matching of the receive thread, for a tunnel without peers. *)
Lemma find_session_no_peers tun i :
  peer_count tun = 0 ->
  find_session tun i = (None,
    if i =? local_index (session tun) then Some TunCur
    else if i =? old_local_index (session tun) then Some TunCur
    else if valid (prev_session tun) && (i =? local_index (prev_session tun)) then Some TunPrev else None).
Proof. intros Hp. unfold find_session, wg_find_peer_by_local_index, first_peer. by rewrite Hp. Qed.
End pass.

(** The matching that test_rekey_index_matching copies is not the one of the receive
    thread: for a tunnel without peers they agree on every index except, while no rekey is in
    progress, on the old index, which the receive thread gives to the current session
    and the test's copy does not. *)
Theorem tester_matching_differs tun i :
  peer_count tun = 0 ->
  (find_session tun i).2 <> match_session tun i <->
  i = old_local_index (session tun) /\ i <> local_index (session tun) /\ rekey_in_progress (session tun) = false.
Proof.
  intros Hp. rewrite find_session_no_peers by done. unfold match_session. cbn [snd].
  destruct (Z.eqb_spec i (local_index (session tun))), (Z.eqb_spec i (old_local_index (session tun)));
    destruct (rekey_in_progress (session tun)); cbn [andb]; try tauto; try (split; [done|intros (?&?&?)]; done).
  split; [done|]. destruct (valid _ && _); done.
Qed.

(** The known answers and round trips of the test application hold of the model in the
    vector build: BLAKE2s, ChaCha20, Poly1305 for thirteen lengths, the authenticated
    ciphers with their refusals, the replay window, key derivation and base64. *)
Theorem known_answers_pass : forallb passed (@pure_tests true demo_scratch) = true.
Proof. vm_compute. reflexivity. Qed.

(** A platform with a steady clock. *)
Definition steady_platform : Platform :=
  let P := demo_platform in
  {| WLD := demo_world; randomGet := @randomGet P; arm_ns w := (Z.max 1 (Z.min (ticks w) (2 ^ 62)), demo_tick w);
     clock_realtime := @clock_realtime P; relay_installed := @relay_installed P; relay_call := @relay_call P;
     sendto := @sendto P; socket_open := @socket_open P; poll_in := @poll_in P; recvfrom := @recvfrom P;
     ring_recv := @ring_recv P; getaddrinfo := @getaddrinfo P; svcSleepThread := @svcSleepThread P;
     scheduled := @scheduled P; recv_callback := @recv_callback P |}.

Lemma steady_platform_laws : PlatformLaws steady_platform.
Proof.
  split; [exact (@randomGet_bytes demo_platform (demo_net_laws _))|]. intros w. cbn -[Z.pow]. unfold is_u64. lia.
Qed.

Lemma steady_platform_clock : @steady_clock steady_platform.
Proof. intros w. cbn -[Z.pow]. lia. Qed.

Lemma tests_pass_on_every_platform_witness :
  passed (@test_session_expiry true demo_scratch steady_platform demo_x25519 all_ok (mkDemo 5 [])).1 = true.
Proof.
  apply (@tests_pass_on_every_platform true demo_scratch steady_platform demo_x25519 steady_platform_laws demo_x25519_laws
    (mkDemo 5 []) steady_platform_clock).
Defined.

Lemma tester_matching_differs_witness :
  let tun := zero_tunnel <| session := zero_session <| local_index := 5 |> <| old_local_index := 9 |> |> in
  (find_session tun 9).2 <> match_session tun 9.
Proof. intros tun. apply (tester_matching_differs tun 9); [reflexivity|]. split_and!; [reflexivity|discriminate|reflexivity]. Defined.
