(* ===== verification/LwipRelay.v ===== *)
(** * The TCP/UDP relay over lwIP (lwip-relay/src/wg_lwip_relay.cpp)

    The class [LwipRelay]: local sockets of the application on one side, lwIP over
    the tunnel on the other.  Packets of the tunnel arrive in receive slots, wait in
    a queue and enter lwIP inside pbufs that give the slot back when lwIP frees them.

    lwIP is a submodule without sources here.  Its functions and those of the socket
    library are the operations of the class [Lwip]; where lwIP calls the program
    back, the operation returns the calls it makes, in order, and the model runs the
    handlers of the program on them. *)

From stdpp Require Import gmap relations.
From S2P Require Import Prelude Neon RecvPool Aead Crypto Tunnel Platform Noise Wireguard Netif.

(** ** lwIP and sockets *)

(** A pbuf as a handler sees it: its first segment, and the length of the chain. *)
Record pbuf := mkPbuf { p_id : nat; p_payload : list Z; p_tot_len : Z }.

(** A call of lwIP into the program; [arg] is the pointer given to [tcp_arg] or
    [udp_recv]. *)
Inductive event :=
| EvTcpConnected (arg : option nat) (pcb : nat) (err : err_t)
| EvTcpRecv (arg : option nat) (pcb : nat) (p : option pbuf) (err : err_t)
| EvTcpSent (arg : option nat) (pcb : nat) (len : Z)
| EvTcpError (arg : option nat) (err : err_t)
| EvUdpRecv (arg : option nat) (p : option pbuf)
| EvOutput (buf : list Z) (ipaddr : Z)
| EvSlotFree (holder : nat).

Class Lwip (P : Platform) := {
  (** [socket]; a stream or a datagram socket *)
  k_socket : bool -> WLD -> Z * WLD;
  (** [bind] to the loopback address *)
  k_bind : Z -> Z -> WLD -> Z * WLD;
  k_getsockname : Z -> WLD -> (Z * Z) * WLD;
  k_connect : Z -> Z -> WLD -> Z * WLD;
  k_listen : Z -> Z -> WLD -> Z * WLD;
  k_accept : Z -> WLD -> Z * WLD;
  k_close : Z -> WLD -> WLD;
  (** [fcntl] with O_NONBLOCK, and the socket options *)
  k_nonblock : Z -> WLD -> WLD;
  k_setsockopt : Z -> WLD -> WLD;
  (** [poll] without a timeout: the result, POLLIN, and POLLERR or POLLHUP *)
  k_poll : Z -> WLD -> (Z * bool * bool) * WLD;
  (** [recv]: the result, the bytes, and whether [errno] is EAGAIN or EWOULDBLOCK *)
  k_recv : Z -> nat -> WLD -> (Z * list Z * bool) * WLD;
  k_send : Z -> list Z -> WLD -> Z * WLD;
  (** the byte written to the wake socket, and the reads that empty it *)
  k_wake : Z -> WLD -> WLD;
  k_drain : Z -> WLD -> WLD;
  inet_pton : list Z -> option Z;
  lwip_init : WLD -> WLD;
  netif_add : Z -> WLD -> WLD;
  netif_set_default_up : WLD -> WLD;
  netif_remove : WLD -> WLD;
  tcp_new : WLD -> option nat * WLD;
  tcp_arg_err : nat -> nat -> WLD -> WLD;
  tcp_connect : nat -> Z -> Z -> WLD -> err_t * list event * WLD;
  tcp_abort : nat -> WLD -> list event * WLD;
  tcp_close : nat -> WLD -> list event * WLD;
  tcp_write : nat -> list Z -> WLD -> err_t * WLD;
  tcp_output : nat -> WLD -> list event * WLD;
  (** [tcp_recv] and [tcp_sent] install the handlers *)
  tcp_recv_sent : nat -> WLD -> WLD;
  tcp_recved : nat -> Z -> WLD -> list event * WLD;
  udp_new : WLD -> option nat * WLD;
  udp_bind : nat -> Z -> Z -> WLD -> err_t * WLD;
  udp_recv : nat -> nat -> WLD -> WLD;
  udp_remove : nat -> WLD -> WLD;
  udp_sendto : nat -> list Z -> Z -> Z -> WLD -> list event * WLD;
  pbuf_alloc : Z -> WLD -> bool * WLD;
  (** [pbuf_free]: the holders whose pbufs it frees *)
  pbuf_free : nat -> WLD -> list nat * WLD;
  pbuf_alloced_custom : nat -> WLD -> bool * WLD;
  (** [netif->input] on the pbuf of a holder *)
  ip_input : nat -> list Z -> WLD -> err_t * list event * WLD;
  sys_check_timeouts : WLD -> list event * WLD
}.

(** ** The object *)

(** [std::map]: the entries in the order of their keys. *)
Fixpoint mset {A} (k : Z) (v : A) (m : list (Z * A)) : list (Z * A) :=
  match m with
  | [] => [(k, v)]
  | (k', v') :: m' => if k <? k' then (k, v) :: m else if k =? k' then (k, v) :: m' else (k', v') :: mset k v m'
  end.
Fixpoint mfind {A} (k : Z) (m : list (Z * A)) : option A :=
  match m with [] => None | (k', v) :: m' => if k =? k' then Some v else mfind k m' end.
Definition merase {A} (k : Z) (m : list (Z * A)) : list (Z * A) := filter (fun e => e.1 <> k) m.

Record TcpConnection := mkConn {
  localSock : Z; pcb : option nat; c_localPort : Z; c_targetPort : Z; c_connected : bool
}.
Record UdpBinding := mkBinding {
  u_localSock : Z; u_pcb : nat; u_localPort : Z; u_targetPort : Z; u_clientAddr : sockaddr_in; u_hasClient : bool
}.
Record IncomingSlot := mkIncoming { in_slot : nat; in_data : list Z }.

Definition kSlotHolderCount : nat := 128.
Definition kMaxPerIteration : nat := 16.

(** Connections and bindings are heap objects: the maps own them by their address,
    lwIP keeps the address as the argument of its callbacks. *)
Record LwipRelay := mkLwipRelay {
  running_ : bool; initialized_ : bool; netif_ : netif; tunnelAddr_ : Z; targetAddr_ : Z;
  tcpListeners_ : list (Z * Z); tcpConnections_ : list (Z * nat); udpBindings_ : list (Z * nat);
  conns : gmap nat TcpConnection; binds : gmap nat UdpBinding; next_obj : nat;
  incomingQueue_ : list IncomingSlot; slotHolders_ : list WgSlotPbuf; wakeFd_ : Z * Z
}.

#[export] Instance eta_conn : Eta TcpConnection := fun c =>
  mkConn (localSock c) (pcb c) (c_localPort c) (c_targetPort c) (c_connected c).
#[export] Instance eta_binding : Eta UdpBinding := fun b =>
  mkBinding (u_localSock b) (u_pcb b) (u_localPort b) (u_targetPort b) (u_clientAddr b) (u_hasClient b).
#[export] Instance eta_lwip_relay : Eta LwipRelay := fun r =>
  mkLwipRelay (running_ r) (initialized_ r) (netif_ r) (tunnelAddr_ r) (targetAddr_ r) (tcpListeners_ r)
    (tcpConnections_ r) (udpBindings_ r) (conns r) (binds r) (next_obj r) (incomingQueue_ r) (slotHolders_ r) (wakeFd_ r).

(** The constructor. *)
Definition lwip_relay_new : LwipRelay :=
  mkLwipRelay false false (mkNetif [] 0 false false) 0 0 [] [] [] ∅ ∅ 0 []
    (replicate kSlotHolderCount (mkHolder false false None)) (-1, -1).

(** ** Queue operations *)

(** [handleIncomingPacket]: the test at its start, and the locked part with whether
    the queue was empty. *)
Definition queue_check (r : LwipRelay) (data : list Z) : bool := running_ r && negb (length data =? 0)%nat.
Definition queue_enqueue (r : LwipRelay) (slot : nat) (data : list Z) : bool * LwipRelay :=
  (bool_decide (incomingQueue_ r = []), r <| incomingQueue_ := incomingQueue_ r ++ [mkIncoming slot data] |>).

(** The batch [processIncomingQueue] takes, and whether packets remain. *)
Definition queue_take (r : LwipRelay) : list IncomingSlot * bool * LwipRelay :=
  let q := incomingQueue_ r in
  let n := Nat.min (length q) kMaxPerIteration in
  (take n q, negb (bool_decide (drop n q = [])), r <| incomingQueue_ := drop n q |>).

(** The first holder that is not in use. *)
Definition free_holder (hs : list WgSlotPbuf) : option nat :=
  fst <$> list_find (fun h => h_in_use h = false) hs.

(** ** The methods

    A method runs on the object, the tunnel and the world outside.  [None] is an
    access to an object that was freed. *)

#[local] Opaque WG_RECV_POOL_SIZE wg_recv_pool_init.

Section relay.
Context `{NeonBuild} `{Scratch} {P : Platform} `{X25519} {L : Lwip P}.

Record sys := mkSys { rly : LwipRelay; tnl : WgTunnel; wld : WLD }.
Definition M (A : Type) : Type := sys -> option (A * sys).

#[global] Instance M_ret : MRet M := fun A a s => Some (a, s).
#[global] Instance M_bind : MBind M := fun A B k m s =>
  match m s with Some (a, s') => k a s' | None => None end.
Definition get {A} (f : LwipRelay -> A) : M A := fun s => Some (f (rly s), s).
Definition put (f : LwipRelay -> LwipRelay) : M () := fun s => Some (tt, mkSys (f (rly s)) (tnl s) (wld s)).
Definition tunnel (f : WgTunnel -> WgTunnel) : M () := fun s => Some (tt, mkSys (rly s) (f (tnl s)) (wld s)).
Definition ext {A} (f : WLD -> A * WLD) : M A :=
  fun s => let '(a, w) := f (wld s) in Some (a, mkSys (rly s) (tnl s) w).
Definition ext_ (f : WLD -> WLD) : M () := ext (fun w => (tt, f w)).
Definition freed {A} : M A := fun _ => None.

Fixpoint each {A} (l : list A) (f : A -> M ()) : M () :=
  match l with [] => mret tt | a :: l => f a ;; each l f end.
Definition when (b : bool) (m : M ()) : M () := if b then m else mret tt.

(** A field access through a pointer to a connection or a binding. *)
Definition conn (a : nat) : M TcpConnection :=
  o ← get (fun r => conns r !! a); match o with Some c => mret c | None => freed end.
Definition set_conn (a : nat) (f : TcpConnection -> TcpConnection) : M () :=
  c ← conn a; put (fun r => r <| conns := <[a := f c]> (conns r) |>).
Definition binding (a : nat) : M UdpBinding :=
  o ← get (fun r => binds r !! a); match o with Some b => mret b | None => freed end.
Definition set_binding (a : nat) (f : UdpBinding -> UdpBinding) : M () :=
  b ← binding a; put (fun r => r <| binds := <[a := f b]> (binds r) |>).

(** [wg_slot_pbuf_free] of the pbuf in holder [h]. *)
Definition slot_free (h : nat) : M () := fun s =>
  match slotHolders_ (rly s) !! h with
  | Some holder =>
      let '(holder, tun) := wg_slot_pbuf_free holder (tnl s) in
      Some (tt, mkSys ((rly s) <| slotHolders_ := <[h := holder]> (slotHolders_ (rly s)) |>) tun (wld s))
  | None => Some (tt, s)
  end.
Definition free_pbuf (p : nat) : M () := hs ← ext (pbuf_free p); each hs slot_free.

(** A packet lwIP sends through the interface. *)
Definition netif_output (buf : list Z) (ipaddr : Z) : M () := fun s =>
  let '(_, tun, w) := wg_netif_output (netif_ (rly s)) (tnl s) buf ipaddr (wld s) in
  Some (tt, mkSys (rly s) tun w).
(** The packets sent during a call from inside a handler. *)
Definition outputs (evs : list event) : M () :=
  each evs (fun e => match e with EvOutput buf ip => netif_output buf ip | _ => mret tt end).

(** ** Handlers *)

Definition onTcpConnected (arg : option nat) (pcb : nat) (err : err_t) : M err_t :=
  match arg with
  | None => mret ERR_ARG
  | Some a =>
      if negb (bool_decide (err = ERR_OK)) then mret err
      else set_conn a (fun c => c <| c_connected := true |>) ;; ext_ (tcp_recv_sent pcb) ;; mret ERR_OK
  end.

(** The branch of [onTcpRecv] for the end of the stream. *)
Definition close_local (a : nat) : M () :=
  c ← conn a;
  when (0 <=? localSock c) (ext_ (k_close (localSock c)) ;; set_conn a (fun c => c <| localSock := -1 |>)).

Definition onTcpRecv (arg : option nat) (pcb : nat) (p : option pbuf) (err : err_t) : M err_t :=
  match arg with
  | None => match p with Some p => free_pbuf (p_id p) | None => mret tt end ;; mret ERR_ARG
  | Some a =>
      match p with
      | Some p =>
          if bool_decide (err = ERR_OK) then
            c ← conn a;
            _ ← ext (k_send (localSock c) (p_payload p));
            evs ← ext (tcp_recved pcb (p_tot_len p));
            outputs evs ;; free_pbuf (p_id p) ;; mret ERR_OK
          else close_local a ;; mret ERR_OK
      | None => close_local a ;; mret ERR_OK
      end
  end.

Definition onTcpError (arg : option nat) (err : err_t) : M () :=
  match arg with Some a => set_conn a (fun c => c <| pcb := None |>) | None => mret tt end.

Definition onTcpSent (arg : option nat) (pcb : nat) (len : Z) : M err_t := mret ERR_OK.

Definition onUdpRecv (arg : option nat) (p : option pbuf) : M () :=
  match arg, p with
  | Some a, Some p =>
      b ← binding a;
      if negb (u_hasClient b) then free_pbuf (p_id p)
      else
        ext (sendto (u_localSock b) (u_clientAddr b) (p_payload p)) ;;
        free_pbuf (p_id p)
  | _, Some p => free_pbuf (p_id p)
  | _, None => mret tt
  end.

Definition handle_event (e : event) : M () :=
  match e with
  | EvTcpConnected arg pcb err => onTcpConnected arg pcb err ;; mret tt
  | EvTcpRecv arg pcb p err => onTcpRecv arg pcb p err ;; mret tt
  | EvTcpSent arg pcb len => onTcpSent arg pcb len ;; mret tt
  | EvTcpError arg err => onTcpError arg err
  | EvUdpRecv arg p => onUdpRecv arg p
  | EvOutput buf ip => netif_output buf ip
  | EvSlotFree h => slot_free h
  end.
Definition events (evs : list event) : M () := each evs handle_event.

(** ** Packets from the tunnel *)

Definition signalWake : M () :=
  fds ← get wakeFd_; if fds.2 <? 0 then mret tt else ext_ (k_wake fds.2).

(** [handleIncomingPacket]: the locked part, the wake-up, and both after the test. *)
Definition push_packet (slot : nat) (data : list Z) : M bool := fun s =>
  let '(was_empty, r) := queue_enqueue (rly s) slot data in Some (was_empty, mkSys r (tnl s) (wld s)).
Definition signal_push (was_empty : bool) : M Z := when was_empty signalWake ;; mret 1.

Definition handleIncomingPacket (slot : nat) (data : list Z) : M Z :=
  ok ← get (fun r => queue_check r data);
  if negb ok then mret 0 else was_empty ← push_packet slot data; signal_push was_empty.

Definition onTunnelRecv := handleIncomingPacket.

Definition set_holder (h : nat) (v : WgSlotPbuf) : M () :=
  put (fun r => r <| slotHolders_ := <[h := v]> (slotHolders_ r) |>).

(** [wg_netif_input_slot] with the calls that lwIP makes during the input. *)
Definition input_slot (h : nat) (pkt : IncomingSlot) : M () :=
  if (length (in_data pkt) =? 0)%nat then tunnel (fun t => wg_recv_slot_release t (Some (in_slot pkt)))
  else
    set_holder h (mkHolder true true (Some (in_slot pkt))) ;;
    ok ← ext (pbuf_alloced_custom h);
    if negb ok then
      set_holder h (mkHolder false false None) ;; tunnel (fun t => wg_recv_slot_release t (Some (in_slot pkt)))
    else
      '(err, evs) ← ext (ip_input h (in_data pkt));
      events evs ;;
      when (negb (bool_decide (err = ERR_OK))) (slot_free h).

Definition process_packet (pkt : IncomingSlot) : M () :=
  h ← get (fun r => free_holder (slotHolders_ r));
  match h with
  | None => tunnel (fun t => wg_recv_slot_release t (Some (in_slot pkt)))
  | Some h => input_slot h pkt
  end.

(** [processIncomingQueue]: the locked part, the packets, and the wake-up for the rest. *)
Definition take_packets : M (list IncomingSlot * bool) := fun s =>
  let '(packets, more, r) := queue_take (rly s) in Some ((packets, more), mkSys r (tnl s) (wld s)).
Definition signal_more (more : bool) : M () := when more signalWake.

Definition processIncomingQueue : M () :=
  '(packets, more) ← take_packets;
  each packets process_packet ;;
  signal_more more.

(** ** Local sockets *)

Definition createTcpListener (port : Z) : M Z :=
  sock ← ext (k_socket true);
  if sock <? 0 then mret (-1)
  else
    ext_ (k_setsockopt sock) ;;
    b ← ext (k_bind sock port);
    if b <? 0 then ext_ (k_close sock) ;; mret (-1)
    else
      l ← ext (k_listen sock 5);
      if l <? 0 then ext_ (k_close sock) ;; mret (-1)
      else ext_ (k_nonblock sock) ;; mret sock.

Definition createUdpSocket (port : Z) : M Z :=
  sock ← ext (k_socket false);
  if sock <? 0 then mret (-1)
  else
    ext_ (k_setsockopt sock) ;; ext_ (k_setsockopt sock) ;;
    b ← ext (k_bind sock port);
    if b <? 0 then ext_ (k_close sock) ;; mret (-1)
    else ext_ (k_nonblock sock) ;; mret sock.

Definition startTcpRelay (targetPort localPort : Z) : M Z :=
  o ← get (fun r => mfind localPort (tcpListeners_ r));
  match o with
  | Some _ => mret localPort
  | None =>
      sock ← createTcpListener localPort;
      if sock <? 0 then mret 0
      else
        put (fun r => r <| tcpListeners_ := mset localPort sock (tcpListeners_ r) |>) ;;
        signalWake ;; mret localPort
  end.

(** [std::make_shared] *)
Definition new_conn (c : TcpConnection) : M nat := fun s =>
  let a := next_obj (rly s) in
  Some (a, mkSys ((rly s) <| conns := <[a := c]> (conns (rly s)) |> <| next_obj := S a |>) (tnl s) (wld s)).
Definition new_binding (b : UdpBinding) : M nat := fun s =>
  let a := next_obj (rly s) in
  Some (a, mkSys ((rly s) <| binds := <[a := b]> (binds (rly s)) |> <| next_obj := S a |>) (tnl s) (wld s)).

Definition startUdpRelay (targetPort localPort : Z) : M Z :=
  o ← get (fun r => mfind localPort (udpBindings_ r));
  match o with
  | Some _ => mret localPort
  | None =>
      sock ← createUdpSocket localPort;
      if sock <? 0 then mret 0
      else
        p ← ext udp_new;
        match p with
        | None => ext_ (k_close sock) ;; mret 0
        | Some pcb =>
            addr ← get tunnelAddr_;
            err ← ext (udp_bind pcb addr localPort);
            if negb (bool_decide (err = ERR_OK)) then ext_ (udp_remove pcb) ;; ext_ (k_close sock) ;; mret 0
            else
              a ← new_binding (mkBinding sock pcb localPort targetPort (mkAddr 0 0 0) false);
              ext_ (udp_recv pcb a) ;;
              put (fun r => r <| udpBindings_ := mset localPort a (udpBindings_ r) |>) ;;
              signalWake ;; mret localPort
        end
  end.

(** ** The poll functions *)

(** [tcpConnections_[fd] = conn] and [erase]: the map is the only owner of a
    connection, so one that is replaced or erased is destroyed. *)
Definition release_conn (fd : Z) (r : LwipRelay) : LwipRelay :=
  match mfind fd (tcpConnections_ r) with Some a => r <| conns := delete a (conns r) |> | None => r end.
Definition map_conn (fd : Z) (a : nat) : M () :=
  put (fun r => let r := release_conn fd r in r <| tcpConnections_ := mset fd a (tcpConnections_ r) |>).
Definition erase_conn (fd : Z) : M () :=
  put (fun r => let r := release_conn fd r in r <| tcpConnections_ := merase fd (tcpConnections_ r) |>).

Definition poll_listener (l : Z * Z) : M () :=
  let '(localPort, listenSock) := l in
  '(ret, pollin, _) ← ext (k_poll listenSock);
  if (ret <=? 0) || negb pollin then mret tt
  else
    clientSock ← ext (k_accept listenSock);
    if clientSock <? 0 then mret tt
    else
      ext_ (k_nonblock clientSock) ;;
      p ← ext tcp_new;
      match p with
      | None => ext_ (k_close clientSock)
      | Some pcb =>
          a ← new_conn (mkConn clientSock (Some pcb) localPort localPort false);
          ext_ (tcp_arg_err pcb a) ;;
          map_conn clientSock a ;;
          dest ← get targetAddr_;
          '(err, evs) ← ext (tcp_connect pcb dest localPort);
          events evs ;;
          if negb (bool_decide (err = ERR_OK)) then
            evs ← ext (tcp_abort pcb);
            events evs ;; ext_ (k_close clientSock) ;; erase_conn clientSock
          else mret tt
      end.
Definition pollTcpListeners : M () := ls ← get tcpListeners_; each ls poll_listener.

(** What one connection does with the bytes of its local socket; the result is
    whether it is to be removed. *)
Definition poll_connection (e : Z * nat) : M bool :=
  let '(sock, a) := e in
  c ← conn a;
  if negb (c_connected c) then mret false
  else
    '(ret, pollin, hup) ← ext (k_poll sock);
    if ret <? 0 then mret true
    else if (0 <? ret) && pollin then
      '(received, buf, again) ← ext (k_recv sock 2048);
      if received <=? 0 then
        if (received =? 0) || negb again then
          match pcb c with
          | Some p => evs ← ext (tcp_close p); events evs ;; set_conn a (fun c => c <| pcb := None |>)
          | None => mret tt
          end ;; mret true
        else mret false
      else
        match pcb c with
        | Some p =>
            err ← ext (tcp_write p buf);
            if bool_decide (err = ERR_OK) then evs ← ext (tcp_output p); events evs else mret tt
        | None => mret tt
        end ;; mret hup
    else mret hup.

Fixpoint poll_connections (l : list (Z * nat)) : M (list Z) :=
  match l with
  | [] => mret []
  | e :: l => rm ← poll_connection e; rest ← poll_connections l; mret (if rm : bool then e.1 :: rest else rest)
  end.

Definition remove_connection (sock : Z) : M () :=
  o ← get (fun r => mfind sock (tcpConnections_ r));
  match o with
  | None => mret tt
  | Some a =>
      c ← conn a;
      when (0 <=? localSock c) (ext_ (k_close (localSock c))) ;;
      match pcb c with Some p => evs ← ext (tcp_abort p); events evs | None => mret tt end ;;
      erase_conn sock
  end.

Definition pollTcpConnections : M () :=
  l ← get tcpConnections_;
  toRemove ← poll_connections l;
  each toRemove remove_connection.

Definition poll_udp (e : Z * nat) : M () :=
  let a := e.2 in
  b ← binding a;
  '(ret, pollin, _) ← ext (k_poll (u_localSock b));
  if (ret <=? 0) || negb pollin then mret tt
  else
    '(received, buf, fromAddr) ← ext (recvfrom (u_localSock b) 2048);
    if received <=? 0 then mret tt
    else
      set_binding a (fun b => b <| u_clientAddr := fromAddr |> <| u_hasClient := true |>) ;;
      ok ← ext (pbuf_alloc received);
      if negb ok then mret tt
      else
        dest ← get targetAddr_;
        evs ← ext (udp_sendto (u_pcb b) buf dest (u_targetPort b));
        events evs.
Definition pollUdpSockets : M () := bs ← get udpBindings_; each bs poll_udp.

(** [runLoop] after [poll] returned: whether it goes on, with the wake socket empty. *)
Definition loop_woken : M bool :=
  run ← get running_;
  if negb run then mret false
  else
    fds ← get wakeFd_;
    '(_, pollin, _) ← ext (k_poll fds.1);
    when pollin (ext_ (k_drain fds.1)) ;;
    mret true.

(** The iteration after the queue. *)
Definition loop_sockets : M () :=
  pollTcpListeners ;;
  pollTcpConnections ;;
  pollUdpSockets ;;
  evs ← ext sys_check_timeouts;
  events evs.

(** One iteration of [runLoop] after [poll] returned. *)
Definition runLoop_iteration : M () :=
  run ← loop_woken;
  when run (processIncomingQueue ;; loop_sockets).

(** ** Start and stop *)

Definition netif_down (n : netif) : netif := mkNetif (n_name n) (n_mtu n) (n_state n) false.

(** The error exits of [start] after the interface is up. *)
Definition start_fail : M bool :=
  fds ← get wakeFd_;
  when (0 <=? fds.1) (ext_ (k_close fds.1)) ;;
  when (0 <=? fds.2) (ext_ (k_close fds.2)) ;;
  put (fun r => r <| wakeFd_ := (-1, -1) |> <| netif_ := netif_down (netif_ r) |>) ;;
  ext_ netif_remove ;; mret false.

Definition start_wake : M bool :=
  fd0 ← ext (k_socket false);
  fd1 ← ext (k_socket false);
  put (fun r => r <| wakeFd_ := (fd0, fd1) |>) ;;
  if (fd0 <? 0) || (fd1 <? 0) then start_fail
  else
    b ← ext (k_bind fd0 0);
    if b <? 0 then start_fail
    else
      '(g, port) ← ext (k_getsockname fd0);
      if g <? 0 then start_fail
      else
        c ← ext (k_connect fd1 port);
        if c <? 0 then start_fail
        else ext_ (k_nonblock fd0) ;; ext_ (k_nonblock fd1) ;; mret true.

Definition start (tunnelIp targetIp : list Z) : M bool :=
  run ← get running_;
  if run : bool then mret false
  else
    init ← get initialized_;
    when (negb init) (ext_ lwip_init ;; put (fun r => r <| initialized_ := true |>)) ;;
    match inet_pton tunnelIp with
    | None => mret false
    | Some addr =>
        put (fun r => r <| tunnelAddr_ := addr |>) ;;
        match inet_pton targetIp with
        | None => mret false
        | Some target =>
            put (fun r => r <| targetAddr_ := target |>) ;;
            ext_ (netif_add addr) ;;
            put (fun r => r <| netif_ := (wg_netif_init (mkNetif [] 0 true false)).2 |>) ;;
            ext_ netif_set_default_up ;;
            ok ← start_wake;
            if negb ok then mret false
            else
              put (fun r => r <| running_ := true |>) ;;
              tunnel (fun t => wg_set_recv_callback t true) ;; mret true
        end
    end.

(** [stop] in parts: before the loop thread is joined, which ends with a wake-up, the
    queue, the rest. *)
Definition stop_mark : M () :=
  put (fun r => r <| running_ := false |>) ;;
  tunnel (fun t => wg_set_recv_callback t false).
Definition stop_signal : M () := stop_mark ;; signalWake.

Definition stop_drain : M () :=
  fds ← get wakeFd_;
  when (0 <=? fds.1) (ext_ (k_close fds.1)) ;;
  when (0 <=? fds.2) (ext_ (k_close fds.2)) ;;
  put (fun r => r <| wakeFd_ := (-1, -1) |>) ;;
  q ← get incomingQueue_;
  each q (fun p => tunnel (fun t => wg_recv_slot_release t (Some (in_slot p)))) ;;
  put (fun r => r <| incomingQueue_ := [] |>).

Definition stop_teardown : M () :=
  ls ← get tcpListeners_;
  each ls (fun l => ext_ (k_close l.2)) ;;
  put (fun r => r <| tcpListeners_ := [] |>) ;;
  cs ← get tcpConnections_;
  each cs (fun e =>
    c ← conn e.2;
    when (0 <=? localSock c) (ext_ (k_close (localSock c))) ;;
    match pcb c with Some p => evs ← ext (tcp_abort p); events evs | None => mret tt end) ;;
  put (fun r => r <| tcpConnections_ := [] |> <| conns := ∅ |>) ;;
  bs ← get udpBindings_;
  each bs (fun e =>
    b ← binding e.2;
    when (0 <=? u_localSock b) (ext_ (k_close (u_localSock b))) ;;
    ext_ (udp_remove (u_pcb b))) ;;
  put (fun r => r <| udpBindings_ := [] |> <| binds := ∅ |>) ;;
  n ← get netif_;
  when (n_up n) (put (fun r => r <| netif_ := netif_down (netif_ r) |>) ;; ext_ netif_remove).

Definition stop : M () := stop_signal ;; stop_drain ;; stop_teardown.

(** ** Invariants of the methods

    [keeps I m]: whenever [m] returns, it preserves [I]. *)

Definition keeps (I : sys -> Prop) {A} (m : M A) : Prop :=
  forall s a s', I s -> m s = Some (a, s') -> I s'.

Section frame.
Context (I : sys -> Prop).
Hypothesis I_ext : forall r t w w', I (mkSys r t w) -> I (mkSys r t w').

Lemma keeps_mret {A} (a : A) : keeps I (mret a).
Proof. intros s b s' HI E. injection E as <- <-. done. Qed.
Lemma keeps_bind {A B} (m : M A) (k : A -> M B) :
  keeps I m -> (forall a, keeps I (k a)) -> keeps I (m ≫= k).
Proof.
  intros Hm Hk s b s' HI E. unfold mbind, M_bind in E. destruct (m s) as [[a s1]|] eqn:Em; [|done].
  eapply Hk; [|exact E]. by eapply Hm.
Qed.
Lemma keeps_get {A} (f : LwipRelay -> A) : keeps I (get f).
Proof. intros s a s' HI E. injection E as <- <-. done. Qed.
Lemma keeps_ext {A} (f : WLD -> A * WLD) : keeps I (ext f).
Proof.
  intros [r t w] a s' HI E. unfold ext in E. cbn in E. destruct (f w) as [x w']. injection E as <- <-. by eapply I_ext.
Qed.
Lemma keeps_ext_ (f : WLD -> WLD) : keeps I (ext_ f).
Proof. apply keeps_ext. Qed.
Lemma keeps_each {A} (l : list A) (f : A -> M ()) : (forall a, keeps I (f a)) -> keeps I (each l f).
Proof. intros Hf. induction l; cbn; [apply keeps_mret|]. apply keeps_bind; [apply Hf|]. done. Qed.
Lemma keeps_when b m : keeps I m -> keeps I (when b m).
Proof. destruct b; [done|]. intros _. apply keeps_mret. Qed.
Lemma keeps_freed {A} : keeps I (freed (A := A)).
Proof. intros s a s' HI E. discriminate. Qed.
Lemma keeps_put f : (forall r t w, I (mkSys r t w) -> I (mkSys (f r) t w)) -> keeps I (put f).
Proof. intros Hf [r t w] a s' HI E. injection E as <- <-. by apply Hf. Qed.
Lemma keeps_tunnel f : (forall r t w, I (mkSys r t w) -> I (mkSys r (f t) w)) -> keeps I (tunnel f).
Proof. intros Hf [r t w] a s' HI E. injection E as <- <-. by apply Hf. Qed.
End frame.

Create HintDb wg_keeps.
#[local] Hint Resolve keeps_mret keeps_bind keeps_get keeps_ext keeps_ext_ keeps_each keeps_when keeps_freed : wg_keeps.

(** Case analysis on what a method tests, then the rules above. *)
Ltac keeps_cases :=
  repeat match goal with
  | |- keeps _ (mbind _ _) => apply keeps_bind; [|intros ?]
  | |- keeps _ (each _ _) => apply keeps_each; intros ?
  | |- keeps _ (when _ _) => apply keeps_when
  | |- keeps _ (let '(_, _) := ?x in _) => destruct x
  | |- keeps _ (match ?x with _ => _ end) => destruct x
  | |- keeps _ (if ?x then _ else _) => destruct x
  end; eauto with wg_keeps.

Section handlers.
Context (I : sys -> Prop).
Hypothesis I_ext : forall r t w w', I (mkSys r t w) -> I (mkSys r t w').
Hypothesis I_conns : forall r t w m, I (mkSys r t w) -> I (mkSys (r <| conns := m |>) t w).
Hypothesis I_binds : forall r t w m, I (mkSys r t w) -> I (mkSys (r <| binds := m |>) t w).
Hypothesis I_free : forall h, keeps I (slot_free h).
Hypothesis I_output : forall buf ip, keeps I (netif_output buf ip).
#[local] Hint Resolve I_free I_output : wg_keeps.

Lemma keeps_conn a : keeps I (conn a).
Proof. unfold conn. keeps_cases. Qed.
Lemma keeps_set_conn a f : keeps I (set_conn a f).
Proof.
  unfold set_conn. apply keeps_bind; [apply keeps_conn|]. intros c. apply keeps_put. intros r t w. apply I_conns.
Qed.
Lemma keeps_binding a : keeps I (binding a).
Proof. unfold binding. keeps_cases. Qed.
Lemma keeps_set_binding a f : keeps I (set_binding a f).
Proof.
  unfold set_binding. apply keeps_bind; [apply keeps_binding|]. intros c. apply keeps_put. intros r t w. apply I_binds.
Qed.
#[local] Hint Resolve keeps_conn keeps_set_conn keeps_binding keeps_set_binding : wg_keeps.

Lemma keeps_free_pbuf p : keeps I (free_pbuf p).
Proof. unfold free_pbuf. keeps_cases. Qed.
#[local] Hint Resolve keeps_free_pbuf : wg_keeps.

Lemma keeps_event e : keeps I (handle_event e).
Proof.
  destruct e; cbn [handle_event];
    unfold onTcpConnected, onTcpRecv, onTcpSent, onTcpError, onUdpRecv, outputs, close_local; keeps_cases.
Qed.
Lemma keeps_events evs : keeps I (events evs).
Proof. apply keeps_each. apply keeps_event. Qed.
Lemma keeps_signalWake : keeps I signalWake.
Proof. unfold signalWake. keeps_cases. Qed.
End handlers.

(** ** Where the receive slots are

    A slot that is not free is in the queue, in a holder or with the thread that
    acquired it; [extra] are the slots of the latter kind. *)

Definition queue_slots (r : LwipRelay) : list nat := in_slot <$> incomingQueue_ r.
Definition holder_slots (r : LwipRelay) : list nat := omap h_slot (slotHolders_ r).
Definition holder_ok (h : WgSlotPbuf) : Prop :=
  h = mkHolder false false None \/ exists i, h = mkHolder true true (Some i).

Definition acct (extra : list nat) (s : sys) : Prop :=
  pool_inv (recv_pool (tnl s), queue_slots (rly s) ++ holder_slots (rly s) ++ extra) /\
  Forall holder_ok (slotHolders_ (rly s)).

Lemma pool_inv_perm pool l l' : l ≡ₚ l' -> pool_inv (pool, l) -> pool_inv (pool, l').
Proof.
  intros Hl (ss & free & ? & ? & ? & ? & Hf). exists ss, free. cbn [fst snd] in *. by rewrite <- Hl.
Qed.

Lemma pool_inv_release pool i l l' : l ≡ₚ i :: l' -> pool_inv (pool, l) -> pool_inv (wg_recv_pool_release pool (Some i), l').
Proof.
  intros Hl Hp. apply (pool_inv_step _ _ (step_release pool [] i l')). by apply (pool_inv_perm _ l).
Qed.

(** Changing one holder. *)
Lemma holder_slots_insert hs k h h' : hs !! k = Some h ->
  option_list (h_slot h') ++ omap h_slot hs ≡ₚ option_list (h_slot h) ++ omap h_slot (<[k := h']> hs).
Proof.
  intros Hk. rewrite insert_take_drop by (by eapply lookup_lt_Some).
  rewrite <- (take_drop_middle hs k h Hk) at 1. rewrite !omap_app. cbn [omap list_omap].
  destruct (h_slot h), (h_slot h'); cbn [option_list app]; solve_Permutation.
Qed.

Lemma acct_perm l l' s : l ≡ₚ l' -> acct l s -> acct l' s.
Proof. intros Hl [Hp Hh]. split; [|done]. eapply pool_inv_perm; [|done]. by rewrite Hl. Qed.

Lemma acct_release i extra : forall r t w,
  acct (i :: extra) (mkSys r t w) -> acct extra (mkSys r (wg_recv_slot_release t (Some i)) w).
Proof.
  intros r t w [Hp Hh]. split; [|done]. cbn [tnl rly]. eapply pool_inv_release; [|exact Hp]. cbn. solve_Permutation.
Qed.

Lemma acct_set_holder k i extra h : forall r t w,
  slotHolders_ r !! k = Some h -> h_slot h = None -> acct (i :: extra) (mkSys r t w) ->
  acct extra (mkSys (r <| slotHolders_ := <[k := mkHolder true true (Some i)]> (slotHolders_ r) |>) t w).
Proof.
  intros r t w Hk Hn [Hp Hh]. split.
  - eapply pool_inv_perm; [|exact Hp]. cbn. unfold queue_slots, holder_slots. cbn.
    pose proof (holder_slots_insert (slotHolders_ r) k h (mkHolder true true (Some i)) Hk) as E. rewrite Hn in E. cbn in E.
    rewrite <- E. solve_Permutation.
  - cbn. apply Forall_insert; [done|]. right. by exists i.
Qed.

Lemma acct_ext extra : forall r t w w', acct extra (mkSys r t w) -> acct extra (mkSys r t w').
Proof. done. Qed.

Lemma acct_slot_free extra k : keeps (acct extra) (slot_free k).
Proof.
  intros [r t w] [] s' [Hp Hh] E. unfold slot_free in E. cbn [rly tnl wld] in E.
  destruct (slotHolders_ r !! k) as [h|] eqn:Ek; [|by injection E as <-].
  assert (holder_ok h) as Hok by (rewrite Forall_forall in Hh; apply Hh; by eapply list_elem_of_lookup_2).
  pose proof (holder_slots_insert (slotHolders_ r) k h (mkHolder false false None) Ek) as Ep.
  assert (Forall holder_ok (<[k := mkHolder false false None]> (slotHolders_ r))) as Hh'
    by (apply Forall_insert; [done|by left]).
  destruct Hok as [->|[i ->]]; cbn in E, Ep; injection E as <-; (split; [|exact Hh']);
    unfold queue_slots, holder_slots in *; cbn in *.
  - eapply pool_inv_perm; [|exact Hp]. by rewrite Ep.
  - eapply pool_inv_release; [|exact Hp]. cbn. rewrite Ep. solve_Permutation.
Qed.

Lemma netif_output_pool n t buf ip w : recv_pool (wg_netif_output n t buf ip w).1.2 = recv_pool t.
Proof.
  unfold wg_netif_output. destruct (negb (n_state n)); [done|]. destruct (length buf =? 0)%nat; [done|].
  destruct (wg_find_peer_by_ip t ip) as [i|]; [|done]. destruct (_ || _).
  - unfold auto_connect, wg_handshake_init_peer. destruct (build_init _ _ _) as [[msg st] w1].
    destruct (wg_time_now w1) as [now w2].
    destruct (_ && _); cbn [Z.eqb WG_OK]; destruct (wg_socket_send_to _ _ _ _) as [? ?]; done.
  - unfold wg_send_to_peer. destruct (_ || _); [by destruct (_ <? _)|]. destruct (_ <? packet_size _); [by destruct (_ <? _)|].
    destruct (wg_socket_send_to _ _ _ _) as [sent w1]. destruct (0 <=? sent); [destruct (wg_time_now w1)|]; by destruct (_ <? 0).
Qed.

Lemma acct_output extra buf ip : keeps (acct extra) (netif_output buf ip).
Proof.
  intros [r t w] [] s' [Hp Hh] E. unfold netif_output in E. cbn [rly tnl wld] in E.
  pose proof (netif_output_pool (netif_ r) t buf ip w) as Ho.
  destruct (wg_netif_output _ _ _ _ _) as [[e t'] w']. injection E as <-. split; [|done]. cbn in *. by rewrite Ho.
Qed.

#[local] Hint Resolve acct_slot_free acct_output : wg_keeps.
#[local] Hint Extern 1 (forall r t w, acct _ _ -> acct _ _) => (intros ???; exact id) : wg_keeps.

Lemma acct_events extra evs : keeps (acct extra) (events evs).
Proof. apply keeps_events; auto with wg_keeps. Qed.
Lemma acct_signalWake extra : keeps (acct extra) signalWake.
Proof. apply keeps_signalWake. done. Qed.
#[local] Hint Resolve acct_events acct_signalWake : wg_keeps.

(** Passing on one packet of the queue. *)
Lemma acct_process_packet pkt extra s s' :
  acct (in_slot pkt :: extra) s -> process_packet pkt s = Some (tt, s') -> acct extra s'.
Proof.
  destruct s as [r t w]. intros Ha. unfold process_packet, mbind, M_bind, get. cbn [rly].
  destruct (free_holder (slotHolders_ r)) as [h|] eqn:Ef; [|intros E; injection E as <-; by apply acct_release].
  unfold input_slot. destruct (_ =? 0)%nat; [intros E; injection E as <-; by apply acct_release|].
  unfold free_holder in Ef. apply fmap_Some in Ef as ([k h0] & Hf & ->). apply list_find_Some in Hf as (Hk & Hu & _).
  assert (h_slot h0 = None) as Hn.
  { destruct Ha as [_ Hh]. rewrite Forall_forall in Hh. cbn in Hh.
    destruct (Hh h0) as [->|[i ->]]; [by eapply list_elem_of_lookup_2|done|done]. }
  unfold mbind, M_bind, set_holder, put, ext. cbn [rly tnl wld fst].
  pose proof (acct_set_holder k (in_slot pkt) extra h0 r t w Hk Hn Ha) as Hs.
  destruct (pbuf_alloced_custom k w) as [ok w1]. destruct ok; cbn [negb].
  - cbn [rly tnl wld]. destruct (ip_input k (in_data pkt) w1) as [[err evs] w2].
    destruct (events evs _) as [[[] s1]|] eqn:E1; [|done]. intros E.
    apply (keeps_when (acct extra) _ _ (acct_slot_free extra k)) in E; [done|].
    by apply (acct_events extra evs) in E1.
  - unfold tunnel. cbn [rly tnl wld]. intros E. injection E as <-. apply acct_release.
    destruct Ha as [Hp Hh]. split.
    + cbn. unfold queue_slots, holder_slots in *. cbn in *. rewrite list_insert_insert_eq.
      pose proof (holder_slots_insert (slotHolders_ r) k h0 (mkHolder false false None) Hk) as Ep. rewrite Hn in Ep.
      cbn in Ep. eapply pool_inv_perm; [|exact Hp]. by rewrite Ep.
    + cbn. rewrite list_insert_insert_eq. apply Forall_insert; [done|by left].
Qed.

Lemma acct_process_packets pkts extra s s' :
  acct ((in_slot <$> pkts) ++ extra) s -> each pkts process_packet s = Some (tt, s') -> acct extra s'.
Proof.
  revert s. induction pkts as [|p pkts IH]; intros s Ha E; [by injection E as <-|].
  cbn in E. unfold mbind, M_bind in E. destruct (process_packet p s) as [[[] s1]|] eqn:E1; [|done].
  eapply IH; [|exact E]. eapply (acct_process_packet p); [exact Ha|exact E1].
Qed.

Lemma acct_processIncomingQueue extra : keeps (acct extra) processIncomingQueue.
Proof.
  intros [r t w] [] s' [Hp Hh] E. unfold processIncomingQueue, take_packets, signal_more, mbind, M_bind, queue_take in E. cbn [rly tnl wld] in E.
  set (n := Nat.min _ _) in E. destruct (each _ process_packet _) as [[[] s1]|] eqn:E1; [|done].
  apply (keeps_when (acct extra) _ _ (acct_signalWake extra)) in E; [done|].
  eapply acct_process_packets; [|exact E1]. split; [|done]. eapply pool_inv_perm; [|exact Hp].
  unfold queue_slots, holder_slots. cbn. rewrite <- (take_drop n (incomingQueue_ r)) at 1. rewrite fmap_app.
  solve_Permutation.
Qed.
#[local] Hint Resolve acct_processIncomingQueue : wg_keeps.

#[local] Hint Extern 1 (keeps (acct _) (put _)) => (apply keeps_put; intros ???; exact id) : wg_keeps.
#[local] Hint Extern 1 (keeps (acct _) (tunnel _)) => (apply keeps_tunnel; intros ???; exact id) : wg_keeps.
#[local] Hint Extern 1 (keeps (acct _) (conn _)) => (apply keeps_conn; done) : wg_keeps.
#[local] Hint Extern 1 (keeps (acct _) (set_conn _ _)) => (apply keeps_set_conn; done) : wg_keeps.
#[local] Hint Extern 1 (keeps (acct _) (binding _)) => (apply keeps_binding; done) : wg_keeps.
#[local] Hint Extern 1 (keeps (acct _) (set_binding _ _)) => (apply keeps_set_binding; done) : wg_keeps.

Lemma acct_put_release extra fd f :
  (forall r, incomingQueue_ (f r) = incomingQueue_ r /\ slotHolders_ (f r) = slotHolders_ r) ->
  keeps (acct extra) (put (fun r => f (release_conn fd r))).
Proof.
  intros Hf. apply keeps_put. intros r t w [Hp Hh]. destruct (Hf (release_conn fd r)) as [E1 E2].
  assert (incomingQueue_ (release_conn fd r) = incomingQueue_ r /\ slotHolders_ (release_conn fd r) = slotHolders_ r)
    as [E3 E4] by (unfold release_conn; by destruct (mfind _ _)).
  split; cbn; unfold queue_slots, holder_slots; by rewrite ?E1, E2, ?E3, E4.
Qed.
Lemma acct_new_conn extra c : keeps (acct extra) (new_conn c).
Proof. intros [r t w] a s' Ha E. injection E as <- <-. exact Ha. Qed.
Lemma acct_new_binding extra b : keeps (acct extra) (new_binding b).
Proof. intros [r t w] a s' Ha E. injection E as <- <-. exact Ha. Qed.
Lemma acct_map_conn extra fd a : keeps (acct extra) (map_conn fd a).
Proof. apply (acct_put_release extra fd (fun r => r <| tcpConnections_ := mset fd a (tcpConnections_ r) |>)). done. Qed.
Lemma acct_erase_conn extra fd : keeps (acct extra) (erase_conn fd).
Proof. apply (acct_put_release extra fd (fun r => r <| tcpConnections_ := merase fd (tcpConnections_ r) |>)). done. Qed.
#[local] Hint Resolve acct_new_conn acct_new_binding acct_map_conn acct_erase_conn : wg_keeps.

Lemma acct_poll_connections extra l : keeps (acct extra) (poll_connections l).
Proof.
  induction l as [|e l IH]; cbn [poll_connections]; [apply keeps_mret|].
  apply keeps_bind; [unfold poll_connection; keeps_cases|]. intros b. keeps_cases.
Qed.
#[local] Hint Resolve acct_poll_connections : wg_keeps.

Lemma acct_runLoop_iteration extra : keeps (acct extra) runLoop_iteration.
Proof.
  unfold runLoop_iteration, loop_woken, loop_sockets, pollTcpListeners, poll_listener, pollTcpConnections, remove_connection, pollUdpSockets, poll_udp.
  keeps_cases.
Qed.
Lemma acct_start extra a b : keeps (acct extra) (start a b).
Proof. unfold start, start_wake, start_fail. keeps_cases. Qed.
Lemma acct_startTcpRelay extra a b : keeps (acct extra) (startTcpRelay a b).
Proof. unfold startTcpRelay, createTcpListener. keeps_cases. Qed.
Lemma acct_startUdpRelay extra a b : keeps (acct extra) (startUdpRelay a b).
Proof. unfold startUdpRelay, createUdpSocket. keeps_cases. Qed.

(** The loop of [stop] that empties the queue. *)
Lemma release_all q r t w rest :
  pool_inv (recv_pool t, (in_slot <$> q) ++ rest) ->
  exists t', each q (fun p => tunnel (fun t => wg_recv_slot_release t (Some (in_slot p)))) (mkSys r t w) = Some (tt, mkSys r t' w) /\
    pool_inv (recv_pool t', rest).
Proof.
  revert t. induction q as [|p q IH]; intros t Hp; [by exists t|].
  destruct (IH (wg_recv_slot_release t (Some (in_slot p)))) as (t' & E & Hp').
  - eapply pool_inv_release; [|exact Hp]. done.
  - exists t'. split; [|done]. cbn. unfold mbind, M_bind, tunnel at 1. exact E.
Qed.

Lemma acct_stop_drain extra : keeps (acct extra) stop_drain.
Proof.
  unfold stop_drain. do 4 (apply keeps_bind; [solve [keeps_cases]|intros ?]).
  intros [r t w] [] s' [Hp Hh] E. unfold mbind, M_bind, get in E. cbn [rly tnl wld] in E.
  destruct (release_all (incomingQueue_ r) r t w (holder_slots r ++ extra)) as (t' & E1 & Hp'); [exact Hp|].
  rewrite E1 in E. injection E as <-. split; [exact Hp'|exact Hh].
Qed.

Lemma acct_stop_signal extra : keeps (acct extra) stop_signal.
Proof. unfold stop_signal, stop_mark. keeps_cases. Qed.
Lemma acct_stop_teardown extra : keeps (acct extra) stop_teardown.
Proof. unfold stop_teardown. keeps_cases. Qed.

(** ** All interleavings

    The state with the slots the receive thread has taken from the pool.  The receive
    thread acquires slots, offers them to the relay and releases what the relay
    refuses; the loop thread runs iterations; the application starts and stops the
    relay and opens ports.  [stop] may be overtaken by the receive thread between its
    parts, and the receive thread by [stop] between its test and its push. *)

Definition with_tunnel (s : sys) (t : WgTunnel) : sys := mkSys (rly s) t (wld s).
Definition with_relay (s : sys) (r : LwipRelay) : sys := mkSys r (tnl s) (wld s).

Inductive relay_step : sys * list nat -> sys * list nat -> Prop :=
| rs_acquire s extra i pool :
    wg_recv_pool_acquire (recv_pool (tnl s)) = (Some i, pool) ->
    relay_step (s, extra) (with_tunnel s ((tnl s) <| recv_pool := pool |>), i :: extra)
| rs_write s extra i d :
    i ∈ extra -> relay_step (s, extra) (with_tunnel s ((tnl s) <| recv_pool := slot_write (recv_pool (tnl s)) i d |>), extra)
| rs_release s l1 i l2 :
    relay_step (s, l1 ++ i :: l2) (with_tunnel s (wg_recv_slot_release (tnl s) (Some i)), l1 ++ l2)
| rs_enqueue s l1 i l2 data :
    relay_step (s, l1 ++ i :: l2) (with_relay s (queue_enqueue (rly s) i data).2, l1 ++ l2)
| rs_wake s extra s' : signalWake s = Some (tt, s') -> relay_step (s, extra) (s', extra)
| rs_tunnel s extra t : recv_pool t = recv_pool (tnl s) -> relay_step (s, extra) (with_tunnel s t, extra)
| rs_loop s extra s' : runLoop_iteration s = Some (tt, s') -> relay_step (s, extra) (s', extra)
| rs_start s extra a b ok s' : start a b s = Some (ok, s') -> relay_step (s, extra) (s', extra)
| rs_tcp s extra a b port s' : startTcpRelay a b s = Some (port, s') -> relay_step (s, extra) (s', extra)
| rs_udp s extra a b port s' : startUdpRelay a b s = Some (port, s') -> relay_step (s, extra) (s', extra)
| rs_stop_signal s extra s' : stop_signal s = Some (tt, s') -> relay_step (s, extra) (s', extra)
| rs_stop_drain s extra s' : stop_drain s = Some (tt, s') -> relay_step (s, extra) (s', extra)
| rs_stop_teardown s extra s' : stop_teardown s = Some (tt, s') -> relay_step (s, extra) (s', extra).

(** A new relay on a tunnel whose pool was initialised. *)
Definition relay_initial (c : sys * list nat) : Prop :=
  rly c.1 = lwip_relay_new /\ c.2 = [] /\ exists pool0, wg_recv_pool_init true true pool0 = (0, recv_pool (tnl c.1)).

Definition relay_reachable (c : sys * list nat) : Prop := exists c0, relay_initial c0 /\ rtc relay_step c0 c.

Lemma acct_step c c' : relay_step c c' -> acct c.2 c.1 -> acct c'.2 c'.1.
Proof.
  intros Hs Ha. destruct Hs as [s extra i pool E|s extra i d Hi|s l1 i l2|s l1 i l2 data|s extra s' E|s extra t E|
    s extra s' E|s extra a b ok s' E|s extra a b p s' E|s extra a b p s' E|s extra s' E|s extra s' E|s extra s' E]; cbn [fst snd] in *.
  - destruct Ha as [Hp Hh]. split; [|done]. cbn. apply (pool_inv_step _ _ (step_acquire _ _ _ _ E)) in Hp.
    eapply pool_inv_perm; [|exact Hp]. solve_Permutation.
  - destruct Ha as [Hp Hh]. split; [|done]. refine (pool_inv_step _ _ (step_write _ _ i d _) Hp). set_solver.
  - destruct s as [r t w]. apply acct_release. eapply acct_perm; [|exact Ha]. solve_Permutation.
  - destruct Ha as [Hp Hh]. split; [|done]. eapply pool_inv_perm; [|exact Hp]. unfold queue_slots, holder_slots. cbn.
    rewrite fmap_app. cbn. solve_Permutation.
  - by apply (acct_signalWake extra) in E.
  - destruct Ha as [Hp Hh]. split; [|done]. cbn. by rewrite E.
  - by apply (acct_runLoop_iteration extra) in E.
  - by apply (acct_start extra) in E.
  - by apply (acct_startTcpRelay extra) in E.
  - by apply (acct_startUdpRelay extra) in E.
  - by apply (acct_stop_signal extra) in E.
  - by apply (acct_stop_drain extra) in E.
  - by apply (acct_stop_teardown extra) in E.
Qed.

Lemma acct_initial c : relay_initial c -> acct c.2 c.1.
Proof.
  destruct c as [[r t w] extra]. intros (Hr & He & pool0 & Hp). cbn in Hr, He, Hp. subst. split.
  - cbn [rly tnl]. change (queue_slots lwip_relay_new ++ holder_slots lwip_relay_new ++ []) with (@nil nat).
    exact (pool_inv_start (recv_pool t, []) (ex_intro _ pool0 (conj Hp eq_refl))).
  - exact (Forall_replicate _ kSlotHolderCount _ (or_introl eq_refl)).
Qed.

Lemma acct_reachable c : relay_reachable c -> acct c.2 c.1.
Proof.
  intros (c0 & Hi%acct_initial & Hr). induction Hr as [|x y z Hxy Hyz IH]; [done|]. apply IH. by eapply acct_step.
Qed.

(** C35. However the receive thread, the loop thread and the application interleave, and
    whatever lwIP does, every receive slot is in exactly one place: on the free list of
    the pool, in the queue of the relay, in one pbuf holder or with the receive thread.
    No slot is lost and none is released twice. *)
Theorem relay_slots_accounted s extra :
  relay_reachable (s, extra) ->
  exists ss free, slots (recv_pool (tnl s)) = Some ss /\ chain ss (free_head (recv_pool (tnl s))) free /\
    free ++ queue_slots (rly s) ++ holder_slots (rly s) ++ extra ≡ₚ seq 0 WG_RECV_POOL_SIZE.
Proof.
  intros Hr. destruct (acct_reachable _ Hr) as [(ss & free & Hs & _ & _ & Hc & Hp) _]. by exists ss, free.
Qed.

(** Callbacks change holders and connections, but not the rest of the object. *)
Lemma keeps_rest (F : LwipRelay -> Prop) evs :
  (forall r v, F r -> F (r <| slotHolders_ := v |>)) -> (forall r v, F r -> F (r <| conns := v |>)) ->
  keeps (fun s => F (rly s)) (events evs).
Proof.
  intros Hh Hc. apply keeps_events; [done|intros r t w m; apply Hc| |].
  - intros h [r t w] [] s' HF E. unfold slot_free in E. cbn [rly tnl wld] in E.
    destruct (_ !! h) as [x|]; [|by injection E as <-]. destruct (wg_slot_pbuf_free x t) as [? ?]. injection E as <-. by apply Hh.
  - intros buf ip [r t w] [] s' HF E. unfold netif_output in E. destruct (wg_netif_output _ _ _ _ _) as [[? ?] ?].
    injection E as <-. done.
Qed.

(** [ensures Q m]: whenever [m] returns, [Q] holds. *)
Definition ensures (Q : sys -> Prop) {A} (m : M A) : Prop := forall s a s', m s = Some (a, s') -> Q s'.

Lemma ensures_bind Q {A B} (m : M A) (k : A -> M B) : (forall a, ensures Q (k a)) -> ensures Q (m ≫= k).
Proof. intros Hk s b s' E. unfold mbind, M_bind in E. destruct (m s) as [[a s1]|]; [|done]. by eapply Hk. Qed.
Lemma ensures_put (Q : sys -> Prop) f : (forall r t w, Q (mkSys (f r) t w)) -> ensures Q (put f).
Proof. intros Hf s a s' E. injection E as <- <-. apply Hf. Qed.
Lemma ensures_keeps Q {A B} (m : M A) (k : A -> M B) :
  ensures Q m -> (forall a, keeps Q (k a)) -> ensures Q (m ≫= k).
Proof.
  intros Hm Hk s b s' E. unfold mbind, M_bind in E. destruct (m s) as [[a s1]|] eqn:Em; [|done].
  eapply Hk; [|exact E]. by eapply Hm.
Qed.

(** Frame conditions that hold by computation; [Hev] is the one for callbacks. *)
Ltac keeps_all Hev :=
  repeat first [done | apply keeps_put; done | apply keeps_tunnel; done | apply Hev | apply keeps_mret |
    apply keeps_get | (apply keeps_ext; done) | (apply keeps_ext_; done) | (apply keeps_conn; done) |
    (apply keeps_binding; done) | apply keeps_when | (apply keeps_each; intros ?) |
    (apply keeps_bind; [|intros ?]) | match goal with |- keeps _ (match ?x with _ => _ end) => destruct x end].

Lemma keeps_then (J K : sys -> Prop) {A B} (m : M A) (k : A -> M B) :
  keeps J m -> (forall a s b s', J s -> k a s = Some (b, s') -> K s') ->
  forall s b s', J s -> (m ≫= k) s = Some (b, s') -> K s'.
Proof.
  intros Hm Hk s b s' HJ E. unfold mbind, M_bind in E. destruct (m s) as [[a s1]|] eqn:Em; [|done].
  eapply Hk; [|exact E]. by eapply Hm.
Qed.

Definition not_running (s : sys) : Prop := running_ (rly s) = false.
Definition drained (s : sys) : Prop := incomingQueue_ (rly s) = [].

Lemma stop_not_running : ensures not_running stop.
Proof.
  unfold stop, stop_signal. apply ensures_keeps.
  - apply ensures_keeps; [|intros []; by apply keeps_signalWake]. unfold stop_mark.
    apply ensures_keeps; [by apply ensures_put|]. intros []. by apply keeps_tunnel.
  - intros []. assert (forall evs, keeps not_running (events evs)) as Hev
      by (intros evs; by apply (keeps_rest (fun r => running_ r = false))).
    unfold stop_drain, stop_teardown. keeps_all Hev.
Qed.

Lemma stop_drained : ensures drained stop.
Proof.
  unfold stop. apply ensures_bind. intros []. apply ensures_keeps.
  - unfold stop_drain. do 6 (apply ensures_bind; intros ?). by apply ensures_put.
  - intros []. assert (forall evs, keeps drained (events evs)) as Hev
      by (intros evs; by apply (keeps_rest (fun r => incomingQueue_ r = []))).
    unfold stop_teardown. keeps_all Hev.
Qed.

(** A packet that the receive thread has tested but not yet pushed when [stop] runs
    is left behind: after [stop] the relay is not running and its queue holds the slot,
    which nothing releases any more. *)
Theorem stop_leaves_packet s s' slot data :
  queue_check (rly s) data = true -> stop s = Some (tt, s') ->
  let r := (queue_enqueue (rly s') slot data).2 in
  queue_check (rly s') data = false /\ running_ r = false /\ incomingQueue_ r = [mkIncoming slot data].
Proof.
  intros _ E. pose proof (stop_not_running s tt s' E) as Hr. pose proof (stop_drained s tt s' E) as Hq.
  unfold not_running, drained in *. unfold queue_check. cbn. by rewrite Hr, Hq.
Qed.

(** When the local side of a TCP connection has gone, the connection is removed and
    its object destroyed while lwIP still has its address as the argument of the
    callbacks: the next error callback of lwIP for it writes to freed memory. *)
Theorem removed_connection_dangles s s' sock a err :
  mfind sock (tcpConnections_ (rly s)) = Some a -> remove_connection sock s = Some (tt, s') ->
  onTcpError (Some a) err s' = None.
Proof.
  intros Hm E. unfold remove_connection, mbind at 1, M_bind at 1, get at 1 in E. rewrite Hm in E.
  set (J := fun s0 : sys => mfind sock (tcpConnections_ (rly s0)) = Some a).
  assert (forall evs, keeps J (events evs)) as Hev
    by (intros evs; by apply (keeps_rest (fun r => mfind sock (tcpConnections_ r) = Some a))).
  assert (conns (rly s') !! a = None) as Hd.
  { eapply (keeps_then J (fun s' => conns (rly s') !! a = None)); [by apply keeps_conn| |exact Hm|exact E]. intros c.
    apply keeps_then; [keeps_all Hev|]. intros _. apply keeps_then; [keeps_all Hev|]. intros [] s1 b s2 HJ E1.
    injection E1 as <- <-. cbn. unfold release_conn. rewrite HJ. cbn. apply lookup_delete_eq. }
  unfold onTcpError, set_conn, conn, mbind, M_bind, get. by rewrite Hd.
Qed.

End relay.

(** ** A concrete stack

    Sockets that always succeed and an lwIP that accepts every packet, keeps its pbuf
    and calls nothing back. *)

#[local] Transparent WG_RECV_POOL_SIZE wg_recv_pool_init.

Definition demo_lwip : Lwip demo_platform := {|
  k_socket _ w := (5, w); k_bind _ _ w := (0, w); k_getsockname _ w := ((0, 4000), w); k_connect _ _ w := (0, w);
  k_listen _ _ w := (0, w); k_accept _ w := (9, w); k_close _ w := w; k_nonblock _ w := w; k_setsockopt _ w := w;
  k_poll _ w := ((0, false, false), w); k_recv _ _ w := ((0, [], false), w); k_send _ d w := (Z.of_nat (length d), w);
  k_wake _ w := w; k_drain _ w := w; inet_pton _ := Some 0; lwip_init w := w; netif_add _ w := w;
  netif_set_default_up w := w; netif_remove w := w; tcp_new w := (Some 0%nat, w); tcp_arg_err _ _ w := w;
  tcp_connect _ _ _ w := ((ERR_OK, []), w); tcp_abort _ w := ([], w); tcp_close _ w := ([], w); tcp_write _ _ w := (ERR_OK, w);
  tcp_output _ w := ([], w); tcp_recv_sent _ w := w; tcp_recved _ _ w := ([], w); udp_new w := (Some 1%nat, w);
  udp_bind _ _ _ w := (ERR_OK, w); udp_recv _ _ w := w; udp_remove _ w := w; udp_sendto _ _ _ _ w := ([], w);
  pbuf_alloc _ w := (true, w); pbuf_free _ w := ([], w); pbuf_alloced_custom _ w := (true, w);
  ip_input _ _ w := ((ERR_OK, []), w); sys_check_timeouts w := ([], w)
|}.

Definition demo_tunnel : WgTunnel := zero_tunnel <| recv_pool := example_pool |>.
Definition demo_sys (r : LwipRelay) (t : WgTunnel) : sys (P := demo_platform) := mkSys (P := demo_platform) r t (mkDemo 0 []).

(** A slot on its way into the queue of a new relay. *)
Lemma relay_slots_accounted_witness :
  let t := demo_tunnel <| recv_pool := (wg_recv_pool_acquire example_pool).2 |> in
  let s := demo_sys (queue_enqueue lwip_relay_new 255 [1]).2 t in
  exists ss free, slots (recv_pool (tnl s)) = Some ss /\ chain ss (free_head (recv_pool (tnl s))) free /\
    free ++ queue_slots (rly s) ++ holder_slots (rly s) ++ [] ≡ₚ seq 0 WG_RECV_POOL_SIZE.
Proof.
  intros t s. apply (relay_slots_accounted (H := true) (H0 := demo_scratch) (H1 := demo_x25519) (L := demo_lwip) s []).
  exists (demo_sys lwip_relay_new demo_tunnel, []). split.
  - split; [done|]. split; [done|]. exists zero_pool. vm_compute. reflexivity.
  - eapply rtc_l; [apply (rs_acquire _ _ 255%nat (wg_recv_pool_acquire example_pool).2); vm_compute; reflexivity|].
    apply rtc_once. exact (rs_enqueue (demo_sys lwip_relay_new t) [] 255%nat [] [1]).
Defined.

(** A started relay with a connection, and a packet between test and push. *)
Definition demo_relay_up : LwipRelay :=
  lwip_relay_new <| running_ := true |> <| wakeFd_ := (5, 5) |> <| tcpConnections_ := [(9, 0%nat)] |>
    <| conns := {[0%nat := mkConn 9 None 80 80 true]} |> <| next_obj := 1%nat |>.

Lemma stop_leaves_packet_witness :
  match stop (H := true) (H0 := demo_scratch) (H1 := demo_x25519) (L := demo_lwip) (demo_sys demo_relay_up zero_tunnel) with
  | Some (_, s') => incomingQueue_ (queue_enqueue (rly s') 7 [1]).2 = [mkIncoming 7 [1]]
  | None => False
  end.
Proof.
  destruct (stop (H := true) (H0 := demo_scratch) (H1 := demo_x25519) (L := demo_lwip) (demo_sys demo_relay_up zero_tunnel))
    as [[[] s']|] eqn:E.
  - eapply (stop_leaves_packet (H := true) (H0 := demo_scratch) (H1 := demo_x25519) (L := demo_lwip)
      (demo_sys demo_relay_up zero_tunnel) s' 7 [1]); [reflexivity|exact E].
  - apply (f_equal (fun o => match o with Some _ => true | None => false end)) in E. vm_compute in E. discriminate.
Defined.

Lemma removed_connection_dangles_witness :
  match remove_connection (H := true) (H0 := demo_scratch) (H1 := demo_x25519) (L := demo_lwip) 9
      (demo_sys demo_relay_up zero_tunnel) with
  | Some (_, s') => onTcpError (P := demo_platform) (Some 0%nat) ERR_IF s' = None
  | None => False
  end.
Proof.
  destruct (remove_connection (H := true) (H0 := demo_scratch) (H1 := demo_x25519) (L := demo_lwip) 9
      (demo_sys demo_relay_up zero_tunnel)) as [[[] s']|] eqn:E.
  - apply (removed_connection_dangles (H := true) (H0 := demo_scratch) (H1 := demo_x25519) (L := demo_lwip)
      (demo_sys demo_relay_up zero_tunnel) s' 9 0%nat ERR_IF); [reflexivity|exact E].
  - apply (f_equal (fun o => match o with Some _ => true | None => false end)) in E. vm_compute in E. discriminate.
Defined.
