(* ===== verification/Wakeup.v ===== *)
(** * The wake-up protocol of the relay (lwip-relay/src/wg_lwip_relay.cpp)

    The receive thread queues packets and wakes the loop thread, which sleeps in [poll],
    by a byte on a socket, but only when the queue was empty; the loop thread empties the
    socket, takes at most 16 packets and wakes itself when packets remain; [stop] wakes
    it to end.  The steps below are the pieces of which the methods of [LwipRelay] are
    composed, run on a world that remembers whether the wake socket was written to since
    it was emptied last. *)

From stdpp Require Import gmap relations.
From S2P Require Import Prelude Neon RecvPool Aead Crypto Tunnel Platform Noise Wireguard Netif LwipRelay.

(** ** A platform that watches the wake socket *)

Definition watched (P : Platform) : Platform := observed P (fun _ (written : bool) => written).

Definition same {P : Platform} {B} (f : @WLD P -> B * @WLD P) : @WLD (watched P) -> B * @WLD (watched P) := pass f.
Definition same_ {P : Platform} (f : @WLD P -> @WLD P) : @WLD (watched P) -> @WLD (watched P) := fun w => (f w.1, w.2).

(** [k_wake] sets the flag, [k_drain] clears it; the rest is that of [L]. *)
Definition watched_lwip (P : Platform) (L : Lwip P) : Lwip (watched P) := {|
  k_wake fd := fun w : @WLD (watched P) => (@k_wake P L fd w.1, true) : @WLD (watched P);
  k_drain fd := fun w : @WLD (watched P) => (@k_drain P L fd w.1, false) : @WLD (watched P);
  k_socket stream := same (@k_socket P L stream); k_bind fd port := same (@k_bind P L fd port);
  k_getsockname fd := same (@k_getsockname P L fd); k_connect fd port := same (@k_connect P L fd port);
  k_listen fd n := same (@k_listen P L fd n); k_accept fd := same (@k_accept P L fd);
  k_close fd := same_ (@k_close P L fd); k_nonblock fd := same_ (@k_nonblock P L fd);
  k_setsockopt fd := same_ (@k_setsockopt P L fd); k_poll fd := same (@k_poll P L fd);
  k_recv fd n := same (@k_recv P L fd n); k_send fd d := same (@k_send P L fd d);
  inet_pton := @inet_pton P L; lwip_init := same_ (@lwip_init P L); netif_add a := same_ (@netif_add P L a);
  netif_set_default_up := same_ (@netif_set_default_up P L); netif_remove := same_ (@netif_remove P L);
  tcp_new := same (@tcp_new P L); tcp_arg_err p a := same_ (@tcp_arg_err P L p a);
  tcp_connect p a b := same (@tcp_connect P L p a b); tcp_abort p := same (@tcp_abort P L p);
  tcp_close p := same (@tcp_close P L p); tcp_write p d := same (@tcp_write P L p d);
  tcp_output p := same (@tcp_output P L p); tcp_recv_sent p := same_ (@tcp_recv_sent P L p);
  tcp_recved p n := same (@tcp_recved P L p n); udp_new := same (@udp_new P L);
  udp_bind p a b := same (@udp_bind P L p a b); udp_recv p a := same_ (@udp_recv P L p a);
  udp_remove p := same_ (@udp_remove P L p); udp_sendto p d a b := same (@udp_sendto P L p d a b);
  pbuf_alloc n := same (@pbuf_alloc P L n); pbuf_free p := same (@pbuf_free P L p);
  pbuf_alloced_custom h := same (@pbuf_alloced_custom P L h); ip_input h d := same (@ip_input P L h d);
  sys_check_timeouts := same (@sys_check_timeouts P L)
|}.

#[local] Existing Instances watched_lwip.

Create HintDb fixed.

(** ** The steps *)

Section wakeup.
Context `{NeonBuild} `{Scratch} (P : Platform) `{X25519} (L : Lwip P).

Abbreviation relay_sys := (sys (P := watched P)).

(** Whether the wake socket was written to since it was emptied last. *)
Definition written (s : relay_sys) : bool := snd (wld s : @WLD P * bool).
Definition meanwhile (s : relay_sys) (t : WgTunnel) (w : @WLD P) : relay_sys :=
  mkSys (rly s) t ((w, written s) : @WLD (watched P)).

(** The receive thread: between packets, with a packet that passed the test, or with
    one that it queued. *)
Inductive recv_at := RecvIdle | RecvTested (slot : nat) (data : list Z) | RecvPushed (was_empty : bool).
(** The loop thread: at the test of [while], in [poll], woken, with a batch, with a batch
    passed on, at the sockets, gone. *)
Inductive loop_at :=
| LoopTop | LoopPoll | LoopWoken | LoopBatch (batch : list IncomingSlot) (more : bool) | LoopAgain (more : bool)
| LoopSockets | LoopEnd.
(** The application: running, or in [stop] before the wake-up, or after it. *)
Inductive app_at := AppRuns | AppStops | AppStopped.

(** With the packets queued and taken so far. *)
Record config := mkConfig {
  cf_sys : relay_sys; cf_recv : recv_at; cf_loop : loop_at; cf_app : app_at;
  cf_pushed : list IncomingSlot; cf_taken : list IncomingSlot
}.

Inductive wake_step : config -> config -> Prop :=
(** [handleIncomingPacket] *)
| ws_test s l a ps ts slot data :
    queue_check (rly s) data = true ->
    wake_step (mkConfig s RecvIdle l a ps ts) (mkConfig s (RecvTested slot data) l a ps ts)
| ws_push s l a ps ts slot data was_empty s' :
    push_packet slot data s = Some (was_empty, s') ->
    wake_step (mkConfig s (RecvTested slot data) l a ps ts)
      (mkConfig s' (RecvPushed was_empty) l a (ps ++ [mkIncoming slot data]) ts)
| ws_signal s e l a ps ts r s' :
    signal_push e s = Some (r, s') ->
    wake_step (mkConfig s (RecvPushed e) l a ps ts) (mkConfig s' RecvIdle l a ps ts)
(** [runLoop] *)
| ws_while s r a ps ts :
    wake_step (mkConfig s r LoopTop a ps ts) (mkConfig s r (if running_ (rly s) then LoopPoll else LoopEnd) a ps ts)
| ws_woken s r a ps ts go s' :
    loop_woken s = Some (go, s') ->
    wake_step (mkConfig s r LoopPoll a ps ts) (mkConfig s' r (if go : bool then LoopWoken else LoopEnd) a ps ts)
| ws_take s r a ps ts batch more s' :
    take_packets s = Some ((batch, more), s') ->
    wake_step (mkConfig s r LoopWoken a ps ts) (mkConfig s' r (LoopBatch batch more) a ps (ts ++ batch))
| ws_batch s r batch more a ps ts s' :
    each batch process_packet s = Some (tt, s') ->
    wake_step (mkConfig s r (LoopBatch batch more) a ps ts) (mkConfig s' r (LoopAgain more) a ps ts)
| ws_again s r more a ps ts s' :
    signal_more more s = Some (tt, s') ->
    wake_step (mkConfig s r (LoopAgain more) a ps ts) (mkConfig s' r LoopSockets a ps ts)
| ws_sockets s r a ps ts s' :
    loop_sockets s = Some (tt, s') ->
    wake_step (mkConfig s r LoopSockets a ps ts) (mkConfig s' r LoopTop a ps ts)
(** the application *)
| ws_tcp s r l ps ts x y port s' :
    startTcpRelay x y s = Some (port, s') ->
    wake_step (mkConfig s r l AppRuns ps ts) (mkConfig s' r l AppRuns ps ts)
| ws_udp s r l ps ts x y port s' :
    startUdpRelay x y s = Some (port, s') ->
    wake_step (mkConfig s r l AppRuns ps ts) (mkConfig s' r l AppRuns ps ts)
| ws_stop s r l ps ts s' :
    stop_mark s = Some (tt, s') ->
    wake_step (mkConfig s r l AppRuns ps ts) (mkConfig s' r l AppStops ps ts)
| ws_stop_signal s r l ps ts s' :
    signalWake s = Some (tt, s') ->
    wake_step (mkConfig s r l AppStops ps ts) (mkConfig s' r l AppStopped ps ts)
(** what the rest of the program does to the tunnel and the world meanwhile *)
| ws_tunnel s r l a ps ts t w :
    wake_step (mkConfig s r l a ps ts) (mkConfig (meanwhile s t w) r l a ps ts).

(** ** What the methods leave alone *)

Definition fixed (q : list IncomingSlot) (fds : Z * Z) (run flag : bool) (s : relay_sys) : Prop :=
  incomingQueue_ (rly s) = q /\ wakeFd_ (rly s) = fds /\ running_ (rly s) = run /\ (flag = true -> written s = true).

Section fixed.
Context (q : list IncomingSlot) (fds : Z * Z) (run flag : bool).
#[local] Abbreviation I := (fixed q fds run flag).

Lemma fixed_same {A} (f : @WLD P -> A * @WLD P) : keeps I (ext (same f)).
Proof.
  intros [r t [w b]] a s' HI E. unfold ext, same, pass in E. cbn [wld fst snd] in E. destruct (f w) as [x w'].
  injection E as <- <-. exact HI.
Qed.
Lemma fixed_same_ (f : @WLD P -> @WLD P) : keeps I (ext_ (same_ f)).
Proof. intros [r t [w b]] a s' HI E. injection E as <- <-. exact HI. Qed.
Lemma fixed_sendto fd addr d : keeps I (ext (sendto fd addr d)).
Proof.
  intros [r t [w b]] a s' HI E. unfold ext in E. cbn in E. destruct (sendto fd addr d w) as [x w'].
  injection E as <- <-. exact HI.
Qed.

(** The packets lwIP sends go through the tunnel, which knows nothing of the wake socket. *)
Lemma send_to_flag tun h d (w : @WLD (watched P)) : (wg_socket_send_to tun h d w).2.2 = w.2.
Proof. unfold wg_socket_send_to. by destruct (relay_installed w). Qed.
Lemma pass_flag {A} (f : @WLD P -> A * @WLD P) (w : @WLD (watched P)) : (same f w).2.2 = w.2.
Proof. unfold same, pass. by destruct (f w.1). Qed.
Lemma send_to_peer_flag tun i d (w : @WLD (watched P)) : (wg_send_to_peer tun i d w).2.2 = w.2.
Proof.
  unfold wg_send_to_peer. destruct (_ || _); [done|]. destruct (_ <? _); [done|].
  match goal with |- context [wg_socket_send_to ?t ?h ?d w] => pose proof (send_to_flag t h d w) as E;
    destruct (wg_socket_send_to t h d w) as [sent w1] end. cbn [snd] in E.
  destruct (0 <=? sent); [|exact E]. pose proof (pass_flag arm_ns w1) as E1. unfold wg_time_now.
  change (arm_ns w1) with (same arm_ns w1). destruct (same arm_ns w1) as [now w2]. cbn in *. congruence.
Qed.
Lemma build_init_flag tun pub (w : @WLD (watched P)) : (build_init tun pub w).2.2 = w.2.
Proof.
  unfold build_init, wg_random_index, wg_random_u32. pose proof (pass_flag (randomGet 32) w) as E1.
  change (randomGet 32 w) with (same (randomGet 32) w). destruct (same (randomGet 32) w) as [rnd w1]. cbn [snd] in E1.
  pose proof (pass_flag (randomGet 4) w1) as E2.
  change (randomGet 4 w1) with (same (randomGet 4) w1). destruct (same (randomGet 4) w1) as [b w2]. cbn [snd] in E2.
  repeat match goal with |- context [mix_kdf2 ?a ?b] => destruct (mix_kdf2 a b) end. pose proof (pass_flag clock_realtime w2) as E3.
  change (clock_realtime w2) with (same clock_realtime w2). destruct (same clock_realtime w2) as [[a b'] w4]. cbn in *. congruence.
Qed.
Lemma init_peer_flag tun i (w : @WLD (watched P)) : (wg_handshake_init_peer tun i w).2.2 = w.2.
Proof.
  unfold wg_handshake_init_peer. pose proof (build_init_flag tun (public_key (get_peer tun i)) w) as E1.
  destruct (build_init _ _ w) as [[m st] w1]. cbn [snd] in E1. pose proof (pass_flag arm_ns w1) as E2. unfold wg_time_now.
  change (arm_ns w1) with (same arm_ns w1). destruct (same arm_ns w1) as [now w2]. cbn [snd] in E2.
  destruct (_ && _); cbn; congruence.
Qed.
Lemma output_flag n tun buf ip (w : @WLD (watched P)) : (wg_netif_output n tun buf ip w).2.2 = w.2.
Proof.
  unfold wg_netif_output. destruct (negb _); [done|]. destruct (_ =? _)%nat; [done|].
  destruct (wg_find_peer_by_ip tun ip) as [i|]; [|done]. destruct (_ || _).
  - unfold auto_connect. pose proof (init_peer_flag tun i w) as E1. destruct (wg_handshake_init_peer tun i w) as [[[[e t1] m] st] w1].
    cbn [snd] in E1. destruct (e =? WG_OK); [|exact E1].
    match goal with |- context [wg_socket_send_to ?t ?h ?d ?u] => pose proof (send_to_flag t h d u) as E2;
      destruct (wg_socket_send_to t h d u) as [sent w2] end. cbn in *. congruence.
  - pose proof (send_to_peer_flag tun i buf w) as E1. destruct (wg_send_to_peer tun i buf w) as [[r t1] w1].
    by destruct (r <? 0).
Qed.

Lemma fixed_output buf ip : keeps I (netif_output buf ip).
Proof.
  intros [r t w] [] s' HI E. unfold netif_output in E. cbn [rly tnl wld] in E. pose proof (output_flag (netif_ r) t buf ip w) as Ef.
  destruct (wg_netif_output _ _ _ _ _) as [[e t'] w']. injection E as <-. unfold fixed, written in *. cbn in *. by rewrite Ef.
Qed.
Lemma fixed_put f : (forall r, incomingQueue_ (f r) = incomingQueue_ r /\ wakeFd_ (f r) = wakeFd_ r /\ running_ (f r) = running_ r) ->
  keeps I (put f).
Proof.
  intros Hf. apply keeps_put. intros r t w (E1 & E2 & E3 & E4). destruct (Hf r) as (F1 & F2 & F3). unfold fixed. cbn in *.
  by rewrite F1, F2, F3.
Qed.
Lemma fixed_tunnel f : keeps I (tunnel f).
Proof. by apply keeps_tunnel. Qed.
Lemma fixed_slot_free h : keeps I (slot_free h).
Proof.
  intros [r t w] [] s' HI E. unfold slot_free in E. cbn [rly tnl wld] in E.
  destruct (_ !! h) as [x|]; [|by injection E as <-]. destruct (wg_slot_pbuf_free x t) as [? ?]. by injection E as <-.
Qed.
Lemma fixed_new_conn c : keeps I (new_conn c).
Proof. intros s a s' HI E. by injection E as <- <-. Qed.
Lemma fixed_new_binding b : keeps I (new_binding b).
Proof. intros s a s' HI E. by injection E as <- <-. Qed.
Lemma fixed_wake : keeps I signalWake.
Proof.
  intros [r t w] [] s' HI E. unfold signalWake, mbind, M_bind, get in E. cbn [rly] in E.
  destruct (_ <? 0); injection E as <-; [done|]. destruct HI as (E1 & E2 & E3 & _). by split_and!.
Qed.

Ltac fixed_all :=
  repeat first [apply fixed_same | apply fixed_same_ | apply fixed_sendto | apply fixed_output | apply fixed_tunnel |
    apply fixed_slot_free | apply fixed_new_conn | apply fixed_new_binding | apply fixed_wake | solve [auto with fixed] |
    (apply fixed_put; intros ?; done) | apply keeps_mret | apply keeps_get | apply keeps_freed |
    (apply keeps_bind; [|intros ?]) | (apply keeps_each; intros ?) | apply keeps_when |
    match goal with
    | |- keeps _ (let '(_, _) := ?x in _) => destruct x
    | |- keeps _ (match ?x with _ => _ end) => destruct x
    | |- keeps _ (if ?x then _ else _) => destruct x
    end].

Lemma fixed_conn a : keeps I (conn a).
Proof. unfold conn. fixed_all. Qed.
Lemma fixed_set_conn a f : keeps I (set_conn a f).
Proof. unfold set_conn, conn. fixed_all. Qed.
Lemma fixed_binding a : keeps I (binding a).
Proof. unfold binding. fixed_all. Qed.
Lemma fixed_set_binding a f : keeps I (set_binding a f).
Proof. unfold set_binding, binding. fixed_all. Qed.
Lemma fixed_free_pbuf p : keeps I (free_pbuf p).
Proof. unfold free_pbuf. fixed_all. Qed.
Lemma fixed_release fd f :
  (forall r, incomingQueue_ (f r) = incomingQueue_ r /\ wakeFd_ (f r) = wakeFd_ r /\ running_ (f r) = running_ r) ->
  keeps I (put (fun r => f (release_conn fd r))).
Proof. intros Hf. apply fixed_put. intros r. destruct (Hf (release_conn fd r)) as (-> & -> & ->). unfold release_conn. by destruct (mfind _ _). Qed.
Lemma fixed_map_conn fd a : keeps I (map_conn fd a).
Proof. by apply (fixed_release fd (fun r => r <| tcpConnections_ := mset fd a (tcpConnections_ r) |>)). Qed.
Lemma fixed_erase_conn fd : keeps I (erase_conn fd).
Proof. by apply (fixed_release fd (fun r => r <| tcpConnections_ := merase fd (tcpConnections_ r) |>)). Qed.
#[local] Hint Resolve fixed_conn fixed_set_conn fixed_binding fixed_set_binding fixed_free_pbuf fixed_map_conn fixed_erase_conn : fixed.

Lemma fixed_event e : keeps I (handle_event e).
Proof.
  destruct e; cbn [handle_event];
    unfold onTcpConnected, onTcpRecv, onTcpSent, onTcpError, onUdpRecv, outputs, close_local; fixed_all.
Qed.
Lemma fixed_events evs : keeps I (events evs).
Proof. apply keeps_each, fixed_event. Qed.
#[local] Hint Resolve fixed_events : fixed.

Lemma fixed_process_packet pkt : keeps I (process_packet pkt).
Proof. unfold process_packet, input_slot, set_holder. fixed_all. Qed.
Lemma fixed_poll_connections l : keeps I (poll_connections l).
Proof. induction l as [|e l IH]; cbn [poll_connections]; [apply keeps_mret|]. unfold poll_connection. fixed_all. Qed.
#[local] Hint Resolve fixed_poll_connections : fixed.
Lemma fixed_sockets : keeps I loop_sockets.
Proof. unfold loop_sockets, pollTcpListeners, poll_listener, pollTcpConnections, remove_connection, pollUdpSockets, poll_udp. fixed_all. Qed.
Lemma fixed_tcp x y : keeps I (startTcpRelay x y).
Proof. unfold startTcpRelay, createTcpListener. fixed_all. Qed.
Lemma fixed_udp x y : keeps I (startUdpRelay x y).
Proof. unfold startUdpRelay, createUdpSocket. fixed_all. Qed.
End fixed.

(** ** No wake-up is lost *)

(** From a state that satisfies [Q0], a method returns [true] only in one that
    satisfies [Q]. *)
Definition yields (Q0 Q : relay_sys -> Prop) (m : M (P := watched P) bool) : Prop :=
  forall s s', Q0 s -> m s = Some (true, s') -> Q s'.

Lemma yields_bind (Q0 Q1 Q : relay_sys -> Prop) {A} (m : M (P := watched P) A) (k : A -> M (P := watched P) bool) :
  (forall s a s', Q0 s -> m s = Some (a, s') -> Q1 s') -> (forall a, yields Q1 Q (k a)) -> yields Q0 Q (m ≫= k).
Proof.
  intros Hm Hk s s' H0' E. unfold mbind, M_bind in E. destruct (m s) as [[a s1]|] eqn:Em; [|done].
  eapply Hk; [|exact E]. by eapply Hm.
Qed.
Lemma yields_skip (Q0 Q : relay_sys -> Prop) {A} (m : M (P := watched P) A) (k : A -> M (P := watched P) bool) :
  keeps Q0 m -> (forall a, yields Q0 Q (k a)) -> yields Q0 Q (m ≫= k).
Proof. intros Hm. by apply yields_bind. Qed.
Lemma yields_false (Q0 Q : relay_sys -> Prop) : yields Q0 Q (mret false).
Proof. intros s s' _ E. discriminate. Qed.
Lemma yields_true (Q : relay_sys -> Prop) : yields Q Q (mret true).
Proof. intros s s' HQ E. by injection E as <-. Qed.

Definition anything (s : relay_sys) : Prop := True.
Definition wakeable (s : relay_sys) : Prop := 0 <= (wakeFd_ (rly s)).2.

Lemma keeps_anything {A} (m : M (P := watched P) A) : keeps anything m.
Proof. by intros s a s'. Qed.

Lemma start_fail_yields (Q0 Q : relay_sys -> Prop) : yields Q0 Q start_fail.
Proof.
  enough (yields anything Q start_fail) as Hy by (intros s s' _; by apply Hy).
  unfold start_fail. repeat (apply yields_skip; [apply keeps_anything|intros ?]). apply yields_false.
Qed.

Lemma start_wake_yields : yields anything wakeable start_wake.
Proof.
  unfold start_wake. apply yields_skip; [apply keeps_anything|intros fd0]. apply yields_skip; [apply keeps_anything|intros fd1].
  destruct (Z.ltb_spec fd1 0) as [|Hf]; [rewrite orb_true_r|rewrite orb_false_r].
  - apply yields_skip; [apply keeps_anything|intros ?]. apply start_fail_yields.
  - apply (yields_bind anything wakeable); [intros s [] s' _ E; by injection E as <-|intros []].
    repeat first [apply start_fail_yields | apply yields_true | (apply yields_skip; [by apply keeps_ext|intros ?]) |
      (apply yields_skip; [by apply keeps_ext_|intros ?]) |
      match goal with |- yields _ _ (if ?b then _ else _) => destruct b | |- yields _ _ (let '(_, _) := ?x in _) => destruct x end].
Qed.

Definition queue_is (q : list IncomingSlot) (s : relay_sys) : Prop := incomingQueue_ (rly s) = q.
Definition started (q : list IncomingSlot) (s : relay_sys) : Prop :=
  running_ (rly s) = true /\ wakeable s /\ queue_is q s.

Ltac queue_all :=
  repeat first [apply keeps_mret | apply keeps_get | (apply keeps_ext; done) | (apply keeps_ext_; done) | (apply keeps_put; done) |
    (apply keeps_tunnel; done) | apply keeps_when | (apply keeps_bind; [|intros ?]) |
    match goal with
    | |- keeps _ (let '(_, _) := ?x in _) => destruct x
    | |- keeps _ (match ?x with _ => _ end) => destruct x
    | |- keeps _ (if ?x then _ else _) => destruct x
    end].

Lemma queue_start_wake q : keeps (queue_is q) start_wake.
Proof. unfold start_wake, start_fail. queue_all. Qed.

(** [start] returns [true] only with the relay running, the wake socket open and the
    queue as it was. *)
Lemma start_yields q x y : yields (queue_is q) (started q) (start x y).
Proof.
  unfold start. apply yields_skip; [queue_all|intros run]. destruct run; [apply yields_false|].
  apply yields_skip; [queue_all|intros ini]. apply yields_skip; [unfold ext_; queue_all|intros _].
  destruct (inet_pton x) as [addr|]; [|apply yields_false]. apply yields_skip; [queue_all|intros _].
  destruct (inet_pton y) as [target|]; [|apply yields_false].
  do 4 (apply yields_skip; [unfold ext_; queue_all|intros _]).
  intros s s' Hq E. unfold mbind at 1, M_bind at 1 in E. destruct (start_wake s) as [[ok s1]|] eqn:Ew; [|done].
  pose proof (queue_start_wake q s ok s1 Hq Ew) as Hq1. destruct ok; [|discriminate].
  pose proof (start_wake_yields s s1 I Ew) as Hw. injection E as <-. done.
Qed.

(** ** The protocol *)

(** Right after a successful [start] of a relay with an empty queue. *)
Definition initial (c : config) : Prop :=
  exists x y s0, queue_is [] s0 /\ start x y s0 = Some (true, cf_sys c) /\
    cf_recv c = RecvIdle /\ cf_loop c = LoopTop /\ cf_app c = AppRuns /\ cf_pushed c = [] /\ cf_taken c = [].

(** The loop thread will look at the queue before it sleeps. *)
Definition looks (l : loop_at) : Prop :=
  match l with LoopWoken | LoopBatch _ true | LoopAgain true => True | _ => False end.

Record wake_inv (c : config) : Prop := {
  wi_fifo : cf_pushed c = cf_taken c ++ incomingQueue_ (rly (cf_sys c));
  wi_fds : wakeable (cf_sys c);
  wi_run : running_ (rly (cf_sys c)) = true <-> cf_app c = AppRuns;
  wi_batch : match cf_loop c with LoopBatch batch _ => (length batch <= kMaxPerIteration)%nat | _ => True end;
  wi_wake : incomingQueue_ (rly (cf_sys c)) <> [] -> cf_loop c <> LoopEnd ->
    written (cf_sys c) = true \/ cf_recv c = RecvPushed true \/ looks (cf_loop c);
  wi_stop : cf_app c = AppStopped -> cf_loop c = LoopPoll -> written (cf_sys c) = true
}.

Lemma initial_inv c : initial c -> wake_inv c.
Proof.
  destruct c as [s r l a ps ts]. intros (x & y & s0 & Hq & E & Er & El & Ea & Ep & Et). cbn [cf_sys cf_recv cf_loop cf_app cf_pushed cf_taken] in *. subst.
  destruct (start_yields [] x y s0 s Hq E) as (H1' & H2' & H3'). unfold queue_is in H3'.
  split; cbn [cf_sys cf_recv cf_loop cf_app cf_pushed cf_taken]; done.
Qed.

(** What the wake-up does. *)
Lemma wake_written (s s' : relay_sys) :
  wakeable s -> signalWake s = Some (tt, s') -> rly s' = rly s /\ written s' = true.
Proof.
  intros Hw E. unfold signalWake, mbind, M_bind, get in E. unfold wakeable in Hw. destruct (Z.ltb_spec (wakeFd_ (rly s)).2 0); [lia|].
  by injection E as <-.
Qed.

(** A step that leaves the relay's queue, wake socket and state alone. *)
Definition same_relay (s s' : relay_sys) : Prop :=
  fixed (incomingQueue_ (rly s)) (wakeFd_ (rly s)) (running_ (rly s)) (written s) s'.

Lemma same_relay_of {A} (m : M (P := watched P) A) s a s' :
  (forall q fds run flag, keeps (fixed q fds run flag) m) -> m s = Some (a, s') -> same_relay s s'.
Proof. intros Hm E. eapply Hm; [|exact E]. done. Qed.

Lemma inv_move s r l a ps ts s' r' l' a' :
  wake_inv (mkConfig s r l a ps ts) -> same_relay s s' -> (a' = AppRuns <-> a = AppRuns) ->
  match l' with LoopBatch batch _ => (length batch <= kMaxPerIteration)%nat | _ => True end ->
  (l' <> LoopEnd -> l <> LoopEnd) ->
  (r = RecvPushed true -> r' = RecvPushed true \/ written s' = true) ->
  (looks l -> looks l' \/ written s' = true) ->
  (a' = AppStopped -> l' = LoopPoll -> written s' = true) ->
  wake_inv (mkConfig s' r' l' a' ps ts).
Proof.
  intros [I1 I2 I3 I4 I5 I6] (F1 & F2 & F3 & F4) Ha Hb He Hr Hl Hs. cbn [cf_sys cf_recv cf_loop cf_app cf_pushed cf_taken] in *.
  split; cbn [cf_sys cf_recv cf_loop cf_app cf_pushed cf_taken].
  - by rewrite F1.
  - unfold wakeable in *. by rewrite F2.
  - rewrite F3. tauto.
  - done.
  - rewrite F1. intros Hq Hl'. destruct (I5 Hq (He Hl')) as [?|[?|?]]; tauto.
  - done.
Qed.

Lemma recv_step_inv s r l a ps ts s' r' l' a' :
  wake_inv (mkConfig s r l a ps ts) -> same_relay s s' -> (l', a') = (l, a) ->
  (r = RecvPushed true -> r' = RecvPushed true \/ written s' = true) -> wake_inv (mkConfig s' r' l' a' ps ts).
Proof.
  intros Hi Hs [= -> ->] Hr. apply (inv_move s r l a ps ts); try done.
  - apply Hi.
  - by left.
  - intros Ha Hl. destruct Hs as (_ & _ & _ & Hf). apply Hf. exact (wi_stop _ Hi Ha Hl).
Qed.

Lemma push_inv s slot data l a ps ts e s' :
  push_packet slot data s = Some (e, s') -> wake_inv (mkConfig s (RecvTested slot data) l a ps ts) ->
  wake_inv (mkConfig s' (RecvPushed e) l a (ps ++ [mkIncoming slot data]) ts).
Proof.
  unfold push_packet, queue_enqueue. intros E [I1 I2 I3 I4 I5 I6]. injection E as <- <-.
  cbn [cf_sys cf_recv cf_loop cf_app cf_pushed cf_taken] in *. split; cbn [cf_sys cf_recv cf_loop cf_app cf_pushed cf_taken]; try done.
  - cbn. by rewrite I1, app_assoc.
  - intros _ Hl. destruct (decide (incomingQueue_ (rly s) = [])) as [Hq|Hq].
    + right; left. by rewrite bool_decide_eq_true_2.
    + destruct (I5 Hq Hl) as [?|[?|?]]; [by left|done|by right; right].
Qed.

Lemma woken_inv s r a ps ts go s' :
  loop_woken s = Some (go, s') -> wake_inv (mkConfig s r LoopPoll a ps ts) ->
  wake_inv (mkConfig s' r (if go : bool then LoopWoken else LoopEnd) a ps ts).
Proof.
  intros E [I1 I2 I3 I4 I5 I6]. cbn [cf_sys cf_recv cf_loop cf_app cf_pushed cf_taken] in *.
  assert (rly s' = rly s /\ go = running_ (rly s)) as [Hr Hg].
  { unfold loop_woken, mbind, M_bind, get in E. destruct (running_ (rly s)); cbn [negb] in E; [|by injection E as <- <-].
    unfold ext in E at 1. destruct (k_poll _ _) as [[[ret pollin] hup] w]. destruct pollin; cbn [when] in E; by injection E as <- <-. }
  split; cbn [cf_sys cf_recv cf_loop cf_app cf_pushed cf_taken]; unfold wakeable; rewrite ?Hr; try done; destruct go; try done.
  intros _ _. by right; right.
Qed.

Lemma take_inv s r a ps ts batch more s' :
  take_packets s = Some ((batch, more), s') -> wake_inv (mkConfig s r LoopWoken a ps ts) ->
  wake_inv (mkConfig s' r (LoopBatch batch more) a ps (ts ++ batch)).
Proof.
  unfold take_packets, queue_take. intros E [I1 I2 I3 I4 I5 I6]. injection E as <- <- <-.
  cbn [cf_sys cf_recv cf_loop cf_app cf_pushed cf_taken] in *. set (n := Nat.min _ _).
  split; cbn [cf_sys cf_recv cf_loop cf_app cf_pushed cf_taken]; try done.
  - cbn. by rewrite I1, <- app_assoc, take_drop.
  - rewrite length_take. lia.
  - cbn. intros Hq _. right; right. by rewrite bool_decide_eq_false_2.
Qed.

Lemma stop_inv s r l ps ts s' :
  stop_mark s = Some (tt, s') -> wake_inv (mkConfig s r l AppRuns ps ts) -> wake_inv (mkConfig s' r l AppStops ps ts).
Proof.
  intros E [I1 I2 I3 I4 I5 I6]. injection E as <-. by split.
Qed.

Lemma same_relay_refl s : same_relay s s.
Proof. done. Qed.
#[local] Hint Resolve same_relay_refl : fixed.

Lemma woke s s' : wakeable s -> signalWake s = Some (tt, s') -> same_relay s s' /\ written s' = true.
Proof. intros Hw E. split; [by eapply same_relay_of; [apply fixed_wake|]|by apply (wake_written s)]. Qed.

Lemma loop_step_inv s r l a ps ts s' l' :
  wake_inv (mkConfig s r l a ps ts) -> same_relay s s' -> l <> LoopEnd -> l' <> LoopPoll ->
  match l' with LoopBatch _ _ => False | _ => True end -> (looks l -> looks l' \/ written s' = true) ->
  wake_inv (mkConfig s' r l' a ps ts).
Proof.
  intros Hi Hs Hl Hp Hb Hk. apply (inv_move s r l a ps ts); try done; [by destruct l'|by left].
Qed.

Lemma wake_inv_step c c' : wake_step c c' -> wake_inv c -> wake_inv c'.
Proof.
  intros Hs Hi. pose proof (wi_fds _ Hi) as Hw.
  destruct Hs as [s l a ps ts slot data Hq|s l a ps ts slot data e s' E|s e l a ps ts z s' E|s r a ps ts|s r a ps ts go s' E|
    s r a ps ts batch more s' E|s r batch more a ps ts s' E|s r more a ps ts s' E|s r a ps ts s' E|s r l ps ts x y port s' E|
    s r l ps ts x y port s' E|s r l ps ts s' E|s r l ps ts s' E|s r l a ps ts t w]; cbn [cf_sys] in Hw.
  - by apply (recv_step_inv s RecvIdle l a ps ts).
  - by eapply push_inv.
  - unfold signal_push, when in E. destruct e.
    + unfold mbind, M_bind in E. destruct (signalWake s) as [[[] s1]|] eqn:E1; [|done]. injection E as <- <-.
      destruct (woke s s1 Hw E1) as [H1' H2']. apply (recv_step_inv s (RecvPushed true) l a ps ts); auto.
    + injection E as <- <-. by apply (recv_step_inv s (RecvPushed false) l a ps ts).
  - apply (inv_move s r LoopTop a ps ts); try done; [by destruct (running_ _)|by left|].
    intros -> Hl. destruct (running_ (rly s)) eqn:Er; [|done]. by apply (proj1 (wi_run _ Hi)) in Er.
  - by eapply woken_inv.
  - by eapply take_inv.
  - apply (loop_step_inv s r (LoopBatch batch more) a ps ts); try done; [|by left].
    eapply same_relay_of; [|exact E]. intros q fds run flag. apply keeps_each. intros pkt. apply fixed_process_packet.
  - destruct more; unfold signal_more, when in E.
    + destruct (woke s s' Hw E). apply (loop_step_inv s r (LoopAgain true) a ps ts); auto.
    + injection E as <-. by apply (loop_step_inv s r (LoopAgain false) a ps ts).
  - apply (loop_step_inv s r LoopSockets a ps ts); try done. eapply same_relay_of; [|exact E]. intros q fds run flag. apply fixed_sockets.
  - apply (recv_step_inv s r l AppRuns ps ts); [done| |done|by left].
    eapply same_relay_of; [|exact E]. intros q fds run flag. apply fixed_tcp.
  - apply (recv_step_inv s r l AppRuns ps ts); [done| |done|by left].
    eapply same_relay_of; [|exact E]. intros q fds run flag. apply fixed_udp.
  - by eapply stop_inv.
  - destruct (woke s s' Hw E). apply (inv_move s r l AppStops ps ts); auto; [done|exact (wi_batch _ Hi)].
  - by apply (recv_step_inv s r l a ps ts); [| | |left].
Qed.

(** C36. No wake-up of the loop thread is lost and no packet overtakes another.  In every
    interleaving of the receive thread, the loop thread and the application, from a
    successful [start] on a relay with an empty queue up to the wake-up at the end of
    [stop]: what the loop thread took is a prefix of what the receive thread queued, and
    the queue holds the rest in order; a batch has at most 16 packets; while the loop
    thread is in [poll] and the queue is not empty, the wake socket was written to since
    it was emptied last, or the receive thread is about to do so; and when [stop] has
    signalled, so that the loop has to end, a loop thread in [poll] has that byte to read. *)
Theorem relay_wakeup_not_lost c0 c :
  initial c0 -> rtc wake_step c0 c ->
  let s := cf_sys c in
  cf_pushed c = cf_taken c ++ incomingQueue_ (rly s) /\
  match cf_loop c with LoopBatch batch _ => (length batch <= kMaxPerIteration)%nat | _ => True end /\
  (cf_loop c = LoopPoll -> incomingQueue_ (rly s) <> [] -> written s = true \/ cf_recv c = RecvPushed true) /\
  (cf_app c = AppStopped -> running_ (rly s) = false /\ (cf_loop c = LoopPoll -> written s = true)).
Proof.
  intros H0' Hr. assert (wake_inv c) as Hi.
  { apply initial_inv in H0'. induction Hr as [x|x y z Hxy Hyz IH]; [done|]. by eapply IH, wake_inv_step. }
  split_and!; [apply Hi|apply Hi| |].
  - intros Hl Hq. destruct (wi_wake _ Hi Hq) as [?|[?|Hk]]; [by rewrite Hl|auto..|]. by rewrite Hl in Hk.
  - intros Ha. split; [|by apply (wi_stop _ Hi)]. destruct (running_ (rly (cf_sys c))) eqn:E; [|done].
    apply (wi_run _ Hi) in E. congruence.
Qed.
End wakeup.

(** ** A run of the protocol *)

#[local] Instance witness_build : NeonBuild := true.
#[local] Existing Instances demo_scratch demo_x25519.
#[local] Abbreviation demo_watched := (watched demo_platform).

Definition demo_fresh : sys (P := demo_watched) := mkSys (P := demo_watched) lwip_relay_new zero_tunnel (mkDemo 0 [], false).
(** What [start], the queueing of a packet and its wake-up return. *)
Definition demo_up : sys (P := demo_watched) :=
  from_option snd demo_fresh (start (L := watched_lwip demo_platform demo_lwip) [] [] demo_fresh).
Definition demo_queued : sys (P := demo_watched) := from_option snd demo_fresh (push_packet 3 [1] demo_up).
Definition demo_signalled : sys (P := demo_watched) :=
  from_option snd demo_fresh (signal_push (L := watched_lwip demo_platform demo_lwip) true demo_queued).

Lemma ran {A S} (o : option (A * S)) (a : A) (s : S) : fst <$> o = Some a -> o = Some (a, from_option snd s o).
Proof. destruct o as [[b t]|]; [|done]. by intros [= ->]. Qed.

Lemma demo_started : start (L := watched_lwip demo_platform demo_lwip) [] [] demo_fresh = Some (true, demo_up).
Proof. apply ran. vm_compute. reflexivity. Qed.
Lemma demo_runs : running_ (rly demo_up) = true.
Proof. vm_compute. reflexivity. Qed.
Lemma demo_pushed : push_packet 3 [1] demo_up = Some (true, demo_queued).
Proof. apply ran. vm_compute. reflexivity. Qed.
Lemma demo_woken : signal_push (L := watched_lwip demo_platform demo_lwip) true demo_queued = Some (1, demo_signalled).
Proof. apply ran. vm_compute. reflexivity. Qed.
Lemma demo_holds : incomingQueue_ (rly demo_signalled) = [mkIncoming 3 [1]].
Proof. vm_compute. reflexivity. Qed.

(** The loop thread is in [poll] while a packet is queued: it can be read from the wake
    socket. *)
Lemma relay_wakeup_not_lost_witness : incomingQueue_ (rly demo_signalled) <> [] /\ written demo_platform demo_signalled = true.
Proof.
  assert (incomingQueue_ (rly demo_signalled) <> []) as Hq by (rewrite demo_holds; discriminate). split; [exact Hq|].
  pose proof (ws_while demo_platform demo_lwip demo_up RecvIdle AppRuns [] []) as W. rewrite demo_runs in W.
  assert (queue_check (rly demo_up) [1] = true) as Hc by (unfold queue_check; rewrite demo_runs; reflexivity).
  pose proof (ws_test demo_platform demo_lwip demo_up LoopPoll AppRuns [] [] 3%nat [1] Hc) as T.
  pose proof (ws_push demo_platform demo_lwip demo_up LoopPoll AppRuns [] [] 3%nat [1] true demo_queued demo_pushed) as U.
  pose proof (ws_signal demo_platform demo_lwip demo_queued true LoopPoll AppRuns [mkIncoming 3 [1]] [] 1 demo_signalled demo_woken) as S.
  assert (initial demo_platform demo_lwip (mkConfig demo_platform demo_up RecvIdle LoopTop AppRuns [] [])) as Hi.
  { exists [], [], demo_fresh. exact (conj eq_refl (conj demo_started (conj eq_refl (conj eq_refl (conj eq_refl (conj eq_refl eq_refl)))))). }
  destruct (relay_wakeup_not_lost demo_platform demo_lwip _ _ Hi (rtc_l _ _ _ _ W (rtc_l _ _ _ _ T (rtc_l _ _ _ _ U (rtc_once _ _ S)))))
    as (_ & _ & Hp & _).
  destruct (Hp eq_refl Hq) as [Hw|Hn]; [exact Hw|discriminate Hn].
Defined.
