(* ===== verification/System.v ===== *)
(** * The running system

    The operations of the program on a tunnel, as the steps of one relation: the
    iterations of the two threads of the tunnel, the calls of the application and the
    output of the network interface, in any order.  A step runs to its end before the
    next one begins, except that in the waits of [wg_connect] and [wg_rekey] the
    scheduler runs iterations of the threads.  Invariants of the peer table hold in every
    reachable state; [Expiry] shows what happens to them when steps overlap. *)

From stdpp Require Import relations.
From S2P Require Import Prelude Neon Counter RecvPool Aead Crypto Tunnel Platform Noise Wireguard Netif.

#[local] Open Scope Z_scope.

(** A peer is marked connected, or keeps a previous session, only with a valid
    session. *)
Definition peer_ok (p : WgPeer) : Prop :=
  (connected p = true -> valid (p_session p) = true) /\ (valid (p_prev_session p) = true -> valid (p_session p) = true).
Definition peers_ok (tun : WgTunnel) : Prop := Forall peer_ok (peers tun).

Section system.
Context `{NeonBuild} `{Scratch} `{Platform} `{X25519}.

(** One operation of the program; the worlds are those the calls find. *)
Inductive wg_step : WgTunnel -> WgTunnel -> Prop :=
| step_recv_thread tun fallback w : wg_step tun (recv_thread_step tun fallback w).1.1
| step_keepalive_thread tun w : wg_step tun (keepalive_thread_step tun w).1
| step_connect tun w : wg_step tun (wg_connect tun w).1.2
| step_rekey tun w : wg_step tun (wg_rekey tun w).1.2
| step_send tun data w : wg_step tun (wg_send tun data w).1.2
| step_recv tun len ms w : wg_step tun (wg_recv tun len ms w).1.2
| step_send_to_peer tun i data w : wg_step tun (wg_send_to_peer tun i data w).1.2
| step_netif_output tun n buf ip w : wg_step tun (wg_netif_output n tun buf ip w).1.2
| step_add_peer tun key hash ip : wg_step tun (wg_add_peer tun key hash ip).2
| step_callback tun cb : wg_step tun (wg_set_recv_callback tun cb)
| step_slot_release tun slot : wg_step tun (wg_recv_slot_release tun slot)
| step_start tun a b : wg_step tun (wg_start tun a b).2
| step_stop tun : wg_step tun (wg_stop tun).

(** States reached from a tunnel of [wg_init]. *)
Definition reachable (tun : WgTunnel) : Prop :=
  exists res config w tun0 w', wg_init res config w = (Some tun0, w') /\ rtc wg_step tun0 tun.

End system.

(** ** Preservation *)

Section preservation.
Context `{NeonBuild} `{Scratch} `{Platform} `{X25519}.
Lemma peers_ok_upd tun i f :
  (forall p, peers tun !! i = Some p -> peer_ok p -> peer_ok (f p)) -> peers_ok tun -> peers_ok (upd_peer tun i f).
Proof. intros Hf Ht. unfold peers_ok, upd_peer. cbn. apply Forall_alter; [done|]. intros p Hp. by apply Hf. Qed.

Lemma peers_ok_same tun tun' : peers tun' = peers tun -> peers_ok tun -> peers_ok tun'.
Proof. unfold peers_ok. by intros ->. Qed.

Lemma counter_ok tun i : peers_ok tun -> peers_ok (upd_peer tun i (fun p => p <| p_session := take_counter (p_session p) |>)).
Proof. intros Ht. apply peers_ok_upd; [|done]. by intros p _ [H3 H4]. Qed.

Lemma last_sent_ok tun i now : peers_ok tun -> peers_ok (upd_peer tun i (fun p => p <| p_last_sent := now |>)).
Proof. intros Ht. apply peers_ok_upd; [|done]. by intros p _ [H3 H4]. Qed.

Lemma keepalive_to_peer_ok tun i w : peers_ok tun -> peers_ok (wg_send_keepalive_to_peer tun i w).1.
Proof.
  intros Ht. unfold wg_send_keepalive_to_peer. destruct (wg_socket_send_to _ _ _ _) as [s w1]. destruct (wg_time_now w1) as [n w2].
  by apply last_sent_ok, counter_ok.
Qed.

Lemma handshake_init_peers tun w : peers (wg_handshake_init tun w).1.1.1.2 = peers tun.
Proof.
  destruct (wg_handshake_init tun w) as [[[[e t] m] st] w'] eqn:E. by destruct (init_effect _ _ _ _ _ _ _ E) as (_&_&_&_&_&_&Hp&_).
Qed.

Lemma process_ok tun m w : peers_ok tun -> peers_ok (wg_handshake_init_process tun m w).1.2.
Proof.
  intros Ht. assert (peers_ok (respond tun m w).1.2) as Hr.
  { unfold respond. destruct (negb _); [done|]. destruct (negb _); [done|].
    destruct (consume_init _ _) as [e [[ds st]|]]; [|done]. set (tun1 := match wg_find_peer_by_public_key _ _ with Some _ => _ | None => _ end).
    assert (peers_ok tun1) as H1' by (unfold tun1; by destruct (wg_find_peer_by_public_key _ _)). clearbody tun1.
    destruct (wg_random_index w) as [si w1]. destruct (randomGet 32 w1) as [rnd w2]. destruct (mix_psk _ _) as [s k].
    destruct (wg_kdf2 _ _) as [k1 k2]. destruct (wg_time_now w2) as [now w3].
    destruct (wg_find_peer_by_public_key _ _) as [i|].
    - apply peers_ok_upd; [|done]. intros p _ _. split; by intros _.
    - cbn [fst snd]. match goal with |- context [if ?b then _ else _] => by destruct b end. }
  unfold wg_handshake_init_process. destruct (respond tun m w) as [[[e [[resp [i|]]|]] t] w1]; [| |done];
    [destruct (wg_socket_send_to _ _ _ _)|destruct (wg_socket_send _ _ _)]; done.
Qed.

Lemma handshake_response_peers tun m st w : peers (wg_handshake_response tun m st w).1.1.2 = peers tun.
Proof.
  unfold wg_handshake_response. destruct (negb _); [done|]. destruct (negb _); [done|].
  destruct (consume_response _ _ _) as [ok s]. destruct (negb ok); [done|]. destruct (wg_kdf2 _ _) as [k1 k2].
  destruct (wg_time_now w) as [n w']. cbn [fst snd]. match goal with |- context [if ?b then _ else _] => by destruct b end.
Qed.

Lemma process_response_ok tun i m w :
  peers_ok tun -> peers_ok (wg_handshake_init_process_response tun i m w).1.2.
Proof.
  intros Ht. unfold wg_handshake_init_process_response. destruct (negb _); [done|]. destruct (negb _); [done|].
  destruct (consume_response _ _ _) as [ok s]. destruct (negb ok).
  - apply peers_ok_upd; [|done]. intros p Hp Hok. unfold get_peer. by rewrite Hp.
  - destruct (wg_kdf2 _ _) as [k1 k2]. destruct (wg_time_now w) as [n w']. apply peers_ok_upd; [|done].
    intros p Hp [Hok1 Hok2]. split; by intros _.
Qed.

Lemma cookie_reply_peers tun m w : peers (wg_process_cookie_reply tun m w).1.2 = peers tun.
Proof.
  unfold wg_process_cookie_reply. destruct (negb _); [done|]. destruct (negb _); [done|].
  destruct (wg_xaead_decrypt _ _ _ _) as [r o]. destruct (negb _); [done|]. by destruct (wg_time_now w).
Qed.

Lemma socket_recv_peers tun n ms w : peers (wg_socket_recv tun n ms w).1.2 = peers tun.
Proof.
  unfold wg_socket_recv. destruct (relay_installed w); [by destruct (ring_recv _ _ _) as [[? ?] ?]|].
  destruct (poll_in _ _ _) as [[r b] w1]. destruct (r <? 0); [done|]. destruct (r =? 0); [done|]. destruct (negb b); [done|].
  destruct (recvfrom _ _ _) as [[[n' d] src] w2]. by destruct (n' <? 0).
Qed.

#[local] Opaque wg_handshake_init_process consume_response build_init wg_kdf2 wg_mac wg_compute_mac1 transport_packet
  wg_aead_decrypt wg_counter_validate wg_recv_pool_release wg_recv_pool_acquire slot_write.


Lemma upd_sess_ok tun r f :
  (forall s, valid (f s) = valid s) -> peers_ok tun -> peers_ok (upd_sess tun r f).
Proof.
  intros Hf Ht. destruct r; cbn [upd_sess]; [| |done|done];
    (apply peers_ok_upd; [|done]; intros p _ [H3 H4]; split; cbn; by rewrite ?Hf).
Qed.

(** A peer found by an index of one of its sessions has a valid session. *)
Lemma found_peer_valid tun idx i p :
  peers_ok tun -> wg_find_peer_by_local_index tun idx = Some i -> peers tun !! i = Some p -> valid (p_session p) = true.
Proof.
  intros Ht ([j q] & Hf & ->)%fmap_Some Hp. apply list_find_Some in Hf as (Hl & Hq & _). cbn in Hp.
  apply lookup_take_Some in Hl as [Hl _]. rewrite Hl in Hp. injection Hp as ->.
  assert (peer_ok p) as [_ Hv] by (by eapply Forall_lookup_1). apply Is_true_true in Hq.
  destruct (valid (p_session p)); [done|]. rewrite andb_false_r in Hq. cbn in Hq.
  destruct (valid (p_prev_session p)); [by apply Hv|]. by rewrite andb_false_r in Hq.
Qed.

Definition valid_at (tun : WgTunnel) (i : nat) : Prop := forall p, peers tun !! i = Some p -> valid (p_session p) = true.

Lemma valid_at_upd_sess tun r f i : (forall s, valid (f s) = valid s) -> valid_at tun i -> valid_at (upd_sess tun r f) i.
Proof.
  intros Hf Hv. destruct r as [j|j| |]; [| |done|done]; intros p; cbn; rewrite list_lookup_alter;
    destruct (decide (j = i)) as [->|]; [|exact (Hv p)| |exact (Hv p)];
    intros (q & Hq & ->)%fmap_Some; cbn; rewrite ?Hf; exact (Hv q Hq).
Qed.

Lemma connected_ok tun i f :
  (forall p, p_session (f p) = p_session p /\ p_prev_session (f p) = p_prev_session p) ->
  valid_at tun i -> peers_ok tun -> peers_ok (upd_peer tun i f).
Proof.
  intros Hf Hv Ht. apply peers_ok_upd; [|done]. intros p Hp [H3 H4]. destruct (Hf p) as [E1 E2]. split; rewrite ?E1, ?E2; [|done].
  intros _. by apply Hv.
Qed.

Lemma recv_transport_ok tun t n w : peers_ok tun -> peers_ok (recv_transport tun t n w).1.2.
Proof.
  intros Ht. unfold recv_transport. destruct (find_session tun (t_receiver_index t)) as [peer sess] eqn:Ef.
  assert (forall i, peer = Some i -> valid_at tun i) as Hpeer.
  { intros i -> p Hp. eapply found_peer_valid; [done|exact (f_equal fst Ef)|done]. }
  destruct sess as [r|]; [|done]. destruct (wg_time_now w) as [now w1]. destruct (REJECT_NS <=? _).
  { destruct r as [i|i| |]; [done| |done|done]. apply peers_ok_upd; [|done]. by intros p _ [H3 H4]. }
  cbv zeta. destruct (_ =? 0).
  - destruct (wg_time_now w1) as [now2 w2].
    assert (peers_ok (upd_sess tun r (fun s => s <| last_received := now2 |>))) as Hu by (by apply upd_sess_ok).
    destruct peer as [i|]; [|done]. destruct (wg_time_now w2) as [now3 w3].
    apply connected_ok; [done|by apply valid_at_upd_sess, Hpeer|done].
  - destruct (wg_aead_decrypt _ _ _ _) as [[|?|?] [plain|]]; try done.
    destruct (wg_counter_validate _ _) as [fresh rc].
    set (tun1 := upd_sess tun r _). assert (peers_ok tun1) as H1' by (by apply upd_sess_ok).
    assert (forall i, peer = Some i -> valid_at tun1 i) as V1 by (intros i Hi; by apply valid_at_upd_sess, Hpeer).
    clearbody tun1. destruct (negb fresh); [done|]. destruct (wg_time_now w1) as [now2 w2].
    set (tun2 := upd_sess tun1 r _). assert (peers_ok tun2) as H2' by (by apply upd_sess_ok).
    assert (forall i, peer = Some i -> valid_at tun2 i) as V2 by (intros i Hi; by apply valid_at_upd_sess, V1).
    clearbody tun2. cbn [fst snd]. unfold wg_update_endpoint_from_recv.
    assert (peers_ok (touch_peer tun2 peer (fun p => p <| connected := true |>))) as H3'.
    { destruct peer as [i|]; [|done]. by apply connected_ok; [|apply V2|]. }
    by destruct (recv_src_valid _).
Qed.

Lemma first_peer_sat f tun i p : first_peer f tun = Some i -> peers tun !! i = Some p -> f p = true.
Proof.
  intros ([j q] & Hf & ->)%fmap_Some Hp. apply list_find_Some in Hf as (Hl & Hq & _). cbn in Hp.
  apply lookup_take_Some in Hl as [Hl _]. rewrite Hl in Hp. injection Hp as ->. by apply Is_true_true.
Qed.

Lemma recv_control_ok tun packet n w : peers_ok tun -> peers_ok (recv_control tun packet n w).1.
Proof.
  intros Ht. unfold recv_control. destruct (_ =? WG_MSG_HANDSHAKE_RESPONSE).
  - destruct (rekey_in_progress _); [by destruct (n <=? sizeof_pending_response)|].
    destruct (awaiting_peer _ _) as [i|]; [|done].
    pose proof (process_response_ok tun i (response_of_bytes packet) w Ht) as Hp.
    by destruct (wg_handshake_init_process_response _ _ _ _) as [[e t] w1].
  - destruct (_ =? WG_MSG_COOKIE_REPLY).
    + destruct (_ <=? n); [|done]. pose proof (cookie_reply_peers tun (cookie_of_bytes packet) w) as Hp.
      destruct (wg_process_cookie_reply _ _ _) as [[e t] w1]. by eapply peers_ok_same.
    + destruct (_ =? WG_MSG_HANDSHAKE_INIT); [|done]. destruct (_ <=? n); [|done].
      pose proof (process_ok tun (init_of_bytes packet) w Ht) as Hp.
      destruct (wg_handshake_init_process _ _ _) as [[e t] w1]. destruct (e =? WG_OK); [|done].
      destruct (first_peer _ t) as [i|]; [by apply keepalive_to_peer_ok|done].
Qed.

Lemma store_packet_ok tun slot fb d o : peers_ok tun -> peers_ok (store_packet tun slot fb d o).1.
Proof. by destruct slot. Qed.

Lemma recv_thread_ok tun fb w : peers_ok tun -> peers_ok (recv_thread_step tun fb w).1.1.
Proof.
  intros Ht. unfold recv_thread_step. destruct (wg_recv_pool_acquire _) as [slot pool].
  match goal with |- context [wg_socket_recv ?t ?n ?ms w] => pose proof (socket_recv_peers t n ms w) as Hp;
    destruct (wg_socket_recv t n ms w) as [[[r d] t1] w1] end. cbn [fst snd] in Hp.
  assert (peers_ok t1) as H1' by (by eapply peers_ok_same). destruct (r <? 0).
  { destruct (r =? WG_ERR_TIMEOUT); [by destruct (wg_time_now w1)|done]. }
  pose proof (store_packet_ok t1 slot fb d 0 H1') as H2'. destruct (store_packet t1 slot fb d 0) as [t2 fb2].
  destruct (r <? _); [done|]. cbn [fst] in H2'. destruct (negb _).
  - pose proof (recv_control_ok t2 (slot_buf (recv_pool t2) slot fb2) r w1 H2') as H3'.
    by destruct (recv_control _ _ _ _) as [t3 w3].
  - pose proof (recv_transport_ok t2 (transport_of_bytes (slot_buf (recv_pool t2) slot fb2)) r w1 H2') as H3'.
    destruct (recv_transport _ _ _ _) as [[[plain|] t3] w3]; [|done]. cbn [fst snd] in H3'.
    pose proof (store_packet_ok t3 slot fb2 plain 16 H3') as H4'. destruct (store_packet t3 slot fb2 plain 16) as [t4 fb3].
    destruct slot as [i|]; [|done]. destruct (recv_cb t4); [|done]. destruct (recv_callback i plain w3) as [[] w4]; done.
Qed.

Lemma keepalive_peer_ok now tun i w : peers_ok tun -> peers_ok (keepalive_peer now tun i w).1.
Proof.
  intros Ht. unfold keepalive_peer. destruct (negb _); [done|]. destruct (_ && _).
  { apply peers_ok_upd; [|done]. by intros p _ _. }
  destruct (negb _); [done|]. destruct (_ && _); [by apply keepalive_to_peer_ok|].
  destruct (_ && _); [by apply keepalive_to_peer_ok|done].
Qed.

Lemma keepalive_thread_ok tun w : peers_ok tun -> peers_ok (keepalive_thread_step tun w).1.
Proof.
  intros Ht. unfold keepalive_thread_step. destruct (wg_time_now w) as [now w1].
  assert (forall l t u, peers_ok t -> peers_ok (fold_left (fun '(tun, w) i => keepalive_peer now tun i w) l (t, u)).1) as Hf.
  { induction l as [|i l IH]; intros t u Htu; [done|]. cbn [fold_left]. pose proof (keepalive_peer_ok now t i u Htu) as Hk.
    destruct (keepalive_peer now t i u) as [t' u']. by apply IH. }
  specialize (Hf (seq 0 (Z.to_nat (peer_count tun))) tun w1 Ht). destruct (fold_left _ _ _) as [t u]. by destruct (_ && _).
Qed.

Lemma others_ok tun w : peers_ok tun -> peers_ok (other_threads tun w).1.
Proof.
  intros Ht. unfold other_threads. destruct (scheduled w) as [its w1]. destruct (running tun); [|done].
  revert tun w1 Ht. induction its as [|it its IH]; intros tun w1 Ht; [done|]. cbn [fold_left].
  assert (peers_ok (run_iter it tun w1).1) as Hi.
  { destruct it as [fb|]; cbn [run_iter]; [|by apply keepalive_thread_ok].
    pose proof (recv_thread_ok tun fb w1 Ht) as Hr. by destruct (recv_thread_step tun fb w1) as [[t f] u]. }
  destruct (run_iter it tun w1) as [t u]. by apply IH.
Qed.

Lemma connect_wait_ok n tun w : peers_ok tun -> peers_ok (connect_wait n tun w).1.2.
Proof.
  revert tun w. induction n as [|n IH]; intros tun w Ht; cbn [connect_wait]; [done|].
  pose proof (socket_recv_peers tun 256 10 w) as Hp. destruct (wg_socket_recv tun 256 10 w) as [[[r d] t] w1].
  assert (peers_ok t) as Ht1 by (by eapply peers_ok_same). pose proof (others_ok t w1 Ht1) as Ht2.
  destruct (other_threads t w1) as [t2 w2]. destruct (0 <=? r); [done|]. destruct (negb _); [done|].
  destruct (pending_cookie t2); [done|]. by apply IH.
Qed.

Lemma rekey_wait_ok n tun w : peers_ok tun -> peers_ok (rekey_wait n tun w).1.
Proof.
  revert tun w. induction n as [|n IH]; intros tun w Ht; cbn [rekey_wait]; [done|].
  destruct (_ || _); [done|]. pose proof (others_ok tun (wg_sleep_ms 10 w) Ht) as Ht2.
  destruct (other_threads tun (wg_sleep_ms 10 w)) as [t2 w2]. by apply IH.
Qed.

Lemma connect_attempt_ok tun w : peers_ok tun -> peers_ok (connect_attempt tun w).1.2.
Proof.
  intros Ht. unfold connect_attempt. pose proof (handshake_init_peers tun w) as Hp.
  destruct (wg_handshake_init tun w) as [[[[e t1] m] st] w1]. cbn [fst snd] in Hp.
  assert (peers_ok t1) as H1' by (by eapply peers_ok_same). destruct (negb _); [done|].
  destruct (wg_socket_send _ _ _) as [sent w2]. destruct (sent <? 0); [done|]. destruct (wg_jitter_ms w2) as [j w3].
  match goal with |- context [connect_wait ?n ?t ?u] => pose proof (connect_wait_ok n t u H1') as H2';
    destruct (connect_wait n t u) as [[[r d] t2] w4] end. cbn [fst snd] in H2'.
  destruct (pending_cookie t2); [done|]. destruct (r <? 0); [done|]. destruct (_ && _).
  - pose proof (process_ok t2 (init_of_bytes d) w4 H2') as H3'. destruct (wg_handshake_init_process _ _ _) as [[e2 t3] w5].
    by destruct (e2 =? WG_OK).
  - destruct (r <? sizeof_WgHandshakeResponse); [done|]. pose proof (handshake_response_peers t2 (response_of_bytes d) st w4) as H3'.
    destruct (wg_handshake_response _ _ _ _) as [[[e2 t3] st3] w5]. by eapply peers_ok_same.
Qed.

Lemma rekey_attempt_ok tun w : peers_ok tun -> peers_ok (rekey_attempt tun w).1.2.
Proof.
  intros Ht. unfold rekey_attempt.
  match goal with |- context [wg_handshake_init ?t w] => pose proof (handshake_init_peers t w) as Hp;
    destruct (wg_handshake_init t w) as [[[[e t1] m] st] w1] end. cbn [fst snd] in Hp.
  assert (peers_ok t1) as H1' by (by eapply peers_ok_same). destruct (negb _); [done|].
  destruct (wg_socket_send _ _ _) as [sent w2]. destruct (sent <? 0); [done|]. destruct (wg_jitter_ms w2) as [j w3].
  match goal with |- context [rekey_wait ?n ?t ?u] => pose proof (rekey_wait_ok n t u H1') as H2';
    destruct (rekey_wait n t u) as [t2 w4] end. cbn [fst snd] in H2'.
  destruct (pending_cookie t2); [done|]. destruct (_ =? 0); [done|]. destruct (_ <? sizeof_WgHandshakeResponse); [done|].
  pose proof (handshake_response_peers t2 (response_of_bytes (pending_response t2)) st w4) as H3'.
  destruct (wg_handshake_response _ _ _ _) as [[[e2 t3] st3] w5]. by eapply peers_ok_same.
Qed.

Lemma tun_keepalive_peers tun w : peers (wg_send_keepalive tun w).1 = peers tun.
Proof. unfold wg_send_keepalive. destruct (wg_socket_send _ _ _) as [s w1]. by destruct (wg_time_now w1). Qed.

Lemma socket_open_peers tun w : peers (wg_socket_open tun w).1.2 = peers tun.
Proof. unfold wg_socket_open. destruct (relay_installed w); [done|]. destruct (socket_open w) as [fd u]. by destruct (fd <? 0). Qed.

Lemma connect_ok tun w : peers_ok tun -> peers_ok (wg_connect tun w).1.2.
Proof.
  intros Ht. assert (forall n e t u, peers_ok t -> peers_ok (connect_loop n e t u).1.2) as Hl.
  { induction n as [|n IH]; intros e t u Htu; cbn [connect_loop]; [done|]. pose proof (connect_attempt_ok t u Htu) as Ha.
    destruct (connect_attempt t u) as [[[[] e1] t1] u1]; [done|]. by apply IH. }
  unfold wg_connect. destruct (if socket_fd tun <? 0 then _ else _) as [[e t] u] eqn:E.
  assert (peers_ok t) as Htu.
  { destruct (socket_fd tun <? 0); [|by injection E as <- <- <-]. pose proof (socket_open_peers tun w) as Hp.
    rewrite E in Hp. by eapply peers_ok_same. }
  destruct (negb _); [done|]. pose proof (Hl WG_MAX_TIMER_HANDSHAKES WG_ERR_TIMEOUT t u Htu) as H3'.
  destruct (connect_loop _ _ _ _) as [[e2 t2] u2]. destruct (negb _); [done|].
  pose proof (tun_keepalive_peers t2 u2) as Hk. destruct (wg_send_keepalive t2 u2) as [t3 u3]. by eapply peers_ok_same.
Qed.

Lemma rekey_ok tun w : peers_ok tun -> peers_ok (wg_rekey tun w).1.2.
Proof.
  intros Ht. assert (forall n e t u, peers_ok t -> peers_ok (rekey_loop n e t u).1.2) as Hl.
  { induction n as [|n IH]; intros e t u Htu; cbn [rekey_loop]; [done|]. pose proof (rekey_attempt_ok t u Htu) as Ha.
    destruct (rekey_attempt t u) as [[[[] e1] t1] u1]; [done|]. by apply IH. }
  unfold wg_rekey. match goal with |- context [rekey_loop ?n ?e ?t ?u] => pose proof (Hl n e t u Ht) as H3';
    destruct (rekey_loop n e t u) as [[e2 t2] u2] end. destruct (negb _); [done|].
  pose proof (tun_keepalive_peers t2 u2) as Hk. destruct (wg_send_keepalive t2 u2) as [t3 u3]. by eapply peers_ok_same.
Qed.

Lemma send_to_peer_ok tun i d w : peers_ok tun -> peers_ok (wg_send_to_peer tun i d w).1.2.
Proof.
  intros Ht. unfold wg_send_to_peer. destruct (_ || _); [done|]. destruct (_ <? _); [done|].
  destruct (wg_socket_send_to _ _ _ _) as [s w1]. destruct (0 <=? s); [|by apply counter_ok].
  destruct (wg_time_now w1) as [n w2]. by apply last_sent_ok, counter_ok.
Qed.

Lemma wg_send_peers tun d w : peers (wg_send tun d w).1.2 = peers tun.
Proof.
  unfold wg_send. destruct (negb _); [done|]. destruct (wg_session_expired tun w) as [[] w1]; [done|].
  destruct (_ <? _); [done|]. destruct (wg_socket_send _ _ _) as [s w2]. destruct (0 <=? s); [by destruct (wg_time_now w2)|done].
Qed.

Lemma wg_recv_peers tun len ms w : peers (wg_recv tun len ms w).1.2 = peers tun.
Proof.
  unfold wg_recv. destruct (negb _); [done|].
  match goal with |- context [wg_socket_recv ?t ?n ?ms w] => pose proof (socket_recv_peers t n ms w) as Hp;
    destruct (wg_socket_recv t n ms w) as [[[r d] t1] w1] end. cbn [fst snd] in Hp. rewrite <- Hp.
  destruct (r <? 0); [done|]. destruct (r <? _); [done|]. destruct (negb _); [done|]. destruct (negb _); [done|].
  destruct (len <? _); [done|]. destruct (_ =? 0); [by destruct (wg_time_now w1)|].
  destruct (wg_aead_decrypt _ _ _ _) as [e o]. destruct (negb _); [done|]. destruct (wg_counter_validate _ _) as [fr rc].
  destruct (negb _); [done|]. by destruct (wg_time_now w1).
Qed.

Lemma handshake_init_peer_ok tun i w : peers_ok tun -> peers_ok (wg_handshake_init_peer tun i w).1.1.1.2.
Proof.
  intros Ht. unfold wg_handshake_init_peer. destruct (build_init _ _ _) as [[m st] w1].
  set (t1 := upd_peer _ _ _). assert (peers_ok t1) as H1' by (apply peers_ok_upd; [|done]; by intros p _ [H3 H4]).
  clearbody t1. destruct (wg_time_now w1) as [n w2]. by destruct (_ && _).
Qed.

Lemma netif_output_ok n tun buf ip w : peers_ok tun -> peers_ok (wg_netif_output n tun buf ip w).1.2.
Proof.
  intros Ht. unfold wg_netif_output. destruct (negb _); [done|]. destruct (_ =? _)%nat; [done|].
  destruct (wg_find_peer_by_ip tun ip) as [i|]; [|done]. destruct (_ || _).
  - unfold auto_connect. pose proof (handshake_init_peer_ok tun i w Ht) as H1'.
    destruct (wg_handshake_init_peer tun i w) as [[[[e t1] m] st] w1]. cbn [fst snd] in H1'. destruct (e =? WG_OK); [|done].
    destruct (wg_socket_send_to _ _ _ _) as [s w2]. apply peers_ok_upd; [|done]. by intros p _ [H3 H4].
  - pose proof (send_to_peer_ok tun i buf w Ht) as H1'. destruct (wg_send_to_peer tun i buf w) as [[r t1] w1]. by destruct (r <? 0).
Qed.

Lemma add_peer_ok tun k h ip : peers_ok tun -> peers_ok (wg_add_peer tun k h ip).2.
Proof. intros Ht. unfold wg_add_peer. destruct (_ <=? _); [done|]. by apply Forall_insert. Qed.
End preservation.

(** ** Reachable states *)

Create HintDb peers_ok.

Section reachable.
Context `{NeonBuild} `{Scratch} `{Platform} `{X25519}.

#[local] Hint Resolve recv_thread_ok keepalive_thread_ok connect_ok rekey_ok send_to_peer_ok netif_output_ok add_peer_ok : peers_ok.

Lemma step_peers_ok tun tun' : wg_step tun tun' -> peers_ok tun -> peers_ok tun'.
Proof.
  intros Hs Ht. destruct Hs; auto with peers_ok; try exact Ht.
  - by eapply peers_ok_same; [apply wg_send_peers|].
  - by eapply peers_ok_same; [apply wg_recv_peers|].
  - unfold wg_start. repeat match goal with |- context [if ?b then _ else _] => destruct b end; done.
  - unfold wg_stop. by destruct (negb _).
Qed.

Lemma init_peers res config w tun w' : wg_init res config w = (Some tun, w') -> peers tun = peers zero_tunnel.
Proof.
  unfold wg_init. destruct (negb _); [done|].
  set (t0 := if has_preshared_key config then _ else _).
  assert (peers t0 = peers zero_tunnel) as H0' by (unfold t0; by destruct (has_preshared_key config)). clearbody t0.
  assert (peers (wg_resolve_endpoint t0 (endpoint_host config) (endpoint_port config) w).1.2 = peers t0) as H1'.
  { unfold wg_resolve_endpoint. destruct (bool_decide _); [done|]. destruct (getaddrinfo _ _ _) as [[e r] w1].
    destruct (negb _); [done|]. destruct r as [[f a]|]; [by destruct (f =? AF_INET)|done]. }
  destruct (wg_resolve_endpoint _ _ _ _) as [[e t1] w1]. cbn [fst snd] in H1'. destruct (negb _); [done|].
  destruct (negb _); [done|]. destruct (negb _); [done|]. destruct (wg_recv_pool_init _ _ _) as [e2 pool].
  destruct (negb _); [done|]. intros [= <- <-]. cbn. by rewrite H1'.
Qed.

Lemma reachable_peers_ok tun : reachable tun -> peers_ok tun.
Proof.
  intros (res & config & w & tun0 & w' & Hi & Hr).
  assert (peers_ok tun0) as H0'.
  { eapply peers_ok_same; [by eapply init_peers|]. by apply Forall_replicate. }
  clear Hi. induction Hr as [t|t t' t'' Hs _ IH]; [done|]. by apply IH, (step_peers_ok t).
Qed.

Lemma no_awaiting_peer tun idx : peers_ok tun -> awaiting_peer tun idx = None.
Proof.
  intros Ht. unfold awaiting_peer. destruct (first_peer _ tun) as [i|] eqn:E; [|done].
  destruct (lookup_lt_is_Some_2 _ _ (first_peer_lt _ _ _ E)) as [p Hp].
  pose proof (first_peer_sat _ _ _ _ E Hp) as Hs. cbv beta in Hs.
  assert (peer_ok p) as [Hc _] by (by eapply Forall_lookup_1).
  destruct (connected p); [|done]. by rewrite Hc in Hs.
Qed.

(** C8. Whatever the order of the iterations of the threads and of the calls of the
    application, and whichever iterations run while [wg_connect] and [wg_rekey] wait, as
    long as otherwise no two of them overlap: a peer marked connected has a valid
    session, and a peer with a valid previous session has a valid current one.  The
    condition is needed, see [handshake_expiry_race]. *)
Theorem connected_peers_have_sessions tun i p :
  reachable tun -> peers tun !! i = Some p ->
  (connected p = true -> valid (p_session p) = true) /\
  (valid (p_prev_session p) = true -> valid (p_session p) = true).
Proof. intros Hr Hp. apply reachable_peers_ok in Hr. exact (Forall_lookup_1 _ _ _ _ Hr Hp). Qed.

(** The handshake that the network interface starts with a peer is not completed:
    the receive thread looks for a peer that is connected but has no valid session, and
    without an overlap of handlers no reachable state has one, so outside a rekey of the
    tunnel every handshake response is dropped without effect. *)
Theorem peer_response_dropped tun packet received w :
  reachable tun -> rd packet 0 = WG_MSG_HANDSHAKE_RESPONSE -> rekey_in_progress (session tun) = false ->
  recv_control tun packet received w = (tun, w).
Proof.
  intros Hr Ht Hk. unfold recv_control. rewrite Ht, Hk. change (WG_MSG_HANDSHAKE_RESPONSE =? WG_MSG_HANDSHAKE_RESPONSE) with true.
  cbv iota zeta. by rewrite no_awaiting_peer by (by apply reachable_peers_ok).
Qed.
End reachable.

(** ** Witnesses *)

#[local] Instance witness_build : NeonBuild := true.
#[local] Existing Instances demo_scratch demo_platform demo_x25519.

Definition demo_config : WgConfig := mkConfig (replicate 32 3) 1 (replicate 32 9) LOCALHOST 51820 25 zero_key false.
Definition demo_results : init_results := mkResults true true true true true.

(** A tunnel with one peer to which the interface has sent an initiation. *)
Definition demo_started : WgTunnel := default zero_tunnel (wg_init (H1 := demo_platform) demo_results demo_config demo_world0).1.
Definition demo_with_peer : WgTunnel := (wg_add_peer demo_started (replicate 32 9) (replicate 36 7) 99).2.
Definition demo_waiting : WgTunnel :=
  (wg_netif_output (H1 := demo_platform) (mkNetif [] 0 true true) demo_with_peer [1; 2; 3] 99 demo_world0).1.2.

Lemma demo_reachable : reachable (H1 := demo_platform) demo_waiting.
Proof.
  exists demo_results, demo_config, demo_world0, demo_started, demo_world0. split; [reflexivity|].
  apply (rtc_l _ _ demo_with_peer); [exact (step_add_peer _ _ _ _)|].
  apply rtc_once. exact (step_netif_output demo_with_peer (mkNetif [] 0 true true) [1; 2; 3] 99 demo_world0).
Qed.

(** A tunnel whose receive thread got the initiation of its peer. *)
Definition demo_initiation : list Z := init_bytes (demo_init demo_world0).
Definition net_A : Platform := demo_net (fun _ => (sizeof_WgHandshakeInit, demo_initiation)).
Definition demo_listen_config : WgConfig := mkConfig (replicate 32 5) 1 (replicate 32 9) LOCALHOST 51820 25 zero_key false.
Definition demo_listening : WgTunnel :=
  default zero_tunnel (wg_init (H1 := net_A) demo_results demo_listen_config demo_world0).1.
Definition demo_known : WgTunnel := (wg_add_peer demo_listening (static_public demo_A) (replicate 36 7) 99).2.
Definition demo_passive : WgTunnel := (recv_thread_step (H1 := net_A) demo_known [] demo_world0).1.1.

Lemma demo_passive_reachable : reachable (H1 := net_A) demo_passive.
Proof.
  exists demo_results, demo_listen_config, demo_world0, demo_listening, demo_world0. split; [reflexivity|].
  apply (rtc_l _ _ demo_known); [exact (step_add_peer _ _ _ _)|].
  apply rtc_once. exact (step_recv_thread (H1 := net_A) demo_known [] demo_world0).
Qed.

Lemma demo_passive_connected : connected (get_peer demo_passive 0) = true.
Proof. vm_compute. reflexivity. Qed.

Lemma connected_lookup (tun : WgTunnel) (i : nat) :
  connected (get_peer tun i) = true -> exists p, peers tun !! i = Some p /\ connected p = true.
Proof. unfold get_peer. destruct (peers tun !! i) as [p|]; [by exists p|done]. Qed.

Lemma connected_peers_have_sessions_witness :
  exists p, peers demo_passive !! 0%nat = Some p /\ connected p = true /\ valid (p_session p) = true.
Proof.
  destruct (connected_lookup demo_passive 0 demo_passive_connected) as (p & E & Hc). exists p.
  exact (conj E (conj Hc (proj1 (connected_peers_have_sessions (H1 := net_A) demo_passive 0%nat p demo_passive_reachable E) Hc))).
Defined.

Lemma peer_response_dropped_witness :
  let packet := 2 :: replicate 91 7 in
  hs_pending (get_peer demo_waiting 0) = true /\
  recv_control (H1 := demo_platform) demo_waiting packet 92 demo_world0 = (demo_waiting, demo_world0).
Proof.
  intros packet. split; [reflexivity|].
  apply (peer_response_dropped (H1 := demo_platform) demo_waiting packet 92 demo_world0).
  - exact demo_reachable.
  - reflexivity.
  - reflexivity.
Defined.
